(* ===== verification/_CoqProject ===== *)
-Q . S2P
Prelude.v
PyStr.v
Decimals.v
Regex.v
Calendar.v
Models.v
Samples.v
Json.v
JsonText.v
Fields.v
Validation.v
Wire.v
Codec.v
PayloadParser.v
Parser.v
Utf8.v
Protocol.v
Sha256.v
StorageWatches.v
StorageState.v
StateFile.v
StateStore.v
CliRequests.v
CacheMetadata.v
Base64.v
Stars.v
RunnerTypes.v
Redaction.v
NotificationBatch.v
PyRows.v
Arch.v
Aur.v
ScanOutcomes.v
ScanResolution.v
ScanAssembly.v
ScanGeneration.v
ScanInvariant.v
Generation.v
StorageIO.v
Storage.v
StorageSpec.v
DiskStore.v
CacheSpec.v
ConditionalSecurity.v
NotificationPolicy.v
Notifications.v
ScanNormalize.v
SecurityFeeds.v
Mise.v
Flatpak.v
Omarchy.v
SecurityKev.v
SecurityCorrelation.v
ScanTimes.v
Scan.v
Urls.v
Registry.v
Process.v
Supervisor.v
Orphans.v
Fetch.v
Security.v
Collector.v
CliOperations.v
Cli.v
Tooling.v
Backlog.v
Publisher.v
CiPolicy.v
Verifier.v
Pattern.v
SecurityQml.v
SecurityCheck.v
ReleaseReadiness.v
