(* ===== verification/Prelude.v ===== *)
(** * The Opatchy helper: a verification development

    Opatchy shows the pending updates of an Arch machine. Its helper
    ([src/helper/opatchy_helper/], Python) is run by the user interface once for each
    request: it reads its arguments, does one of four things (scan all sources, answer with
    the last snapshot, answer with a page of an inventory, click the star of an item) and
    writes one line of JSON. What must last is in two directories: a state (the watches, a
    ledger of notifications, when each source may be asked again) and caches (the generation
    a scan published, feeds). Several helpers may run at once, and any may be killed.

    ** The parts of the program, and the files that model them

    Each file is named after what it models; a definition has the name of its Python
    function or method; records and inductive types have the source's fields and
    constructors (with a prefix where Rocq needs one).

    - Python itself. [Prelude]: results and exceptions ([outcome]), lists. [PyStr],
      [Decimals], [Regex], [Utf8], [Calendar] ([datetime], ISO 8601), [Json] and [JsonText]
      ([json.loads] and [json.dumps] with the hooks of [json_value.py]), [Sha256],
      [Base64]: the part of the language and its library the helper uses, written out, so
      that everything evaluates.
    - The protocol. [Models] is [models.py], [storage_types.py], [notification_types.py];
      [Fields], [PayloadParser] and [Parser] are [parser_fields.py], [payload_parser.py]
      and [parser.py]; [Validation] and [Wire] are the files of these names; [Codec] holds
      what ties them together; [Protocol] is [protocol.py].
    - The state. [StorageWatches] is [storage_watches.py]; [StorageState] and [StateFile]
      are [storage_state.py], as a document and as bytes; [Stars] is [stars.py], the star
      machine; [NotificationBatch] is [notification_batch.py], leases and deliveries.
    - The disk. [StorageIO] is [storage_io.py] over a model of the file system; [Storage]
      is [storage.py] with [storage_locked_state.py], [storage_cache.py],
      [storage_feeds.py] and [storage_semantic.py]; [Generation] is
      [storage_generation.py]; [CacheMetadata] is [cache_metadata.py]. [StateStore] is what
      the clients of [Storage.update_state] may count on (a class), [DiskStore] shows that
      the disk is an instance of it, [StorageSpec] and [CacheSpec] hold what each operation
      does to what is stored.
    - Commands and endpoints. [RunnerTypes], [Redaction] and [Registry] are
      [runner_types.py] and [runner_registry.py]: results, the redaction of diagnostics and
      the closed tables of what may be run and fetched. [Process] is [runner_process.py]
      with [run_command] of [runner.py], [Supervisor] is [command_supervisor.py], the
      process between, and [Orphans] the order of its calls when the runner may die; [Fetch] is [fetch_endpoint] of [runner.py], over [Urls], the part of
      [urllib.parse] it uses.
    - The adapters. [Arch] and [Aur] (with [PyRows] for their rows), [Mise], [Flatpak]
      (with [flatpak_parser.py]) and [Omarchy] are the adapters of these names;
      [SecurityFeeds], [SecurityKev], [SecurityCorrelation] and [Security] are
      [security_arch.py], [security_kev.py], [security_correlation.py] and [security.py].
    - The scan. [ScanOutcomes] and [ScanNormalize] turn results into outcomes
      ([scan_outcomes.py], [scan_command_outcomes.py], [scan_normalize.py]);
      [ScanResolution], [ScanAssembly] and [ScanGeneration] are the files of these names,
      [ScanInvariant] and [ScanTimes] what they preserve; [Scan] is [scan.py], over any
      collector that keeps the class [GoodCollector]; [Collector] is the collector of
      [scan_types.py], which runs all the adapters, as an instance of it.
    - Notifications. [ConditionalSecurity] is [conditional_security_policy.py],
      [NotificationPolicy] is [notification_policy.py], [Notifications] is
      [notifications.py].
    - The command line. [CliRequests], [CliOperations] and [Cli] are the files
      [cli_requests.py], [cli_operations.py] and [cli.py]. [Samples] has the concrete data
      theorems are applied to.
    - The scripts that check and publish the repository ([src/scripts/]), which are no part
      of the helper. [Tooling] is what they share; [Backlog] is [publication_model.py],
      [Publisher] is [publish_repository.py], [Verifier] is [publication_verifier.py] with
      its model, service, marketplace and runner; [CiPolicy] is [ci_policy.py];
      [SecurityQml] and [SecurityCheck] are [security_qml.py] and [security_check.py], over
      [Pattern], what [re] does with their patterns; [ReleaseReadiness] is
      [release_readiness.py], over the class [Machine] of what it uses of the machine.

    ** State and effects

    Pure functions that may raise are functions to [res] (a value or an exception of
    [Models.exn]). Operations on files are functions [M] from a world to a world and such a
    result ([StorageIO]): the world has the files by location (the state file, corrupt
    copies, cache entries, temporary files), the fate of every system call to come (fine,
    short, failing, or the moment the process is killed), the fate of every [stat] to come,
    and the readings of the clock. The theorems hold for every world, so for every failure at
    every point, with one exception. [Path.exists] takes a file whose [stat] fails for absent
    ([StorageIO.exists_]), and the code then treats what is stored as if it were not: the
    theorems that say that nothing stored is lost or passed over ask for a world whose
    [stat]s are answered ([StorageIO.answers]; every other call may still fail), and the
    lemmas [StorageSpec.unanswered_commit], [unanswered_update] and [unanswered_load] show
    what happens without. [wp] and [runs] are the postconditions of such an operation for
    both of its ends, [changes] (in [DiskStore]) says what it may do to the files whatever
    happens, for any world or for one that answers.

    An operation of [Storage] runs under [flock] on the state directory: it is one step,
    and helpers that run at once interleave these steps. [DiskStore.step] is that relation;
    [NotificationBatch] has one of its own, at the granularity of claims and deliveries,
    with the scans between them: a scan loads the state when it starts and its commit
    replaces the stored one, so that whatever was stored meanwhile is lost. The relation has
    a step for the load and one for the commit, and records what a commit drops
    ([NotificationBatch.losses]); [Scan.load_is_step], [Scan.commit_is_step] and
    [CliOperations.star_keeps_owners] tie these steps to the operations. Clocks of the
    processes of one machine are taken not to go back between steps.

    ** What is proved

    - Protocol: what is written is read back, responses and bytes; whatever is read is
      valid; validation decides a predicate; a malformed line, document or text gives the
      error the protocol has for it, and nothing but an integer of more than 4300 digits
      gives another; of the documents the interpreter reads, exactly those with a duplicate
      key, a constant, a lone surrogate or too deep a nesting are refused.
    - State: the file is read back with its ledger pruned; a file that is no state is
      recognised as such; the ledger keeps what it must and forgets the rest.
    - Disk: [update_state] refines one atomic update, [commit_generation] publishes only
      what is newest, no sequence of operations of any number of processes that fail or are
      killed anywhere loses a published generation; a corrupt state file is kept aside; the
      caches give back what was saved, feeds only what was confirmed.
    - Commands: only what is permitted is started, with its language and path fixed;
      collecting ends, keeps the limits, and never reports output that was cut as a result;
      the supervisor is transparent, and leaves no command behind wherever between its calls
      the runner dies; no credential the pattern knows is left in a diagnostic.
    - Endpoints: nothing outside the policy of an endpoint is asked for, redirects
      included; a body is read exactly and within its limit; the transport cache changes
      only to a body that one answer delivered whole, with the metadata that vouches for it,
      or to nothing, wherever a fetch stops; and a request is conditional on what is cached.
    - Adapters: each reports exactly what its command printed, or says what was wrong with
      it; every finding, and the absence of any, rests on a feed that was downloaded, audited
      or stored; findings are those a declarative matching of advisories and versions gives.
    - Scans: what is built can be published and is a good basis for the next scan; good
      evidence is kept when a source fails; sources back off. A whole scan
      ([Scan.scan_publishes]) publishes what it built if it is newest, and only then shows
      notifications: one that was overtaken changes nothing more and shows none.
    - Watches: the star machine's cycle and its effect on every other watch, in memory and
      on disk.
    - Notifications: the candidates are exactly those worth showing, each with a fingerprint
      of its own; no two deliveries of one kind are under way at a time, unless a scan that
      had loaded the state before a lease was taken committed over it, which does happen
      ([NotificationBatch.commit_breaks_exclusion]); what is shown is accepted by
      [notify-send]; dispatching changes nothing but the ledger.
    - Publication: a backlog that is read is sound; seeding is safe to interrupt and comes
      to the backlog; a publication is verified, and the workflows pass, exactly when a
      declarative predicate holds.
    - Security policy: the sources pass exactly when each file is compliant, where the
      rules are stated on the texts that occur in it and the nodes of its tree; the scanner
      of arrays in QML finds the arrays of a grammar, no more and no less, and a text that
      passes has no plain array that runs a package manager but the approved ones.
    - Release: the script succeeds exactly when every check does, a refusal is never a
      success, and the manifest it writes is read back as the archive's name and digest, the
      commit that was archived, the tag and the version.
    - Command line: arguments become commands within their bounds or an answer that says
      what is wrong; pages of an inventory are valid and, one after the other, complete and
      sorted, which is stated of the stored items, watches and labels; the snapshot shows
      the watches of the moment.

    ** Bounds and fuel

    Recursion is structural, except in the JSON scanner and in two loops. The loop that
    reads a body has one round for each event of its stream, and one more
    ([Fetch.body_read_exact]); the loops that collect a command have any bound on their
    rounds, and [Process.collection_ends] gives one that is enough whenever the clock moves.
    The scanner's loops over the elements of an
    array or object have the length of the text as fuel, which is enough
    ([JsonText.scanner_fuel_enough]); nesting is bounded by [stack], the frames Python's
    stack has left, and a text that is nested deeper raises [RecursionError], as it does in
    Python. The round trips ask for more than [MAX_JSON_DEPTH] = 100 frames, the depth the
    helper accepts. [str] and [int] refuse more than 4300 digits, as Python does. SHA-256
    works on words of 32 bits.

    ** What stands for code that is not here

    - [IsoDialect] and [IsoOffsets]: what [datetime.fromisoformat] reads beyond the
      calendar forms that are written out; no law is assumed.
    - [UnicodeTables], [UrlTables]: which characters are printable or fold to others, and
      the checks of hosts that depend on tables of Unicode; the laws they have are for
      ASCII.
    - [CommandRunner]: what running a command gives, for the adapters, a function of the
      command and its arguments. In one collection every command is run once, so that this
      is any sequence of answers, but for [vercmp]: asked about the same two versions twice
      it is taken to answer the same. The theorems that need it say what the program does
      (for [vercmp], that it refuses versions with a NUL byte). [Process] is over the operating system instead: what starting a process comes
      to, the clock and what can be read in each round, what a signal to a group comes to.
    - In [Fetch]: opening a connection, which follows no redirect, and [urljoin].
    - [Casefold]: [str.casefold], with its law for ASCII.
    - In the scripts: what [git] and [gh] do, with the class [Publisher.GitHub] of what is
      relied on; the parser of YAML, whose nodes are an inductive type; [ast.parse], of
      whose nodes the model has the cases that [security_check.py] matches; for
      [unicode_escape] the names of the characters; for patterns the class of the
      characters of words; for a release the class [Machine], without laws: git, make, tar
      and files may answer anything.
    - Clocks, lease tokens and identifiers of [uuid4] are inputs. [prctl] is taken to work
      where a theorem says that the supervisor armed itself.

    ** Not modelled

    - A loss of power, in which data not yet flushed is lost: the model has the kill of a
      process; the calls to [fsync] are there as calls that may fail.
    - The [before_mutation] hook of [Storage], which only tests set.
    - The system calls below a parameter: subprocesses, TLS, [prctl] and signals, but for
      what [Orphans] says of the death of the runner.
    - The user interface (QML). *)

From stdpp Require Export base option list sorting gmap strings.
From Stdlib Require Export ZArith NArith Lia.

(** ** Python values: integers, lists, strings

    A Python [int] is a [Z], a [tuple] or [list] is a [list], a [str] is the list
    of its code points, [bytes] the list of its octets. *)

Abbreviation str := (list N).
Abbreviation bytes := (list N).

Fixpoint lit (s : string) : str :=
  match s with
  | EmptyString => []
  | String c s' => Ascii.N_of_ascii c :: lit s'
  end.

Arguments lit : simpl never.

(** A tuple of string literals. *)
Definition names (l : list string) : list str := lit <$> l.

(** Python's [len]. *)
Definition len {A} (l : list A) : Z := Z.of_nat (length l).

(** ** Fallible computations

    A Python function that may raise is a function into [outcome E]: [Ok v] when
    it returns [v], [Err e] when the exception [e] leaves it. *)

Inductive outcome (E A : Type) : Type :=
| Ok (a : A)
| Err (e : E).
Arguments Ok {E A} a.
Arguments Err {E A} e.

#[global] Instance outcome_ret {E} : MRet (outcome E) := fun A a => Ok a.
#[global] Instance outcome_bind {E} : MBind (outcome E) :=
  fun A B k m => match m with Ok a => k a | Err e => Err e end.
#[global] Instance outcome_fmap {E} : FMap (outcome E) :=
  fun A B f m => match m with Ok a => Ok (f a) | Err e => Err e end.

Section Outcome.
Context {E : Type}.

(** [if b: raise e]. *)
Definition raise_if (b : bool) (e : E) : outcome E unit :=
  if b then Err e else Ok tt.

(** [for x in l: f(x)], the first exception leaves the loop. *)
Fixpoint for_each {A} (f : A -> outcome E unit) (l : list A) : outcome E unit :=
  match l with
  | [] => Ok tt
  | x :: l' => _ ← f x; for_each f l'
  end.

Definition is_ok {A} (m : outcome E A) : bool :=
  match m with Ok _ => true | Err _ => false end.

Lemma bind_Ok {A B} (m : outcome E A) (k : A -> outcome E B) b :
  (m ≫= k) = Ok b <-> exists a, m = Ok a /\ k a = Ok b.
Proof. destruct m; cbn; naive_solver. Qed.

(** For values whose constructors [injection] should not open. *)
Lemma Ok_inj {A} (a b : A) : Ok a = Ok b :> outcome E A -> a = b.
Proof. by intros [= ->]. Qed.

Lemma fmap_Ok {A B} (m : outcome E A) (f : A -> B) b :
  (f <$> m) = Ok b <-> exists a, m = Ok a /\ b = f a.
Proof. destruct m; cbn; naive_solver. Qed.

Lemma raise_if_Ok b e u : raise_if b e = Ok u <-> b = false.
Proof. destruct b, u; cbn; naive_solver. Qed.

Lemma for_each_Ok {A} (f : A -> outcome E unit) l u :
  for_each f l = Ok u <-> Forall (fun x => f x = Ok tt) l.
Proof.
  destruct u. induction l as [|x l IH]; simpl.
  - split; constructor.
  - rewrite bind_Ok, Forall_cons, <-IH. split.
    + by intros ([] & ? & ?).
    + intros [? ?]. eauto.
Qed.

Lemma mapM_Ok {A B} (f : A -> outcome E B) l k :
  mapM f l = Ok k <-> Forall2 (fun x y => f x = Ok y) l k.
Proof.
  revert k. induction l as [|x l IH]; intros k; simpl.
  - split; [intros [= <-]; constructor | by inversion 1].
  - rewrite bind_Ok. setoid_rewrite bind_Ok. split.
    + intros (y & Hy & ys & Hys%IH & [= <-]). by constructor.
    + inversion 1 as [|? y ? ys]; subst. exists y; split; [done|].
      exists ys; split; [by apply IH | done].
Qed.

Lemma mapM_ext {A B} (f g : A -> outcome E B) l :
  (forall x, x ∈ l -> f x = g x) -> mapM f l = mapM g l.
Proof.
  induction l as [|x l IH]; intros H; [done|].
  simpl. rewrite (H x) by set_solver. rewrite IH; [done|]. intros; apply H. set_solver.
Qed.

Lemma mapM_incl {A B} (f : A -> outcome E B) l k l' :
  mapM f l = Ok k -> (forall x, x ∈ l' -> x ∈ l) -> exists k', mapM f l' = Ok k' /\ forall y, y ∈ k' -> y ∈ k.
Proof.
  intros H%mapM_Ok. induction l' as [|x l' IH]; intros Hl; [exists []; set_solver|].
  destruct IH as (k' & Hk' & Hin); [set_solver|].
  assert (exists y, f x = Ok y /\ y ∈ k) as (y & Hy & Hyk).
  { specialize (Hl x ltac:(set_solver)). apply list_elem_of_lookup in Hl as [i Hi].
    destruct (Forall2_lookup_l _ _ _ _ _ H Hi) as (y & Hy & ?). eauto using list_elem_of_lookup_2. }
  exists (y :: k'). simpl. rewrite Hy. simpl. rewrite Hk'. split; [done|]. set_solver.
Qed.

Lemma mapM_map {A B C} (f : B -> outcome E C) (g : A -> B) l :
  mapM f (g <$> l) = mapM (fun x => f (g x)) l.
Proof. induction l as [|x l IH]; [done|]. cbn. by rewrite <-IH. Qed.

Lemma mapM_ret {A B} (f : A -> outcome E B) (g : A -> B) l :
  (forall x, x ∈ l -> f x = Ok (g x)) -> mapM f l = Ok (g <$> l).
Proof.
  induction l as [|x l IH]; intros H; [done|].
  simpl. rewrite (H x) by set_solver. cbn. rewrite IH; [done|]. intros; apply H; set_solver.
Qed.
End Outcome.

(** ** Lists: [filter] and [find] with boolean tests *)

Lemma elem_of_filter_bool {A} (f : A -> bool) l x :
  x ∈ List.filter f l <-> x ∈ l /\ f x = true.
Proof. by rewrite !list_elem_of_In, filter_In. Qed.

Lemma filter_partition {A} (f g : A -> bool) (l : list A) :
  (forall x, f x = true -> g x = false) -> List.filter f l ++ List.filter g l ⊆+ l.
Proof.
  intros H. induction l as [|x l IH]; simpl; [done|]. specialize (H x).
  destruct (f x), (g x); try (discriminate H; done).
  - simpl. by apply submseteq_skip.
  - rewrite <-Permutation_middle. by apply submseteq_skip.
  - by apply submseteq_cons.
Qed.

Lemma filter_all {A} (f : A -> bool) l : Forall (fun x => f x = true) l -> List.filter f l = l.
Proof. induction 1 as [|x l Hx _ IH]; simpl; [done|]. by rewrite Hx, IH. Qed.

Lemma filter_none {A} (f : A -> bool) l : Forall (fun x => f x = false) l -> List.filter f l = [].
Proof. induction 1 as [|x l Hx _ IH]; simpl; [done|]. by rewrite Hx, IH. Qed.

Lemma Forall_filter_true {A} (f : A -> bool) l : Forall (fun x => f x = true) (List.filter f l).
Proof. apply Forall_forall. intros x [_ ?]%elem_of_filter_bool. done. Qed.

Lemma StronglySorted_take {A} (R : A -> A -> Prop) n l : StronglySorted R l -> StronglySorted R (take n l).
Proof.
  intros H. revert n. induction H as [|x l Hl IH Hx]; intros [|n]; simpl; constructor; auto using Forall_take.
Qed.

Lemma NoDup_submseteq {A} (l k : list A) : l ⊆+ k -> NoDup k -> NoDup l.
Proof. intros (r & Hr)%submseteq_Permutation Hk. rewrite Hr, NoDup_app in Hk. tauto. Qed.

Lemma NoDup_map_filter {A B} (f : A -> B) (p : A -> bool) l : NoDup (f <$> l) -> NoDup (f <$> List.filter p l).
Proof.
  induction l as [|x l IH]; simpl; [done|]. rewrite NoDup_cons. intros [Hx Hl].
  destruct (p x); [|auto]. rewrite fmap_cons, NoDup_cons. split; [|auto].
  rewrite list_elem_of_fmap in *. intros (y & Hy & [? _]%elem_of_filter_bool). apply Hx. eauto.
Qed.

Lemma filter_bool_submseteq {A} (p : A -> bool) (l : list A) : List.filter p l ⊆+ l.
Proof. induction l as [|x l IH]; simpl; [done|]. destruct (p x); [by apply submseteq_skip | by apply submseteq_cons]. Qed.

Lemma Forall_filter_bool {A} (P : A -> Prop) (p : A -> bool) l : Forall P l -> Forall P (List.filter p l).
Proof. rewrite !Forall_forall. intros H x [? _]%elem_of_filter_bool. auto. Qed.

Lemma find_Some {A} (p : A -> bool) l x : List.find p l = Some x -> x ∈ l /\ p x = true.
Proof. intros [? ?]%List.find_some. by rewrite list_elem_of_In. Qed.

Lemma find_None {A} (p : A -> bool) l : List.find p l = None -> Forall (fun x => p x = false) l.
Proof. intros H. apply Forall_forall. intros x Hx%list_elem_of_In. by eapply List.find_none. Qed.

Lemma find_not_in {A} (key : A -> str) (l : list A) k :
  k ∉ key <$> l -> List.find (fun x => bool_decide (key x = k)) l = None.
Proof.
  intros H. destruct (List.find _ l) as [x|] eqn:E; [|done]. exfalso. apply H.
  apply find_Some in E as [Hx <-%bool_decide_eq_true]. apply list_elem_of_fmap. eauto.
Qed.

Lemma find_app {A} (p : A -> bool) l k :
  List.find p (l ++ k) = match List.find p l with Some x => Some x | None => List.find p k end.
Proof. induction l as [|x l IH]; simpl; [done|]. by destruct (p x). Qed.

(** ** The exceptions a computation can raise *)

Definition raises {E A} (P : E -> Prop) (m : outcome E A) : Prop := forall e, m = Err e -> P e.

Create HintDb raises.

Section Raises.
Context {E : Type} (P : E -> Prop).

Lemma raises_Ok {A} (a : A) : raises P (Ok a).
Proof. intros e. discriminate. Qed.

Lemma raises_bind {A B} (m : outcome E A) (k : A -> outcome E B) :
  raises P m -> (forall a, m = Ok a -> raises P (k a)) -> raises P (m ≫= k).
Proof. unfold raises. destruct m; simpl; naive_solver. Qed.

Lemma raises_if b e : P e -> raises P (raise_if b e).
Proof. unfold raises. destruct b; simpl; naive_solver. Qed.

Lemma raises_mapM {A B} (f : A -> outcome E B) l : (forall x, raises P (f x)) -> raises P (mapM f l).
Proof.
  intros H. induction l as [|x l IH]; simpl; [apply raises_Ok|].
  apply raises_bind; [done|]. intros. apply raises_bind; [done|]. intros. apply raises_Ok.
Qed.

Lemma raises_for_each {A} (f : A -> outcome E unit) l : (forall x, raises P (f x)) -> raises P (for_each f l).
Proof.
  intros H. induction l as [|x l IH]; simpl; [apply raises_Ok|]. by apply raises_bind.
Qed.
End Raises.

#[export] Hint Resolve raises_Ok raises_if raises_mapM raises_for_each : raises.

(** Follows the branches of a computation down to its [raise]s. *)
Ltac raises_step :=
  match goal with
  | |- raises _ (_ ≫= _) => apply raises_bind; [|intros ? _]
  | |- raises _ (match ?x with _ => _ end) => destruct x
  | |- raises _ (mapM _ _) => apply raises_mapM; intros ?; cbv beta
  | |- raises _ (for_each _ _) => apply raises_for_each; intros ?; cbv beta
  | |- raises _ (Err _) => intros ? [= <-]
  | |- raises _ _ => solve [eauto with raises]
  end.
Ltac solve_raises := intros; repeat raises_step; eauto with raises.

(** [inv_ok] opens every hypothesis that says a compound computation returned. *)
Ltac inv_ok1 :=
  match goal with
  | H : _ ≫= _ = Ok _ |- _ =>
      let x := fresh "x" in let H1 := fresh "H" in let H2 := fresh "H" in
      apply bind_Ok in H; destruct H as (x & H1 & H2)
  | H : _ <$> _ = Ok _ |- _ =>
      let x := fresh "x" in let H1 := fresh "H" in
      apply fmap_Ok in H; destruct H as (x & H1 & ->)
  | H : raise_if _ _ = Ok _ |- _ => apply raise_if_Ok in H
  | H : for_each _ _ = Ok _ |- _ => apply for_each_Ok in H
  | H : Ok _ = Ok _ |- _ => injection H as H; try subst
  | H : mret _ = Ok _ |- _ => injection H as H; try subst
  | H : Err _ = Ok _ |- _ => discriminate H
  | u : unit |- _ => destruct u
  end.
Ltac inv_ok := repeat inv_ok1.

(** The lemmas the components resolve goals with. *)
Create HintDb opatchy.

(** Quantifiers over a filtered list, as [any] and [all] compute them. *)
Section FilteredQuantifiers.
Context {A : Type} (f g : A -> bool) (l : list A).

Lemma existsb_filter_true : existsb f (List.filter g l) = true <-> exists x, x ∈ l /\ g x = true /\ f x = true.
Proof. rewrite existsb_exists. setoid_rewrite filter_In. setoid_rewrite <-list_elem_of_In. naive_solver. Qed.

Lemma forallb_filter_true : forallb f (List.filter g l) = true <-> forall x, x ∈ l -> g x = true -> f x = true.
Proof. rewrite forallb_forall. setoid_rewrite filter_In. setoid_rewrite <-list_elem_of_In. naive_solver. Qed.
End FilteredQuantifiers.

Lemma existsb_filter_false {A} (f g : A -> bool) l :
  existsb f (List.filter g l) = false <-> forall x, x ∈ l -> g x = true -> f x = false.
Proof.
  rewrite <-not_true_iff_false, existsb_filter_true. setoid_rewrite <-not_true_iff_false. naive_solver.
Qed.

Lemma forallb_filter_false {A} (f g : A -> bool) l :
  forallb f (List.filter g l) = false <-> exists x, x ∈ l /\ g x = true /\ f x = false.
Proof.
  transitivity (existsb (fun x => negb (f x)) (List.filter g l) = true).
  - induction (List.filter g l) as [|x xs IH]; simpl; [done|]. by destruct (f x).
  - rewrite existsb_filter_true. setoid_rewrite negb_true_iff. done.
Qed.
