(* ===== verification/PyStr.v ===== *)
(** * Python's [str] and [sorted]

    What the helper uses of Python strings: code-point order, prefixes, searching,
    splitting, decimal printing and reading; and [sorted], which is stable. *)

From S2P Require Import Prelude.

Open Scope Z_scope.

(** ** Stable sorting *)

Section Sort.
Context {A : Type} (le : A -> A -> bool).

Fixpoint insert_by (x : A) (l : list A) : list A :=
  match l with
  | [] => [x]
  | y :: l' => if le x y then x :: y :: l' else y :: insert_by x l'
  end.

(** Python's [sorted] for the preorder [le] on the keys. [reverse=True] keeps the
    order of equal elements too: it is [sorted_by] for the converse preorder. *)
Fixpoint sorted_by (l : list A) : list A :=
  match l with
  | [] => []
  | x :: l' => insert_by x (sorted_by l')
  end.

Lemma insert_by_Permutation x l : insert_by x l ≡ₚ x :: l.
Proof.
  induction l as [|y l IH]; simpl; [done|].
  destruct (le x y); [done|]. rewrite IH. apply Permutation_swap.
Qed.

Lemma sorted_by_Permutation l : sorted_by l ≡ₚ l.
Proof. induction l as [|x l IH]; simpl; [done|]. by rewrite insert_by_Permutation, IH. Qed.

Lemma elem_of_sorted_by x l : x ∈ sorted_by l <-> x ∈ l.
Proof. by rewrite sorted_by_Permutation. Qed.

Lemma length_sorted_by l : length (sorted_by l) = length l.
Proof. by rewrite sorted_by_Permutation. Qed.

Lemma sorted_by_id l : StronglySorted (fun x y => le x y = true) l -> sorted_by l = l.
Proof.
  induction 1 as [|x l Hl IH Hx]; simpl; [done|]. rewrite IH.
  destruct l as [|y l]; simpl; [done|]. inversion Hx as [|? ? Hxy]; subst. by rewrite Hxy.
Qed.

Context (le_total : forall x y, le x y = true \/ le y x = true).
Context (le_trans : forall x y z, le x y = true -> le y z = true -> le x z = true).

Lemma insert_by_sorted x l :
  StronglySorted (fun x y => le x y = true) l ->
  StronglySorted (fun x y => le x y = true) (insert_by x l).
Proof using le_total le_trans.
  induction 1 as [|y l Hl IH Hy]; simpl; [repeat constructor|].
  destruct (le x y) eqn:E.
  - constructor; [by constructor|]. constructor; [done|].
    eapply Forall_impl; [exact Hy|]. eauto.
  - constructor; [done|]. rewrite insert_by_Permutation. constructor; [|done].
    destruct (le_total x y); congruence.
Qed.

Lemma sorted_by_sorted l : StronglySorted (fun x y => le x y = true) (sorted_by l).
Proof using le_total le_trans.
  induction l; simpl; [constructor | by apply insert_by_sorted].
Qed.

(** Stability: elements that compare equal to [k] keep their order. *)
Definition same (k x : A) : bool := le k x && le x k.

Lemma insert_by_same k x l :
  List.filter (same k) (insert_by x l) = List.filter (same k) (x :: l).
Proof using le_total le_trans.
  induction l as [|y l IH]; [done|]. simpl. destruct (le x y) eqn:E; [done|].
  simpl. rewrite IH. simpl. destruct (same k x) eqn:Ex, (same k y) eqn:Ey; try done.
  unfold same in *. apply andb_true_iff in Ex as [H1 H2], Ey as [H3 H4].
  rewrite (le_trans x k y) in E; done.
Qed.

Lemma sorted_by_stable k l :
  List.filter (same k) (sorted_by l) = List.filter (same k) l.
Proof using le_total le_trans.
  induction l as [|x l IH]; [done|]. cbn [sorted_by]. rewrite insert_by_same. simpl. by rewrite IH.
Qed.
End Sort.

Lemma insert_by_map {A B} (le : B -> B -> bool) (f : A -> B) x l :
  f <$> insert_by (fun a b => le (f a) (f b)) x l = insert_by le (f x) (f <$> l).
Proof. induction l as [|y l IH]; [done|]. simpl. destruct (le (f x) (f y)); csimpl; [done|]. by rewrite <-IH. Qed.

Lemma sorted_by_map {A B} (le : B -> B -> bool) (f : A -> B) l :
  f <$> sorted_by (fun a b => le (f a) (f b)) l = sorted_by le (f <$> l).
Proof. induction l as [|x l IH]; [done|]. simpl. by rewrite insert_by_map, IH. Qed.

(** ** Order of strings *)

Fixpoint str_leb (s t : str) : bool :=
  match s, t with
  | [], _ => true
  | _, [] => false
  | a :: s', b :: t' =>
      if (a <? b)%N then true else if (b <? a)%N then false else str_leb s' t'
  end.

Lemma str_leb_refl s : str_leb s s = true.
Proof. induction s as [|a s IH]; simpl; [done|]. by rewrite N.ltb_irrefl. Qed.

Lemma str_leb_total s t : str_leb s t = true \/ str_leb t s = true.
Proof.
  revert t. induction s as [|a s IH]; intros [|b t]; simpl; auto.
  destruct (N.ltb_spec a b); [by auto|]. destruct (N.ltb_spec b a); auto.
Qed.

Lemma str_leb_antisym s t : str_leb s t = true -> str_leb t s = true -> s = t.
Proof.
  revert t. induction s as [|a s IH]; intros [|b t]; simpl; try done.
  destruct (N.ltb_spec a b), (N.ltb_spec b a); try done; try lia.
  intros. f_equal; [lia | auto].
Qed.

Lemma str_leb_trans s t u : str_leb s t = true -> str_leb t u = true -> str_leb s u = true.
Proof.
  revert t u. induction s as [|a s IH]; intros [|b t] [|c u]; simpl; try done.
  destruct (N.ltb_spec a b), (N.ltb_spec b c), (N.ltb_spec a c); try done; try lia;
    destruct (N.ltb_spec b a), (N.ltb_spec c b), (N.ltb_spec c a); try done; try lia; eauto.
Qed.

#[export] Hint Resolve str_leb_refl str_leb_total str_leb_trans : opatchy.

(** Tuples of strings, compared at the first place where they differ. *)
Fixpoint tuple_leb (s t : list str) : bool :=
  match s, t with
  | [], _ => true
  | _, [] => false
  | a :: s', b :: t' => if bool_decide (a = b) then tuple_leb s' t' else str_leb a b
  end.

Lemma tuple_leb_total s t : tuple_leb s t = true \/ tuple_leb t s = true.
Proof.
  revert t. induction s as [|a s IH]; intros [|b t]; simpl; auto.
  rewrite (bool_decide_ext (b = a) (a = b)) by done. case_bool_decide; [auto | apply str_leb_total].
Qed.

Lemma tuple_leb_trans s t u : tuple_leb s t = true -> tuple_leb t u = true -> tuple_leb s u = true.
Proof.
  revert t u. induction s as [|a s IH]; intros [|b t] [|c u]; simpl; try done.
  repeat case_bool_decide; subst; try done; eauto using str_leb_trans.
  intros H1 H2. by destruct (str_leb_antisym _ _ H1 H2).
Qed.

Lemma tuple_leb_antisym s t : tuple_leb s t = true -> tuple_leb t s = true -> s = t.
Proof.
  revert t. induction s as [|a s IH]; intros [|b t]; simpl; try done.
  rewrite (bool_decide_ext (b = a) (a = b)) by done. case_bool_decide as E; [intros; subst; f_equal; auto|].
  intros. destruct E. by apply str_leb_antisym.
Qed.

(** Sorting by a tuple of strings. *)
Definition sorted_by_tuple {A} (key : A -> list str) : list A -> list A :=
  sorted_by (fun a b => tuple_leb (key a) (key b)).

Lemma sorted_by_tuple_sorted {A} (key : A -> list str) l :
  StronglySorted (fun a b => tuple_leb (key a) (key b) = true) (sorted_by_tuple key l).
Proof. apply sorted_by_sorted; eauto using tuple_leb_total, tuple_leb_trans. Qed.

(** [min(strings)] of a non-empty collection. *)
Definition str_min (s : str) (l : list str) : str :=
  foldr (fun a b => if str_leb a b then a else b) s l.

(** Sorting by a string key. *)
Definition sorted_by_key {A} (key : A -> str) : list A -> list A :=
  sorted_by (fun a b => str_leb (key a) (key b)).

Lemma sorted_by_key_sorted {A} (key : A -> str) l :
  StronglySorted (fun a b => str_leb (key a) (key b) = true) (sorted_by_key key l).
Proof. apply (sorted_by_sorted (fun a b => str_leb (key a) (key b))); eauto with opatchy. Qed.

(** Two sorted arrangements of the same keys are the same when keys are distinct. *)
Lemma sorted_keys_unique (l k : list str) :
  StronglySorted (fun a b => str_leb a b = true) l ->
  StronglySorted (fun a b => str_leb a b = true) k -> l ≡ₚ k -> l = k.
Proof.
  assert (AntiSymm (=) (fun a b => str_leb a b = true)).
  { intros a b. apply str_leb_antisym. }
  apply (StronglySorted_unique (fun a b => str_leb a b = true)).
Qed.

(** Replaces the string literals of the goal by their code points. *)
Ltac lits :=
  repeat match goal with
  | |- context [lit ?s] => let v := eval vm_compute in (lit s) in change (lit s) with v
  end.

(** ** Prefixes and searching *)

Fixpoint startswith (s p : str) {struct p} : bool :=
  match p, s with
  | [], _ => true
  | c :: p', d :: s' => (c =? d)%N && startswith s' p'
  | _ :: _, [] => false
  end.

Lemma startswith_spec s p : startswith s p = true <-> exists r, s = p ++ r.
Proof.
  revert s. induction p as [|c p IH]; intros s; simpl.
  - split; [by exists s | by destruct s].
  - destruct s as [|d s]; [naive_solver|].
    rewrite andb_true_iff, N.eqb_eq, IH. naive_solver.
Qed.

Lemma startswith_app p r : startswith (p ++ r) p = true.
Proof. apply startswith_spec; eauto. Qed.

Definition endswith (s p : str) : bool := startswith (reverse s) (reverse p).

Lemma endswith_app s p : endswith (s ++ p) p = true.
Proof. unfold endswith. rewrite reverse_app. apply startswith_app. Qed.

Lemma endswith_spec s p : endswith s p = true <-> exists r, s = r ++ p.
Proof.
  unfold endswith. rewrite startswith_spec. split.
  - intros [r Hr]. exists (reverse r).
    by rewrite <-(reverse_involutive s), Hr, reverse_app, reverse_involutive.
  - intros [r ->]. exists (reverse r). by rewrite reverse_app.
Qed.

(** [p in s] *)
Fixpoint contains (s p : str) : bool :=
  startswith s p || match s with [] => false | _ :: s' => contains s' p end.

(** [s.replace(old, new)] for a non-empty [old]; [skip] counts the code points of
    an occurrence that is being dropped. *)
Fixpoint replace_go (old new s : str) (skip : nat) : str :=
  match s with
  | [] => []
  | c :: s' =>
      match skip with
      | S k => replace_go old new s' k
      | O => if startswith s old then new ++ replace_go old new s' (length old - 1)
             else c :: replace_go old new s' 0
      end
  end.
Definition replace (s old new : str) : str := replace_go old new s 0.

(** ** Splitting *)

(** [s.split(sep)] for a non-empty [sep]; [cur] is the current field, reversed. *)
Fixpoint split_go (sep s cur : str) (skip : nat) : list str :=
  match s with
  | [] => [reverse cur]
  | c :: s' =>
      match skip with
      | S k => split_go sep s' cur k
      | O => if startswith s sep
             then reverse cur :: split_go sep s' [] (length sep - 1)
             else split_go sep s' (c :: cur) 0
      end
  end.
Definition split (s sep : str) : list str := split_go sep s [] 0.

(** [sep.join(parts)] *)
Fixpoint join (sep : str) (parts : list str) : str :=
  match parts with
  | [] => []
  | [p] => p
  | p :: parts' => p ++ sep ++ join sep parts'
  end.

(** Joining and splitting by one code point [c]. *)
Section SplitByCodePoint.
Context (c : N).

Lemma split_go_cons p rest cur :
  c ∉ p -> split_go [c] (p ++ c :: rest) cur 0 = (reverse cur ++ p) :: split_go [c] rest [] 0.
Proof.
  revert cur. induction p as [|d p IH]; intros cur Hp; cbn -[reverse].
  - by rewrite N.eqb_refl, app_nil_r.
  - rewrite (proj2 (N.eqb_neq c d)) by set_solver. cbn [andb]. rewrite IH by set_solver.
    by rewrite reverse_cons, <-app_assoc.
Qed.

Lemma split_go_last p cur : c ∉ p -> split_go [c] p cur 0 = [reverse cur ++ p].
Proof.
  revert cur. induction p as [|d p IH]; intros cur Hp; cbn -[reverse]; [by rewrite app_nil_r|].
  rewrite (proj2 (N.eqb_neq c d)) by set_solver. cbn [andb]. rewrite IH by set_solver.
  by rewrite reverse_cons, <-app_assoc.
Qed.

Lemma split_join parts : parts <> [] -> Forall (fun p => c ∉ p) parts -> split (join [c] parts) [c] = parts.
Proof.
  unfold split. intros Hne H. induction H as [|p [|q parts] Hp _ IH]; [done| |].
  - by apply split_go_last.
  - change (join [c] (p :: q :: parts)) with (p ++ c :: join [c] (q :: parts)).
    rewrite split_go_cons by done. by rewrite IH.
Qed.

Lemma join_split_go s cur : join [c] (split_go [c] s cur 0) = reverse cur ++ s.
Proof.
  revert cur. induction s as [|d s IH]; intros cur; cbn -[reverse join]; [by rewrite app_nil_r|].
  rewrite andb_true_r. destruct (N.eqb_spec c d) as [->|_].
  - specialize (IH []). destruct (split_go [d] s [] 0) as [|x l] eqn:E.
    + destruct s as [|y s]; [discriminate E|]. cbn in E. by destruct (d =? y)%N.
    + change (join [d] (reverse cur :: x :: l)) with (reverse cur ++ d :: join [d] (x :: l)). by rewrite IH.
  - by rewrite IH, reverse_cons, <-app_assoc.
Qed.

Lemma join_split s : join [c] (split s [c]) = s.
Proof. apply (join_split_go s []). Qed.
End SplitByCodePoint.

(** The code points [str.isspace] accepts, which [str.split()] and [str.strip()]
    remove. *)
Definition is_space (c : N) : bool :=
  ((9 <=? c) && (c <=? 13) || (28 <=? c) && (c <=? 32) || (c =? 133) || (c =? 160)
   || (c =? 5760) || (8192 <=? c) && (c <=? 8202) || (c =? 8232) || (c =? 8233)
   || (c =? 8239) || (c =? 8287) || (c =? 12288))%N.

(** [s.split()] *)
Fixpoint fields_go (s cur : str) : list str :=
  match s with
  | [] => if decide (cur = []) then [] else [reverse cur]
  | c :: s' =>
      if is_space c
      then (if decide (cur = []) then [] else [reverse cur]) ++ fields_go s' []
      else fields_go s' (c :: cur)
  end.
Definition fields (s : str) : list str := fields_go s [].

Fixpoint lstrip (s : str) : str :=
  match s with
  | [] => []
  | c :: s' => if is_space c then lstrip s' else s
  end.
(** [s.strip()] *)
Definition strip (s : str) : str := reverse (lstrip (reverse (lstrip s))).

(** The line boundaries of [str.splitlines]. *)
Definition is_linebreak (c : N) : bool :=
  ((10 <=? c) && (c <=? 13) || (28 <=? c) && (c <=? 30) || (c =? 133)
   || (c =? 8232) || (c =? 8233))%N.

(** [s.splitlines()]: "\r\n" is one boundary; no empty last line. *)
Fixpoint lines_go (s cur : str) (started : bool) (after_cr : bool) : list str :=
  match s with
  | [] => if started then [reverse cur] else []
  | c :: s' =>
      if after_cr && (c =? 10)%N then lines_go s' [] false false
      else if is_linebreak c then reverse cur :: lines_go s' [] false (c =? 13)%N
      else lines_go s' (c :: cur) true false
  end.
Definition splitlines (s : str) : list str := lines_go s [] false false.

(** ** Character classes the helper tests *)

(** [s.isascii()] *)
Definition isascii (s : str) : bool := forallb (fun c => c <=? 127)%N s.

(** [s.isprintable()] for an ASCII string. *)
Definition ascii_printable (s : str) : bool :=
  forallb (fun c => (32 <=? c) && (c <=? 126))%N s.

Definition is_digit (c : N) : bool := ((48 <=? c) && (c <=? 57))%N.

(** ** Decimal numbers *)

Fixpoint uint_str (d : Decimal.uint) : str :=
  match d with
  | Decimal.Nil => []
  | Decimal.D0 d => 48%N :: uint_str d
  | Decimal.D1 d => 49%N :: uint_str d
  | Decimal.D2 d => 50%N :: uint_str d
  | Decimal.D3 d => 51%N :: uint_str d
  | Decimal.D4 d => 52%N :: uint_str d
  | Decimal.D5 d => 53%N :: uint_str d
  | Decimal.D6 d => 54%N :: uint_str d
  | Decimal.D7 d => 55%N :: uint_str d
  | Decimal.D8 d => 56%N :: uint_str d
  | Decimal.D9 d => 57%N :: uint_str d
  end.

(** [str(z)] *)
Definition str_of_Z (z : Z) : str :=
  match z with
  | Zneg p => 45%N :: uint_str (Pos.to_uint p)
  | _ => uint_str (N.to_uint (Z.to_N z))
  end.

(** The value of a run of ASCII digits. *)
Definition digits_value (s : str) : Z :=
  fold_left (fun acc c => acc * 10 + (Z.of_N c - 48)) s 0.

(** A decimal of exactly [w] digits, zero padded ([f"{n:0{w}d}"] when [n] fits). *)
Fixpoint fixed (w : nat) (n : Z) : str :=
  match w with
  | O => []
  | S w' => fixed w' (n / 10) ++ [Z.to_N (48 + n mod 10)]
  end.

Lemma length_fixed w n : length (fixed w n) = w.
Proof. revert n. induction w; intros n; simpl; [done|]. rewrite length_app, IHw. simpl. lia. Qed.

Lemma fixed_digits w n : forallb is_digit (fixed w n) = true.
Proof.
  revert n. induction w as [|w IH]; intros n; simpl; [done|].
  rewrite forallb_app, IH. simpl. unfold is_digit.
  pose proof (Z.mod_pos_bound n 10 ltac:(lia)).
  rewrite !andb_true_r. apply andb_true_iff. split; apply N.leb_le; lia.
Qed.

Lemma digits_value_snoc s c : digits_value (s ++ [c]) = digits_value s * 10 + (Z.of_N c - 48).
Proof. unfold digits_value. by rewrite fold_left_app. Qed.

Lemma digits_value_fixed w n : 0 <= n < 10 ^ Z.of_nat w -> digits_value (fixed w n) = n.
Proof.
  revert n. induction w as [|w IH]; intros n Hn; simpl.
  - unfold digits_value; simpl. change (10 ^ Z.of_nat 0) with 1 in Hn. lia.
  - rewrite digits_value_snoc, IH.
    + pose proof (Z.mod_pos_bound n 10 ltac:(lia)). pose proof (Z.div_mod n 10 ltac:(lia)). lia.
    + replace (Z.of_nat (S w)) with (Z.of_nat w + 1) in Hn by lia.
      rewrite Z.pow_add_r in Hn by lia. change (10 ^ 1) with 10 in Hn.
      split; [apply Z.div_pos; lia|]. apply Z.div_lt_upper_bound; lia.
Qed.

(** ** [html.escape]

    [quote] tells whether quotation marks are replaced too. *)

Definition escape_html_char (quote : bool) (c : N) : str :=
  if (c =? 38)%N then lit "&amp;"
  else if (c =? 60)%N then lit "&lt;"
  else if (c =? 62)%N then lit "&gt;"
  else if quote && (c =? 34)%N then lit "&quot;"
  else if quote && (c =? 39)%N then lit "&#x27;"
  else [c].

Definition escape_html (quote : bool) (s : str) : str := s ≫= escape_html_char quote.

Lemma escape_html_length quote s : (length (escape_html quote s) <= 6 * length s)%nat.
Proof.
  unfold escape_html. induction s as [|c s IH]; csimpl; [lia|]. rewrite length_app.
  assert (length (escape_html_char quote c) <= 6)%nat by (unfold escape_html_char; repeat case_match; simpl; lia). lia.
Qed.

(** Escaping adds none of the characters it replaces, and no control character. *)
Lemma escape_html_elem quote s c :
  c ∈ escape_html quote s -> c ∈ s /\ c <> 60%N /\ c <> 62%N \/ c ∈ lit "&amp;&lt;&gt;&quot;&#x27;".
Proof.
  unfold escape_html. intros (x & Hc & Hx)%list_elem_of_bind. unfold escape_html_char in Hc.
  destruct (N.eqb_spec x 38); [|destruct (N.eqb_spec x 60); [|destruct (N.eqb_spec x 62)]].
  1-3: right; revert Hc; unfold lit; cbn; set_solver.
  destruct (quote && (x =? 34)%N); [|destruct (quote && (x =? 39)%N)].
  1-2: right; revert Hc; unfold lit; cbn; set_solver.
  left. apply list_elem_of_singleton in Hc as ->. done.
Qed.
