(* ===== verification/Decimals.v ===== *)
(** * Decimal numerals

    What [str] writes for an integer and [int] reads back. *)

From Stdlib Require Import DecimalN DecimalPos.
From S2P Require Import Prelude PyStr.

Open Scope Z_scope.

Lemma uint_str_digits d : forallb is_digit (uint_str d) = true.
Proof. by induction d. Qed.

Lemma digits_value_acc l acc :
  fold_left (fun acc c => acc * 10 + (Z.of_N c - 48)) (uint_str l) (Z.pos acc) = Z.pos (Pos.of_uint_acc l acc).
Proof.
  revert acc. induction l as [|l IH|l IH|l IH|l IH|l IH|l IH|l IH|l IH|l IH|l IH]; intros acc; [done|..];
    cbn [uint_str fold_left Pos.of_uint_acc]; rewrite <-IH; f_equal; lia.
Qed.

Lemma digits_value_uint d : digits_value (uint_str d) = Z.of_N (N.of_uint d).
Proof.
  unfold digits_value, N.of_uint. induction d; [done| |cbn [uint_str fold_left Pos.of_uint]; apply (digits_value_acc d)..].
  exact IHd.
Qed.

Lemma digits_value_N n : digits_value (uint_str (N.to_uint n)) = Z.of_N n.
Proof. by rewrite digits_value_uint, DecimalN.Unsigned.of_to. Qed.

Lemma digits_value_pos p : digits_value (uint_str (Pos.to_uint p)) = Z.pos p.
Proof. exact (digits_value_N (Npos p)). Qed.

(** No numeral has a leading zero, except zero itself. *)
Lemma no_leading_zero n l : N.to_uint n = Decimal.D0 l -> l = Decimal.Nil.
Proof.
  intros E. pose proof (DecimalN.Unsigned.to_of (N.to_uint n)) as Hu. rewrite DecimalN.Unsigned.of_to, E in Hu.
  assert (forall d k, Decimal.nzhead d <> Decimal.D0 k) as Hz by (induction d; simpl; congruence).
  unfold Decimal.unorm in Hu. simpl in Hu. specialize (Hz l).
  destruct (Decimal.nzhead l) eqn:Eh; try congruence.
Qed.

Lemma uint_nonempty n : uint_str (N.to_uint n) <> [].
Proof.
  intros E. destruct (N.to_uint n) eqn:En; try discriminate E.
  destruct n as [|p]; [discriminate En|]. by apply (DecimalPos.Unsigned.to_uint_nonnil p).
Qed.

(** The digits of a numeral: zero alone, or a run that does not start with zero. *)
Lemma uint_shape n :
  uint_str (N.to_uint n) = [48%N]
  \/ exists c ds, uint_str (N.to_uint n) = c :: ds /\ is_digit c = true /\ c <> 48%N /\ forallb is_digit ds = true.
Proof.
  pose proof (uint_str_digits (N.to_uint n)) as Hd. pose proof (uint_nonempty n) as Hn.
  destruct (uint_str (N.to_uint n)) as [|c ds] eqn:E; [done|]. simpl in Hd. apply andb_true_iff in Hd as [Hc Hds].
  destruct (decide (c = 48%N)) as [->|Hne]; [left | right; eauto 6].
  destruct (N.to_uint n) eqn:En; try discriminate E. apply no_leading_zero in En as ->. by injection E as <-.
Qed.
