(* ===== verification/Regex.v ===== *)
(** * [re.fullmatch]

    The regular expressions of the helper as terms, matched by derivatives, with the
    usual denotation as their specification. *)

From S2P Require Import Prelude PyStr.

Inductive regex : Type :=
| RNone
| REps
| RSet (p : N -> bool)
| RCat (r1 r2 : regex)
| RAlt (r1 r2 : regex)
| RStar (r : regex).

(** The strings an expression matches. *)
Inductive matches : regex -> str -> Prop :=
| m_eps : matches REps []
| m_set p c : p c = true -> matches (RSet p) [c]
| m_cat r1 r2 s1 s2 : matches r1 s1 -> matches r2 s2 -> matches (RCat r1 r2) (s1 ++ s2)
| m_alt_l r1 r2 s : matches r1 s -> matches (RAlt r1 r2) s
| m_alt_r r1 r2 s : matches r2 s -> matches (RAlt r1 r2) s
| m_star_nil r : matches (RStar r) []
| m_star_cons r s1 s2 : matches r s1 -> matches (RStar r) s2 -> matches (RStar r) (s1 ++ s2).

#[export] Hint Constructors matches : opatchy.

(** Inversion of the denotation, one equivalence per constructor. *)

Lemma matches_none s : matches RNone s <-> False.
Proof. split; [inversion 1 | done]. Qed.

Lemma matches_eps s : matches REps s <-> s = [].
Proof. split; [by inversion 1 | intros ->; constructor]. Qed.

Lemma matches_set p s : matches (RSet p) s <-> exists c, s = [c] /\ p c = true.
Proof. split; [inversion 1; subst; eauto | intros (c & -> & ?); by constructor]. Qed.

Lemma matches_cat r1 r2 s :
  matches (RCat r1 r2) s <-> exists s1 s2, s = s1 ++ s2 /\ matches r1 s1 /\ matches r2 s2.
Proof. split; [inversion 1; subst; eauto | intros (s1 & s2 & -> & ? & ?); by constructor]. Qed.

Lemma matches_alt r1 r2 s : matches (RAlt r1 r2) s <-> matches r1 s \/ matches r2 s.
Proof. split; [inversion 1; subst; auto | intros []; auto with opatchy]. Qed.

Fixpoint nullable (r : regex) : bool :=
  match r with
  | RNone | RSet _ => false
  | REps | RStar _ => true
  | RCat r1 r2 => nullable r1 && nullable r2
  | RAlt r1 r2 => nullable r1 || nullable r2
  end.

(** Constructors that drop the impossible branches, so that derivatives stay small. *)
Definition cat (r1 r2 : regex) : regex :=
  match r1, r2 with
  | RNone, _ | _, RNone => RNone
  | REps, _ => r2
  | _, _ => RCat r1 r2
  end.
Definition alt (r1 r2 : regex) : regex :=
  match r1, r2 with
  | RNone, _ => r2
  | _, RNone => r1
  | _, _ => RAlt r1 r2
  end.

Fixpoint deriv (c : N) (r : regex) : regex :=
  match r with
  | RNone | REps => RNone
  | RSet p => if p c then REps else RNone
  | RCat r1 r2 =>
      if nullable r1 then alt (cat (deriv c r1) r2) (deriv c r2) else cat (deriv c r1) r2
  | RAlt r1 r2 => alt (deriv c r1) (deriv c r2)
  | RStar r => cat (deriv c r) (RStar r)
  end.

(** [re.compile(r).fullmatch(s) is not None] *)
Fixpoint fullmatch (r : regex) (s : str) : bool :=
  match s with
  | [] => nullable r
  | c :: s' => fullmatch (deriv c r) s'
  end.

Lemma nullable_spec r : nullable r = true <-> matches r [].
Proof.
  induction r as [| |p|r1 IH1 r2 IH2|r1 IH1 r2 IH2|r IH]; simpl.
  - by rewrite matches_none.
  - by rewrite matches_eps.
  - rewrite matches_set. naive_solver.
  - rewrite matches_cat, andb_true_iff, IH1, IH2. split.
    + intros [? ?]. by exists [], [].
    + intros (s1 & s2 & Hs & ? & ?). symmetry in Hs. apply app_eq_nil in Hs as [-> ->]. done.
  - by rewrite matches_alt, orb_true_iff, IH1, IH2.
  - split; auto with opatchy.
Qed.

Lemma cat_none_l r s : matches (RCat RNone r) s <-> False.
Proof. rewrite matches_cat. setoid_rewrite matches_none. naive_solver. Qed.

Lemma cat_none_r r s : matches (RCat r RNone) s <-> False.
Proof. rewrite matches_cat. setoid_rewrite matches_none. naive_solver. Qed.

Lemma cat_eps_l r s : matches (RCat REps r) s <-> matches r s.
Proof.
  rewrite matches_cat. setoid_rewrite matches_eps. split.
  - by intros (s1 & s2 & -> & -> & ?).
  - intros. by exists [], s.
Qed.

Lemma cat_spec r1 r2 s : matches (cat r1 r2) s <-> matches (RCat r1 r2) s.
Proof.
  destruct r1, r2; simpl; rewrite ?cat_none_l, ?cat_none_r, ?cat_eps_l, ?matches_none; done.
Qed.

Lemma alt_spec r1 r2 s : matches (alt r1 r2) s <-> matches (RAlt r1 r2) s.
Proof. destruct r1, r2; simpl; rewrite ?matches_alt, ?matches_none; naive_solver. Qed.

Lemma matches_cat_cons r1 r2 c s :
  matches (RCat r1 r2) (c :: s) <->
  (exists s1 s2, s = s1 ++ s2 /\ matches r1 (c :: s1) /\ matches r2 s2)
  \/ matches r1 [] /\ matches r2 (c :: s).
Proof.
  rewrite matches_cat. split.
  - intros ([|d s1] & s2 & E & Ha & Hb); simpl in E; subst; [by right|].
    injection E as -> ->. left. eauto.
  - intros [(s1 & s2 & -> & Ha & Hb)|[Ha Hb]].
    + by exists (c :: s1), s2.
    + by exists [], (c :: s).
Qed.

Lemma matches_star_cons r c s :
  matches (RStar r) (c :: s) <->
  exists s1 s2, s = s1 ++ s2 /\ matches r (c :: s1) /\ matches (RStar r) s2.
Proof.
  split.
  - remember (RStar r) as q eqn:Eq. remember (c :: s) as t eqn:Et. intros H. revert c s Et.
    induction H as [| | | | | |r' s1 s2 Ha _ Hb IH]; try done. intros c s Et.
    injection Eq as ->. destruct s1 as [|d s1]; simpl in Et; [by apply IH|].
    injection Et as -> <-. eauto.
  - intros (s1 & s2 & -> & Ha & Hb). by apply (m_star_cons r (c :: s1) s2).
Qed.

Lemma deriv_spec r c s : matches (deriv c r) s <-> matches r (c :: s).
Proof.
  revert s. induction r as [| |p|r1 IH1 r2 IH2|r1 IH1 r2 IH2|r IH]; intros s; simpl.
  - by rewrite !matches_none.
  - by rewrite matches_none, matches_eps.
  - rewrite matches_set. destruct (p c) eqn:E; rewrite ?matches_eps, ?matches_none; split; try done.
    + intros ->. eauto.
    + by intros (d & [= -> ->] & _).
    + intros (d & [= -> _] & ?). congruence.
  - assert (matches (cat (deriv c r1) r2) s <->
            exists s1 s2, s = s1 ++ s2 /\ matches r1 (c :: s1) /\ matches r2 s2) as Hcat.
    { rewrite cat_spec, matches_cat. by setoid_rewrite IH1. }
    rewrite matches_cat_cons, <-nullable_spec. destruct (nullable r1).
    + rewrite alt_spec, matches_alt, Hcat, IH2. naive_solver.
    + rewrite Hcat. naive_solver.
  - by rewrite alt_spec, !matches_alt, IH1, IH2.
  - rewrite cat_spec, matches_star_cons, matches_cat. by setoid_rewrite IH.
Qed.

Lemma fullmatch_matches r s : fullmatch r s = true <-> matches r s.
Proof.
  revert r. induction s as [|c s IH]; intros r; simpl; [apply nullable_spec|].
  by rewrite IH, deriv_spec.
Qed.

(** ** The operators of the patterns *)

Definition rlit (s : str) : regex := foldr (fun c r => RCat (RSet (N.eqb c)) r) REps s.
(** [r{0,n}] *)
Fixpoint ropt (n : nat) (r : regex) : regex :=
  match n with O => REps | S n' => RAlt REps (RCat r (ropt n' r)) end.
(** [r{n}] followed by [k] *)
Fixpoint rtimes (n : nat) (r k : regex) : regex :=
  match n with O => k | S n' => RCat r (rtimes n' r k) end.
(** [r{lo,hi}] *)
Definition rrange (lo hi : nat) (r : regex) : regex := rtimes lo r (ropt (hi - lo) r).
Definition rplus (r : regex) : regex := RCat r (RStar r).
Definition rdigit : regex := RSet is_digit.

Lemma matches_rlit t s : matches (rlit t) s <-> s = t.
Proof.
  revert s. induction t as [|c t IH]; intros s; simpl; [apply matches_eps|].
  rewrite matches_cat. setoid_rewrite matches_set. setoid_rewrite IH. split.
  - intros (s1 & s2 & -> & (d & -> & Hd%N.eqb_eq) & ->). by subst.
  - intros ->. exists [c], t. split; [done|]. split; [exists c; split; [done | apply N.eqb_refl] | done].
Qed.

Lemma matches_star_set p s : matches (RStar (RSet p)) s <-> forallb p s = true.
Proof.
  induction s as [|c s IH]; simpl; [split; auto with opatchy|].
  rewrite matches_star_cons. setoid_rewrite matches_set. rewrite andb_true_iff, <-IH. split.
  - intros (s1 & s2 & -> & (d & E & Hd) & H). injection E as -> ->. done.
  - intros [Hc Hs]. exists [], s. eauto.
Qed.

Lemma matches_cons_set p r s :
  matches (RCat (RSet p) r) s <-> exists c t, s = c :: t /\ p c = true /\ matches r t.
Proof.
  rewrite matches_cat. setoid_rewrite matches_set. split.
  - intros (s1 & s2 & -> & (c & -> & ?) & ?). simpl. eauto.
  - intros (c & t & -> & ? & ?). exists [c], t. eauto.
Qed.

Lemma matches_plus_set p s : matches (rplus (RSet p)) s <-> s <> [] /\ forallb p s = true.
Proof.
  unfold rplus. rewrite matches_cons_set. setoid_rewrite matches_star_set. split.
  - intros (c & t & -> & ? & ?). simpl. by rewrite andb_true_iff.
  - intros [Hne Hp]. destruct s as [|c s]; [done|]. apply andb_true_iff in Hp. naive_solver.
Qed.

Lemma matches_ropt_set n p s :
  matches (ropt n (RSet p)) s <-> forallb p s = true /\ (length s <= n)%nat.
Proof.
  revert s. induction n as [|n IH]; intros s; simpl.
  - rewrite matches_eps. destruct s; simpl; [naive_solver lia | split; [done | intros [_ ?]; lia]].
  - rewrite matches_alt, matches_eps, matches_cons_set. setoid_rewrite IH. split.
    + intros [->|(c & t & -> & ? & ? & ?)]; simpl; [split; [done | lia]|].
      rewrite andb_true_iff. split; [done | lia].
    + destruct s as [|c s]; [by left|]. simpl. intros [[? ?]%andb_true_iff ?]. right.
      exists c, s. repeat split; auto. lia.
Qed.

Lemma matches_rtimes_set n p k s :
  matches (rtimes n (RSet p) k) s <->
  exists s1 s2, s = s1 ++ s2 /\ length s1 = n /\ forallb p s1 = true /\ matches k s2.
Proof.
  revert s. induction n as [|n IH]; intros s; simpl.
  - split.
    + intros. by exists [], s.
    + by intros ([|] & s2 & -> & ? & ? & ?).
  - rewrite matches_cons_set. setoid_rewrite IH. split.
    + intros (c & t & -> & ? & s1 & s2 & -> & <- & ? & ?). exists (c :: s1), s2. simpl.
      by rewrite andb_true_iff.
    + intros ([|c s1] & s2 & -> & Hl & Hp & ?); [done|]. simpl in *.
      apply andb_true_iff in Hp as [? ?]. exists c, (s1 ++ s2). repeat split; [done|].
      exists s1, s2. repeat split; auto.
Qed.

(** ** Characters an expression never matches *)

Fixpoint avoids (c : N) (r : regex) : bool :=
  match r with
  | RNone | REps => true
  | RSet p => negb (p c)
  | RCat r1 r2 | RAlt r1 r2 => avoids c r1 && avoids c r2
  | RStar r => avoids c r
  end.

Lemma avoids_spec c r s : avoids c r = true -> matches r s -> c ∉ s.
Proof.
  intros Ha H. induction H; simpl in Ha; rewrite ?andb_true_iff in Ha; rewrite ?elem_of_app; try tauto.
  - set_solver.
  - intros ->%list_elem_of_singleton. rewrite H in Ha. discriminate Ha.
  - set_solver.
Qed.
