(* ===== verification/Calendar.v ===== *)
(** * [datetime]: instants, [isoformat], [fromisoformat]

    The helper's timestamps are [datetime] values. A value is its microseconds since
    0001-01-01T00:00:00 and whether it carries the UTC offset; [timedelta] values are
    microseconds. The calendar is CPython's ([_ymd2ord], [_ord2ymd]). *)

From S2P Require Import Prelude PyStr.

Open Scope Z_scope.

Record datetime := Datetime { dt_us : Z; dt_utc : bool }.

#[global] Instance datetime_eq_dec : EqDecision datetime.
Proof. solve_decision. Defined.

(** [timedelta(...)] *)
Definition seconds (n : Z) : Z := n * 1000000.
Definition minutes (n : Z) : Z := seconds (60 * n).
Definition hours (n : Z) : Z := minutes (60 * n).
Definition days (n : Z) : Z := hours (24 * n).

(** [d + timedelta] *)
Definition dt_add (d : datetime) (delta : Z) : datetime := Datetime (dt_us d + delta) (dt_utc d).

(** ** The proleptic Gregorian calendar *)

Definition is_leap (year : Z) : bool :=
  (year mod 4 =? 0) && (negb (year mod 100 =? 0) || (year mod 400 =? 0)).

Definition days_before_year (year : Z) : Z :=
  let y := year - 1 in y * 365 + y / 4 - y / 100 + y / 400.

Definition month_offsets : list Z := [0; 0; 31; 59; 90; 120; 151; 181; 212; 243; 273; 304; 334].
Definition month_lengths : list Z := [0; 31; 28; 31; 30; 31; 30; 31; 31; 30; 31; 30; 31].

Definition at_month (table : list Z) (m : Z) : Z := nth (Z.to_nat m) table 0.

Definition days_before_month (year month : Z) : Z :=
  at_month month_offsets month + (if (2 <? month) && is_leap year then 1 else 0).

Definition days_in_month (year month : Z) : Z :=
  at_month month_lengths month + (if (month =? 2) && is_leap year then 1 else 0).

Definition ymd2ord (year month day : Z) : Z :=
  days_before_year year + days_before_month year month + day.

(** The month and day of the day [r] of a year, as [_ord2ymd] estimates them. *)
Definition month_day (leapyear : bool) (n : Z) : Z * Z :=
  let month := Z.shiftr (n + 50) 5 in
  let preceding :=
    at_month month_offsets month + (if (2 <? month) && leapyear then 1 else 0) in
  if n <? preceding then
    let month := month - 1 in
    let preceding :=
      preceding - (at_month month_lengths month
                   + (if (month =? 2) && leapyear then 1 else 0)) in
    (month, n - preceding + 1)
  else (month, n - preceding + 1).

Definition ord2ymd (ordinal : Z) : Z * Z * Z :=
  let n := ordinal - 1 in
  let n400 := n / 146097 in let n := n mod 146097 in
  let n100 := n / 36524 in let n := n mod 36524 in
  let n4 := n / 1461 in let n := n mod 1461 in
  let n1 := n / 365 in let n := n mod 365 in
  let year := n400 * 400 + 1 + n100 * 100 + n4 * 4 + n1 in
  if (n1 =? 4) || (n100 =? 4) then (year - 1, 12, 31)
  else
    let leapyear := (n1 =? 3) && (negb (n4 =? 24) || (n100 =? 3)) in
    let '(month, day) := month_day leapyear n in
    (year, month, day).

Definition valid_date (y m d : Z) : bool :=
  (1 <=? y) && (y <=? 9999) && (1 <=? m) && (m <=? 12) && (1 <=? d) && (d <=? days_in_month y m).

(** The last ordinal, 9999-12-31, and the number of microseconds of a day. *)
Definition max_ordinal : Z := 3652059.
Definition day_us : Z := 86400000000.

(** The instants a [datetime] can hold. *)
Definition in_range (d : datetime) : Prop := 0 <= dt_us d < max_ordinal * day_us.

(** Checking a property of the integers from [z] on. *)
Fixpoint all_from (f : Z -> bool) (fuel : nat) (z : Z) : bool :=
  match fuel with O => true | S k => f z && all_from f k (z + 1) end.

Lemma all_from_spec f fuel z n :
  all_from f fuel z = true -> z <= n < z + Z.of_nat fuel -> f n = true.
Proof.
  revert z. induction fuel as [|k IH]; intros z; simpl; [lia|].
  intros [Hz Hk]%andb_true_iff Hn. destruct (decide (n = z)) as [->|]; [done|].
  apply (IH (z + 1)); [done | lia].
Qed.

Definition month_day_ok (leap : bool) (n : Z) : bool :=
  let '(m, d) := month_day leap n in
  (1 <=? m) && (m <=? 12) && (1 <=? d)
  && (d <=? at_month month_lengths m + (if (m =? 2) && leap then 1 else 0))
  && (at_month month_offsets m + (if (2 <? m) && leap then 1 else 0) + d =? n + 1).

Lemma month_day_checked leap n : 0 <= n < 365 -> month_day_ok leap n = true.
Proof.
  intros Hn. apply (all_from_spec _ (Z.to_nat 365) 0); [|lia]. by destruct leap; vm_compute.
Qed.

(** Days before and leap flag of the year [c] of the cycle part [b] of the century [a]. *)
Definition year_ok (a b c : Z) : bool :=
  let y := 1 + a * 100 + b * 4 + c in
  (days_before_year y =? 36524 * a + 1461 * b + 365 * c)
  && Bool.eqb (is_leap y) ((c =? 3) && (negb (b =? 24) || (a =? 3))).

Lemma year_checked a b c : 0 <= a <= 3 -> 0 <= b <= 24 -> 0 <= c <= 3 -> year_ok a b c = true.
Proof.
  intros Ha Hb Hc.
  apply (all_from_spec (fun c => year_ok a b c) 4 0); [|lia].
  apply (all_from_spec (fun b => all_from (fun c => year_ok a b c) 4 0) 25 0); [|lia].
  apply (all_from_spec (fun a => all_from (fun b => all_from (fun c => year_ok a b c) 4 0) 25 0) 4 0);
    [|lia].
  by vm_compute.
Qed.

Lemma ord2ymd_shift n k :
  ord2ymd (n + 146097 * k) = let '(y, m, d) := ord2ymd n in (y + 400 * k, m, d).
Proof.
  unfold ord2ymd. replace (n + 146097 * k - 1) with (n - 1 + k * 146097) by lia.
  rewrite Z.div_add, Z.mod_add by lia. cbv zeta.
  case_match; [|destruct (month_day _ _)]; do 2 f_equal; lia.
Qed.

Lemma is_leap_shift y k : is_leap (y + 400 * k) = is_leap y.
Proof.
  unfold is_leap.
  replace ((y + 400 * k) mod 4) with (y mod 4)
    by (rewrite <-(Z.mod_add y (100 * k) 4) by lia; f_equal; lia).
  replace ((y + 400 * k) mod 100) with (y mod 100)
    by (rewrite <-(Z.mod_add y (4 * k) 100) by lia; f_equal; lia).
  replace ((y + 400 * k) mod 400) with (y mod 400)
    by (rewrite <-(Z.mod_add y k 400) by lia; f_equal; lia).
  done.
Qed.

Lemma ymd2ord_shift y m d k : ymd2ord (y + 400 * k) m d = ymd2ord y m d + 146097 * k.
Proof.
  unfold ymd2ord, days_before_month, days_before_year. rewrite is_leap_shift. cbv zeta.
  replace ((y + 400 * k - 1) / 4) with ((y - 1) / 4 + 100 * k)
    by (rewrite <-Z.div_add by lia; f_equal; lia).
  replace ((y + 400 * k - 1) / 100) with ((y - 1) / 100 + 4 * k)
    by (rewrite <-Z.div_add by lia; f_equal; lia).
  replace ((y + 400 * k - 1) / 400) with ((y - 1) / 400 + k)
    by (rewrite <-Z.div_add by lia; f_equal; lia).
  lia.
Qed.

(** The first cycle, by its centuries, four-year parts and years. *)
Lemma ord2ymd_cycle n y m d :
  1 <= n <= 146097 -> ord2ymd n = (y, m, d) ->
  ymd2ord y m d = n /\ (1 <= y <= 400) /\ (1 <= m <= 12) /\ (1 <= d <= days_in_month y m).
Proof.
  intros Hn. unfold ord2ymd. cbv zeta.
  rewrite (Z.div_small (n - 1) 146097), (Z.mod_small (n - 1) 146097) by lia.
  set (a := (n - 1) / 36524). set (r1 := (n - 1) mod 36524).
  set (b := r1 / 1461). set (r2 := r1 mod 1461). set (c := r2 / 365). set (r := r2 mod 365).
  assert (n - 1 = 36524 * a + r1 /\ 0 <= r1 < 36524) as [E1 B1].
  { split; [apply Z.div_mod | apply Z.mod_pos_bound]; lia. }
  assert (r1 = 1461 * b + r2 /\ 0 <= r2 < 1461) as [E2 B2].
  { split; [apply Z.div_mod | apply Z.mod_pos_bound]; lia. }
  assert (r2 = 365 * c + r /\ 0 <= r < 365) as [E3 B3].
  { split; [apply Z.div_mod | apply Z.mod_pos_bound]; lia. }
  clearbody a r1 b r2 c r.
  assert (0 <= a <= 4 /\ 0 <= b <= 24 /\ 0 <= c <= 4) as (Ha & Hb & Hc) by lia.
  destruct (Z.eqb_spec a 4) as [->|Ha4].
  { rewrite orb_true_r. assert (b = 0 /\ c = 0) as [-> ->] by lia. intros [= <- <- <-].
    split; [|by vm_compute]. assert (n = 146097) as -> by lia. by vm_compute. }
  rewrite orb_false_r.
  destruct (Z.eqb_spec c 4) as [->|Hc4].
  - intros [= <- <- <-]. assert (b <= 23) by lia.
    pose proof (year_checked a b 3 ltac:(lia) ltac:(lia) ltac:(lia)) as Hy.
    unfold year_ok in Hy. apply andb_true_iff in Hy as [Hy1%Z.eqb_eq Hy2%eqb_prop].
    replace (0 * 400 + 1 + a * 100 + b * 4 + 4 - 1) with (1 + a * 100 + b * 4 + 3) by lia.
    unfold ymd2ord, days_before_month, days_in_month. rewrite Hy1, Hy2.
    rewrite (proj2 (Z.eqb_neq b 24)) by lia. change (at_month month_offsets 12) with 334.
    change (at_month month_lengths 12) with 31.
    change ((2 <? 12) && _) with true. change ((12 =? 2) && _) with false. lia.
  - pose proof (year_checked a b c ltac:(lia) ltac:(lia) ltac:(lia)) as Hy.
    unfold year_ok in Hy. apply andb_true_iff in Hy as [Hy1%Z.eqb_eq Hy2%eqb_prop].
    replace (0 * 400 + 1 + a * 100 + b * 4 + c) with (1 + a * 100 + b * 4 + c) by lia.
    rewrite <-Hy2. set (leap := is_leap (1 + a * 100 + b * 4 + c)) in *.
    pose proof (month_day_checked leap r B3) as Hm. unfold month_day_ok in Hm.
    destruct (month_day leap r) as [m0 d0]. intros [= <- <- <-].
    rewrite !andb_true_iff, !Z.leb_le, Z.eqb_eq in Hm.
    unfold ymd2ord, days_before_month, days_in_month. rewrite Hy1. fold leap. lia.
Qed.

Lemma ord2ymd_spec n y m d :
  1 <= n <= max_ordinal -> ord2ymd n = (y, m, d) ->
  ymd2ord y m d = n /\ valid_date y m d = true.
Proof.
  intros Hn. unfold max_ordinal in Hn.
  set (k := (n - 1) / 146097). set (r := (n - 1) mod 146097 + 1).
  pose proof (Z.div_mod (n - 1) 146097 ltac:(lia)) as Hdm.
  pose proof (Z.mod_pos_bound (n - 1) 146097 ltac:(lia)) as Hb.
  assert (n = r + 146097 * k) as Hnr by (unfold r, k; lia).
  assert (0 <= k <= 24) as Hk by (unfold k; lia).
  rewrite Hnr, ord2ymd_shift. destruct (ord2ymd r) as [[y0 m0] d0] eqn:E0. intros [= <- <- <-].
  apply ord2ymd_cycle in E0 as (Hord & Hy & Hm & Hd); [|unfold r; lia].
  rewrite ymd2ord_shift, Hord. split; [done|].
  assert (y0 + 400 * k <= 9999).
  { destruct (decide (k = 24)) as [E|]; [|lia]. destruct (decide (y0 = 400)) as [->|]; [|lia].
    unfold ymd2ord, days_before_month in Hord. change (days_before_year 400) with 145731 in Hord.
    assert (0 <= at_month month_offsets m0).
    { unfold at_month.
      destruct (Z.to_nat m0) as [|[|[|[|[|[|[|[|[|[|[|[|[|[|?]]]]]]]]]]]]]]; cbn; lia. }
    destruct ((2 <? m0) && is_leap 400); lia. }
  unfold valid_date, days_in_month in *. rewrite is_leap_shift.
  rewrite !andb_true_iff, !Z.leb_le. lia.
Qed.

(** ** [isoformat(timespec="microseconds")] *)

Definition iso_fields (us : Z) : (Z * Z * Z) * (Z * Z * Z * Z) :=
  let day := us / day_us in
  let rest := us mod day_us in
  let sec := rest / 1000000 in
  (ord2ymd (day + 1), (sec / 3600, sec / 60 mod 60, sec mod 60, rest mod 1000000)).

Definition isoformat (d : datetime) : str :=
  let '((y, mo, da), (h, mi, s, us)) := iso_fields (dt_us d) in
  fixed 4 y ++ lit "-" ++ fixed 2 mo ++ lit "-" ++ fixed 2 da ++ lit "T"
  ++ fixed 2 h ++ lit ":" ++ fixed 2 mi ++ lit ":" ++ fixed 2 s ++ lit "." ++ fixed 6 us
  ++ (if dt_utc d then lit "+00:00" else []).

(** ** [datetime.fromisoformat]

    The extended calendar forms [YYYY-MM-DD?HH:MM], [...:SS] and [...:SS.f], without an
    offset or with [+00:00], are read here; for every other string (basic and week
    dates, other offsets, 24:00) the answer is the dialect's [iso_other]. *)

Class IsoDialect := iso_other : str -> option datetime.

(** The digits [s[i:j]], if they are digits. *)
Definition digits_at (s : str) (i n : nat) : option Z :=
  let w := take n (drop i s) in
  if (Nat.eqb (length w) n) && forallb is_digit w then Some (digits_value w) else None.

Definition char_at (s : str) (i : nat) (c : N) : option unit :=
  match s !! i with Some d => if (d =? c)%N then Some tt else None | None => None end.

(** Microseconds of a fraction: at most six digits count, missing ones are zeros. *)
Definition fraction (f : str) : Z := digits_value (take 6 (f ++ lit "000000")).

(** Seconds and fraction after [HH:MM]. *)
Definition iso_seconds (s : str) : option (Z * Z) :=
  match s with
  | [] => Some (0, 0)
  | _ =>
      _ ← char_at s 0 58;
      sec ← digits_at s 1 2;
      match drop 3 s with
      | [] => Some (sec, 0)
      | 46%N :: f => if forallb is_digit f && negb (bool_decide (f = [])) then Some (sec, fraction f) else None
      | _ => None
      end
  end.

Definition iso_shape (s : str) : option ((Z * Z * Z) * (Z * Z * Z * Z) * bool) :=
  y ← digits_at s 0 4; _ ← char_at s 4 45;
  mo ← digits_at s 5 2; _ ← char_at s 7 45;
  da ← digits_at s 8 2; _ ← s !! 10%nat;
  h ← digits_at s 11 2; _ ← char_at s 13 58;
  mi ← digits_at s 14 2;
  let rest := drop 16 s in
  let utc := endswith rest (lit "+00:00") in
  let body := if utc then take (length rest - 6) rest else rest in
  sf ← iso_seconds body;
  Some ((y, mo, da), (h, mi, sf.1, sf.2), utc).

Definition fromisoformat `{IsoDialect} (s : str) : option datetime :=
  match iso_shape s with
  | Some ((y, mo, da), (h, mi, sec, us), utc) =>
      if h =? 24 then iso_other s
      else if valid_date y mo da && (h <? 24) && (mi <? 60) && (sec <? 60)
      then Some (Datetime ((ymd2ord y mo da - 1) * day_us
                           + (h * 3600 + mi * 60 + sec) * 1000000 + us) utc)
      else None
  | None => iso_other s
  end.

(** ** Round trip *)

(** [isoformat] up to the offset. *)
Definition iso_body (us : Z) : str :=
  let '((y, mo, da), (h, mi, s, u)) := iso_fields us in
  fixed 4 y ++ lit "-" ++ fixed 2 mo ++ lit "-" ++ fixed 2 da ++ lit "T"
  ++ fixed 2 h ++ lit ":" ++ fixed 2 mi ++ lit ":" ++ fixed 2 s ++ lit "." ++ fixed 6 u.

Lemma isoformat_utc us : isoformat (Datetime us true) = iso_body us ++ lit "+00:00".
Proof.
  unfold isoformat, iso_body. cbn [dt_us dt_utc].
  destruct (iso_fields us) as [[[y mo] da] [[[h mi] s] u]]. by rewrite <-!app_assoc.
Qed.

Lemma digits_explicit w n : 0 <= n < 10 ^ Z.of_nat w ->
  exists ds, fixed w n = ds /\ length ds = w /\ forallb is_digit ds = true /\ digits_value ds = n.
Proof.
  intros. exists (fixed w n). repeat split; auto using length_fixed, fixed_digits, digits_value_fixed.
Qed.

Lemma iso_shape_body (y mo da h mi s u : Z) :
  0 <= y < 10000 -> 0 <= mo < 100 -> 0 <= da < 100 ->
  0 <= h < 100 -> 0 <= mi < 100 -> 0 <= s < 100 -> 0 <= u < 1000000 ->
  iso_shape ((fixed 4 y ++ lit "-" ++ fixed 2 mo ++ lit "-" ++ fixed 2 da ++ lit "T"
    ++ fixed 2 h ++ lit ":" ++ fixed 2 mi ++ lit ":" ++ fixed 2 s ++ lit "." ++ fixed 6 u)
    ++ lit "+00:00")
  = Some ((y, mo, da), (h, mi, s, u), true).
Proof.
  intros Hy Hmo Hda Hh Hmi Hs Hu.
  destruct (digits_explicit 4 y Hy) as (dy & -> & Ly & Dy & Vy).
  destruct (digits_explicit 2 mo Hmo) as (dmo & -> & Lmo & Dmo & Vmo).
  destruct (digits_explicit 2 da Hda) as (dda & -> & Lda & Dda & Vda).
  destruct (digits_explicit 2 h Hh) as (dh & -> & Lh & Dh & Vh).
  destruct (digits_explicit 2 mi Hmi) as (dmi & -> & Lmi & Dmi & Vmi).
  destruct (digits_explicit 2 s Hs) as (ds & -> & Ls & Ds & Vs).
  destruct (digits_explicit 6 u Hu) as (du & -> & Lu & Du & Vu).
  destruct dy as [|y1 [|y2 [|y3 [|y4 [|]]]]]; try discriminate Ly.
  destruct dmo as [|o1 [|o2 [|]]]; try discriminate Lmo.
  destruct dda as [|a1 [|a2 [|]]]; try discriminate Lda.
  destruct dh as [|h1 [|h2 [|]]]; try discriminate Lh.
  destruct dmi as [|i1 [|i2 [|]]]; try discriminate Lmi.
  destruct ds as [|s1 [|s2 [|]]]; try discriminate Ls.
  destruct du as [|u1 [|u2 [|u3 [|u4 [|u5 [|u6 [|]]]]]]]; try discriminate Lu.
  lits. unfold iso_shape, digits_at, char_at. cbn -[digits_value forallb endswith iso_seconds N.eqb].
  rewrite Dy, Dmo, Dda, Dh, Dmi, !N.eqb_refl. cbn -[digits_value forallb endswith iso_seconds].
  match goal with |- context [endswith ?r ?p] => change (endswith r p) with true end.
  unfold iso_seconds, digits_at, char_at. cbn -[digits_value forallb N.eqb].
  rewrite Ds, N.eqb_refl. cbn -[digits_value forallb]. rewrite Du. cbn -[digits_value].
  unfold fraction. lits. cbn -[digits_value]. by rewrite Vy, Vmo, Vda, Vh, Vmi, Vs, Vu.
Qed.

Lemma iso_fields_bounds us y mo da h mi s u :
  0 <= us < max_ordinal * day_us -> iso_fields us = ((y, mo, da), (h, mi, s, u)) ->
  valid_date y mo da = true /\ 0 <= h < 24 /\ 0 <= mi < 60 /\ 0 <= s < 60 /\ 0 <= u < 1000000
  /\ (ymd2ord y mo da - 1) * day_us + (h * 3600 + mi * 60 + s) * 1000000 + u = us.
Proof.
  intros Hus. unfold iso_fields. cbv zeta. intros E.
  destruct (ord2ymd (us / day_us + 1)) as [[y0 m0] d0] eqn:E0. injection E as -> -> -> <- <- <- <-.
  unfold day_us, max_ordinal in *.
  pose proof (Z.div_mod us 86400000000 ltac:(lia)) as H1.
  pose proof (Z.mod_pos_bound us 86400000000 ltac:(lia)) as H2.
  apply ord2ymd_spec in E0 as [Ho Hv]; [|unfold max_ordinal; lia].
  rewrite Ho. split; [done|].
  set (r := us mod 86400000000) in *. set (q := us / 86400000000) in *. clearbody r q.
  pose proof (Z.div_mod r 1000000 ltac:(lia)). pose proof (Z.mod_pos_bound r 1000000 ltac:(lia)).
  set (sec := r / 1000000) in *. set (u0 := r mod 1000000) in *. clearbody sec u0.
  replace (sec / 3600) with (sec / 60 / 60) by (rewrite Z.div_div by lia; f_equal; lia).
  pose proof (Z.div_mod sec 60 ltac:(lia)). pose proof (Z.mod_pos_bound sec 60 ltac:(lia)).
  set (m60 := sec / 60) in *. set (s60 := sec mod 60) in *. clearbody m60 s60.
  pose proof (Z.div_mod m60 60 ltac:(lia)). pose proof (Z.mod_pos_bound m60 60 ltac:(lia)). lia.
Qed.

(** Reading back a printed UTC timestamp. *)
Lemma fromisoformat_body `{IsoDialect} us :
  0 <= us < max_ordinal * day_us ->
  fromisoformat (iso_body us ++ lit "+00:00") = Some (Datetime us true).
Proof.
  intros Hus. unfold fromisoformat, iso_body.
  destruct (iso_fields us) as [[[y mo] da] [[[h mi] s] u]] eqn:E.
  pose proof (iso_fields_bounds _ _ _ _ _ _ _ _ Hus E) as (Hv & Hh & Hmi & Hs & Hu & Heq).
  pose proof Hv as Hv'. unfold valid_date in Hv'. rewrite !andb_true_iff, !Z.leb_le in Hv'.
  assert (days_in_month y mo <= 99).
  { unfold days_in_month, at_month.
    destruct (Z.to_nat mo) as [|[|[|[|[|[|[|[|[|[|[|[|[|[|?]]]]]]]]]]]]]]; cbn;
      destruct ((mo =? 2) && is_leap y); lia. }
  rewrite iso_shape_body by lia. rewrite Hv.
  rewrite (proj2 (Z.eqb_neq h 24)) by lia.
  rewrite (proj2 (Z.ltb_lt h 24)), (proj2 (Z.ltb_lt mi 60)), (proj2 (Z.ltb_lt s 60)) by lia.
  cbn -[Z.mul Z.add Z.sub]. by rewrite Heq.
Qed.

(** No code point of a printed body is a plus sign, so [.replace("+00:00", "Z")] only
    touches the offset. *)
Lemma replace_go_skip old new s : replace_go old new s (length s) = [].
Proof. induction s as [|c s IH]; [done | apply IH]. Qed.

Lemma replace_go_suffix c old new s :
  c ∉ s -> replace_go (c :: old) new (s ++ c :: old) 0 = s ++ new.
Proof.
  induction s as [|d s IH]; intros Hc.
  - simpl. rewrite N.eqb_refl. replace (startswith old old) with true.
    2: { symmetry. apply startswith_spec. exists []. by rewrite app_nil_r. }
    simpl. by rewrite Nat.sub_0_r, replace_go_skip, app_nil_r.
  - apply not_elem_of_cons in Hc as [Hd Hs]. simpl.
    rewrite (proj2 (N.eqb_neq c d)) by done. simpl. by rewrite IH.
Qed.

Lemma fixed_no_plus w n : 43%N ∉ fixed w n.
Proof.
  intros H%list_elem_of_In. pose proof (fixed_digits w n) as Hd. rewrite forallb_forall in Hd.
  apply Hd in H. by vm_compute in H.
Qed.

Lemma iso_body_no_plus us : 43%N ∉ iso_body us.
Proof.
  unfold iso_body. destruct (iso_fields us) as [[[y mo] da] [[[h mi] s] u]]. lits.
  rewrite !elem_of_app. intros H.
  repeat match type of H with _ \/ _ => destruct H as [H|H] end;
    try (by apply fixed_no_plus in H);
    apply list_elem_of_singleton in H; discriminate H.
Qed.

(** [value.isoformat(timespec="microseconds").replace("+00:00", "Z")] *)
Definition timestamp_text (d : datetime) : str :=
  replace (isoformat d) (lit "+00:00") (lit "Z").

Lemma timestamp_text_utc us : timestamp_text (Datetime us true) = iso_body us ++ lit "Z".
Proof.
  unfold timestamp_text, replace. rewrite isoformat_utc. lits.
  apply replace_go_suffix, iso_body_no_plus.
Qed.

Lemma length_iso_body us : length (iso_body us) = 26%nat.
Proof.
  unfold iso_body. destruct (iso_fields us) as [[[y mo] da] [[[h mi] s] u]]. lits.
  rewrite !length_app, !length_fixed. done.
Qed.

Lemma iso_body_T us : iso_body us !! 10%nat = Some 84%N.
Proof.
  unfold iso_body. destruct (iso_fields us) as [[[y mo] da] [[[h mi] s] u]]. lits.
  reflexivity.
Qed.
