(* ===== verification/Models.v ===== *)
(** * The data of the protocol and of the persistent state

    [models.py], [storage_types.py] and [notification_types.py]: string enumerations,
    records, and the exceptions the modules raise. *)

From S2P Require Import Prelude PyStr Calendar.

Open Scope Z_scope.

(** ** String enumerations

    A Python [StrEnum]: its members in order, the string of each, and the look-up
    [Enum(s)]. *)

Class StrEnum (A : Type) `{EqDecision A} := {
  members : list A;
  value : A -> str;
  members_complete a : a ∈ members;
  values_distinct : bool_decide (NoDup (value <$> members)) = true;
}.
#[global] Hint Mode StrEnum ! - : typeclass_instances.

Section StrEnum.
Context `{StrEnum A}.

#[global] Instance value_inj : Inj (=) (=) (value (A:=A)).
Proof.
  intros a b Hab. pose proof (values_distinct (A:=A)) as Hd. apply bool_decide_eq_true in Hd.
  pose proof (members_complete a) as [i Hi]%list_elem_of_lookup.
  pose proof (members_complete b) as [j Hj]%list_elem_of_lookup.
  assert (i = j) as ->; [|congruence].
  apply (NoDup_lookup (value (A:=A) <$> members) i j (value a)); [done| |].
  - by rewrite list_lookup_fmap, Hi.
  - by rewrite list_lookup_fmap, Hj, Hab.
Qed.

(** [Enum(s)], [None] where it raises [ValueError]. *)
Definition enum_of (s : str) : option A :=
  List.find (fun a => bool_decide (value a = s)) members.

Lemma enum_of_value a : enum_of (value a) = Some a.
Proof.
  unfold enum_of. destruct (List.find _ members) as [b|] eqn:E.
  - apply find_some in E as [_ E%bool_decide_eq_true]. f_equal. by apply (inj value).
  - pose proof (find_none _ _ E a) as Hn. rewrite bool_decide_eq_false in Hn.
    exfalso. apply Hn; [|done]. apply list_elem_of_In, members_complete.
Qed.

Lemma enum_of_Some s a : enum_of s = Some a -> value a = s.
Proof. intros [_ E]%find_some. by apply bool_decide_eq_true in E. Qed.

#[global] Program Instance strenum_countable : Countable A :=
  inj_countable (value (A:=A)) enum_of _.
Next Obligation. intros a. apply enum_of_value. Qed.
End StrEnum.

(** [set(Enum)] *)
Definition all_members (A : Type) `{StrEnum A} : gset A := list_to_set members.

Ltac solve_complete := intros []; vm_compute; set_solver.
Ltac solve_distinct := vm_compute; reflexivity.

(** ** The enumerations *)

Inductive SourceStatus :=
| SS_OK
| SS_NOT_APPLICABLE
| SS_MISSING_DEPENDENCY
| SS_OFFLINE
| SS_TIMEOUT
| SS_ERROR
| SS_INVALID
| SS_STALE.

#[global] Instance SourceStatus_eq_dec : EqDecision SourceStatus.
Proof. solve_decision. Defined.

#[global] Program Instance SourceStatus_enum : StrEnum SourceStatus := {|
  members := [SS_OK; SS_NOT_APPLICABLE; SS_MISSING_DEPENDENCY; SS_OFFLINE; SS_TIMEOUT; SS_ERROR; SS_INVALID; SS_STALE];
  value a := lit match a with
    | SS_OK => "ok"
    | SS_NOT_APPLICABLE => "not_applicable"
    | SS_MISSING_DEPENDENCY => "missing_dependency"
    | SS_OFFLINE => "offline"
    | SS_TIMEOUT => "timeout"
    | SS_ERROR => "error"
    | SS_INVALID => "invalid"
    | SS_STALE => "stale"
    end%string;
|}.
Next Obligation. solve_complete. Qed.
Next Obligation. solve_distinct. Qed.

Inductive ScanState :=
| COMPLETE
| PARTIAL
| FAILED_SCAN.

#[global] Instance ScanState_eq_dec : EqDecision ScanState.
Proof. solve_decision. Defined.

#[global] Program Instance ScanState_enum : StrEnum ScanState := {|
  members := [COMPLETE; PARTIAL; FAILED_SCAN];
  value a := lit match a with
    | COMPLETE => "complete"
    | PARTIAL => "partial"
    | FAILED_SCAN => "failed"
    end%string;
|}.
Next Obligation. solve_complete. Qed.
Next Obligation. solve_distinct. Qed.

Inductive SourceName :=
| SN_SECURITY
| SN_CISA_KEV
| SN_OMARCHY
| SN_ARCH
| SN_AUR
| SN_FLATPAK
| SN_MISE.

#[global] Instance SourceName_eq_dec : EqDecision SourceName.
Proof. solve_decision. Defined.

#[global] Program Instance SourceName_enum : StrEnum SourceName := {|
  members := [SN_SECURITY; SN_CISA_KEV; SN_OMARCHY; SN_ARCH; SN_AUR; SN_FLATPAK; SN_MISE];
  value a := lit match a with
    | SN_SECURITY => "security"
    | SN_CISA_KEV => "cisa-kev"
    | SN_OMARCHY => "omarchy"
    | SN_ARCH => "arch"
    | SN_AUR => "aur"
    | SN_FLATPAK => "flatpak"
    | SN_MISE => "mise"
    end%string;
|}.
Next Obligation. solve_complete. Qed.
Next Obligation. solve_distinct. Qed.

Inductive SourceScope :=
| USER
| SYSTEM.

#[global] Instance SourceScope_eq_dec : EqDecision SourceScope.
Proof. solve_decision. Defined.

#[global] Program Instance SourceScope_enum : StrEnum SourceScope := {|
  members := [USER; SYSTEM];
  value a := lit match a with
    | USER => "user"
    | SYSTEM => "system"
    end%string;
|}.
Next Obligation. solve_complete. Qed.
Next Obligation. solve_distinct. Qed.

Inductive ItemSource :=
| IS_OMARCHY
| IS_ARCH
| IS_AUR
| IS_FLATPAK
| IS_MISE.

#[global] Instance ItemSource_eq_dec : EqDecision ItemSource.
Proof. solve_decision. Defined.

#[global] Program Instance ItemSource_enum : StrEnum ItemSource := {|
  members := [IS_OMARCHY; IS_ARCH; IS_AUR; IS_FLATPAK; IS_MISE];
  value a := lit match a with
    | IS_OMARCHY => "omarchy"
    | IS_ARCH => "arch"
    | IS_AUR => "aur"
    | IS_FLATPAK => "flatpak"
    | IS_MISE => "mise"
    end%string;
|}.
Next Obligation. solve_complete. Qed.
Next Obligation. solve_distinct. Qed.

Inductive WatchMode :=
| OFF
| TEMPORARY
| PERMANENT.

#[global] Instance WatchMode_eq_dec : EqDecision WatchMode.
Proof. solve_decision. Defined.

#[global] Program Instance WatchMode_enum : StrEnum WatchMode := {|
  members := [OFF; TEMPORARY; PERMANENT];
  value a := lit match a with
    | OFF => "off"
    | TEMPORARY => "temporary"
    | PERMANENT => "permanent"
    end%string;
|}.
Next Obligation. solve_complete. Qed.
Next Obligation. solve_distinct. Qed.

Inductive Severity :=
| SEV_UNKNOWN
| SEV_LOW
| SEV_MEDIUM
| SEV_HIGH
| SEV_CRITICAL.

#[global] Instance Severity_eq_dec : EqDecision Severity.
Proof. solve_decision. Defined.

#[global] Program Instance Severity_enum : StrEnum Severity := {|
  members := [SEV_UNKNOWN; SEV_LOW; SEV_MEDIUM; SEV_HIGH; SEV_CRITICAL];
  value a := lit match a with
    | SEV_UNKNOWN => "unknown"
    | SEV_LOW => "low"
    | SEV_MEDIUM => "medium"
    | SEV_HIGH => "high"
    | SEV_CRITICAL => "critical"
    end%string;
|}.
Next Obligation. solve_complete. Qed.
Next Obligation. solve_distinct. Qed.

Inductive ArchStatus :=
| AS_UNKNOWN
| AS_VULNERABLE
| AS_TESTING
| AS_FIXED
| AS_NOT_AFFECTED.

#[global] Instance ArchStatus_eq_dec : EqDecision ArchStatus.
Proof. solve_decision. Defined.

#[global] Program Instance ArchStatus_enum : StrEnum ArchStatus := {|
  members := [AS_UNKNOWN; AS_VULNERABLE; AS_TESTING; AS_FIXED; AS_NOT_AFFECTED];
  value a := lit match a with
    | AS_UNKNOWN => "Unknown"
    | AS_VULNERABLE => "Vulnerable"
    | AS_TESTING => "Testing"
    | AS_FIXED => "Fixed"
    | AS_NOT_AFFECTED => "Not affected"
    end%string;
|}.
Next Obligation. solve_complete. Qed.
Next Obligation. solve_distinct. Qed.

Inductive KevStatus :=
| LISTED
| NOT_LISTED
| KEV_UNAVAILABLE.

#[global] Instance KevStatus_eq_dec : EqDecision KevStatus.
Proof. solve_decision. Defined.

#[global] Program Instance KevStatus_enum : StrEnum KevStatus := {|
  members := [LISTED; NOT_LISTED; KEV_UNAVAILABLE];
  value a := lit match a with
    | LISTED => "listed"
    | NOT_LISTED => "not_listed"
    | KEV_UNAVAILABLE => "unavailable"
    end%string;
|}.
Next Obligation. solve_complete. Qed.
Next Obligation. solve_distinct. Qed.

Inductive Provenance :=
| LIVE
| CACHE
| LAST_GOOD
| FALLBACK.

#[global] Instance Provenance_eq_dec : EqDecision Provenance.
Proof. solve_decision. Defined.

#[global] Program Instance Provenance_enum : StrEnum Provenance := {|
  members := [LIVE; CACHE; LAST_GOOD; FALLBACK];
  value a := lit match a with
    | LIVE => "live"
    | CACHE => "cache"
    | LAST_GOOD => "last_good"
    | FALLBACK => "fallback"
    end%string;
|}.
Next Obligation. solve_complete. Qed.
Next Obligation. solve_distinct. Qed.

Inductive NotificationStatus :=
| DELIVERED
| PENDING
| SUPPRESSED
| FAILED.

#[global] Instance NotificationStatus_eq_dec : EqDecision NotificationStatus.
Proof. solve_decision. Defined.

#[global] Program Instance NotificationStatus_enum : StrEnum NotificationStatus := {|
  members := [DELIVERED; PENDING; SUPPRESSED; FAILED];
  value a := lit match a with
    | DELIVERED => "delivered"
    | PENDING => "pending"
    | SUPPRESSED => "suppressed"
    | FAILED => "failed"
    end%string;
|}.
Next Obligation. solve_complete. Qed.
Next Obligation. solve_distinct. Qed.

Inductive ResponseKind :=
| RK_SNAPSHOT
| RK_INVENTORY
| RK_STAR_RESULT
| RK_ERROR.

#[global] Instance ResponseKind_eq_dec : EqDecision ResponseKind.
Proof. solve_decision. Defined.

#[global] Program Instance ResponseKind_enum : StrEnum ResponseKind := {|
  members := [RK_SNAPSHOT; RK_INVENTORY; RK_STAR_RESULT; RK_ERROR];
  value a := lit match a with
    | RK_SNAPSHOT => "snapshot"
    | RK_INVENTORY => "inventory"
    | RK_STAR_RESULT => "star-result"
    | RK_ERROR => "error"
    end%string;
|}.
Next Obligation. solve_complete. Qed.
Next Obligation. solve_distinct. Qed.

Inductive ErrorCode :=
| CLI_USAGE
| STATE_UNAVAILABLE
| INVALID_UTF8
| PAYLOAD_TOO_LARGE
| MALFORMED_JSON
| INVALID_TYPE
| MISSING_FIELD
| UNKNOWN_FIELD
| PROTOCOL_VERSION_MISSING
| PROTOCOL_VERSION_INVALID
| PROTOCOL_VERSION_FUTURE
| UNKNOWN_ENUM
| INVALID_TIMESTAMP
| INVALID_ENVELOPE
| DUPLICATE_ITEM_ID
| DUPLICATE_FINDING_ID
| OUTPUT_TOO_LARGE
| SOURCE_INVALID
| SOURCE_UNAVAILABLE.

#[global] Instance ErrorCode_eq_dec : EqDecision ErrorCode.
Proof. solve_decision. Defined.

#[global] Program Instance ErrorCode_enum : StrEnum ErrorCode := {|
  members := [CLI_USAGE; STATE_UNAVAILABLE; INVALID_UTF8; PAYLOAD_TOO_LARGE; MALFORMED_JSON; INVALID_TYPE; MISSING_FIELD; UNKNOWN_FIELD; PROTOCOL_VERSION_MISSING; PROTOCOL_VERSION_INVALID; PROTOCOL_VERSION_FUTURE; UNKNOWN_ENUM; INVALID_TIMESTAMP; INVALID_ENVELOPE; DUPLICATE_ITEM_ID; DUPLICATE_FINDING_ID; OUTPUT_TOO_LARGE; SOURCE_INVALID; SOURCE_UNAVAILABLE];
  value a := lit match a with
    | CLI_USAGE => "CLI_USAGE"
    | STATE_UNAVAILABLE => "STATE_UNAVAILABLE"
    | INVALID_UTF8 => "INVALID_UTF8"
    | PAYLOAD_TOO_LARGE => "PAYLOAD_TOO_LARGE"
    | MALFORMED_JSON => "MALFORMED_JSON"
    | INVALID_TYPE => "INVALID_TYPE"
    | MISSING_FIELD => "MISSING_FIELD"
    | UNKNOWN_FIELD => "UNKNOWN_FIELD"
    | PROTOCOL_VERSION_MISSING => "PROTOCOL_VERSION_MISSING"
    | PROTOCOL_VERSION_INVALID => "PROTOCOL_VERSION_INVALID"
    | PROTOCOL_VERSION_FUTURE => "PROTOCOL_VERSION_FUTURE"
    | UNKNOWN_ENUM => "UNKNOWN_ENUM"
    | INVALID_TIMESTAMP => "INVALID_TIMESTAMP"
    | INVALID_ENVELOPE => "INVALID_ENVELOPE"
    | DUPLICATE_ITEM_ID => "DUPLICATE_ITEM_ID"
    | DUPLICATE_FINDING_ID => "DUPLICATE_FINDING_ID"
    | OUTPUT_TOO_LARGE => "OUTPUT_TOO_LARGE"
    | SOURCE_INVALID => "SOURCE_INVALID"
    | SOURCE_UNAVAILABLE => "SOURCE_UNAVAILABLE"
    end%string;
|}.
Next Obligation. solve_complete. Qed.
Next Obligation. solve_distinct. Qed.

Inductive NotificationKind :=
| NK_WATCH
| NK_SECURITY
| NK_SECURITY_CONDITION.

#[global] Instance NotificationKind_eq_dec : EqDecision NotificationKind.
Proof. solve_decision. Defined.

#[global] Program Instance NotificationKind_enum : StrEnum NotificationKind := {|
  members := [NK_WATCH; NK_SECURITY; NK_SECURITY_CONDITION];
  value a := lit match a with
    | NK_WATCH => "watch"
    | NK_SECURITY => "security"
    | NK_SECURITY_CONDITION => "security-condition"
    end%string;
|}.
Next Obligation. solve_complete. Qed.
Next Obligation. solve_distinct. Qed.

Inductive NotificationChange :=
| FIRST
| NEW
| UNCHANGED.

#[global] Instance NotificationChange_eq_dec : EqDecision NotificationChange.
Proof. solve_decision. Defined.

#[global] Program Instance NotificationChange_enum : StrEnum NotificationChange := {|
  members := [FIRST; NEW; UNCHANGED];
  value a := lit match a with
    | FIRST => "first"
    | NEW => "new"
    | UNCHANGED => "unchanged"
    end%string;
|}.
Next Obligation. solve_complete. Qed.
Next Obligation. solve_distinct. Qed.

Inductive FeedName :=
| FEED_ARCH_SECURITY
| FEED_CISA_KEV.

#[global] Instance FeedName_eq_dec : EqDecision FeedName.
Proof. solve_decision. Defined.

#[global] Program Instance FeedName_enum : StrEnum FeedName := {|
  members := [FEED_ARCH_SECURITY; FEED_CISA_KEV];
  value a := lit match a with
    | FEED_ARCH_SECURITY => "arch-security"
    | FEED_CISA_KEV => "cisa-kev"
    end%string;
|}.
Next Obligation. solve_complete. Qed.
Next Obligation. solve_distinct. Qed.

Inductive StorageWarning :=
| STATE_CORRUPT.

#[global] Instance StorageWarning_eq_dec : EqDecision StorageWarning.
Proof. solve_decision. Defined.

#[global] Program Instance StorageWarning_enum : StrEnum StorageWarning := {|
  members := [STATE_CORRUPT];
  value a := lit match a with
    | STATE_CORRUPT => "state_corrupt"
    end%string;
|}.
Next Obligation. solve_complete. Qed.
Next Obligation. solve_distinct. Qed.

(** ** Errors

    [ErrorInfo] is data (it travels in responses); [exn] is what the functions raise:
    the helper's own exceptions and the built-in ones that reach its boundaries. [Killed] is
    no exception but the end of the process: nothing catches it. *)

Record ErrorInfo := { code : ErrorCode; message : str }.

#[global] Instance ErrorInfo_eq_dec : EqDecision ErrorInfo.
Proof. solve_decision. Defined.

Inductive exn :=
| ProtocolError (error : ErrorInfo)
| StateCorruptError (reason : str)
| StateSchemaIncompatible (schema_version : Z)
| StoragePathError (variable : str)
| WatchTransitionError (reason : str)
| CliUsageError (msg : str)
| CliUnavailableError (msg : str)
| TypeError
| ValueError
| UnicodeDecodeError
| UnicodeEncodeError
| StopIteration
| OverflowError
| IndexError
| KeyError
| JSONDecodeError
| RecursionError
| OSError
| Killed.

#[global] Instance exn_eq_dec : EqDecision exn.
Proof. solve_decision. Defined.

Abbreviation res := (outcome exn).

(** [raise ProtocolError(ErrorInfo(code, message))] *)
Definition fail {A} (c : ErrorCode) (msg : str) : res A :=
  Err (ProtocolError {| code := c; message := msg |}).

Definition protocol_error (e : exn) : Prop := exists info, e = ProtocolError info.

Lemma protocol_error_intro info : protocol_error (ProtocolError info).
Proof. by exists info. Qed.

Lemma fail_raises {A} c msg : raises protocol_error (fail c msg : res A).
Proof. intros e [= <-]. apply protocol_error_intro. Qed.
#[export] Hint Resolve protocol_error_intro fail_raises : raises.

(** [a < b] on timestamps: an aware and a naive value do not compare. *)
Definition dt_cmp (test : Z -> Z -> bool) (a b : datetime) : res bool :=
  if Bool.eqb (dt_utc a) (dt_utc b) then Ok (test (dt_us a) (dt_us b)) else Err TypeError.

(** [d + timedelta], outside the years 1 to 9999 an [OverflowError]. *)
Definition dt_plus (d : datetime) (delta : Z) : res datetime :=
  let d' := dt_add d delta in
  if (0 <=? dt_us d') && (dt_us d' <? max_ordinal * day_us) then Ok d' else Err OverflowError.

Lemma dt_plus_Ok d delta d' : dt_plus d delta = Ok d' <-> d' = dt_add d delta /\ in_range d'.
Proof.
  unfold dt_plus, in_range. destruct (_ && _) eqn:E.
  - apply andb_true_iff in E. rewrite Z.leb_le, Z.ltb_lt in E. naive_solver.
  - apply andb_false_iff in E. rewrite Z.leb_gt, Z.ltb_ge in E. split; [done|]. intros [-> ?]. lia.
Qed.

(** ** Records of [models.py]

    Identifiers ([ItemId], [FindingId], [GenerationId], [NotificationFingerprint]) are
    strings, as their [NewType]s are. *)

Definition PROTOCOL_VERSION : Z := 1.

Record ScopeHealth := {
  sc_scope : SourceScope;
  sc_status : SourceStatus;
  sc_provenance : Provenance;
  sc_observed_at : datetime;
  sc_fresh_until : datetime;
  sc_cause : option ErrorInfo;
}.

Record SourceHealth := {
  sh_source : SourceName;
  sh_status : SourceStatus;
  sh_provenance : Provenance;
  sh_observed_at : datetime;
  sh_fresh_until : datetime;
  sh_cause : option ErrorInfo;
  sh_scopes : list ScopeHealth;
}.

Record Summary := {
  total_updates : Z;
  watched_updates : Z;
  security_findings : Z;
  degraded_sources : Z;
}.

Record NormalizedItem := {
  item_id : str;
  item_source : ItemSource;
  label : str;
  installed : option str;
  candidate : option str;
  watch_mode : WatchMode;
  watchable : bool;
  item_provenance : Provenance;
  installed_fingerprint : option str;
  candidate_fingerprint : option str;
  watch_armed : bool;
}.

Record SecurityFinding := {
  finding_id : str;
  finding_item_id : str;
  advisory_id : str;
  cve_ids : list str;
  severity : Severity;
  fixed_version : option str;
  known_exploited : bool;
  finding_provenance : Provenance;
  finding_status : ArchStatus;
  advisory_type : str;
  installed_version : option str;
  kev_status : KevStatus;
  kev_provenance : option Provenance;
}.

Record SecurityFindingGroup := {
  group_item_id : str;
  group_findings : list SecurityFinding;
}.

Record NotificationOutcome := {
  outcome_fingerprint : str;
  outcome_status : NotificationStatus;
}.

Record SnapshotPayload := {
  scan_state_of : ScanState;
  sources : list SourceHealth;
  summary_of : Summary;
  items : list NormalizedItem;
  findings : list SecurityFindingGroup;
  notifications : list NotificationOutcome;
}.

Record InventoryPayload := {
  inv_source : ItemSource;
  inv_total : Z;
  inv_items : list NormalizedItem;
}.

Record StarResultPayload := {
  star_item_id : str;
  star_mode : WatchMode;
  star_armed : bool;
}.

(** The envelope fields common to the four kinds of response. *)
Record Meta := {
  generated_at : datetime;
  generation_id : str;
  protocol_version_of : Z;
}.

Record SnapshotResponse := { snap_meta : Meta; snap_payload : SnapshotPayload }.
Record InventoryResponse := { inv_meta : Meta; inv_payload : InventoryPayload }.

Inductive Response :=
| RSnapshot (r : SnapshotResponse)
| RInventory (r : InventoryResponse)
| RStar (m : Meta) (p : StarResultPayload)
| RError (m : Meta) (e : ErrorInfo).

Definition response_meta (r : Response) : Meta :=
  match r with
  | RSnapshot r => snap_meta r
  | RInventory r => inv_meta r
  | RStar m _ | RError m _ => m
  end.

(** ** Records of [storage_types.py] *)

Record SecurityFixCondition := {
  cond_advisory_id : str;
  cond_cve_ids : list str;
  cond_fixed_version : str;
}.

Record WatchRecord := {
  w_item_id : str;
  w_mode : WatchMode;
  w_installed_fingerprint : option str;
  w_candidate_fingerprint : option str;
  w_armed : bool;
  w_condition : option SecurityFixCondition;
}.

Record LedgerEntry := {
  e_fingerprint : str;
  e_status : NotificationStatus;
  e_recorded_at : datetime;
  e_lease_token : option str;
  e_lease_expires_at : option datetime;
}.

(** [LedgerEntry.is_active] *)
Definition is_active (e : LedgerEntry) : bool :=
  match e_status e with
  | PENDING => true
  | DELIVERED | SUPPRESSED | FAILED => false
  end.

Record SourceMetadata := {
  md_source : SourceName;
  md_last_success : option datetime;
  md_backoff_until : option datetime;
  md_failure_count : Z;
  md_permanent_failure : bool;
}.

Record PersistentState := {
  st_watches : list WatchRecord;
  st_ledger : list LedgerEntry;
  st_sources : list SourceMetadata;
}.

Definition empty_state : PersistentState :=
  {| st_watches := []; st_ledger := []; st_sources := [] |}.

#[global] Instance SecurityFixCondition_eq_dec : EqDecision SecurityFixCondition.
Proof. solve_decision. Defined.
#[global] Instance WatchRecord_eq_dec : EqDecision WatchRecord.
Proof. solve_decision. Defined.
#[global] Instance LedgerEntry_eq_dec : EqDecision LedgerEntry.
Proof. solve_decision. Defined.
#[global] Instance SourceMetadata_eq_dec : EqDecision SourceMetadata.
Proof. solve_decision. Defined.
#[global] Instance PersistentState_eq_dec : EqDecision PersistentState.
Proof. solve_decision. Defined.

(** ** Records of [notification_types.py] *)

Record NotificationSettings := {
  notify_permanent : bool;
  notify_security : bool;
  security_minimum_severity : Severity;
}.
Definition default_notification_settings : NotificationSettings :=
  {| notify_permanent := true; notify_security := true; security_minimum_severity := SEV_HIGH |}.

Record NotificationCandidate := {
  c_fingerprint : str;
  c_reference : str;
  c_kind : NotificationKind;
  c_change : NotificationChange;
  c_title : str;
  c_body : str;
}.

(** ** Uniqueness tests

    [len({key(x) for x in l}) != len(l)] is how the code detects duplicates. *)

Definition unique (l : list str) : bool :=
  Nat.eqb (size (list_to_set l : gset str)) (length l).

Lemma size_list_to_set_le (l : list str) : (size (list_to_set l : gset str) <= length l)%nat.
Proof.
  induction l as [|x l IH]; [by rewrite list_to_set_nil, size_empty|].
  rewrite list_to_set_cons, length_cons, size_union_alt, size_singleton. apply le_n_S. etransitivity; [|exact IH].
  apply subseteq_size. set_solver.
Qed.

Lemma unique_spec l : unique l = true <-> NoDup l.
Proof.
  unfold unique. rewrite Nat.eqb_eq. induction l as [|x l IH].
  - rewrite list_to_set_nil, size_empty. split; [constructor | done].
  - rewrite list_to_set_cons, length_cons, NoDup_cons. pose proof (size_list_to_set_le l) as Hle.
    destruct (decide (x ∈ l)) as [Hx|Hx].
    + replace ({[x]} ∪ list_to_set l : gset str) with (list_to_set l : gset str) by set_solver.
      split; [lia | naive_solver].
    + rewrite size_union by set_solver. rewrite size_singleton, <-IH.
      split; [intros; split; [done | lia] | intros [_ ->]; lia].
Qed.
