(* ===== verification/Samples.v ===== *)
(** * Sample data

    The concrete responses and states the witnesses of the theorems are evaluated on. *)

From S2P Require Import Prelude PyStr Calendar Models.

Open Scope Z_scope.

(** Noon of a day of 2021, in UTC. *)
Definition sample_now : datetime := Datetime (738000 * day_us + hours 12) true.
Definition sample_later : datetime := dt_add sample_now (hours 24).

Definition sample_cause : ErrorInfo := {| code := STATE_UNAVAILABLE; message := lit "flatpak is missing" |}.

Definition sample_scope (scope : SourceScope) : ScopeHealth := {|
  sc_scope := scope; sc_status := SS_MISSING_DEPENDENCY; sc_provenance := LIVE;
  sc_observed_at := sample_now; sc_fresh_until := sample_now; sc_cause := Some sample_cause;
|}.

Definition sample_source (source : SourceName) : SourceHealth := {|
  sh_source := source; sh_status := SS_OK; sh_provenance := LIVE;
  sh_observed_at := sample_now; sh_fresh_until := sample_later; sh_cause := None;
  sh_scopes := if bool_decide (source = SN_FLATPAK) then sample_scope <$> members else [];
|}.

Definition sample_item : NormalizedItem := {|
  item_id := lit "arch:openssl"; item_source := IS_ARCH; label := lit "openssl";
  installed := Some (lit "3.0.1-1"); candidate := Some (lit "3.0.2-1");
  watch_mode := TEMPORARY; watchable := true; item_provenance := LIVE;
  installed_fingerprint := Some (lit "arch:3.0.1-1"); candidate_fingerprint := Some (lit "arch:3.0.2-1");
  watch_armed := true;
|}.

Definition sample_finding : SecurityFinding := {|
  finding_id := lit "AVG-2765"; finding_item_id := lit "arch:openssl"; advisory_id := lit "AVG-2765";
  cve_ids := [lit "CVE-2022-0778"]; severity := SEV_HIGH; fixed_version := Some (lit "3.0.2-1");
  known_exploited := true; finding_provenance := LIVE; finding_status := AS_FIXED;
  advisory_type := lit "denial of service"; installed_version := Some (lit "3.0.1-1");
  kev_status := LISTED; kev_provenance := Some CACHE;
|}.

Definition sample_meta : Meta := {|
  generated_at := sample_now; generation_id := lit "scan-1"; protocol_version_of := PROTOCOL_VERSION;
|}.

Definition sample_snapshot : SnapshotResponse := {|
  snap_meta := sample_meta;
  snap_payload := {|
    scan_state_of := COMPLETE; sources := sample_source <$> members;
    summary_of := {| total_updates := 1; watched_updates := 1; security_findings := 1; degraded_sources := 0 |};
    items := [sample_item];
    findings := [{| group_item_id := lit "arch:openssl"; group_findings := [sample_finding] |}];
    notifications := [{| outcome_fingerprint := lit "watch-v1:arch:openssl"; outcome_status := DELIVERED |}];
  |};
|}.

(** A temporary watch on [sample_item] that waits for its fix, a permanent one, and a
    ledger with a delivered entry and one under a lease. *)
Definition sample_watches : list WatchRecord := [
  {| w_item_id := lit "arch:openssl"; w_mode := TEMPORARY;
     w_installed_fingerprint := Some (lit "arch:3.0.1-1");
     w_candidate_fingerprint := Some (lit "arch:3.0.2-1"); w_armed := true; w_condition := None |};
  {| w_item_id := lit "aur:paru"; w_mode := PERMANENT; w_installed_fingerprint := None;
     w_candidate_fingerprint := None; w_armed := false; w_condition := None |}].

Definition sample_delivered : LedgerEntry := {|
  e_fingerprint := lit "security-v1:00:11"; e_status := DELIVERED; e_recorded_at := sample_now;
  e_lease_token := None; e_lease_expires_at := None;
|}.

Definition sample_leased : LedgerEntry := {|
  e_fingerprint := lit "watch-v1:arch:openssl:22"; e_status := PENDING; e_recorded_at := sample_now;
  e_lease_token := Some (lit "token"); e_lease_expires_at := Some (dt_add sample_now (seconds 30));
|}.

Definition sample_state : PersistentState := {|
  st_watches := sample_watches;
  st_ledger := [sample_delivered; sample_leased];
  st_sources := [{| md_source := SN_ARCH; md_last_success := Some sample_now; md_backoff_until := None;
                    md_failure_count := 0; md_permanent_failure := false |}];
|}.

Definition sample_inventory : InventoryResponse := {|
  inv_meta := sample_meta;
  inv_payload := {| inv_source := IS_ARCH; inv_total := 1; inv_items := [sample_item] |};
|}.
