(* ===== verification/Json.v ===== *)
(** * JSON values

    [json_value.py]: the values [json.loads] builds, the normalisation that follows it,
    and the equivalence that forgets the order of object keys. A Python [dict] is its
    list of items in insertion order. *)

#[local] Set Warnings "-register-all".
From S2P Require Import Prelude PyStr Calendar Models.

Open Scope Z_scope.

(** A [float] is kept as its source text: no code under [src/] looks inside one. *)
Inductive json :=
| JNull
| JBool (b : bool)
| JInt (z : Z)
| JFloat (lexeme : str)
| JStr (s : str)
| JList (l : list json)
| JObj (d : list (str * json)).

Abbreviation dict := (list (str * json)).

(** [d[k]], [None] where it raises [KeyError]; also [d.get(k)]. *)
Fixpoint dict_get (d : dict) (k : str) : option json :=
  match d with
  | [] => None
  | (k', v) :: d' => if bool_decide (k = k') then Some v else dict_get d' k
  end.

(** [k in d] *)
Definition dict_mem (d : dict) (k : str) : bool := bool_decide (is_Some (dict_get d k)).

Definition keys (d : dict) : list str := d.*1.

Lemma dict_get_keys d k : is_Some (dict_get d k) <-> k ∈ keys d.
Proof.
  induction d as [|[k' v] d IH]; simpl.
  - split; [by intros [? ?] | by intros ?%elem_of_nil].
  - rewrite elem_of_cons, <-IH. case_bool_decide; naive_solver.
Qed.

Section JsonInd.
Context (P : json -> Prop).
Context (Hnull : P JNull) (Hbool : forall b, P (JBool b)) (Hint : forall z, P (JInt z)).
Context (Hfloat : forall s, P (JFloat s)) (Hstr : forall s, P (JStr s)).
Context (Hlist : forall l, Forall P l -> P (JList l)).
Context (Hobj : forall d, Forall (fun kv => P kv.2) d -> P (JObj d)).

Fixpoint json_ind' (v : json) : P v :=
  match v with
  | JNull => Hnull
  | JBool b => Hbool b
  | JInt z => Hint z
  | JFloat s => Hfloat s
  | JStr s => Hstr s
  | JList l =>
      Hlist l ((fix go l : Forall P l :=
        match l with [] => Forall_nil_2 _ | x :: l' => Forall_cons_2 _ x l' (json_ind' x) (go l') end) l)
  | JObj d =>
      Hobj d ((fix go d : Forall (fun kv => P kv.2) d :=
        match d with [] => Forall_nil_2 _ | kv :: d' => Forall_cons_2 _ kv d' (json_ind' kv.2) (go d') end) d)
  end.
End JsonInd.

(** ** Values up to the order of object keys *)

Inductive jeq : json -> json -> Prop :=
| jeq_null : jeq JNull JNull
| jeq_bool b : jeq (JBool b) (JBool b)
| jeq_int z : jeq (JInt z) (JInt z)
| jeq_float s : jeq (JFloat s) (JFloat s)
| jeq_str s : jeq (JStr s) (JStr s)
| jeq_list l k : Forall2 jeq l k -> jeq (JList l) (JList k)
| jeq_obj d e :
    (forall k, option_Forall2 jeq (dict_get d k) (dict_get e k)) -> jeq (JObj d) (JObj e).

Definition dict_eq (d e : dict) : Prop :=
  forall k, option_Forall2 jeq (dict_get d k) (dict_get e k).

#[global] Instance jeq_refl : Reflexive jeq.
Proof.
  intros v. induction v as [| | | | |l IH|d IH] using json_ind'; constructor.
  - by induction IH; constructor.
  - intros k. induction IH as [|[k' v] d Hv Hd IHd]; simpl; [constructor|].
    case_bool_decide; [by constructor | done].
Qed.

#[global] Instance dict_eq_refl : Reflexive dict_eq.
Proof. intros d k. destruct (dict_get d k); constructor. reflexivity. Qed.

Lemma dict_eq_mem d e k : dict_eq d e -> dict_mem d k = dict_mem e k.
Proof.
  intros H. specialize (H k). unfold dict_mem. apply bool_decide_ext. inversion H; naive_solver.
Qed.

Lemma dict_eq_keys d e k : dict_eq d e -> k ∈ keys d <-> k ∈ keys e.
Proof. intros H. rewrite <-!dict_get_keys. specialize (H k). inversion H; naive_solver. Qed.

Lemma dict_get_Some d k v : NoDup (keys d) -> dict_get d k = Some v <-> (k, v) ∈ d.
Proof.
  induction d as [|[k' v'] d IH]; simpl; [split; [done | by intros ?%elem_of_nil]|].
  rewrite NoDup_cons, elem_of_cons. intros [Hk Hd]. specialize (IH Hd). case_bool_decide as E.
  - subst k'. split; [naive_solver|]. intros [[= ->]|Hv]; [done|].
    destruct Hk. apply list_elem_of_fmap. by exists (k, v).
  - rewrite IH. naive_solver.
Qed.

(** Without duplicate keys the order of the items is the only thing two dicts differ in. *)
Lemma jeq_permutation d e : NoDup (keys d) -> d ≡ₚ e -> jeq (JObj d) (JObj e).
Proof.
  intros Hd He. constructor. intros k.
  assert (NoDup (keys e)) as Hd' by (unfold keys in *; by rewrite <-He).
  assert (dict_get d k = dict_get e k) as ->; [|destruct (dict_get e k); constructor; reflexivity].
  apply option_eq. intros v. by rewrite !dict_get_Some, He.
Qed.

(** ** [_normalize]

    Refuses unpaired surrogates and values nested deeper than 100 levels. *)

Definition MAX_JSON_DEPTH : Z := 100.

Definition is_surrogate (c : N) : bool := ((0xD800 <=? c) && (c <=? 0xDFFF))%N.

Definition _reject_surrogate (s : str) : res unit :=
  if existsb is_surrogate s
  then fail MALFORMED_JSON (lit "input contains an unpaired surrogate") else Ok tt.

Fixpoint _normalize (v : json) (depth : Z) : res json :=
  if MAX_JSON_DEPTH <? depth
  then fail MALFORMED_JSON (lit "input exceeds the JSON nesting limit")
  else
    match v with
    | JStr s => _ ← _reject_surrogate s; Ok (JStr s)
    | JList l => l' ← mapM (fun x => _normalize x (depth + 1)) l; Ok (JList l')
    | JObj d =>
        d' ← mapM (fun kv =>
               _ ← _reject_surrogate kv.1;
               x ← _normalize kv.2 (depth + 1);
               Ok (kv.1, x)) d;
        Ok (JObj d')
    | _ => Ok v
    end.

(** [_unique_object]: the hook [json.loads] applies to the pairs of each object. *)
Fixpoint _unique_object (pairs : dict) (seen : list str) : res dict :=
  match pairs with
  | [] => Ok []
  | (k, v) :: rest =>
      if bool_decide (k ∈ seen)
      then fail MALFORMED_JSON (lit "input contains a duplicate object key")
      else d ← _unique_object rest (k :: seen); Ok ((k, v) :: d)
  end.

(** Nesting of a value, the quantity [_normalize] bounds. *)
Fixpoint json_depth (v : json) : Z :=
  match v with
  | JList l => foldr (fun x acc => Z.max (1 + json_depth x) acc) 0 l
  | JObj d => foldr (fun kv acc => Z.max (1 + json_depth kv.2) acc) 0 d
  | _ => 0
  end.

(** No string or key of the value has a surrogate. *)
Fixpoint json_clean (v : json) : bool :=
  match v with
  | JStr s => negb (existsb is_surrogate s)
  | JList l => forallb json_clean l
  | JObj d => forallb (fun kv => negb (existsb is_surrogate kv.1) && json_clean kv.2) d
  | _ => true
  end.

Lemma reject_surrogate_Ok s u : _reject_surrogate s = Ok u <-> existsb is_surrogate s = false.
Proof. unfold _reject_surrogate, fail. destruct u, (existsb _ _); naive_solver. Qed.

Lemma foldr_max_le {A} (f : A -> Z) l b :
  foldr (fun x acc => Z.max (1 + f x) acc) 0 l <= b <-> 0 <= b /\ Forall (fun x => 1 + f x <= b) l.
Proof.
  induction l as [|x l IH]; simpl; [naive_solver|]. rewrite Z.max_lub_iff, Forall_cons, IH. tauto.
Qed.

Lemma Forall2_eq_and {A} (Q : A -> Prop) l k :
  Forall2 (fun x y => y = x /\ Q x) l k <-> k = l /\ Forall Q l.
Proof.
  split.
  - induction 1 as [|x y l k [-> ?] _ [-> ?]]; auto.
  - intros [-> H]. by induction H; constructor.
Qed.

Lemma Forall2_iff {A B} (R S : A -> B -> Prop) l k :
  Forall (fun x => forall y, R x y <-> S x y) l -> Forall2 R l k <-> Forall2 S l k.
Proof.
  intros H. revert k. induction H as [|x l Hx _ IH]; intros k.
  - split; inversion 1; constructor.
  - split; inversion 1; subst; constructor; try (by apply Hx); by apply IH.
Qed.

Lemma forallb_Forall {A} (f : A -> bool) l : forallb f l = true <-> Forall (fun x => f x = true) l.
Proof. induction l; simpl; [naive_solver|]. rewrite andb_true_iff, Forall_cons. tauto. Qed.

Lemma depth_bound {A} (f : A -> Z) l depth b :
  depth <= b ->
  Forall (fun x => depth + 1 + f x <= b) l
  <-> depth + foldr (fun x acc => Z.max (1 + f x) acc) 0 l <= b.
Proof.
  intros Hd. transitivity (foldr (fun x acc => Z.max (1 + f x) acc) 0 l <= b - depth); [|lia].
  rewrite foldr_max_le. split.
  - intros H. split; [lia|]. eapply Forall_impl; [exact H|]. cbn. lia.
  - intros [_ H]. eapply Forall_impl; [exact H|]. cbn. lia.
Qed.

(** [_normalize] returns its argument when the value is clean and nested at most 100
    deep, and raises otherwise. *)
Lemma normalize_spec v depth w :
  _normalize v depth = Ok w <->
  w = v /\ json_clean v = true /\ depth + json_depth v <= MAX_JSON_DEPTH.
Proof.
  revert depth w.
  induction v as [| | | | |l IH|d IH] using json_ind'; intros depth w;
    cbn [_normalize json_depth json_clean]; destruct (Z.ltb_spec MAX_JSON_DEPTH depth) as [Hlt|Hge].
  all: try (unfold fail; split; [done | lia]).
  all: try (split; [intros [= <-]; auto with lia | by intros (-> & _)]).
  - rewrite bind_Ok, negb_true_iff. setoid_rewrite reject_surrogate_Ok. split.
    + intros (? & ? & [= <-]). auto with lia.
    + intros (-> & ? & ?). by exists tt.
  - unfold fail. split; [done|]. intros (_ & _ & H).
    assert (foldr (fun x acc => Z.max (1 + json_depth x) acc) 0 l <= MAX_JSON_DEPTH - depth) as H' by lia.
    apply foldr_max_le in H'. lia.
  - rewrite bind_Ok. setoid_rewrite mapM_Ok.
    assert (forall k, Forall2 (fun x y => _normalize x (depth + 1) = Ok y) l k <->
              k = l /\ forallb json_clean l = true
              /\ depth + foldr (fun x acc => Z.max (1 + json_depth x) acc) 0 l <= MAX_JSON_DEPTH) as Hl.
    { intros k. rewrite <-depth_bound, forallb_Forall, <-Forall_and, <-Forall2_eq_and by done.
      apply Forall2_iff.
      eapply Forall_impl; [exact IH|]. intros x Hx y. apply Hx. }
    setoid_rewrite Hl. split; [intros (k & [-> ?] & [= <-]) | intros (-> & ? & ?); exists l]; naive_solver.
  - unfold fail. split; [done|]. intros (_ & _ & H).
    assert (foldr (fun x acc => Z.max (1 + json_depth x.2) acc) 0 d <= MAX_JSON_DEPTH - depth) as H' by lia.
    apply (foldr_max_le (fun x => json_depth x.2)) in H'. lia.
  - rewrite bind_Ok. setoid_rewrite mapM_Ok.
    set (c := fun kv : str * json => negb (existsb is_surrogate kv.1) && json_clean kv.2).
    assert (forall k, Forall2 (fun kv y =>
               (_ ← _reject_surrogate kv.1; x ← _normalize kv.2 (depth + 1); Ok (kv.1, x)) = Ok y) d k <->
              k = d /\ forallb c d = true
              /\ depth + foldr (fun kv acc => Z.max (1 + json_depth kv.2) acc) 0 d <= MAX_JSON_DEPTH) as Hl.
    { intros k. rewrite <-(depth_bound (fun kv : str * json => json_depth kv.2)) by done.
      rewrite forallb_Forall, <-Forall_and, <-Forall2_eq_and. apply Forall2_iff.
      eapply Forall_impl; [exact IH|]. intros [x v] Hx y. unfold c. cbn [fst snd].
      rewrite bind_Ok. setoid_rewrite bind_Ok. setoid_rewrite reject_surrogate_Ok. setoid_rewrite (Hx _).
      rewrite andb_true_iff, negb_true_iff. cbn [fst snd]. split.
      - intros (? & ? & ? & (? & ? & ?) & E). injection E as <-. subst. auto.
      - intros (E & [? ?] & ?). subst. exists tt. split; [done|]. exists v. auto. }
    setoid_rewrite Hl. split; [intros (k & [-> ?] & [= <-]) | intros (-> & ? & ?); exists d]; naive_solver.
Qed.
