(* ===== verification/JsonText.v ===== *)
(** * JSON text

    [json.loads] and [json.dumps] as [json_value.py], [protocol.py] and the storage
    modules call them, and [decode_json]. The scanner works on the text that is left; it
    follows the interpreter's own: the hook runs when an object closes, a lone escaped
    surrogate is kept, a number stops where its grammar does, and an integer of more than
    4300 digits raises [ValueError], as [str] does for one. *)

From S2P Require Import Prelude PyStr Decimals Models Json.

Open Scope N_scope.

(** [sys.get_int_max_str_digits()], unless the interpreter is told otherwise. *)
Definition MAX_STR_DIGITS : nat := 4300%nat.

Definition is_ws (c : N) : bool := (c =? 32) || (c =? 9) || (c =? 10) || (c =? 13).

Fixpoint skip_ws (s : str) : str :=
  match s with
  | [] => []
  | c :: r => if is_ws c then skip_ws r else s
  end.

(** The text after the character [n], when [n] comes next. *)
Definition after (n : N) (s : str) : option str :=
  match s with c :: r => if c =? n then Some r else None | [] => None end.

(** ** Strings *)

Definition hex_digit (c : N) : option N :=
  if is_digit c then Some (c - 48)
  else if (97 <=? c) && (c <=? 102) then Some (c - 87)
  else if (65 <=? c) && (c <=? 70) then Some (c - 55)
  else None.

Definition hex4 (a b c d : N) : option N :=
  match hex_digit a, hex_digit b, hex_digit c, hex_digit d with
  | Some a, Some b, Some c, Some d => Some (((a * 16 + b) * 16 + c) * 16 + d)
  | _, _, _, _ => None
  end.

Definition is_high (u : N) : bool := (0xD800 <=? u) && (u <=? 0xDBFF).
Definition is_low (u : N) : bool := (0xDC00 <=? u) && (u <=? 0xDFFF).
Definition join_surrogates (h l : N) : N := 0x10000 + (h - 0xD800) * 1024 + (l - 0xDC00).

(** The character a one-letter escape stands for. *)
Definition unescape (c : N) : option N :=
  if (c =? 34) || (c =? 92) || (c =? 47) then Some c
  else if c =? 98 then Some 8
  else if c =? 102 then Some 12
  else if c =? 110 then Some 10
  else if c =? 114 then Some 13
  else if c =? 116 then Some 9
  else None.

(** The string that starts after an opening quote, and the text after its closing one. *)
Fixpoint scan_string (s : str) : res (str * str) :=
  match s with
  | [] => Err JSONDecodeError
  | c :: r =>
      if c =? 34 then Ok ([], r)
      else if c <? 32 then Err JSONDecodeError
      else if negb (c =? 92) then '(t, rest) ← scan_string r; Ok (c :: t, rest)
      else
        match r with
        | [] => Err JSONDecodeError
        | e :: r1 =>
            if negb (e =? 117) then
              match unescape e with
              | Some x => '(t, rest) ← scan_string r1; Ok (x :: t, rest)
              | None => Err JSONDecodeError
              end
            else
              match r1 with
              | a :: b :: c :: d :: r2 =>
                  match hex4 a b c d with
                  | None => Err JSONDecodeError
                  | Some u =>
                      let lone := '(t, rest) ← scan_string r2; Ok (u :: t, rest) in
                      if negb (is_high u) then lone
                      else
                        match r2 with
                        | x :: y :: a :: b :: c :: d :: r3 =>
                            if negb ((x =? 92) && (y =? 117)) then lone
                            else
                              match hex4 a b c d with
                              | None => Err JSONDecodeError
                              | Some v =>
                                  if is_low v
                                  then '(t, rest) ← scan_string r3; Ok (join_surrogates u v :: t, rest)
                                  else lone
                              end
                        | _ => lone
                        end
                  end
              | _ => Err JSONDecodeError
              end
        end
  end.

(** ** Numbers *)

Fixpoint span_digits (s : str) : str * str :=
  match s with
  | c :: r => if is_digit c then let '(ds, rest) := span_digits r in (c :: ds, rest) else ([], s)
  | [] => ([], [])
  end.

(** [(\.\d+)?] *)
Definition scan_fraction (s : str) : str * str :=
  match after 46 s with
  | Some r => match span_digits r with ([], _) => ([], s) | (ds, rest) => (46 :: ds, rest) end
  | None => ([], s)
  end.

(** [([eE][-+]?\d+)?] *)
Definition scan_exponent (s : str) : str * str :=
  match s with
  | e :: r =>
      if (e =? 101) || (e =? 69) then
        let '(sign, r) := match r with
                          | c :: r' => if (c =? 43) || (c =? 45) then ([c], r') else ([], r)
                          | [] => ([], r)
                          end in
        match span_digits r with ([], _) => ([], s) | (ds, rest) => (e :: sign ++ ds, rest) end
      else ([], s)
  | [] => ([], s)
  end.

(** [int(text)] on a sign and digits. *)
Definition int_of (negative : bool) (ds : str) : res Z :=
  if (MAX_STR_DIGITS <? length ds)%nat then Err ValueError
  else Ok (if negative then - digits_value ds else digits_value ds)%Z.

(** A number after its sign. *)
Definition scan_unsigned (negative : bool) (r : str) : res (json * str) :=
  let '(ds, r) := match after 48 r with Some r' => ([48], r') | None => span_digits r end in
  match ds with
  | [] => Err JSONDecodeError
  | _ =>
      let '(fraction, r) := scan_fraction r in
      let '(exponent, r) := scan_exponent r in
      match fraction, exponent with
      | [], [] => z ← int_of negative ds; Ok (JInt z, r)
      | _, _ => Ok (JFloat ((if negative then [45] else []) ++ ds ++ fraction ++ exponent), r)
      end
  end.

Definition scan_number (s : str) : res (json * str) :=
  match after 45 s with Some r => scan_unsigned true r | None => scan_unsigned false s end.

(** ** Values *)

(** [_reject_constant], for [NaN], [Infinity] and [-Infinity]. *)
Definition _reject_constant {A} : res A := fail MALFORMED_JSON (lit "input is not valid JSON").

Section Containers.
Context (value : str -> res (json * str)).

(** The entries of an array, from its first value on; [fuel] bounds their number. *)
Fixpoint scan_elements (fuel : nat) (s : str) : res (list json * str) :=
  match fuel with
  | O => Err JSONDecodeError
  | S fuel =>
      '(v, r) ← value s;
      match after 93 (skip_ws r), after 44 (skip_ws r) with
      | Some rest, _ => Ok ([v], rest)
      | None, Some r => '(l, rest) ← scan_elements fuel (skip_ws r); Ok (v :: l, rest)
      | None, None => Err JSONDecodeError
      end
  end.

(** The pairs of an object, from the quote of its first key on. *)
Fixpoint scan_pairs (fuel : nat) (s : str) : res (dict * str) :=
  match fuel, after 34 s with
  | S fuel, Some r =>
      '(k, r) ← scan_string r;
      match after 58 (skip_ws r) with
      | None => Err JSONDecodeError
      | Some r =>
          '(v, r) ← value (skip_ws r);
          match after 125 (skip_ws r), after 44 (skip_ws r) with
          | Some rest, _ => Ok ([(k, v)], rest)
          | None, Some r => '(d, rest) ← scan_pairs fuel (skip_ws r); Ok ((k, v) :: d, rest)
          | None, None => Err JSONDecodeError
          end
      end
  | _, _ => Err JSONDecodeError
  end.
End Containers.

Section Hooks.
Context (object_pairs_hook : dict -> res dict) (parse_constant : str -> res json).

(** One value and the text after it. [stack] is how deep the interpreter can recurse. *)
Fixpoint scan_with (stack : nat) (s : str) : res (json * str) :=
  match s with
  | [] => Err JSONDecodeError
  | c :: r =>
      if c =? 34 then '(t, rest) ← scan_string r; Ok (JStr t, rest)
      else if c =? 123 then
        match stack with
        | O => Err RecursionError
        | S stack =>
            match after 125 (skip_ws r) with
            | Some rest => Ok (JObj [], rest)
            | None =>
                '(pairs, rest) ← scan_pairs (scan_with stack) (length r) (skip_ws r);
                d ← object_pairs_hook pairs;
                Ok (JObj d, rest)
            end
        end
      else if c =? 91 then
        match stack with
        | O => Err RecursionError
        | S stack =>
            match after 93 (skip_ws r) with
            | Some rest => Ok (JList [], rest)
            | None => '(l, rest) ← scan_elements (scan_with stack) (length r) (skip_ws r); Ok (JList l, rest)
            end
        end
      else if startswith s (lit "null") then Ok (JNull, drop 4 s)
      else if startswith s (lit "true") then Ok (JBool true, drop 4 s)
      else if startswith s (lit "false") then Ok (JBool false, drop 5 s)
      else if startswith s (lit "NaN") then v ← parse_constant (lit "NaN"); Ok (v, drop 3 s)
      else if startswith s (lit "Infinity") then v ← parse_constant (lit "Infinity"); Ok (v, drop 8 s)
      else if startswith s (lit "-Infinity") then v ← parse_constant (lit "-Infinity"); Ok (v, drop 9 s)
      else scan_number s
  end.
End Hooks.

(** With the hooks of [json_value.py]. *)
Abbreviation scan_once := (scan_with (fun pairs => _unique_object pairs []) (fun _ => _reject_constant)).

Section Decode.
Context (stack : nat).

(** [json.loads(text, object_pairs_hook=_unique_object, parse_constant=_reject_constant)] *)
Definition loads (text : str) : res json :=
  if startswith text [0xFEFF] then Err JSONDecodeError
  else
    '(v, r) ← scan_once stack (skip_ws text);
    match skip_ws r with [] => Ok v | _ => Err JSONDecodeError end.

Definition decode_json (text : str) : res json :=
  match (v ← loads text; _normalize v 0) with
  | Err JSONDecodeError | Err RecursionError => fail MALFORMED_JSON (lit "input is not valid JSON")
  | result => result
  end.
End Decode.

(** ** [json.dumps(value, ensure_ascii=False, separators=(",", ":"), sort_keys=True)] *)

Definition hex_char (n : N) : N := if n <? 10 then 48 + n else 87 + n.

Definition escape_char (c : N) : str :=
  if c =? 34 then lit "\" ++ [34]
  else if c =? 92 then lit "\\"
  else if c =? 10 then lit "\n"
  else if c =? 13 then lit "\r"
  else if c =? 9 then lit "\t"
  else if c =? 12 then lit "\f"
  else if c =? 8 then lit "\b"
  else if c <? 32 then lit "\u00" ++ [hex_char (c / 16); hex_char (c mod 16)]
  else [c].

Definition quote (s : str) : str := 34 :: (s ≫= escape_char) ++ [34].

Definition int_text (z : Z) : res str :=
  if (MAX_STR_DIGITS <? length (str_of_Z (Z.abs z)))%nat then Err ValueError else Ok (str_of_Z z).

(** Items sort by key: their keys are distinct. A [float] is never written; the model
    gives back its text. *)
Fixpoint dumps (v : json) : res str :=
  match v with
  | JNull => Ok (lit "null")
  | JBool b => Ok (if b then lit "true" else lit "false")
  | JInt z => int_text z
  | JFloat s => Ok s
  | JStr s => Ok (quote s)
  | JList l => ts ← mapM dumps l; Ok (lit "[" ++ join (lit ",") ts ++ lit "]")
  | JObj d =>
      ts ← mapM (fun kv => t ← dumps kv.2; Ok (kv.1, t)) d;
      Ok (lit "{" ++ join (lit ",") ((fun kt => quote kt.1 ++ lit ":" ++ kt.2) <$> sorted_by_key fst ts) ++ lit "}")
  end.

(** ** What is written is read *)

Lemma skip_ws_id c r : is_ws c = false -> skip_ws (c :: r) = c :: r.
Proof. simpl. by intros ->. Qed.

Definition control_ok (c : N) : bool :=
  bool_decide (hex4 48 48 (hex_char (c / 16)) (hex_char (c mod 16)) = Some c).

Lemma control_checked c : c < 32 -> hex4 48 48 (hex_char (c / 16)) (hex_char (c mod 16)) = Some c.
Proof.
  intros Hc. assert (forallb control_ok (N.of_nat <$> seq 0 32) = true) as H by (vm_compute; reflexivity).
  rewrite forallb_Forall, Forall_forall in H. apply (bool_decide_eq_true_1 _), H, list_elem_of_fmap.
  exists (N.to_nat c). rewrite N2Nat.id, elem_of_seq. lia.
Qed.

Lemma scan_unicode a b c d u t :
  hex4 a b c d = Some u -> is_high u = false ->
  scan_string (92 :: 117 :: a :: b :: c :: d :: t) = ('(s, rest) ← scan_string t; Ok (u :: s, rest)).
Proof. intros H1 H2. cbn -[hex4 is_high]. by rewrite H1, H2. Qed.

Lemma scan_escape c t : scan_string (escape_char c ++ t) = ('(s, rest) ← scan_string t; Ok (c :: s, rest)).
Proof.
  unfold escape_char. repeat (match goal with |- context [c =? ?n] => destruct (N.eqb_spec c n) as [->|?]; [done|] end).
  destruct (N.ltb_spec c 32) as [Hc|Hc].
  - pose proof (control_checked c Hc) as Hx. revert Hx.
    generalize (hex_char (c / 16)) (hex_char (c mod 16)). intros h l Hx.
    change ((lit "\u00" ++ [h; l]) ++ t) with (92 :: 117 :: 48 :: 48 :: h :: l :: t).
    apply scan_unicode; [exact Hx|]. unfold is_high. by destruct (N.leb_spec 0xD800 c); [lia|].
  - cbn -[N.eqb N.ltb]. destruct (N.eqb_spec c 34); [done|]. destruct (N.ltb_spec c 32); [lia|].
    by destruct (N.eqb_spec c 92).
Qed.

Lemma scan_quote s r : scan_string ((s ≫= escape_char) ++ 34 :: r) = Ok (s, r).
Proof. induction s as [|c s IH]; [done|]. csimpl. by rewrite <-app_assoc, scan_escape, IH. Qed.

(** What may follow a value in a document. *)
Definition stops (r : str) : Prop := match r with [] => True | c :: _ => c = 44 \/ c = 93 \/ c = 125 \/ c = 10 end.

Lemma stops_no_digit r : stops r -> span_digits r = ([], r).
Proof. destruct r as [|c r]; [done|]. by intros [->|[->|[->| ->]]]. Qed.

Lemma stops_no_fraction r : stops r -> scan_fraction r = ([], r) /\ scan_exponent r = ([], r).
Proof. destruct r as [|c r]; [done|]. by intros [->|[->|[->| ->]]]. Qed.

Lemma span_digits_app ds r : forallb is_digit ds = true -> stops r -> span_digits (ds ++ r) = (ds, r).
Proof.
  intros Hd Hr. induction ds as [|c ds IH]; [by apply stops_no_digit|]. simpl in *.
  apply andb_true_iff in Hd as [-> Hd]. by rewrite IH.
Qed.

Lemma span_numeral n r :
  stops r -> match after 48 (uint_str (N.to_uint n) ++ r) with
             | Some r' => ([48], r')
             | None => span_digits (uint_str (N.to_uint n) ++ r)
             end = (uint_str (N.to_uint n), r).
Proof.
  intros Hr. pose proof (uint_str_digits (N.to_uint n)) as Hd.
  destruct (uint_shape n) as [->|(c & ds & E & Hc & Hne & Hds)]; [done|]. rewrite E in *.
  rewrite (span_digits_app (c :: ds) r) by done. cbn [app after]. by destruct (N.eqb_spec c 48).
Qed.

Lemma scan_unsigned_text negative n r :
  stops r -> (length (uint_str (N.to_uint n)) <= MAX_STR_DIGITS)%nat ->
  scan_unsigned negative (uint_str (N.to_uint n) ++ r)
  = Ok (JInt (if negative then - Z.of_N n else Z.of_N n)%Z, r).
Proof.
  intros Hr Hl. unfold scan_unsigned. rewrite span_numeral by done.
  destruct (uint_str (N.to_uint n)) as [|c ds] eqn:E; [by apply uint_nonempty in E|]. rewrite <-E in *.
  destruct (stops_no_fraction r Hr) as [-> ->]. unfold int_of.
  destruct (Nat.ltb_spec MAX_STR_DIGITS (length (uint_str (N.to_uint n)))); [lia|]. by rewrite digits_value_N.
Qed.

Lemma numeral_head n : exists c ds, uint_str (N.to_uint n) = c :: ds /\ is_digit c = true.
Proof. destruct (uint_shape n) as [->|(c & ds & -> & ? & _)]; [by exists 48, [] | by exists c, ds]. Qed.

(** The first character of a number selects the number scanner. *)
Lemma scan_once_number stack c s :
  is_digit c = true \/ c = 45 /\ match s with [] => True | c :: _ => is_digit c = true end ->
  scan_once stack (c :: s) = scan_number (c :: s).
Proof.
  assert (forall c s, is_digit c = true -> forall d l, is_digit d = false -> startswith (c :: s) (d :: l) = false) as Hs.
  { intros c' s' Hc d l Hd. simpl. destruct (N.eqb_spec d c'); [congruence | done]. }
  assert (forall d, is_digit d = false -> is_digit c = true -> (c =? d) = false) as Hn.
  { intros d Hd Hc. apply N.eqb_neq. congruence. }
  intros [Hc|[-> Hd]].
  - destruct stack; cbn -[startswith is_digit scan_number];
      rewrite !(Hn 34), !(Hn 123), !(Hn 91) by done; change (lit "null") with (110 :: lit "ull");
      change (lit "true") with (116 :: lit "rue"); change (lit "false") with (102 :: lit "alse");
      change (lit "NaN") with (78 :: lit "aN"); change (lit "Infinity") with (73 :: lit "nfinity");
      change (lit "-Infinity") with (45 :: lit "Infinity"); by rewrite !Hs.
  - assert (startswith (45 :: s) (lit "-Infinity") = false) as Hi.
    { change (lit "-Infinity") with (45 :: 73 :: lit "nfinity"). destruct s as [|d s]; [done|].
      change (startswith (45 :: d :: s) (45 :: 73 :: lit "nfinity")) with (startswith (d :: s) (73 :: lit "nfinity")).
      by apply Hs. }
    destruct stack; cbn -[startswith scan_number]; rewrite Hi; reflexivity.
Qed.

Lemma scan_int stack z t r : int_text z = Ok t -> stops r -> scan_once stack (t ++ r) = Ok (JInt z, r).
Proof.
  unfold int_text. destruct (Nat.ltb_spec MAX_STR_DIGITS (length (str_of_Z (Z.abs z)))) as [|Hl]; [done|].
  intros [= <-] Hr.
  assert (forall n, exists c ds, uint_str (N.to_uint n) ++ r = c :: ds /\ is_digit c = true) as Hh.
  { intros n. destruct (numeral_head n) as (c & ds & -> & ?). by exists c, (ds ++ r). }
  destruct z as [|p|p].
  - change (str_of_Z 0 ++ r) with (48 :: r). rewrite scan_once_number by (by left).
    exact (scan_unsigned_text false 0 r Hr Hl).
  - change (str_of_Z (Z.pos p)) with (uint_str (N.to_uint (Npos p))) in *. destruct (Hh (Npos p)) as (c & ds & E & Hc).
    rewrite E, scan_once_number, <-E by auto. etransitivity; [|by apply (scan_unsigned_text false (Npos p) r)].
    rewrite E. unfold scan_number. cbn [after]. destruct (N.eqb_spec c 45) as [->|]; done.
  - change (str_of_Z (Z.neg p)) with (45 :: uint_str (N.to_uint (Npos p))) in *.
    change (str_of_Z (Z.abs (Z.neg p))) with (uint_str (N.to_uint (Npos p))) in Hl.
    destruct (Hh (Npos p)) as (c & ds & E & Hc). cbn [app]. rewrite scan_once_number by (right; by rewrite E).
    exact (scan_unsigned_text true (Npos p) r Hr Hl).
Qed.

Fixpoint writable (v : json) : bool :=
  match v with
  | JFloat _ => false
  | JList l => forallb writable l
  | JObj d => unique (keys d) && forallb (fun kv => writable kv.2) d
  | _ => true
  end.

(** The value as its text has it: keys sorted at every depth. *)
Fixpoint sort_keys (v : json) : json :=
  match v with
  | JList l => JList (sort_keys <$> l)
  | JObj d => JObj (sorted_by_key fst ((fun kv => (kv.1, sort_keys kv.2)) <$> d))
  | _ => v
  end.

Definition reads (value : str -> res (json * str)) (t : str) (v : json) : Prop :=
  forall r, stops r -> value (t ++ r) = Ok (v, r).

(** What the text of a value starts with. *)
Definition proper_head (t : str) : Prop := exists c t', t = c :: t' /\ is_ws c = false /\ c <> 93 /\ (c <? 128) = true.

Lemma scan_elements_join value ts vs fuel r :
  Forall2 (reads value) ts vs -> Forall proper_head ts -> ts <> [] -> (length ts <= fuel)%nat ->
  scan_elements value fuel (join (lit ",") ts ++ 93 :: r) = Ok (vs, r).
Proof.
  intros H. revert fuel. induction H as [|t v ts vs Ht Hts IH]; intros fuel Hh Hne Hf; [done|].
  destruct fuel as [|fuel]; [simpl in Hf; lia|]. apply Forall_cons in Hh as [_ Hh].
  destruct Hts as [|t' v' ts vs Ht' Hts].
  - cbn [join scan_elements]. rewrite Ht by (simpl; auto). done.
  - change (join (lit ",") (t :: t' :: ts) ++ 93 :: r) with ((t ++ 44 :: join (lit ",") (t' :: ts)) ++ 93 :: r).
    rewrite <-app_assoc. cbn [app]. cbn [scan_elements]. rewrite Ht by (simpl; auto). cbn [mbind outcome_bind].
    rewrite skip_ws_id by done. cbn [after N.eqb Pos.eqb].
    assert (exists s, join (lit ",") (t' :: ts) = t' ++ s) as [s Es].
    { destruct ts; [exists []; by rewrite app_nil_r | by eexists]. }
    pose proof Hh as Hh'. apply Forall_cons in Hh' as [(c & u & -> & Hc & _) _].
    rewrite Es. cbn [app]. rewrite skip_ws_id by done.
    change (c :: (u ++ s) ++ 93 :: r) with (((c :: u) ++ s) ++ 93 :: r). rewrite <-Es.
    rewrite IH; [done | done | done | simpl in *; lia].
Qed.

Definition pair_text (kt : str * str) : str := quote kt.1 ++ lit ":" ++ kt.2.

Lemma scan_pair value fuel k t v r :
  reads value t v -> proper_head t ->
  stops r ->
  scan_pairs value (S fuel) (pair_text (k, t) ++ r)
  = match after 125 (skip_ws r), after 44 (skip_ws r) with
    | Some rest, _ => Ok ([(k, v)], rest)
    | None, Some r => '(d, rest) ← scan_pairs value fuel (skip_ws r); Ok ((k, v) :: d, rest)
    | None, None => Err JSONDecodeError
    end.
Proof.
  intros Ht (c & t' & -> & Hc & _) Hr. unfold pair_text, quote. cbn [app fst snd].
  change (lit ":" ++ c :: t') with (58 :: c :: t'). rewrite <-!app_assoc. cbn [app scan_pairs].
  cbn [after N.eqb Pos.eqb]. rewrite scan_quote. cbn [mbind outcome_bind]. rewrite skip_ws_id by done.
  cbn [after N.eqb Pos.eqb]. rewrite skip_ws_id by done.
  change (c :: t' ++ r) with ((c :: t') ++ r). by rewrite Ht.
Qed.

Lemma scan_pairs_join value kts vs fuel r :
  Forall2 (fun kt v => reads value kt.2 v) kts vs -> Forall (fun kt => proper_head kt.2) kts -> kts <> [] ->
  (length kts <= fuel)%nat ->
  scan_pairs value fuel (join (lit ",") (pair_text <$> kts) ++ 125 :: r) = Ok (zip kts.*1 vs, r).
Proof.
  intros H. revert fuel. induction H as [|[k t] v kts vs Ht Hts IH]; intros fuel Hh Hne Hf; [done|].
  destruct fuel as [|fuel]; [simpl in Hf; lia|]. apply Forall_cons in Hh as [Hc Hh].
  destruct Hts as [|[k' t'] v' kts vs Ht' Hts].
  - cbn [join fmap list_fmap]. rewrite (scan_pair value fuel k t v) by (done || (simpl; auto)). done.
  - change (join (lit ",") (pair_text <$> (k, t) :: (k', t') :: kts) ++ 125 :: r)
      with ((pair_text (k, t) ++ 44 :: join (lit ",") (pair_text <$> (k', t') :: kts)) ++ 125 :: r).
    rewrite <-app_assoc. cbn [app]. rewrite (scan_pair value fuel k t v) by (done || (simpl; auto)).
    rewrite skip_ws_id by done. cbn [after N.eqb Pos.eqb].
    assert (exists s, join (lit ",") (pair_text <$> (k', t') :: kts) = 34 :: s) as [s Es].
    { destruct kts; by eexists. }
    rewrite Es. cbn [app]. rewrite skip_ws_id by done. change (34 :: s ++ 125 :: r) with ((34 :: s) ++ 125 :: r).
    rewrite <-Es, IH; [done | done | done | simpl in *; lia].
Qed.

Lemma unique_object_id d seen :
  NoDup (keys d) -> Forall (fun k => k ∉ seen) (keys d) -> _unique_object d seen = Ok d.
Proof.
  revert seen. induction d as [|[k v] d IH]; intros seen; simpl; [done|].
  rewrite NoDup_cons, Forall_cons. intros [Hk Hd] [Hs Hf]. rewrite bool_decide_false by done.
  rewrite IH; [done | done |]. apply Forall_forall. intros x Hx. rewrite Forall_forall in Hf.
  rewrite not_elem_of_cons. split; [by intros -> | auto].
Qed.

Lemma join_length ts : Forall proper_head ts -> (length ts <= length (join (lit ",") ts))%nat.
Proof.
  induction 1 as [|t ts (c & u & -> & _) _ IH]; [done|]. destruct ts as [|t' ts]; [simpl; lia|].
  change (join (lit ",") ((c :: u) :: t' :: ts)) with ((c :: u) ++ 44 :: join (lit ",") (t' :: ts)).
  rewrite length_app. simpl in *. lia.
Qed.

Lemma dumps_head v t : writable v = true -> dumps v = Ok t -> proper_head t.
Proof.
  intros Hw Hv. destruct v as [|b|z|x|s|l|d]; simpl in Hv; try discriminate Hw.
  - injection Hv as <-. by eexists _, _.
  - injection Hv as <-. destruct b; by eexists _, _.
  - unfold int_text in Hv. destruct (_ <? _)%nat; [done|]. injection Hv as <-.
    assert (forall c, is_digit c = true -> is_ws c = false /\ c <> 93 /\ (c <? 128) = true) as Hd.
    { intros c. unfold is_digit, is_ws. rewrite andb_true_iff, !N.leb_le. intros [? ?].
      rewrite !orb_false_iff, !N.eqb_neq, N.ltb_lt. lia. }
    destruct z as [|p|p]; [by eexists _, _| |by eexists _, _].
    destruct (numeral_head (Npos p)) as (c & ds & E & Hc). exists c, ds. split; [exact E | auto].
  - injection Hv as <-. by eexists _, _.
  - apply bind_Ok in Hv as (ts & _ & [= <-]). by eexists _, _.
  - apply bind_Ok in Hv as (ts & _ & [= <-]). by eexists _, _.
Qed.

(** The pairs of an object with their texts: sorting one sorts the other. *)
Lemma pair_texts d ts :
  mapM (fun kv => t ← dumps kv.2; Ok (kv.1, t)) d = Ok ts ->
  exists zs : list ((str * json) * str),
    d = zs.*1 /\ ts = (fun z => (z.1.1, z.2)) <$> zs /\ Forall (fun z => dumps z.1.2 = Ok z.2) zs.
Proof.
  rewrite mapM_Ok. induction 1 as [|[k v] kt d ts H _ (zs & -> & -> & Hz)]; [by exists []|].
  apply bind_Ok in H as (t & Ht & [= <-]). exists ((k, v, t) :: zs). split_and!; [done | done | by constructor].
Qed.

Definition key_leb (a b : (str * json) * str) : bool := str_leb a.1.1 b.1.1.

Lemma sorted_texts (zs : list ((str * json) * str)) :
  sorted_by_key fst ((fun z => (z.1.1, z.2)) <$> zs) = (fun z => (z.1.1, z.2)) <$> sorted_by key_leb zs.
Proof.
  exact (eq_sym (sorted_by_map (fun a b : str * str => str_leb a.1 b.1) (fun z : str * json * str => (z.1.1, z.2)) zs)).
Qed.

Lemma sorted_values (zs : list ((str * json) * str)) :
  sorted_by_key fst ((fun kv => (kv.1, sort_keys kv.2)) <$> zs.*1)
  = (fun z => (z.1.1, sort_keys z.1.2)) <$> sorted_by key_leb zs.
Proof.
  rewrite <-list_fmap_compose.
  exact (eq_sym (sorted_by_map (fun a b : str * json => str_leb a.1 b.1) (fun z : str * json * str => (z.1.1, sort_keys z.1.2)) zs)).
Qed.

Lemma scan_list stack l ts :
  Forall2 (reads (scan_once stack)) ts l -> Forall proper_head ts ->
  reads (scan_once (S stack)) (lit "[" ++ join (lit ",") ts ++ lit "]") (JList l).
Proof.
  intros Hts Hh r Hr. destruct Hts as [|t v ts l Ht Hts]; [done|].
  rewrite <-!app_assoc. change (lit "[" ++ ?x) with (91 :: x). change (lit "]" ++ r) with (93 :: r).
  pose proof (join_length _ Hh) as Hl. pose proof Hh as Hh'. apply Forall_cons in Hh' as [(c & u & -> & Hc & Hn & _) _].
  assert (exists s, join (lit ",") ((c :: u) :: ts) = c :: s) as [s Es] by (destruct ts; by eexists).
  cbn -[scan_elements join startswith]. rewrite Es. cbn [app]. rewrite skip_ws_id by done. cbn [after].
  destruct (N.eqb_spec c 93); [done|]. change (c :: s ++ 93 :: r) with ((c :: s) ++ 93 :: r).
  rewrite <-Es, (scan_elements_join _ _ (v :: l)); [done | by constructor | done | done |].
  rewrite length_app. simpl. simpl in Hl. lia.
Qed.

Lemma scan_object stack (zs : list ((str * json) * str)) :
  Forall (fun z => reads (scan_once stack) z.2 (sort_keys z.1.2) /\ proper_head z.2) zs ->
  NoDup ((fun z => z.1.1) <$> zs) ->
  reads (scan_once (S stack))
    (lit "{" ++ join (lit ",") (pair_text <$> ((fun z => (z.1.1, z.2)) <$> zs)) ++ lit "}")
    (JObj ((fun z => (z.1.1, sort_keys z.1.2)) <$> zs)).
Proof.
  intros Hz Hd r Hr. destruct zs as [|z zs]; [done|]. set (kts := (fun z => (z.1.1, z.2)) <$> z :: zs).
  rewrite <-!app_assoc. change (lit "{" ++ ?x) with (123 :: x). change (lit "}" ++ r) with (125 :: r).
  assert (Forall (fun kt : str * str => proper_head kt.2) kts) as Hh.
  { apply Forall_fmap. eapply Forall_impl; [exact Hz|]. by intros ? [_ ?]. }
  assert (length kts <= length (join (lit ",") (pair_text <$> kts)))%nat as Hl.
  { rewrite <-(length_fmap pair_text). apply join_length, Forall_fmap, Forall_true. intros kt. by eexists _, _. }
  assert (exists s, join (lit ",") (pair_text <$> kts) = 34 :: s) as [s Es] by (destruct zs; by eexists).
  cbn -[scan_pairs join startswith fmap]. fold kts. rewrite Es. cbn [app]. rewrite skip_ws_id by done.
  cbn [after N.eqb Pos.eqb]. change (34 :: s ++ 125 :: r) with ((34 :: s) ++ 125 :: r).
  rewrite <-Es, (scan_pairs_join _ _ ((fun z => sort_keys z.1.2) <$> z :: zs)); [| |exact Hh|done|rewrite length_app; lia].
  2:{ unfold kts. apply Forall2_fmap, Forall_Forall2_diag. eapply Forall_impl; [exact Hz|]. by intros ? [? _]. }
  cbn [mbind outcome_bind]. unfold kts.
  assert (forall l : list ((str * json) * str), zip ((fun z => (z.1.1, z.2)) <$> l).*1 ((fun z => sort_keys z.1.2) <$> l)
            = (fun z => (z.1.1, sort_keys z.1.2)) <$> l) as ->.
  { induction l as [|x l IH]; [done|]. csimpl. by rewrite IH. }
  rewrite unique_object_id; [done | |by apply Forall_true; intros ? ?%elem_of_nil].
  unfold keys. by rewrite <-list_fmap_compose.
Qed.

Lemma depth_children {A} (f : A -> Z) l b :
  (foldr (fun x acc => Z.max (1 + f x) acc) 0 l < b -> 0 < b /\ Forall (fun x => f x < b - 1) l)%Z.
Proof.
  intros H. assert (foldr (fun x acc => Z.max (1 + f x) acc) 0 l <= b - 1)%Z as H' by lia.
  apply foldr_max_le in H' as [H0 H']. split; [lia|]. eapply Forall_impl; [exact H'|]. cbn. lia.
Qed.

(** [json.loads] reads what [json.dumps] writes, with the keys in order. *)
Lemma scan_dumps v : forall stack t,
  writable v = true -> dumps v = Ok t -> (json_depth v < Z.of_nat stack)%Z -> reads (scan_once stack) t (sort_keys v).
Proof.
  induction v as [| | | | |l IH|d IH] using json_ind'; intros stack t Hw Hv Hd; try discriminate Hw.
  1-2: injection Hv as <-; intros r Hr; destruct stack, r; try destruct b; reflexivity.
  - intros r Hr. by apply scan_int.
  - injection Hv as <-. intros r Hr. unfold quote. cbn [app].
    assert (forall u, scan_once stack (34 :: u) = ('(t, rest) ← scan_string u; Ok (JStr t, rest))) as -> by (by destruct stack).
    rewrite <-app_assoc. cbn [app]. by rewrite scan_quote.
  - cbn [dumps] in Hv. apply bind_Ok in Hv as (ts & Hts & [= <-]). apply mapM_Ok in Hts.
    cbn [json_depth] in Hd. apply depth_children in Hd as [Hs Hd]. destruct stack as [|stack]; [lia|].
    cbn [writable] in Hw. rewrite forallb_Forall in Hw. change (sort_keys (JList l)) with (JList (sort_keys <$> l)).
    assert (Forall2 (reads (scan_once stack)) ts (sort_keys <$> l) /\ Forall proper_head ts) as [H1 H2]; [|by apply scan_list].
    induction Hts as [|x t l ts Ht _ IHl]; [split; constructor|].
    apply Forall_cons in IH as [Hx IH], Hd as [Hdx Hd], Hw as [Hwx Hw]. destruct IHl as [H1 H2]; [done..|].
    split; constructor; [apply Hx; [done | done | lia] | done | by eapply dumps_head | done].
  - cbn [dumps] in Hv. apply bind_Ok in Hv as (ts & Hts & [= <-]). apply pair_texts in Hts as (zs & -> & -> & Hz).
    cbn [json_depth] in Hd. apply (depth_children (fun kv => json_depth kv.2)) in Hd as [Hs Hd]. destruct stack as [|stack]; [lia|].
    cbn [writable] in Hw. apply andb_true_iff in Hw as [Hu%unique_spec Hw]. rewrite forallb_Forall in Hw.
    change (sort_keys (JObj zs.*1)) with (JObj (sorted_by_key fst ((fun kv => (kv.1, sort_keys kv.2)) <$> zs.*1))).
    rewrite sorted_texts, sorted_values. apply scan_object.
    + rewrite Forall_fmap in IH, Hd, Hw. rewrite sorted_by_Permutation. rewrite Forall_forall in IH, Hd, Hw, Hz |- *.
      intros z Hin. specialize (Hd z Hin). split; [|by eapply dumps_head; [apply (Hw z) | apply Hz]].
      apply (IH z Hin); [by apply (Hw z) | by apply Hz | simpl in Hd; lia].
    + rewrite sorted_by_Permutation. unfold keys in Hu. by rewrite <-list_fmap_compose in Hu.
Qed.

Lemma sorted_pairs_Permutation d :
  sorted_by_key fst ((fun kv => (kv.1, sort_keys kv.2)) <$> d) ≡ₚ (fun kv => (kv.1, sort_keys kv.2)) <$> d.
Proof. apply sorted_by_Permutation. Qed.

(** Sorting keys changes a value only up to the order of keys. *)
Lemma sort_keys_jeq v : writable v = true -> jeq v (sort_keys v).
Proof.
  induction v as [| | | | |l IH|d IH] using json_ind'; intros Hw; try (constructor; fail).
  - cbn [writable] in Hw. rewrite forallb_Forall in Hw. constructor. apply Forall2_fmap_r, Forall_Forall2_diag.
    rewrite Forall_forall in Hw, IH |- *. auto.
  - cbn [writable] in Hw. apply andb_true_iff in Hw as [Hu%unique_spec Hw]. rewrite forallb_Forall in Hw.
    assert (keys ((fun kv => (kv.1, sort_keys kv.2)) <$> d) = keys d) as Hk by (unfold keys; by rewrite <-list_fmap_compose).
    change (sort_keys (JObj d)) with (JObj (sorted_by_key fst ((fun kv => (kv.1, sort_keys kv.2)) <$> d))).
    constructor. intros k.
    assert (dict_get (sorted_by_key fst ((fun kv => (kv.1, sort_keys kv.2)) <$> d)) k
            = dict_get ((fun kv => (kv.1, sort_keys kv.2)) <$> d) k) as ->.
    { apply option_eq. intros x. rewrite !dict_get_Some, sorted_pairs_Permutation; [done | by rewrite Hk|].
      unfold keys. rewrite sorted_pairs_Permutation. fold (keys ((fun kv => (kv.1, sort_keys kv.2)) <$> d)). by rewrite Hk. }
    clear Hu Hk. induction IH as [|[k' x] d Hx _ IHd]; simpl; [constructor|].
    apply Forall_cons in Hw as [Hwx Hw]. case_bool_decide; [constructor; by apply Hx | by apply IHd].
Qed.

Lemma sort_keys_depth v b : (json_depth v <= b)%Z -> (json_depth (sort_keys v) <= b)%Z.
Proof.
  revert b. induction v as [| | | | |l IH|d IH] using json_ind'; try done; intros b.
  - cbn [sort_keys json_depth]. rewrite !(foldr_max_le json_depth). rewrite Forall_fmap. intros [? H].
    split; [done|]. rewrite Forall_forall in IH, H |- *. intros x Hx. specialize (H x Hx). cbn.
    specialize (IH x Hx (b - 1)%Z). lia.
  - cbn [sort_keys json_depth]. rewrite !(foldr_max_le (fun kv => json_depth kv.2)).
    rewrite sorted_pairs_Permutation, Forall_fmap. intros [? H]. split; [done|].
    rewrite Forall_forall in IH, H |- *. intros x Hx. specialize (H x Hx). cbn. specialize (IH x Hx (b - 1)%Z). lia.
Qed.

Lemma sort_keys_clean v : json_clean v = true -> json_clean (sort_keys v) = true.
Proof.
  induction v as [| | | | |l IH|d IH] using json_ind'; try done.
  - cbn [sort_keys json_clean]. rewrite !forallb_Forall, Forall_fmap. rewrite !Forall_forall in *. intros H x Hx. apply IH; auto.
  - cbn [sort_keys json_clean]. rewrite !forallb_Forall, sorted_pairs_Permutation, Forall_fmap.
    rewrite !Forall_forall in *. intros H x Hx. specialize (H x Hx). cbn in *. rewrite andb_true_iff in *.
    split; [apply H | apply IH; [done | apply H]].
Qed.

Abbreviation clean_text := (Forall (fun c => is_surrogate c = false)).

Lemma escape_clean s : clean_text (s ≫= escape_char) -> existsb is_surrogate s = false.
Proof.
  induction s as [|c s IH]; [done|]. csimpl. intros [Hc Hs]%Forall_app. rewrite IH by done. rewrite orb_false_r.
  unfold escape_char in Hc. repeat (match type of Hc with context [c =? ?n] => destruct (N.eqb_spec c n) as [->|?]; [done|] end).
  destruct (N.ltb_spec c 32) as [Hl|Hl]; [|by inversion Hc].
  unfold is_surrogate. by destruct (N.leb_spec 0xD800 c); [lia|].
Qed.

Lemma quote_clean s : clean_text (quote s) -> existsb is_surrogate s = false.
Proof. unfold quote. intros [_ [H _]%Forall_app]%Forall_cons. by apply escape_clean. Qed.

Lemma join_clean sep ts : clean_text (join sep ts) -> Forall clean_text ts.
Proof.
  induction ts as [|t ts IH]; [constructor|]. destruct ts as [|t' ts]; [by constructor|].
  change (join sep (t :: t' :: ts)) with (t ++ sep ++ join sep (t' :: ts)).
  intros [Ht [_ H]%Forall_app]%Forall_app. constructor; auto.
Qed.

(** Text without surrogates comes from strings without surrogates. *)
Lemma dumps_clean v t : dumps v = Ok t -> clean_text t -> json_clean v = true.
Proof.
  revert t. induction v as [| | | | |l IH|d IH] using json_ind'; intros t Hv Ht; try done.
  - injection Hv as <-. cbn [json_clean]. by rewrite quote_clean.
  - cbn [dumps] in Hv. apply bind_Ok in Hv as (ts & Hts & [= <-]). apply mapM_Ok in Hts.
    apply Forall_cons in Ht as [_ [Ht%join_clean _]%Forall_app]. cbn [json_clean]. rewrite forallb_Forall.
    induction Hts as [|x t l ts Hx _ IHl]; [constructor|]. apply Forall_cons in IH as [IHx IH], Ht as [Ht' Ht].
    constructor; [by eapply IHx | auto].
  - cbn [dumps] in Hv. apply bind_Ok in Hv as (ts & Hts & [= <-]). apply pair_texts in Hts as (zs & -> & -> & Hz).
    apply Forall_cons in Ht as [_ [Ht%join_clean _]%Forall_app]. cbn [json_clean]. rewrite forallb_Forall.
    rewrite sorted_texts, <-list_fmap_compose, Forall_fmap, sorted_by_Permutation in Ht. rewrite Forall_fmap in IH |- *.
    rewrite Forall_forall in IH, Hz, Ht |- *. intros z Hin. specialize (Ht z Hin).
    apply (Forall_app _ (quote z.1.1)) in Ht as [Hk [_ Hx]%Forall_cons]. cbn. rewrite (quote_clean _ Hk). simpl.
    eapply IH; [done | by apply Hz | done].
Qed.

(** ** Documents *)

(** The text of a value, a newline added, decodes to the value with its keys in order. *)
Lemma decode_dumps stack v t :
  dumps v = Ok t -> writable v = true -> clean_text t -> (json_depth v <= MAX_JSON_DEPTH)%Z ->
  (MAX_JSON_DEPTH < Z.of_nat stack)%Z ->
  decode_json stack (t ++ [10]) = Ok (sort_keys v).
Proof.
  intros Hv Hw Ht Hd Hs. destruct (dumps_head v t Hw Hv) as (c & u & -> & Hc & _ & Hb).
  unfold decode_json, loads. cbn [app]. rewrite skip_ws_id by done.
  assert (startswith (c :: u ++ [10]) [0xFEFF] = false) as ->.
  { cbn [startswith]. destruct (N.eqb_spec 0xFEFF c) as [<-|]; done. }
  change (c :: u ++ [10]) with ((c :: u) ++ [10]).
  rewrite (scan_dumps v stack (c :: u) Hw Hv) by (lia || (simpl; auto)). cbn [mbind outcome_bind]. simpl (skip_ws [10]).
  cbn [mbind outcome_bind]. rewrite (proj2 (normalize_spec (sort_keys v) 0 (sort_keys v))); [done|].
  split; [done|]. split; [by eapply sort_keys_clean, dumps_clean|]. by apply sort_keys_depth.
Qed.

(** ** The scanner consumes text

    Every value takes at least a character, so that the bound of the loops is enough. *)

Lemma skip_ws_length s : (length (skip_ws s) <= length s)%nat.
Proof. induction s as [|c s IH]; simpl; [done|]. destruct (is_ws c); simpl; lia. Qed.

Lemma after_length n s r : after n s = Some r -> length s = S (length r).
Proof. destruct s as [|c s]; simpl; [done|]. destruct (c =? n); [by intros [= ->] | done]. Qed.

Lemma scan_string_length s t r : scan_string s = Ok (t, r) -> (length r < length s)%nat.
Proof.
  remember (length s) as n eqn:En. revert s En t r. induction (lt_wf n) as [n _ IH]. intros s -> t r.
  assert (forall s' (f : str -> str), (length s' < length s)%nat ->
            ('(t, rest) ← scan_string s'; Ok (f t, rest)) = Ok (t, r) -> (length r < length s)%nat) as Hgo.
  { intros s' f Hl H. apply bind_Ok in H as ([t' r'] & H & [= _ <-]).
    pose proof (IH _ Hl s' eq_refl _ _ H). lia. }
  destruct s as [|c s]; [done|]. cbn [scan_string]. destruct (c =? 34); [intros [= _ <-]; simpl; lia|].
  destruct (c <? 32); [done|]. destruct (negb (c =? 92)); [apply Hgo; simpl; lia|].
  destruct s as [|e s]; [done|]. destruct (negb (e =? 117)).
  { destruct (unescape e); [apply Hgo; simpl; lia | done]. }
  destruct s as [|x1 [|x2 [|x3 [|x4 s]]]]; try done. destruct (hex4 x1 x2 x3 x4); [|done].
  destruct (negb (is_high n)); [apply Hgo; simpl; lia|].
  destruct s as [|y1 [|y2 [|y3 [|y4 [|y5 [|y6 s]]]]]]; try (apply Hgo; simpl; lia).
  destruct (negb _); [apply Hgo; simpl; lia|]. destruct (hex4 y3 y4 y5 y6); [|done].
  destruct (is_low _); apply Hgo; simpl; lia.
Qed.

Lemma span_digits_length s ds r : span_digits s = (ds, r) -> length s = (length ds + length r)%nat.
Proof.
  revert ds r. induction s as [|c s IH]; intros ds r; simpl; [by intros [= <- <-]|].
  destruct (is_digit c); [|by intros [= <- <-]]. destruct (span_digits s) as [ds' r'].
  intros [= <- <-]. simpl. by rewrite (IH ds' r').
Qed.

Lemma fraction_exponent_length s :
  (length (scan_fraction s).2 <= length s)%nat /\ (length (scan_exponent s).2 <= length s)%nat.
Proof.
  split.
  - unfold scan_fraction. destruct (after 46 s) as [r|] eqn:E; [|done]. apply after_length in E.
    destruct (span_digits r) as [[|d ds] rest] eqn:Es; [done|]. apply span_digits_length in Es. simpl in *. lia.
  - unfold scan_exponent. destruct s as [|e s]; [done|]. destruct (_ || _); [|done].
    assert (forall (sg : str) s', (length s' <= length s)%nat ->
      (length (match span_digits s' with ([], _) => ([], e :: s) | (ds, rest) => (e :: sg ++ ds, rest) end).2
       <= length (e :: s))%nat) as H.
    { intros sg s' Hl. destruct (span_digits s') as [[|d ds] rest] eqn:Es; [done|].
      apply span_digits_length in Es. simpl in *. lia. }
    destruct s as [|c s]; [by apply H|]. destruct (_ || _); apply H; simpl; lia.
Qed.

Lemma scan_unsigned_length b s v r : scan_unsigned b s = Ok (v, r) -> (length r < length s)%nat.
Proof.
  unfold scan_unsigned.
  assert (forall ds s', (length s' + length ds <= length s)%nat -> (match ds with
    | [] => Err JSONDecodeError
    | _ :: _ => let '(fraction, r0) := scan_fraction s' in let '(exponent, r1) := scan_exponent r0 in
      match fraction, exponent with
      | [], [] => z ← int_of b ds; Ok (JInt z, r1)
      | _, _ => Ok (JFloat ((if b then [45] else []) ++ ds ++ fraction ++ exponent), r1)
      end end) = Ok (v, r) -> (length r < length s)%nat) as H.
  { intros ds s' Hl. destruct ds as [|d ds]; [done|]. simpl in Hl.
    pose proof (proj1 (fraction_exponent_length s')) as Hf. destruct (scan_fraction s') as [f r0].
    pose proof (proj2 (fraction_exponent_length r0)) as He. destruct (scan_exponent r0) as [e r1]. simpl in Hf, He.
    intros H. assert (r1 = r) as <-; [|lia].
    destruct f, e; [apply bind_Ok in H as (z & _ & H)|..]; by injection H as _ H. }
  destruct (after 48 s) as [s'|] eqn:E.
  - apply after_length in E. apply (H [48] s'). simpl. lia.
  - destruct (span_digits s) as [ds s'] eqn:Es. apply span_digits_length in Es. apply (H ds s'). lia.
Qed.

(** [value] consumes. *)
Definition consumes (value : str -> res (json * str)) : Prop :=
  forall s v r, value s = Ok (v, r) -> (length r < length s)%nat.

Lemma scan_elements_length value fuel s l r :
  consumes value -> scan_elements value fuel s = Ok (l, r) -> (length r < length s)%nat.
Proof.
  intros Hv. revert s l r. induction fuel as [|fuel IH]; intros s l r; simpl; [done|].
  intros H. apply bind_Ok in H as ([v s'] & H1%Hv & H). pose proof (skip_ws_length s') as Hs.
  destruct (after 93 (skip_ws s')) as [rest|] eqn:E; [injection H as _ <-; apply after_length in E; lia|].
  destruct (after 44 (skip_ws s')) as [rest|] eqn:E'; [|done]. apply after_length in E'.
  apply bind_Ok in H as ([k r'] & H%IH & [= _ <-]). pose proof (skip_ws_length rest). lia.
Qed.

Lemma scan_pairs_length value fuel s d r :
  consumes value -> scan_pairs value fuel s = Ok (d, r) -> (length r < length s)%nat.
Proof.
  intros Hv. revert s d r. induction fuel as [|fuel IH]; intros s d r; simpl; [done|].
  destruct (after 34 s) as [s1|] eqn:E; [|done]. apply after_length in E.
  intros H. apply bind_Ok in H as ([k s2] & H2%scan_string_length & H). pose proof (skip_ws_length s2).
  destruct (after 58 (skip_ws s2)) as [s3|] eqn:E3; [|done]. apply after_length in E3. pose proof (skip_ws_length s3).
  apply bind_Ok in H as ([v s4] & H4%Hv & H). pose proof (skip_ws_length s4).
  destruct (after 125 (skip_ws s4)) as [rest|] eqn:E5; [injection H as _ <-; apply after_length in E5; lia|].
  destruct (after 44 (skip_ws s4)) as [rest|] eqn:E6; [|done]. apply after_length in E6.
  apply bind_Ok in H as ([k' r'] & H%IH & [= _ <-]). pose proof (skip_ws_length rest). lia.
Qed.

Lemma drop_length_lt {A} n (s : list A) : (0 < n)%nat -> s <> [] -> (length (drop n s) < length s)%nat.
Proof. intros. rewrite length_drop. destruct s; [done|]. simpl. lia. Qed.

Definition scan_scalar (s : str) : res (json * str) :=
  if startswith s (lit "null") then Ok (JNull, drop 4 s)
  else if startswith s (lit "true") then Ok (JBool true, drop 4 s)
  else if startswith s (lit "false") then Ok (JBool false, drop 5 s)
  else if startswith s (lit "NaN") || startswith s (lit "Infinity") || startswith s (lit "-Infinity")
  then _reject_constant
  else scan_number s.

Lemma scan_rejected s :
  (if startswith s (lit "NaN") then v ← _reject_constant; Ok (v, drop 3 s)
   else if startswith s (lit "Infinity") then v ← _reject_constant; Ok (v, drop 8 s)
   else if startswith s (lit "-Infinity") then v ← _reject_constant; Ok (v, drop 9 s)
   else scan_number s)
  = if startswith s (lit "NaN") || startswith s (lit "Infinity") || startswith s (lit "-Infinity")
    then _reject_constant else scan_number s.
Proof.
  by destruct (startswith s (lit "NaN")), (startswith s (lit "Infinity")), (startswith s (lit "-Infinity")).
Qed.

Lemma scan_once_O c s :
  scan_once 0 (c :: s)
  = if c =? 34 then '(t, rest) ← scan_string s; Ok (JStr t, rest)
    else if c =? 123 then Err RecursionError
    else if c =? 91 then Err RecursionError
    else scan_scalar (c :: s).
Proof. unfold scan_scalar. rewrite <-scan_rejected. reflexivity. Qed.

Lemma scan_once_S stack c s :
  scan_once (S stack) (c :: s)
  = if c =? 34 then '(t, rest) ← scan_string s; Ok (JStr t, rest)
    else if c =? 123 then
      match after 125 (skip_ws s) with
      | Some rest => Ok (JObj [], rest)
      | None =>
          '(pairs, rest) ← scan_pairs (scan_once stack) (length s) (skip_ws s);
          d ← _unique_object pairs [];
          Ok (JObj d, rest)
      end
    else if c =? 91 then
      match after 93 (skip_ws s) with
      | Some rest => Ok (JList [], rest)
      | None => '(l, rest) ← scan_elements (scan_once stack) (length s) (skip_ws s); Ok (JList l, rest)
      end
    else scan_scalar (c :: s).
Proof. unfold scan_scalar. rewrite <-scan_rejected. reflexivity. Qed.

Lemma scan_scalar_length c s v r : scan_scalar (c :: s) = Ok (v, r) -> (length r < length (c :: s))%nat.
Proof.
  unfold scan_scalar. repeat (match goal with |- (if ?b then _ else _) = _ -> _ => destruct b end);
    try (intros [= _ <-]; rewrite length_drop; simpl; lia).
  unfold scan_number. destruct (after 45 (c :: s)) as [r'|] eqn:E; intros H%scan_unsigned_length; [|done].
  apply after_length in E. lia.
Qed.

Lemma scan_once_consumes stack : consumes (scan_once stack).
Proof.
  induction stack as [|stack IH]; intros [|c s] v r; try done; rewrite ?scan_once_O, ?scan_once_S;
    (destruct (c =? 34); [intros H; apply bind_Ok in H as ([t r'] & H%scan_string_length & [= _ <-]); simpl; lia|]).
  - destruct (c =? 123); [done|]. destruct (c =? 91); [done|]. apply scan_scalar_length.
  - pose proof (skip_ws_length s). destruct (c =? 123); [|destruct (c =? 91); [|apply scan_scalar_length]].
    + destruct (after 125 (skip_ws s)) as [rest|] eqn:E; [intros [= _ <-]; apply after_length in E; simpl; lia|].
      intros H'. apply bind_Ok in H' as ([d r'] & H1 & H'). apply bind_Ok in H' as (d' & _ & [= _ <-]).
      apply scan_pairs_length in H1; [|done]. simpl. lia.
    + destruct (after 93 (skip_ws s)) as [rest|] eqn:E; [intros [= _ <-]; apply after_length in E; simpl; lia|].
      intros H'. apply bind_Ok in H' as ([d r'] & H1 & [= _ <-]). apply scan_elements_length in H1; [|done]. simpl. lia.
Qed.

Lemma scan_elements_fuel value f g s :
  consumes value -> value [] = Err JSONDecodeError -> (length s <= f)%nat -> (length s <= g)%nat -> s <> [] ->
  scan_elements value f s = scan_elements value g s.
Proof.
  intros Hv Hn. revert g s. induction f as [|f IH]; intros [|g] s Hf Hg Hs; try (destruct s; [done | simpl in *; lia]).
  simpl. destruct (value s) as [[v s']|] eqn:E; [|done]. cbn [mbind outcome_bind]. apply Hv in E.
  pose proof (skip_ws_length s') as Hl. destruct (after 93 (skip_ws s')); [done|].
  destruct (after 44 (skip_ws s')) as [rest|] eqn:E'; [|done]. apply after_length in E'.
  pose proof (skip_ws_length rest). destruct (decide (skip_ws rest = [])) as [->|Hr].
  - by destruct f, g; simpl; rewrite ?Hn.
  - rewrite (IH g (skip_ws rest)); [done | lia | lia | done].
Qed.

Lemma scan_pairs_fuel value f g s :
  consumes value -> (length s <= f)%nat -> (length s <= g)%nat -> scan_pairs value f s = scan_pairs value g s.
Proof.
  intros Hv. revert g s. induction f as [|f IH]; intros [|g] s Hf Hg;
    try (destruct s; [by try destruct f; try destruct g | simpl in *; lia]).
  simpl. destruct (after 34 s) as [s1|] eqn:E; [|done]. apply after_length in E.
  destruct (scan_string s1) as [[k s2]|] eqn:E2; [|done]. apply scan_string_length in E2. cbn [mbind outcome_bind].
  pose proof (skip_ws_length s2). destruct (after 58 (skip_ws s2)) as [s3|] eqn:E3; [|done]. apply after_length in E3.
  pose proof (skip_ws_length s3). destruct (value (skip_ws s3)) as [[v s4]|] eqn:E4; [|done]. apply Hv in E4.
  cbn [mbind outcome_bind]. pose proof (skip_ws_length s4). destruct (after 125 (skip_ws s4)); [done|].
  destruct (after 44 (skip_ws s4)) as [rest|] eqn:E6; [|done]. apply after_length in E6.
  pose proof (skip_ws_length rest). rewrite (IH g); [done | lia | lia].
Qed.

(** ** What is accepted, and what is refused *)

(** The objects of a value have each key once. *)
Fixpoint distinct_keys (v : json) : bool :=
  match v with
  | JList l => forallb distinct_keys l
  | JObj d => unique (keys d) && forallb (fun kv => distinct_keys kv.2) d
  | _ => true
  end.

Definition reads_distinct (value : str -> res (json * str)) : Prop :=
  forall s v r, value s = Ok (v, r) -> distinct_keys v = true.

Lemma scan_elements_distinct value fuel s l r :
  reads_distinct value -> scan_elements value fuel s = Ok (l, r) -> forallb distinct_keys l = true.
Proof.
  intros Hv. revert s l r. induction fuel as [|fuel IH]; intros s l r; simpl; [done|].
  intros H. apply bind_Ok in H as ([v s'] & H1%Hv & H).
  destruct (after 93 (skip_ws s')); [injection H as <- _; by simpl; rewrite H1|].
  destruct (after 44 (skip_ws s')); [|done]. apply bind_Ok in H as ([k r'] & H%IH & [= <- _]).
  simpl. by rewrite H1.
Qed.

Lemma scan_pairs_distinct value fuel s d r :
  reads_distinct value -> scan_pairs value fuel s = Ok (d, r) -> forallb (fun kv => distinct_keys kv.2) d = true.
Proof.
  intros Hv. revert s d r. induction fuel as [|fuel IH]; intros s d r; simpl; [done|].
  destruct (after 34 s); [|done]. intros H. apply bind_Ok in H as ([k s2] & _ & H).
  destruct (after 58 (skip_ws s2)); [|done]. apply bind_Ok in H as ([v s4] & H1%Hv & H).
  destruct (after 125 (skip_ws s4)); [injection H as <- _; simpl; by rewrite H1|].
  destruct (after 44 (skip_ws s4)); [|done]. apply bind_Ok in H as ([k' r'] & H%IH & [= <- _]).
  simpl. by rewrite H1.
Qed.

Lemma unique_object_Ok pairs seen d :
  _unique_object pairs seen = Ok d -> d = pairs /\ NoDup (keys d) /\ Forall (fun k => k ∉ seen) (keys d).
Proof.
  revert seen d. induction pairs as [|[k v] pairs IH]; intros seen d; simpl; [intros [= <-]; split_and!; constructor|].
  case_bool_decide as Hk; [done|]. intros H. apply bind_Ok in H as (d' & (-> & Hd & Hs)%IH & [= <-]).
  split; [done|]. simpl. rewrite NoDup_cons, Forall_cons. split_and!; [|done|done|].
  - intros Hin. rewrite Forall_forall in Hs. specialize (Hs k Hin). set_solver.
  - eapply Forall_impl; [exact Hs|]. set_solver.
Qed.

Lemma scan_once_distinct stack : reads_distinct (scan_once stack).
Proof.
  assert (forall s v r, scan_scalar s = Ok (v, r) -> distinct_keys v = true) as Hsc.
  { intros s v r. unfold scan_scalar. repeat (match goal with |- (if ?b then _ else _) = _ -> _ => destruct b end);
      try (by intros [= <- _]). unfold scan_number, scan_unsigned.
    destruct (after 45 s) as [s'|]; [destruct (after 48 s')|destruct (after 48 s)];
      repeat (match goal with |- context [let '(_, _) := ?p in _] => destruct p end); repeat case_match; try done;
      intros H'; inv_ok; try done; by injection H' as <- _. }
  induction stack as [|stack IH]; intros [|c s] v r; try done; rewrite ?scan_once_O, ?scan_once_S;
    (destruct (c =? 34); [intros H; apply bind_Ok in H as ([t r'] & _ & [= <- _]); done|]).
  - destruct (c =? 123); [done|]. destruct (c =? 91); [done|]. apply Hsc.
  - destruct (c =? 123); [|destruct (c =? 91); [|apply Hsc]].
    + destruct (after 125 (skip_ws s)); [by intros [= <- _]|]. intros H.
      apply bind_Ok in H as ([d r'] & H1 & H). apply bind_Ok in H as (d' & (-> & Hd & _)%unique_object_Ok & [= <- _]).
      apply scan_pairs_distinct in H1; [|done]. simpl. by rewrite H1, (proj2 (unique_spec (keys d)) Hd).
    + destruct (after 93 (skip_ws s)); [by intros [= <- _]|]. intros H.
      apply bind_Ok in H as ([l r'] & H1 & [= <- _]). by apply scan_elements_distinct in H1.
Qed.

Definition json_error (e : exn) : Prop :=
  match e with
  | JSONDecodeError | RecursionError | ValueError => True
  | ProtocolError info => code info = MALFORMED_JSON
  | _ => False
  end.

Lemma malformed_raises {A} msg : raises json_error (fail MALFORMED_JSON msg : res A).
Proof. by intros e [= <-]. Qed.
#[local] Hint Resolve malformed_raises : raises.

Lemma scan_string_raises s : raises json_error (scan_string s).
Proof.
  remember (length s) as n eqn:En. revert s En. induction (lt_wf n) as [n _ IH]. intros s ->.
  assert (forall s' (f : str -> str), (length s' < length s)%nat ->
            raises json_error ('(t, rest) ← scan_string s'; Ok (f t, rest))) as Hgo.
  { intros s' f Hl. apply raises_bind; [by eapply IH|]. intros [t r] _. apply raises_Ok. }
  destruct s as [|c s]; [by intros e [= <-]|]. cbn [scan_string]. destruct (c =? 34); [apply raises_Ok|].
  destruct (c <? 32); [by intros e [= <-]|]. destruct (negb (c =? 92)); [apply Hgo; simpl; lia|].
  destruct s as [|e s]; [by intros x [= <-]|]. destruct (negb (e =? 117)).
  { destruct (unescape e); [apply Hgo; simpl; lia | by intros x [= <-]]. }
  destruct s as [|x1 [|x2 [|x3 [|x4 s]]]]; try (by intros x [= <-]).
  destruct (hex4 x1 x2 x3 x4); [|by intros x [= <-]].
  destruct (negb (is_high n)); [apply Hgo; simpl; lia|].
  destruct s as [|y1 [|y2 [|y3 [|y4 [|y5 [|y6 s]]]]]]; try (apply Hgo; simpl; lia).
  destruct (negb _); [apply Hgo; simpl; lia|]. destruct (hex4 y3 y4 y5 y6); [|by intros x [= <-]].
  destruct (is_low _); apply Hgo; simpl; lia.
Qed.
#[local] Hint Resolve scan_string_raises : raises.

Lemma scan_unsigned_raises b s : raises json_error (scan_unsigned b s).
Proof. unfold scan_unsigned, int_of. solve_raises; done. Qed.
#[local] Hint Resolve scan_unsigned_raises : raises.

Lemma scan_scalar_raises s : raises json_error (scan_scalar s).
Proof. unfold scan_scalar, scan_number, _reject_constant. solve_raises. Qed.

Lemma unique_object_raises d seen : raises json_error (_unique_object d seen).
Proof. revert seen. induction d as [|[k v] d IH]; intros seen; simpl; solve_raises. Qed.
#[local] Hint Resolve scan_scalar_raises unique_object_raises : raises.

Lemma scan_elements_raises value fuel s :
  (forall s, raises json_error (value s)) -> raises json_error (scan_elements value fuel s).
Proof. intros Hv. revert s. induction fuel as [|fuel IH]; intros s; simpl; solve_raises; done. Qed.

Lemma scan_pairs_raises value fuel s :
  (forall s, raises json_error (value s)) -> raises json_error (scan_pairs value fuel s).
Proof. intros Hv. revert s. induction fuel as [|fuel IH]; intros s; simpl; solve_raises; done. Qed.
#[local] Hint Resolve scan_elements_raises scan_pairs_raises : raises.

Lemma scan_once_raises stack s : raises json_error (scan_once stack s).
Proof.
  revert s. induction stack as [|stack IH]; intros [|c s]; try (by intros e [= <-]);
    rewrite ?scan_once_O, ?scan_once_S; solve_raises; done.
Qed.
#[local] Hint Resolve scan_once_raises : raises.

Lemma normalize_raises v depth : raises json_error (_normalize v depth).
Proof.
  assert (forall s, raises json_error (_reject_surrogate s)) as Hs by (intros s; unfold _reject_surrogate; solve_raises).
  revert depth. induction v as [| | | | |l IH|d IH] using json_ind'; intros depth; cbn [_normalize];
    (destruct (MAX_JSON_DEPTH <? depth)%Z; [apply malformed_raises|]); try apply raises_Ok.
  - solve_raises.
  - apply raises_bind; [|intros; apply raises_Ok]. induction IH as [|x l Hx _ IHl]; [apply raises_Ok|].
    cbn. apply raises_bind; [apply Hx | intros]. apply raises_bind; [apply IHl | intros; apply raises_Ok].
  - apply raises_bind; [|intros; apply raises_Ok]. induction IH as [|x l Hx _ IHl]; [apply raises_Ok|].
    cbn. apply raises_bind; [|intros; apply raises_bind; [apply IHl | intros; apply raises_Ok]].
    apply raises_bind; [apply Hs | intros]. apply raises_bind; [apply Hx | intros; apply raises_Ok].
Qed.

Lemma decode_json_raises stack text e : decode_json stack text = Err e ->
  match e with ProtocolError info => code info = MALFORMED_JSON | _ => e = ValueError end.
Proof.
  assert (raises json_error (v ← loads stack text; _normalize v 0)) as Hr.
  { apply raises_bind; [|intros; apply normalize_raises]. unfold loads. solve_raises; done. }
  unfold decode_json. destruct (v ← loads stack text; _normalize v 0) as [w|x]; [done|].
  specialize (Hr x eq_refl). destruct x; by intros [= <-].
Qed.

Lemma decode_json_Ok stack text v : decode_json stack text = Ok v ->
  json_clean v = true /\ (json_depth v <= MAX_JSON_DEPTH)%Z /\ distinct_keys v = true.
Proof.
  unfold decode_json. destruct (v ← loads stack text; _normalize v 0) as [w|x] eqn:E; [intros [= ->]|by destruct x].
  apply bind_Ok in E as (u & Hl & (-> & Hc & Hd)%normalize_spec). split; [done|]. split; [lia|].
  unfold loads in Hl. destruct (startswith text [65279]); [done|]. apply bind_Ok in Hl as ([v' r] & Hs & Hl).
  destruct (skip_ws r); [|done]. injection Hl as ->. by apply scan_once_distinct in Hs.
Qed.

(** ** The only integers refused are too long

    A reader gives back an end of its text, and raises a [ValueError] only for a run of
    more than 4300 digits. *)

Definition long_number (s : str) : Prop :=
  exists pre ds post, s = pre ++ ds ++ post /\ forallb is_digit ds = true /\ (MAX_STR_DIGITS < length ds)%nat.

Definition within {A} (s : str) (o : res (A * str)) : Prop :=
  match o with Ok (_, r) => r `suffix_of` s | Err ValueError => long_number s | Err _ => True end.

Lemma long_number_suffix s s' : s' `suffix_of` s -> long_number s' -> long_number s.
Proof. intros [k ->] (pre & ds & post & -> & H). exists (k ++ pre), ds, post. by rewrite <-app_assoc. Qed.

Lemma suffix_after n s r : after n s = Some r -> r `suffix_of` s.
Proof. destruct s as [|c s]; simpl; [done|]. destruct (c =? n); [intros [= ->] | done]. by apply suffix_cons_r. Qed.

Lemma suffix_skip_ws s : skip_ws s `suffix_of` s.
Proof. induction s as [|c s IH]; simpl; [done|]. destruct (is_ws c); [by apply suffix_cons_r | done]. Qed.

Lemma suffix_drop n (s : str) : drop n s `suffix_of` s.
Proof. exists (take n s). by rewrite take_drop. Qed.

Lemma within_end {A} s (a : A) r : r `suffix_of` s -> within s (Ok (a, r)).
Proof. done. Qed.

Lemma within_shift {A} s s' (o : res (A * str)) : s' `suffix_of` s -> within s' o -> within s o.
Proof.
  intros Hs. destruct o as [[a r]|e]; simpl; [intros Hr; by etransitivity|].
  destruct e; auto. by apply long_number_suffix.
Qed.

Lemma within_bind {A B} s (o : res (A * str)) (k : A * str -> res (B * str)) :
  within s o -> (forall a r, r `suffix_of` s -> within s (k (a, r))) -> within s (o ≫= k).
Proof. destruct o as [[a r]|e]; simpl; [intros ? Hk; by apply Hk | done]. Qed.

Lemma within_quiet {A B} s (o : res A) (k : A -> res (B * str)) :
  o <> Err ValueError -> (forall a, within s (k a)) -> within s (o ≫= k).
Proof. destruct o as [a|e]; simpl; [intros _ Hk; apply Hk|]. intros Hn _. by destruct e. Qed.

Create HintDb within.
#[local] Hint Resolve within_end suffix_skip_ws suffix_drop : within.
#[local] Hint Extern 1 (within _ (Err _)) => exact I : within.
#[local] Hint Extern 1 (_ `suffix_of` _) => reflexivity : within.

Ltac suffixes :=
  match goal with
  | |- ?x `suffix_of` ?x => reflexivity
  | H : ?x `suffix_of` _ |- ?x `suffix_of` _ => etransitivity; [exact H|]; suffixes
  | H : after _ _ = Some ?x |- ?x `suffix_of` _ => etransitivity; [exact (suffix_after _ _ _ H)|]; suffixes
  | |- skip_ws _ `suffix_of` _ => etransitivity; [apply suffix_skip_ws|]; suffixes
  | |- _ `suffix_of` _ :: _ => apply suffix_cons_r; suffixes
  | |- drop _ _ `suffix_of` _ => etransitivity; [apply suffix_drop|]; suffixes
  end.

Lemma scan_string_within s : within s (scan_string s).
Proof.
  remember (length s) as n eqn:En. revert s En. induction (lt_wf n) as [n _ IH]. intros s ->.
  assert (forall s' (f : str -> str), (length s' < length s)%nat -> s' `suffix_of` s ->
            within s ('(t, rest) ← scan_string s'; Ok (f t, rest))) as Hgo.
  { intros s' f Hl Hs. apply within_bind; [|done]. eapply within_shift; [exact Hs | by eapply IH]. }
  destruct s as [|c s]; [done|]. cbn [scan_string]. destruct (c =? 34); [apply within_end; suffixes|].
  destruct (c <? 32); [done|]. destruct (negb (c =? 92)); [apply Hgo; [simpl; lia | suffixes]|].
  destruct s as [|e s]; [done|]. destruct (negb (e =? 117)).
  { destruct (unescape e); [apply Hgo; [simpl; lia | suffixes] | done]. }
  destruct s as [|x1 [|x2 [|x3 [|x4 s]]]]; try done. destruct (hex4 x1 x2 x3 x4); [|done].
  destruct (negb (is_high n)); [apply Hgo; [simpl; lia | suffixes]|].
  destruct s as [|y1 [|y2 [|y3 [|y4 [|y5 [|y6 s]]]]]]; try (apply Hgo; [simpl; lia | suffixes]).
  destruct (negb _); [apply Hgo; [simpl; lia | suffixes]|]. destruct (hex4 y3 y4 y5 y6); [|done].
  destruct (is_low _); apply Hgo; (simpl; lia) || suffixes.
Qed.

Lemma span_digits_spec s ds r : span_digits s = (ds, r) -> s = ds ++ r /\ forallb is_digit ds = true.
Proof.
  revert ds r. induction s as [|c s IH]; intros ds r; simpl; [by intros [= <- <-]|].
  destruct (is_digit c) eqn:Ec; [|by intros [= <- <-]]. destruct (span_digits s) as [ds' r'].
  intros [= <- <-]. destruct (IH ds' r' eq_refl) as [-> ?]. simpl. by rewrite Ec.
Qed.

Lemma suffix_span s d ds r : span_digits s = (d :: ds, r) -> r `suffix_of` s.
Proof. intros [-> _]%span_digits_spec. by exists (d :: ds). Qed.

Lemma suffix_fraction s : (scan_fraction s).2 `suffix_of` s.
Proof.
  unfold scan_fraction. destruct (after 46 s) as [r|] eqn:E; [|done].
  destruct (span_digits r) as [[|d ds] rest] eqn:Es; [done|]. apply suffix_span in Es. simpl. suffixes.
Qed.

Lemma suffix_exponent s : (scan_exponent s).2 `suffix_of` s.
Proof.
  unfold scan_exponent. destruct s as [|e s]; [done|]. destruct (_ || _); [|done].
  assert (forall (sg : str) s', s' `suffix_of` s ->
    (match span_digits s' with ([], _) => ([], e :: s) | (ds, rest) => (e :: sg ++ ds, rest) end).2 `suffix_of` e :: s) as H.
  { intros sg s' Hl. destruct (span_digits s') as [[|d ds] rest] eqn:Es; [done|]. apply suffix_span in Es. simpl. suffixes. }
  destruct s as [|c s]; [by apply H|]. destruct (_ || _); apply H; suffixes.
Qed.

Lemma scan_unsigned_within b s : within s (scan_unsigned b s).
Proof.
  unfold scan_unsigned.
  assert (forall ds s', s = ds ++ s' -> forallb is_digit ds = true -> within s (match ds with
    | [] => Err JSONDecodeError
    | _ :: _ => let '(fraction, r0) := scan_fraction s' in let '(exponent, r1) := scan_exponent r0 in
      match fraction, exponent with
      | [], [] => z ← int_of b ds; Ok (JInt z, r1)
      | _, _ => Ok (JFloat ((if b then [45] else []) ++ ds ++ fraction ++ exponent), r1)
      end end)) as H.
  { intros ds s' Hs Hd. assert (s' `suffix_of` s) as Hs' by (by exists ds).
    destruct ds as [|d ds]; [done|]. pose proof (suffix_fraction s') as Hf.
    destruct (scan_fraction s') as [f r0]. pose proof (suffix_exponent r0) as He.
    destruct (scan_exponent r0) as [e r1]. simpl in Hf, He.
    assert (r1 `suffix_of` s) as Hr by suffixes. destruct f, e; try exact Hr. unfold int_of.
    destruct (Nat.ltb_spec MAX_STR_DIGITS (length (d :: ds))); [|exact Hr]. by exists [], (d :: ds), s'. }
  destruct (after 48 s) as [s'|] eqn:E.
  - apply (H [48] s'); [|done]. destruct s as [|c s]; [done|]. simpl in E.
    destruct (N.eqb_spec c 48) as [->|]; [by injection E as -> | done].
  - destruct (span_digits s) as [ds s'] eqn:Es. apply span_digits_spec in Es as [? ?]. by apply H.
Qed.

Lemma scan_scalar_within s : within s (scan_scalar s).
Proof.
  unfold scan_scalar, scan_number, _reject_constant.
  repeat (match goal with |- within _ (if ?b then _ else _) => destruct b end); try (simpl; by apply suffix_drop).
  { done. }
  destruct (after 45 s) as [r|] eqn:E; [|apply scan_unsigned_within].
  eapply within_shift; [by eapply suffix_after | apply scan_unsigned_within].
Qed.

Lemma scan_elements_within value fuel s :
  (forall s, within s (value s)) -> within s (scan_elements value fuel s).
Proof.
  intros Hv. revert s. induction fuel as [|fuel IH]; intros s; simpl; [done|].
  apply within_bind; [apply Hv | intros v r Hr].
  destruct (after 93 (skip_ws r)) eqn:E; [apply within_end; suffixes|].
  destruct (after 44 (skip_ws r)) eqn:E'; [|done].
  apply within_bind; [eapply within_shift; [|apply IH]; suffixes | intros ? r' Hr'; by apply within_end].
Qed.

Lemma scan_pairs_within value fuel s :
  (forall s, within s (value s)) -> within s (scan_pairs value fuel s).
Proof.
  intros Hv. revert s. induction fuel as [|fuel IH]; intros s; simpl; [done|].
  destruct (after 34 s) as [s1|] eqn:E1; [|done].
  apply within_bind; [eapply within_shift; [|apply scan_string_within]; suffixes | intros k s2 H2].
  destruct (after 58 (skip_ws s2)) as [s3|] eqn:E3; [|done].
  apply within_bind; [eapply within_shift; [|apply Hv]; suffixes | intros v s4 H4].
  destruct (after 125 (skip_ws s4)) eqn:E; [apply within_end; suffixes|].
  destruct (after 44 (skip_ws s4)) eqn:E'; [|done].
  apply within_bind; [eapply within_shift; [|apply IH]; suffixes | intros ? r' Hr'; by apply within_end].
Qed.

Lemma unique_object_quiet d seen : _unique_object d seen <> Err ValueError.
Proof.
  revert seen. induction d as [|[k v] d IH]; intros seen; simpl; [done|].
  destruct (bool_decide _); simpl; [done|]. specialize (IH (k :: seen)).
  destruct (_unique_object d (k :: seen)) as [?|[]]; simpl; congruence.
Qed.

Lemma scan_once_within stack s : within s (scan_once stack s).
Proof.
  revert s. induction stack as [|stack IH]; intros [|c s]; try done; rewrite ?scan_once_O, ?scan_once_S;
    (destruct (c =? 34); [apply within_bind; [eapply within_shift; [|apply scan_string_within]; suffixes|done]|]).
  - destruct (c =? 123); [done|]. destruct (c =? 91); [done|]. apply scan_scalar_within.
  - destruct (c =? 123); [|destruct (c =? 91); [|apply scan_scalar_within]].
    + destruct (after 125 (skip_ws s)) eqn:E; [apply within_end; suffixes|].
      apply within_bind; [eapply within_shift; [|by apply scan_pairs_within]; suffixes | intros d r Hr].
      apply within_quiet; [apply unique_object_quiet | done].
    + destruct (after 93 (skip_ws s)) eqn:E; [apply within_end; suffixes|].
      apply within_bind; [eapply within_shift; [|by apply scan_elements_within]; suffixes | done].
Qed.

Definition never_value (e : exn) : Prop := e <> ValueError.

Lemma normalize_quiet v depth : _normalize v depth <> Err ValueError.
Proof.
  assert (forall v depth, raises never_value (_normalize v depth)) as H; [|intros E; by apply H in E].
  clear. assert (forall {A} msg, raises never_value (fail MALFORMED_JSON msg : res A)) as Hm by (by intros A msg e [= <-]).
  assert (forall s, raises never_value (_reject_surrogate s)) as Hs.
  { intros s. unfold _reject_surrogate. destruct (existsb is_surrogate s); [apply Hm | apply raises_Ok]. }
  intros v. induction v as [| | | | |l IH|d IH] using json_ind'; intros depth; cbn [_normalize];
    (destruct (MAX_JSON_DEPTH <? depth)%Z; [apply Hm|]); try apply raises_Ok.
  - apply raises_bind; [apply Hs | intros; apply raises_Ok].
  - apply raises_bind; [|intros; apply raises_Ok]. induction IH as [|x l Hx _ IHl]; [apply raises_Ok|].
    cbn. apply raises_bind; [apply Hx | intros]. apply raises_bind; [apply IHl | intros; apply raises_Ok].
  - apply raises_bind; [|intros; apply raises_Ok]. induction IH as [|x l Hx _ IHl]; [apply raises_Ok|].
    cbn. apply raises_bind; [|intros; apply raises_bind; [apply IHl | intros; apply raises_Ok]].
    apply raises_bind; [apply Hs | intros]. apply raises_bind; [apply Hx | intros; apply raises_Ok].
Qed.

Lemma decode_json_long stack text : decode_json stack text = Err ValueError -> long_number text.
Proof.
  unfold decode_json. destruct (loads stack text) as [v|e] eqn:El; cbn [mbind outcome_bind].
  { pose proof (normalize_quiet v 0) as Hn. by destruct (_normalize v 0) as [|[]]. }
  intros He. assert (e = ValueError) as -> by (destruct e; (done || by injection He)). clear He.
  unfold loads in El. destruct (startswith text [65279]); [done|].
  pose proof (scan_once_within stack (skip_ws text)) as H.
  destruct (scan_once stack (skip_ws text)) as [[v r]|e] eqn:Es; cbn [mbind outcome_bind] in El.
  { by destruct (skip_ws r). }
  injection El as ->. simpl in H. eapply long_number_suffix; [apply suffix_skip_ws | exact H].
Qed.

(** ** What the interpreter reads, without the hooks

    The same scanner, keeping the pairs of an object as they come and a constant as its
    name: what [decode_json] accepts is stated against it. *)

Abbreviation raw_once := (scan_with (fun pairs => Ok pairs) (fun name => Ok (JFloat name))).

Definition raw_loads (stack : nat) (text : str) : res json :=
  if startswith text [0xFEFF] then Err JSONDecodeError
  else
    '(v, r) ← raw_once stack (skip_ws text);
    match skip_ws r with [] => Ok v | _ => Err JSONDecodeError end.

Definition constants : list str := names ["NaN"; "Infinity"; "-Infinity"].

(** No number is one of the constants. *)
Fixpoint finite (v : json) : bool :=
  match v with
  | JFloat name => bool_decide (name ∉ constants)
  | JList l => forallb finite l
  | JObj d => forallb (fun kv => finite kv.2) d
  | _ => true
  end.

Definition keeps_to (value value' : str -> res (json * str)) : Prop :=
  forall s v r, value s = Ok (v, r) <-> value' s = Ok (v, r) /\ finite v = true /\ distinct_keys v = true.

Definition raw_scalar (s : str) : res (json * str) :=
  if startswith s (lit "null") then Ok (JNull, drop 4 s)
  else if startswith s (lit "true") then Ok (JBool true, drop 4 s)
  else if startswith s (lit "false") then Ok (JBool false, drop 5 s)
  else if startswith s (lit "NaN") then Ok (JFloat (lit "NaN"), drop 3 s)
  else if startswith s (lit "Infinity") then Ok (JFloat (lit "Infinity"), drop 8 s)
  else if startswith s (lit "-Infinity") then Ok (JFloat (lit "-Infinity"), drop 9 s)
  else scan_number s.

Lemma digit_finite c t : is_digit c = true -> forall b : bool,
  bool_decide ((if b then [45] else []) ++ c :: t ∉ constants) = true.
Proof.
  intros Hc b. apply bool_decide_eq_true. unfold constants, names. rewrite !fmap_cons, !elem_of_cons.
  intros [E|[E|[E|E%elem_of_nil]]]; [..|done]; destruct b; simpl in E; injection E; intros; subst; done.
Qed.

Lemma scan_unsigned_finite b s v r :
  scan_unsigned b s = Ok (v, r) -> finite v = true /\ distinct_keys v = true.
Proof.
  unfold scan_unsigned.
  assert (forall ds s', forallb is_digit ds = true -> (match ds with
    | [] => Err JSONDecodeError
    | _ :: _ => let '(fraction, r0) := scan_fraction s' in let '(exponent, r1) := scan_exponent r0 in
      match fraction, exponent with
      | [], [] => z ← int_of b ds; Ok (JInt z, r1)
      | _, _ => Ok (JFloat ((if b then [45] else []) ++ ds ++ fraction ++ exponent), r1)
      end end) = Ok (v, r) -> finite v = true /\ distinct_keys v = true) as H.
  { intros [|d ds] s'; [done|]. intros [Hd _]%andb_true_iff. destruct (scan_fraction s') as [f r0].
    destruct (scan_exponent r0) as [e r1].
    destruct f, e; [intros (z & _ & [= <- _])%bind_Ok; done|..]; intros [= <- _]; split; try done; by apply digit_finite. }
  destruct (after 48 s) as [s'|]; [by apply (H [48] s')|].
  destruct (span_digits s) as [ds s'] eqn:Es. apply span_digits_spec in Es as [_ Es]. by apply (H ds s').
Qed.

Lemma scalar_keeps s v r :
  scan_scalar s = Ok (v, r) <-> raw_scalar s = Ok (v, r) /\ finite v = true /\ distinct_keys v = true.
Proof.
  assert (forall w t, Ok (w, t) = Ok (v, r) :> res (json * str) -> finite w = true -> distinct_keys w = true ->
    Ok (w, t) = Ok (v, r) :> res (json * str) <-> Ok (w, t) = Ok (v, r) :> res (json * str) /\ finite v = true /\ distinct_keys v = true) as Hok
    by (intros w t [= -> ->]; tauto).
  unfold scan_scalar, raw_scalar. 
  destruct (startswith s (lit "null")); [split; [by intros [= <- <-] | tauto]|].
  destruct (startswith s (lit "true")); [split; [by intros [= <- <-] | tauto]|].
  destruct (startswith s (lit "false")); [split; [by intros [= <- <-] | tauto]|].
  destruct (startswith s (lit "NaN")); [split; [done | by intros ([= <- <-] & ? & _)]|].
  destruct (startswith s (lit "Infinity")); [split; [done | by intros ([= <- <-] & ? & _)]|].
  destruct (startswith s (lit "-Infinity")); [split; [done | by intros ([= <- <-] & ? & _)]|]. simpl.
  split; [|tauto]. intros H. split; [done|]. unfold scan_number in H. destruct (after 45 s); by eapply scan_unsigned_finite.
Qed.

Lemma raw_once_O c s :
  raw_once 0 (c :: s)
  = if c =? 34 then '(t, rest) ← scan_string s; Ok (JStr t, rest)
    else if c =? 123 then Err RecursionError
    else if c =? 91 then Err RecursionError
    else raw_scalar (c :: s).
Proof. reflexivity. Qed.

Lemma raw_once_S stack c s :
  raw_once (S stack) (c :: s)
  = if c =? 34 then '(t, rest) ← scan_string s; Ok (JStr t, rest)
    else if c =? 123 then
      match after 125 (skip_ws s) with
      | Some rest => Ok (JObj [], rest)
      | None => '(pairs, rest) ← scan_pairs (raw_once stack) (length s) (skip_ws s); Ok (JObj pairs, rest)
      end
    else if c =? 91 then
      match after 93 (skip_ws s) with
      | Some rest => Ok (JList [], rest)
      | None => '(l, rest) ← scan_elements (raw_once stack) (length s) (skip_ws s); Ok (JList l, rest)
      end
    else raw_scalar (c :: s).
Proof. reflexivity. Qed.

Lemma elements_keep value value' fuel s l r :
  keeps_to value value' ->
  scan_elements value fuel s = Ok (l, r) <->
  scan_elements value' fuel s = Ok (l, r) /\ forallb finite l = true /\ forallb distinct_keys l = true.
Proof.
  intros Hv. revert s l r. induction fuel as [|fuel IH]; intros s l r; simpl; [naive_solver|]. split.
  - intros ([v s'] & (-> & Hf & Hd)%Hv & H)%bind_Ok. cbn [mbind outcome_bind].
    destruct (after 93 (skip_ws s')); [injection H as <- <-; simpl; by rewrite Hf, Hd|].
    destruct (after 44 (skip_ws s')); [|done]. apply bind_Ok in H as ([k r'] & (-> & Hf' & Hd')%IH & [= <- <-]).
    simpl. by rewrite Hf, Hd.
  - intros [([v s'] & H1 & H)%bind_Ok Ha].
    assert (finite v = true /\ distinct_keys v = true -> value s = Ok (v, s')) as Hs by (intros; by apply Hv).
    destruct (after 93 (skip_ws s')) eqn:E1.
    { injection H as <- <-. simpl in Ha. rewrite !andb_true_iff in Ha. rewrite Hs by tauto. cbn. by rewrite E1. }
    destruct (after 44 (skip_ws s')) eqn:E2; [|done]. apply bind_Ok in H as ([k r'] & H & [= <- <-]).
    simpl in Ha. rewrite !andb_true_iff in Ha. rewrite Hs by tauto. cbn [mbind outcome_bind]. rewrite E1, E2.
    by rewrite (proj2 (IH _ _ _)) by (split; [exact H | tauto]).
Qed.

Lemma pairs_keep value value' fuel s d r :
  keeps_to value value' ->
  scan_pairs value fuel s = Ok (d, r) <->
  scan_pairs value' fuel s = Ok (d, r)
  /\ forallb (fun kv => finite kv.2) d = true /\ forallb (fun kv => distinct_keys kv.2) d = true.
Proof.
  intros Hv. revert s d r. induction fuel as [|fuel IH]; intros s d r; simpl; [naive_solver|].
  destruct (after 34 s) as [s1|]; [|naive_solver]. destruct (scan_string s1) as [[k s2]|]; [|naive_solver].
  cbn [mbind outcome_bind]. destruct (after 58 (skip_ws s2)) as [s3|]; [|naive_solver]. split.
  - intros ([v s'] & (-> & Hf & Hd)%Hv & H)%bind_Ok. cbn [mbind outcome_bind].
    destruct (after 125 (skip_ws s')); [injection H as <- <-; simpl; by rewrite Hf, Hd|].
    destruct (after 44 (skip_ws s')); [|done]. apply bind_Ok in H as ([k' r'] & (-> & Hf' & Hd')%IH & [= <- <-]).
    simpl. by rewrite Hf, Hd.
  - intros [([v s'] & H1 & H)%bind_Ok Ha].
    assert (finite v = true /\ distinct_keys v = true -> value (skip_ws s3) = Ok (v, s')) as Hs by (intros; by apply Hv).
    destruct (after 125 (skip_ws s')) eqn:E1.
    { injection H as <- <-. simpl in Ha. rewrite !andb_true_iff in Ha. rewrite Hs by tauto. cbn. by rewrite E1. }
    destruct (after 44 (skip_ws s')) eqn:E2; [|done]. apply bind_Ok in H as ([k' r'] & H & [= <- <-]).
    simpl in Ha. rewrite !andb_true_iff in Ha. rewrite Hs by tauto. cbn [mbind outcome_bind]. rewrite E1, E2.
    by rewrite (proj2 (IH _ _ _)) by (split; [exact H | tauto]).
Qed.

Lemma unique_object_distinct pairs seen :
  NoDup (keys pairs) -> Forall (fun k => k ∉ seen) (keys pairs) -> _unique_object pairs seen = Ok pairs.
Proof.
  revert seen. induction pairs as [|[k v] pairs IH]; intros seen; cbn [_unique_object]; [done|].
  change (keys ((k, v) :: pairs)) with (k :: keys pairs). intros [Hk Hn]%NoDup_cons [Hs Hf]%Forall_cons.
  rewrite bool_decide_false by done. rewrite IH; [done | done|].
  rewrite Forall_forall in *. intros k' Hk' [->|Hin]%elem_of_cons; [done | by apply (Hf k')].
Qed.

Lemma object_keeps pairs (rest : str) v r :
  (d ← _unique_object pairs []; Ok (JObj d, rest)) = Ok (v, r) <-> v = JObj pairs /\ r = rest /\ unique (keys pairs) = true.
Proof.
  split.
  - intros (d & (-> & Hn & _)%unique_object_Ok & [= <- <-])%bind_Ok. split_and!; [done..|]. by apply unique_spec.
  - intros (-> & -> & Hn%unique_spec). rewrite unique_object_distinct; [done | done|]. apply Forall_forall. set_solver.
Qed.

Lemma once_keeps stack : keeps_to (scan_once stack) (raw_once stack).
Proof.
  induction stack as [|stack IH]; intros [|c s] v r; try (by naive_solver);
    rewrite ?scan_once_O, ?scan_once_S, ?raw_once_O, ?raw_once_S;
    (destruct (c =? 34); [destruct (scan_string s) as [[t rest]|]; cbn; [|naive_solver];
       split; [by intros [= <- <-] | tauto]|]).
  - destruct (c =? 123); [naive_solver|]. destruct (c =? 91); [naive_solver | apply scalar_keeps].
  - destruct (c =? 123); [|destruct (c =? 91); [|apply scalar_keeps]].
    + destruct (after 125 (skip_ws s)); [split; [by intros [= <- <-] | tauto]|]. split.
      * intros ([pairs rest] & (-> & Hf & Hd)%(pairs_keep _ _ _ _ _ _ IH) & (-> & -> & Hn)%object_keeps)%bind_Ok.
        split; [done|]. simpl. by rewrite Hf, Hn, Hd.
      * intros [([pairs rest] & H & [= <- <-])%bind_Ok [Hf Hd]]. simpl in Hf, Hd. apply andb_true_iff in Hd as [Hn Hd].
        rewrite (proj2 (pairs_keep _ _ _ _ _ _ IH)) by (split_and!; [exact H | exact Hf | exact Hd]).
        by apply object_keeps.
    + destruct (after 93 (skip_ws s)); [split; [by intros [= <- <-] | tauto]|]. split.
      * intros ([l rest] & (-> & Hf & Hd)%(elements_keep _ _ _ _ _ _ IH) & [= <- <-])%bind_Ok. done.
      * intros [([l rest] & H & [= <- <-])%bind_Ok [Hf Hd]].
        by rewrite (proj2 (elements_keep _ _ _ _ _ _ IH)) by (split_and!; [exact H | exact Hf | exact Hd]).
Qed.

Lemma loads_keep stack text v :
  loads stack text = Ok v <-> raw_loads stack text = Ok v /\ finite v = true /\ distinct_keys v = true.
Proof.
  unfold loads, raw_loads. destruct (startswith text [65279]); [naive_solver|]. split.
  - intros ([u r] & (-> & Hf & Hd)%once_keeps & H)%bind_Ok. cbn [mbind outcome_bind].
    destruct (skip_ws r); [|done]. by injection H as ->.
  - intros [([u r] & H1 & H)%bind_Ok [Hf Hd]]. destruct (skip_ws r) eqn:Er; [|done]. injection H as ->.
    rewrite (proj2 (once_keeps _ _ _ _)) by (split_and!; [exact H1 | done | done]). cbn. by rewrite Er.
Qed.

(** C40. [decode_json] reads exactly the documents that the interpreter's reader does, as the
    same value, but for those with a key twice in one object, with [NaN] or an infinity,
    with an unpaired surrogate in a text or a key, or nested more than 100 deep; and
    whatever it does not read it refuses as malformed JSON, an integer of more than 4300
    digits apart. *)
Theorem decode_json_exact stack text :
  match decode_json stack text with
  | Ok v =>
      raw_loads stack text = Ok v
      /\ distinct_keys v = true /\ finite v = true /\ json_clean v = true /\ (json_depth v <= 100)%Z
  | Err e =>
      (forall v, raw_loads stack text = Ok v ->
         ~ (distinct_keys v = true /\ finite v = true /\ json_clean v = true /\ (json_depth v <= 100)%Z))
      /\ ((exists info, e = ProtocolError info /\ code info = MALFORMED_JSON) \/ e = ValueError /\ long_number text)
  end.
Proof.
  assert (forall v, (v' ← loads stack text; _normalize v' 0) = Ok v <-> raw_loads stack text = Ok v
    /\ distinct_keys v = true /\ finite v = true /\ json_clean v = true /\ (json_depth v <= 100)%Z) as Hi.
  { intros v. rewrite bind_Ok. setoid_rewrite loads_keep. setoid_rewrite normalize_spec. unfold MAX_JSON_DEPTH.
    split; [intros (v' & ? & -> & ? & ?); split_and!; tauto || lia | intros (? & ? & ? & ? & ?); exists v; split_and!; done || lia]. }
  assert (forall v, decode_json stack text = Ok v <-> (v' ← loads stack text; _normalize v' 0) = Ok v) as Hd.
  { intros v. unfold decode_json. destruct (v' ← loads stack text; _normalize v' 0) as [|[]]; done. }
  destruct (decode_json stack text) as [v|e] eqn:E; [by apply Hi, Hd|]. split.
  - intros v Hr Hv. assert (Err e = Ok v) by (apply Hd, Hi; tauto). done.
  - pose proof (decode_json_raises stack text e E) as He. destruct e; try done; [left; eauto | right].
    split; [done|]. by eapply decode_json_long.
Qed.

(** An integer of more than 4300 digits is no protocol error but a [ValueError], which
    no caller of [decode_json] expects. *)
Theorem huge_integer_escapes stack c ds :
  is_digit c = true -> c <> 48 -> forallb is_digit ds = true -> (MAX_STR_DIGITS <= length ds)%nat ->
  decode_json stack (c :: ds) = Err ValueError.
Proof.
  intros Hc Hn Hds Hl. unfold decode_json, loads.
  assert (startswith (c :: ds) [0xFEFF] = false) as ->.
  { cbn [startswith]. destruct (N.eqb_spec 0xFEFF c) as [<-|]; done. }
  rewrite skip_ws_id.
  2:{ unfold is_digit in Hc. apply andb_true_iff in Hc. rewrite !N.leb_le in Hc. unfold is_ws.
      rewrite !orb_false_iff, !N.eqb_neq. lia. }
  rewrite scan_once_number by (by left). unfold scan_number. cbn [after]. destruct (N.eqb_spec c 45) as [->|_]; [done|].
  unfold scan_unsigned. cbn [after]. destruct (N.eqb_spec c 48) as [|_]; [done|].
  rewrite <-(app_nil_r (c :: ds)), span_digits_app by (simpl; rewrite ?Hc; done).
  cbn [scan_fraction scan_exponent after]. unfold int_of.
  destruct (Nat.ltb_spec MAX_STR_DIGITS (length (c :: ds))); [done|]. simpl in *. lia.
Qed.

(** The text written for a value, a newline added, is read back as the same value with
    its keys in order, whatever the interpreter's stack, when it is a value the helper
    writes: no float, no duplicate key, no surrogate, at most 100 levels. *)
Theorem json_text_roundtrip stack v t :
  dumps v = Ok t -> writable v = true -> clean_text t -> (json_depth v <= MAX_JSON_DEPTH < Z.of_nat stack)%Z ->
  decode_json stack (t ++ [10]) = Ok (sort_keys v) /\ jeq v (sort_keys v).
Proof. intros Hv Hw Ht [? ?]. split; [by apply decode_dumps | by apply sort_keys_jeq]. Qed.

(** The bound on the loops of the scanner is enough: with any larger one an array or an
    object reads the same. *)
Theorem scanner_fuel_enough stack fuel s :
  (length s <= fuel)%nat -> s <> [] ->
  scan_elements (scan_once stack) fuel s = scan_elements (scan_once stack) (length s) s
  /\ scan_pairs (scan_once stack) fuel s = scan_pairs (scan_once stack) (length s) s.
Proof.
  intros Hl Hs. split.
  - apply scan_elements_fuel; [apply scan_once_consumes | by destruct stack | done | done | done].
  - apply scan_pairs_fuel; [apply scan_once_consumes | done | done].
Qed.

(** ** Witnesses *)

Definition sample_json : json :=
  JObj [(lit "b", JList [JInt (-12); JNull; JStr [34; 92; 10; 1; 0x1F600]]); (lit "a", JObj [])].

Lemma json_text_roundtrip_witness :
  exists t, dumps sample_json = Ok t /\ decode_json 101 (t ++ [10]) = Ok (sort_keys sample_json).
Proof.
  eexists. split; [vm_compute; reflexivity|].
  refine (proj1 (json_text_roundtrip 101 sample_json _ _ _ _ _)).
  - vm_compute. reflexivity.
  - vm_compute. reflexivity.
  - repeat (constructor; [reflexivity|]). constructor.
  - vm_compute. split; congruence.
Defined.

Lemma huge_integer_escapes_witness : decode_json 101 (49 :: repeat 48 4300) = Err ValueError.
Proof.
  apply (huge_integer_escapes 101 49 (repeat 48 4300)).
  - reflexivity.
  - discriminate.
  - vm_compute. reflexivity.
  - rewrite repeat_length. reflexivity.
Defined.

Lemma scanner_fuel_enough_witness :
  scan_elements (scan_once 1) 100 (lit "1,2]") = Ok ([JInt 1; JInt 2], []).
Proof.
  rewrite (proj1 (scanner_fuel_enough 1 100 (lit "1,2]") ltac:(vm_compute; lia) ltac:(discriminate))).
  vm_compute. reflexivity.
Defined.

(** ** Values of bounded depth *)

(** [v] can be written and is nested at most [b] deep. *)
Definition shallow (b : Z) (v : json) : Prop := writable v = true /\ (json_depth v <= b)%Z.

Lemma shallow_le b c v : shallow b v -> (b <= c)%Z -> shallow c v.
Proof. intros [? ?] ?. split; [done | lia]. Qed.

Lemma shallow_scalar b v :
  (0 <= b)%Z -> match v with JList _ | JObj _ | JFloat _ => False | _ => True end -> shallow b v.
Proof. by destruct v. Qed.

Lemma shallow_list b c l : Forall (shallow b) l -> (0 <= b < c)%Z -> shallow c (JList l).
Proof.
  intros Hl Hb. split.
  - cbn [writable]. rewrite forallb_Forall. eapply Forall_impl; [exact Hl|]. by intros ? [? _].
  - cbn [json_depth]. apply (foldr_max_le json_depth). split; [lia|].
    eapply Forall_impl; [exact Hl|]. intros x [_ ?]. cbn. lia.
Qed.

Lemma shallow_obj b c d :
  unique (keys d) = true -> Forall (fun kv => shallow b kv.2) d -> (0 <= b < c)%Z -> shallow c (JObj d).
Proof.
  intros Hu Hl Hb. split.
  - cbn [writable]. apply andb_true_iff. split; [done|]. rewrite forallb_Forall. eapply Forall_impl; [exact Hl|]. by intros ? [? _].
  - cbn [json_depth]. apply (foldr_max_le (fun kv => json_depth kv.2)). split; [lia|].
    eapply Forall_impl; [exact Hl|]. intros x [_ ?]. cbn. lia.
Qed.

Create HintDb shallow.
#[export] Hint Resolve shallow_scalar : shallow.

(** An object of literal keys whose entries are nested at most [b] deep; the entries the hints
    do not close are left. *)
Ltac shallow_entries :=
  lazymatch goal with
  | |- Forall _ (_ :: _) =>
      constructor; [cbn [snd]; try solve [apply shallow_scalar; [lia | exact I] | eauto with shallow] | shallow_entries]
  | |- Forall _ [] => constructor
  end.
Ltac shallow_object b := apply (shallow_obj b); [vm_compute; reflexivity | shallow_entries | lia].
