(* ===== verification/Fields.v ===== *)
(** * Field readers

    [parser_fields.py]: the typed accessors every protocol parser is made of, each with
    the error it raises, and the fact that none of them sees the order of object keys. *)

From S2P Require Import Prelude PyStr Calendar Models Json.

Open Scope Z_scope.

Record Reader := { rd_value : dict; rd_path : str }.

(** [Reader.field] *)
Definition field (r : Reader) (name : str) : res json :=
  match dict_get (rd_value r) name with
  | Some v => Ok v
  | None => fail MISSING_FIELD (lit "missing " ++ rd_path r ++ lit "." ++ name)
  end.

Definition unknown_fields (d : dict) (fields : list str) : list str :=
  List.filter (fun k => negb (bool_decide (k ∈ fields))) (keys d).

Definition reader (v : json) (path : str) (fields : list str) : res Reader :=
  match v with
  | JObj d =>
      match unknown_fields d fields with
      | [] => Ok {| rd_value := d; rd_path := path |}
      | u :: us => fail UNKNOWN_FIELD (lit "unknown " ++ path ++ lit "." ++ str_min u us)
      end
  | _ => fail INVALID_TYPE (path ++ lit " must be an object")
  end.

Definition protocol_version (v : json) : res Z :=
  match v with
  | JInt z =>
      _ ← raise_if (PROTOCOL_VERSION <? z)
            (ProtocolError {| code := PROTOCOL_VERSION_FUTURE;
                              message := lit "protocolVersion is newer than this helper" |});
      _ ← raise_if (negb (z =? PROTOCOL_VERSION))
            (ProtocolError {| code := PROTOCOL_VERSION_INVALID;
                              message := lit "protocolVersion is unsupported" |});
      Ok z
  | _ => fail PROTOCOL_VERSION_INVALID (lit "protocolVersion must be an exact integer")
  end.

Definition string (v : json) (path : str) : res str :=
  match v with
  | JStr s => Ok s
  | _ => fail INVALID_TYPE (path ++ lit " must be a string")
  end.

Definition timestamp `{IsoDialect} (v : json) (path : str) : res datetime :=
  raw ← string v path;
  let bad := fail INVALID_TIMESTAMP (path ++ lit " must be UTC RFC3339") in
  if (len raw <? 21) || negb (bool_decide (raw !! 10%nat = Some 84%N))
     || negb (endswith raw (lit "Z"))
  then bad
  else match fromisoformat (take (length raw - 1) raw ++ lit "+00:00") with
       | Some d => Ok d
       | None => bad
       end.

Definition enum {A} `{StrEnum A} (v : json) (path : str) : res A :=
  raw ← string v path;
  match enum_of raw with
  | Some a => Ok a
  | None => fail UNKNOWN_ENUM (lit "unknown enum at " ++ path)
  end.

Definition optional_string (v : json) (path : str) : res (option str) :=
  match v with
  | JNull => Ok None
  | _ => s ← string v path; Ok (Some s)
  end.

Definition identifier (v : json) (path : str) : res str := string v path.

(** [not raw or len(raw) > maximum_length] *)
Definition out_of_bounds (raw : str) (maximum_length : Z) : bool :=
  bool_decide (raw = []) || (maximum_length <? len raw).

Definition bounded_string (v : json) (path : str) (maximum_length : Z) : res str :=
  raw ← string v path;
  if out_of_bounds raw maximum_length
  then fail INVALID_TYPE (path ++ lit " must be a bounded non-empty string")
  else Ok raw.

Definition boolean (v : json) (path : str) : res bool :=
  match v with
  | JBool b => Ok b
  | _ => fail INVALID_TYPE (path ++ lit " must be a boolean")
  end.

Definition nonnegative_int (v : json) (path : str) : res Z :=
  match v with
  | JInt z =>
      if z <? 0 then fail INVALID_TYPE (path ++ lit " must be a non-negative exact integer")
      else Ok z
  | _ => fail INVALID_TYPE (path ++ lit " must be a non-negative exact integer")
  end.

Definition list_value (v : json) (path : str) : res (list json) :=
  match v with
  | JList l => Ok l
  | _ => fail INVALID_TYPE (path ++ lit " must be an array")
  end.

Definition reject_field (r : Reader) (name : str) : res unit :=
  raise_if (dict_mem (rd_value r) name)
    (ProtocolError {| code := INVALID_ENVELOPE;
                      message := lit "response." ++ name
                                 ++ lit " is incompatible with response.kind" |}).

(** [None if v is None else f(v)] *)
Definition optional {A} (f : json -> res A) (v : json) : res (option A) :=
  match v with
  | JNull => Ok None
  | _ => x ← f v; Ok (Some x)
  end.

(** ** Reading does not depend on the order of keys *)

Definition reader_eq (r s : Reader) : Prop :=
  rd_path r = rd_path s /\ dict_eq (rd_value r) (rd_value s).

Inductive outcome_rel {A B} (R : A -> B -> Prop) : res A -> res B -> Prop :=
| rel_ok a b : R a b -> outcome_rel R (Ok a) (Ok b)
| rel_err e : outcome_rel R (Err e) (Err e).

#[export] Hint Constructors outcome_rel : opatchy.

Lemma bind_rel {A B C} (R : A -> B -> Prop) m n (k : A -> res C) (h : B -> res C) :
  outcome_rel R m n -> (forall a b, R a b -> k a = h b) -> (m ≫= k) = (n ≫= h).
Proof. intros [a b Hab|e] H; simpl; [by apply H | done]. Qed.

Lemma mapM_rel {A} (f g : json -> res A) l k :
  Forall2 jeq l k -> (forall x y, jeq x y -> f x = g y) -> mapM f l = mapM g k.
Proof.
  intros Hl H. induction Hl as [|x y l k Hxy _ IH]; [done|]. simpl. by rewrite (H x y), IH.
Qed.

Lemma str_min_elem s l : str_min s l = s \/ str_min s l ∈ l.
Proof.
  induction l as [|a l IH]; simpl; [by left|]. rewrite elem_of_cons.
  destruct (str_leb _ _); tauto.
Qed.

Lemma str_min_le s l x : x = s \/ x ∈ l -> str_leb (str_min s l) x = true.
Proof.
  induction l as [|a l IH]; simpl.
  - intros [->|H]; [apply str_leb_refl | by apply elem_of_nil in H].
  - rewrite elem_of_cons. destruct (str_leb a (str_min s l)) eqn:E.
    + intros [->|[->|Hx]]; [eapply str_leb_trans; eauto | apply str_leb_refl |
        eapply str_leb_trans; eauto].
    + destruct (str_leb_total a (str_min s l)) as [|E']; [congruence|].
      intros [->|[->|Hx]]; auto.
Qed.

Lemma str_min_ext s l t k :
  (forall x, x ∈ s :: l <-> x ∈ t :: k) -> str_min s l = str_min t k.
Proof.
  setoid_rewrite elem_of_cons. intros H.
  apply str_leb_antisym; apply str_min_le; apply H; destruct (str_min_elem s l), (str_min_elem t k); naive_solver.
Qed.

Lemma outcome_rel_refl {A} (m : res A) : outcome_rel eq m m.
Proof. destruct m; by constructor. Qed.

Lemma outcome_rel_eq {A} (m n : res A) : m = n -> outcome_rel eq m n.
Proof. intros ->. apply outcome_rel_refl. Qed.

#[global] Instance reader_proper :
  Proper (jeq ==> (=) ==> (=) ==> outcome_rel reader_eq) reader.
Proof.
  intros v w Hvw p ? <- fs ? <-. inversion Hvw as [| | | | | |d e Hde]; subst; simpl; try constructor.
  assert (forall x, x ∈ unknown_fields d fs <-> x ∈ unknown_fields e fs) as Hu.
  { intros x. unfold unknown_fields. by rewrite !elem_of_filter_bool, (dict_eq_keys d e). }
  destruct (unknown_fields d fs) as [|u us] eqn:E1, (unknown_fields e fs) as [|u' us'] eqn:E2.
  - constructor. split; done.
  - exfalso. specialize (Hu u'). rewrite elem_of_nil, elem_of_cons in Hu. naive_solver.
  - exfalso. specialize (Hu u). rewrite elem_of_nil, elem_of_cons in Hu. naive_solver.
  - rewrite (str_min_ext u us u' us') by done. constructor.
Qed.

#[global] Instance field_proper : Proper (reader_eq ==> (=) ==> outcome_rel jeq) field.
Proof.
  intros [d p] [e q] [Hp Hde] n ? <-. simpl in *. subst q. unfold field. simpl.
  specialize (Hde n). inversion Hde; subst; by constructor.
Qed.

#[global] Instance list_value_proper : Proper (jeq ==> (=) ==> outcome_rel (Forall2 jeq)) list_value.
Proof. intros v w [] p ? <-; simpl; by constructor. Qed.

#[global] Instance string_proper : Proper (jeq ==> (=) ==> (=)) string.
Proof. intros v w [] p ? <-; done. Qed.

#[global] Instance protocol_version_proper : Proper (jeq ==> (=)) protocol_version.
Proof. intros v w []; done. Qed.

#[global] Instance timestamp_proper `{IsoDialect} : Proper (jeq ==> (=) ==> (=)) timestamp.
Proof. intros v w Hvw p ? <-. unfold timestamp. by rewrite Hvw. Qed.

#[global] Instance enum_proper `{StrEnum A} : Proper (jeq ==> (=) ==> (=)) (enum (A:=A)).
Proof. intros v w Hvw p ? <-. unfold enum. by rewrite Hvw. Qed.

#[global] Instance optional_string_proper : Proper (jeq ==> (=) ==> (=)) optional_string.
Proof. intros v w [] p ? <-; done. Qed.

#[global] Instance bounded_string_proper : Proper (jeq ==> (=) ==> (=) ==> (=)) bounded_string.
Proof. intros v w Hvw p ? <- m ? <-. unfold bounded_string. by rewrite Hvw. Qed.

#[global] Instance boolean_proper : Proper (jeq ==> (=) ==> (=)) boolean.
Proof. intros v w [] p ? <-; done. Qed.

#[global] Instance nonnegative_int_proper : Proper (jeq ==> (=) ==> (=)) nonnegative_int.
Proof. intros v w [] p ? <-; done. Qed.

#[global] Instance reject_field_proper : Proper (reader_eq ==> (=) ==> (=)) reject_field.
Proof.
  intros [d p] [e q] [Hp Hde] n ? <-. simpl in *. unfold reject_field. simpl.
  by rewrite (dict_eq_mem d e).
Qed.

Lemma optional_rel {A} (f g : json -> res A) v w :
  jeq v w -> (forall x y, jeq x y -> f x = g y) -> optional f v = optional g w.
Proof.
  intros Hvw H. pose proof (H v w Hvw) as E. destruct Hvw; simpl in *; by rewrite ?E.
Qed.

(** Closes [parse v = parse w] from [jeq v w]: walks the two computations in step. *)
Ltac json_step :=
  match goal with
  | |- (reader _ _ _ ≫= _) = _ => eapply bind_rel; [by apply reader_proper | intros ? ? ?]
  | |- (field _ _ ≫= _) = _ => eapply bind_rel; [by apply field_proper | intros ? ? ?]
  | |- (list_value _ _ ≫= _) = _ => eapply bind_rel; [by apply list_value_proper | intros ? ? ?]
  | |- (mapM _ _ ≫= _) = (mapM _ _ ≫= _) =>
      eapply bind_rel; [apply outcome_rel_eq; eapply mapM_rel; [eassumption|] | intros ? ? <-]
  | |- (optional _ _ ≫= _) = (optional _ _ ≫= _) =>
      eapply bind_rel; [apply outcome_rel_eq; apply optional_rel; [assumption|] | intros ? ? <-]
  | |- (reject_field _ _ ≫= _) = _ =>
      eapply bind_rel; [apply outcome_rel_eq; apply reject_field_proper; [assumption|done] | intros ? ? <-]
  | H : jeq ?a ?b |- context [?a] => rewrite H
  | |- (?m ≫= _) = (?m ≫= _) => eapply bind_rel; [apply outcome_rel_refl | intros ? ? <-]
  end.
Ltac json_proper := intros; repeat first [reflexivity | json_step | progress intros].

(** ** A reader raises only protocol errors *)

Section Readers.
Context `{IsoDialect}.

Lemma field_raises r n : raises protocol_error (field r n).
Proof. unfold field. solve_raises. Qed.

Lemma reader_raises v p l : raises protocol_error (reader v p l).
Proof. unfold reader. solve_raises. Qed.

Lemma string_raises v p : raises protocol_error (string v p).
Proof. unfold string. solve_raises. Qed.
#[local] Hint Resolve string_raises : raises.

Lemma protocol_version_raises v : raises protocol_error (protocol_version v).
Proof. unfold protocol_version. solve_raises. Qed.

Lemma timestamp_raises v p : raises protocol_error (timestamp v p).
Proof. unfold timestamp. solve_raises. Qed.

Lemma enum_raises `{StrEnum A} v p : raises protocol_error (enum (A:=A) v p).
Proof. unfold enum. solve_raises. Qed.

Lemma optional_string_raises v p : raises protocol_error (optional_string v p).
Proof. unfold optional_string. solve_raises. Qed.

Lemma bounded_string_raises v p n : raises protocol_error (bounded_string v p n).
Proof. unfold bounded_string. solve_raises. Qed.

Lemma boolean_raises v p : raises protocol_error (boolean v p).
Proof. unfold boolean. solve_raises. Qed.

Lemma nonnegative_raises v p : raises protocol_error (nonnegative_int v p).
Proof. unfold nonnegative_int. solve_raises. Qed.

Lemma list_value_raises v p : raises protocol_error (list_value v p).
Proof. unfold list_value. solve_raises. Qed.

Lemma reject_field_raises r n : raises protocol_error (reject_field r n).
Proof. unfold reject_field. solve_raises. Qed.

Lemma optional_raises {A} (f : json -> res A) v :
  (forall x, raises protocol_error (f x)) -> raises protocol_error (optional f v).
Proof. intros Hf. unfold optional. solve_raises. Qed.
End Readers.

#[export] Hint Resolve field_raises reader_raises string_raises protocol_version_raises timestamp_raises
  enum_raises optional_string_raises bounded_string_raises boolean_raises nonnegative_raises
  list_value_raises reject_field_raises optional_raises : raises.
