(* ===== verification/Validation.v ===== *)
(** * Validation of responses

    [validation.py]: the checks every response passes before it is written and after it
    is parsed, in the code's order, and the predicate they decide. *)

From S2P Require Import Prelude PyStr Regex Models Json.

Open Scope Z_scope.

Definition MAX_IDENTIFIER_LENGTH : Z := 128.
Definition MAX_ERROR_MESSAGE_LENGTH : Z := 512.

(** [re.compile(r"AVG-[0-9]+")] *)
Definition _AVG : regex := RCat (rlit (lit "AVG-")) (rplus rdigit).

(** [if b: _fail(code, message)] *)
Definition fail_if (b : bool) (c : ErrorCode) (msg : str) : res unit :=
  raise_if b (ProtocolError {| code := c; message := msg |}).

Definition _validate_identifier (v path : str) (maximum_length : Z) : res unit :=
  fail_if (bool_decide (v = []) || (maximum_length <? len v)) INVALID_TYPE
    (path ++ lit " must be a bounded non-empty string").

(** The call with the default bound, guarded by [is not None] where the field is optional. *)
Definition _validate_short (v path : str) : res unit :=
  _validate_identifier v path MAX_IDENTIFIER_LENGTH.
Definition _validate_optional (v : option str) (path : str) : res unit :=
  match v with None => Ok tt | Some s => _validate_short s path end.

Definition _validate_avg_identifier (v path : str) : res unit :=
  _ ← _validate_short v path;
  fail_if (negb (fullmatch _AVG v)) INVALID_TYPE
    (path ++ lit " must be an AVG advisory identifier").

Definition _validate_error (error : ErrorInfo) : res unit :=
  _validate_identifier (message error) (lit "error.message") MAX_ERROR_MESSAGE_LENGTH.

Definition _validate_cause (cause : option ErrorInfo) : res unit :=
  match cause with None => Ok tt | Some e => _validate_error e end.

Definition _validate_nonnegative (v : Z) (path : str) : res unit :=
  fail_if (v <? 0) INVALID_TYPE (path ++ lit " must be a non-negative exact integer").

(** A Python [int] is exact: the tests for [bool] are vacuous on a [Z]. *)
Definition _validate_metadata (m : Meta) : res unit :=
  _ ← fail_if (PROTOCOL_VERSION <? protocol_version_of m) PROTOCOL_VERSION_FUTURE
        (lit "protocolVersion is newer than this helper");
  _ ← fail_if (negb (protocol_version_of m =? PROTOCOL_VERSION)) PROTOCOL_VERSION_INVALID
        (lit "protocolVersion is unsupported");
  _validate_short (generation_id m) (lit "generationId").

Definition _validate_kev (known : bool) (status : KevStatus) (prov : option Provenance) : res unit :=
  match status with
  | LISTED => fail_if (negb known || bool_decide (prov = None)) INVALID_ENVELOPE
                (lit "listed KEV finding is inconsistent")
  | NOT_LISTED => fail_if (known || bool_decide (prov = None)) INVALID_ENVELOPE
                    (lit "not-listed KEV finding is inconsistent")
  | KEV_UNAVAILABLE => fail_if (known || bool_decide (prov <> None)) INVALID_ENVELOPE
                     (lit "unavailable KEV finding is inconsistent")
  end.

Definition _is_arch_source (source : ItemSource) : bool := bool_decide (source = IS_ARCH).

Definition _validate_finding (group_id : str) (f : SecurityFinding) : res unit :=
  _ ← fail_if (bool_decide (finding_item_id f <> group_id)) INVALID_ENVELOPE
        (lit "security finding ID does not match its group");
  _ ← _validate_avg_identifier (finding_id f) (lit "finding.id");
  _ ← _validate_avg_identifier (advisory_id f) (lit "finding.advisoryId");
  _ ← fail_if (bool_decide (finding_id f <> advisory_id f)) INVALID_ENVELOPE
        (lit "finding.id must equal finding.advisoryId");
  _ ← _validate_short (advisory_type f) (lit "finding.type");
  _ ← _validate_optional (installed_version f) (lit "finding.installedVersion");
  _validate_kev (known_exploited f) (kev_status f) (kev_provenance f).

Definition _validate_group (by_id : gmap str ItemSource) (g : SecurityFindingGroup) : res unit :=
  _ ← fail_if (match by_id !! group_item_id g with
               | Some s => negb (_is_arch_source s)
               | None => false
               end) INVALID_ENVELOPE (lit "security findings must attach to an Arch item");
  _ ← fail_if (negb (startswith (group_item_id g) (lit "arch:"))) INVALID_ENVELOPE
        (lit "security findings must use an Arch item ID");
  _ ← fail_if (match group_findings g with [] => true | _ => false end) INVALID_ENVELOPE
        (lit "security finding groups cannot be empty");
  _ ← fail_if (negb (unique (finding_id <$> group_findings g))) DUPLICATE_FINDING_ID
        (lit "security finding IDs must be unique");
  for_each (_validate_finding (group_item_id g)) (group_findings g).

(** [{item.item_id: item.source for item in items}]: a later item replaces an earlier one. *)
Definition source_by_item_id (its : list NormalizedItem) : gmap str ItemSource :=
  list_to_map (reverse ((fun i => (item_id i, item_source i)) <$> its)).

Definition _validate_groups (groups : list SecurityFindingGroup) (its : list NormalizedItem) : res unit :=
  _ ← fail_if (negb (unique (group_item_id <$> groups))) INVALID_ENVELOPE
        (lit "security finding groups must be unique");
  for_each (_validate_group (source_by_item_id its)) groups.

Definition _validate_item (i : NormalizedItem) : res unit :=
  _ ← fail_if (watch_armed i && bool_decide (watch_mode i <> TEMPORARY)) INVALID_ENVELOPE
        (lit "only temporary watches can be armed");
  _ ← _validate_short (item_id i) (lit "item.id");
  _ ← _validate_short (label i) (lit "item.label");
  _ ← _validate_optional (installed_fingerprint i) (lit "item.installedFingerprint");
  _validate_optional (candidate_fingerprint i) (lit "item.candidateFingerprint").

Definition _validate_items (its : list NormalizedItem) : res unit :=
  _ ← fail_if (negb (unique (item_id <$> its))) DUPLICATE_ITEM_ID (lit "item IDs must be unique");
  for_each _validate_item its.

(** [len(set(xs)) != len(xs) or set(xs) != set(Enum)] *)
Definition each_member_once {A} `{StrEnum A} (l : list A) : bool :=
  Nat.eqb (size (list_to_set l : gset A)) (length l)
  && bool_decide ((list_to_set l : gset A) = all_members A).

Definition _validate_scopes (s : SourceHealth) : res unit :=
  match sh_scopes s with
  | [] => Ok tt
  | scopes =>
      _ ← fail_if (bool_decide (sh_source s <> SN_FLATPAK)) INVALID_ENVELOPE
            (lit "only Flatpak supports scoped source health");
      _ ← fail_if (negb (each_member_once (sc_scope <$> scopes))) INVALID_ENVELOPE
            (lit "Flatpak source scopes are incomplete");
      for_each (fun c => _validate_cause (sc_cause c)) scopes
  end.

Definition _validate_sources (srcs : list SourceHealth) : res unit :=
  _ ← fail_if (negb (each_member_once (sh_source <$> srcs))) INVALID_ENVELOPE
        (lit "snapshot.sources must contain each source once");
  for_each (fun s => _ ← _validate_cause (sh_cause s); _validate_scopes s) srcs.

Definition _validate_inventory_source (s : ItemSource) : res unit :=
  match s with
  | IS_OMARCHY => fail INVALID_ENVELOPE (lit "inventory source is unsupported")
  | IS_ARCH | IS_AUR | IS_FLATPAK | IS_MISE => Ok tt
  end.

Definition _validate_inventory (p : InventoryPayload) : res unit :=
  _ ← _validate_inventory_source (inv_source p);
  _ ← _validate_nonnegative (inv_total p) (lit "inventory.total");
  _ ← fail_if (inv_total p <? len (inv_items p)) INVALID_ENVELOPE
        (lit "inventory.total is smaller than inventory.items");
  _ ← _validate_items (inv_items p);
  fail_if (existsb (fun i => bool_decide (item_source i <> inv_source p)) (inv_items p))
    INVALID_ENVELOPE (lit "inventory items must match inventory.source").

Definition _validate_snapshot (p : SnapshotPayload) : res unit :=
  _ ← _validate_sources (sources p);
  _ ← _validate_items (items p);
  _ ← _validate_groups (findings p) (items p);
  _ ← _validate_nonnegative (total_updates (summary_of p)) (lit "summary.totalUpdates");
  _ ← _validate_nonnegative (watched_updates (summary_of p)) (lit "summary.watchedUpdates");
  _ ← _validate_nonnegative (security_findings (summary_of p)) (lit "summary.securityFindings");
  _validate_nonnegative (degraded_sources (summary_of p)) (lit "summary.degradedSources").

Definition validate_response (r : Response) : res unit :=
  _ ← _validate_metadata (response_meta r);
  match r with
  | RSnapshot r => _validate_snapshot (snap_payload r)
  | RInventory r => _validate_inventory (inv_payload r)
  | RStar _ p =>
      _ ← _validate_short (star_item_id p) (lit "star-result.itemId");
      fail_if (star_armed p && bool_decide (star_mode p <> TEMPORARY)) INVALID_ENVELOPE
        (lit "only temporary star results can be armed")
  | RError _ e => _validate_error e
  end.

(** ** What a valid response is *)

Definition bounded_text (n : Z) (s : str) : Prop := 1 <= len s <= n.
Abbreviation short_text := (bounded_text MAX_IDENTIFIER_LENGTH).
Abbreviation cause_ok c := (from_option (fun e => bounded_text MAX_ERROR_MESSAGE_LENGTH (message e)) True c).
Abbreviation optional_text v := (from_option short_text True v).

(** An Arch Linux advisory number. *)
Definition avg_text (s : str) : Prop :=
  exists ds, s = lit "AVG-" ++ ds /\ ds <> [] /\ Forall (fun c => is_digit c = true) ds.

Definition kev_consistent (f : SecurityFinding) : Prop :=
  (known_exploited f = true <-> kev_status f = LISTED)
  /\ (kev_provenance f = None <-> kev_status f = KEV_UNAVAILABLE).

Record valid_finding (group_id : str) (f : SecurityFinding) : Prop := {
  vf_item : finding_item_id f = group_id;
  vf_same : finding_id f = advisory_id f;
  vf_avg : short_text (finding_id f) /\ avg_text (finding_id f);
  vf_type : short_text (advisory_type f);
  vf_version : optional_text (installed_version f);
  vf_kev : kev_consistent f;
}.

Record valid_group (its : list NormalizedItem) (g : SecurityFindingGroup) : Prop := {
  vg_item : forall i, i ∈ its -> item_id i = group_item_id g -> item_source i = IS_ARCH;
  vg_prefix : exists name, group_item_id g = lit "arch:" ++ name;
  vg_nonempty : group_findings g <> [];
  vg_distinct : NoDup (finding_id <$> group_findings g);
  vg_findings : Forall (valid_finding (group_item_id g)) (group_findings g);
}.

Record valid_item (i : NormalizedItem) : Prop := {
  vi_armed : watch_armed i = true -> watch_mode i = TEMPORARY;
  vi_id : short_text (item_id i);
  vi_label : short_text (label i);
  vi_installed : optional_text (installed_fingerprint i);
  vi_candidate : optional_text (candidate_fingerprint i);
}.

Definition valid_items (its : list NormalizedItem) : Prop :=
  NoDup (item_id <$> its) /\ Forall valid_item its.

Record valid_source (s : SourceHealth) : Prop := {
  vs_cause : cause_ok (sh_cause s);
  vs_scopes : sh_scopes s = []
    \/ sh_source s = SN_FLATPAK /\ sc_scope <$> sh_scopes s ≡ₚ members;
  vs_scope_causes : Forall (fun c => cause_ok (sc_cause c)) (sh_scopes s);
}.

Record valid_snapshot (p : SnapshotPayload) : Prop := {
  vp_each_source : sh_source <$> sources p ≡ₚ members;
  vp_sources : Forall valid_source (sources p);
  vp_items : valid_items (items p);
  vp_groups : NoDup (group_item_id <$> findings p);
  vp_findings : Forall (valid_group (items p)) (findings p);
  vp_summary : 0 <= total_updates (summary_of p) /\ 0 <= watched_updates (summary_of p)
    /\ 0 <= security_findings (summary_of p) /\ 0 <= degraded_sources (summary_of p);
}.

Record valid_inventory (p : InventoryPayload) : Prop := {
  vv_source : inv_source p <> IS_OMARCHY;
  vv_total : len (inv_items p) <= inv_total p;
  vv_items : valid_items (inv_items p);
  vv_same : Forall (fun i => item_source i = inv_source p) (inv_items p);
}.

Definition valid_payload (r : Response) : Prop :=
  match r with
  | RSnapshot r => valid_snapshot (snap_payload r)
  | RInventory r => valid_inventory (inv_payload r)
  | RStar _ p => short_text (star_item_id p) /\ (star_armed p = true -> star_mode p = TEMPORARY)
  | RError _ e => bounded_text MAX_ERROR_MESSAGE_LENGTH (message e)
  end.

Definition valid_response (r : Response) : Prop :=
  protocol_version_of (response_meta r) = PROTOCOL_VERSION
  /\ short_text (generation_id (response_meta r))
  /\ valid_payload r.

(** ** The checks decide the predicate *)

Lemma fail_if_Ok b c m u : fail_if b c m = Ok u <-> b = false.
Proof. apply raise_if_Ok. Qed.

Lemma then_Ok (m k : res unit) : (_ ← m; k) = Ok tt <-> m = Ok tt /\ k = Ok tt.
Proof. destruct m as [[]|]; simpl; naive_solver. Qed.

Lemma Forall_ext {A} (P Q : A -> Prop) l : (forall x, P x <-> Q x) -> Forall P l <-> Forall Q l.
Proof. intros H. split; intros Hl; (eapply Forall_impl; [exact Hl|]); intros x; apply H. Qed.

Lemma members_NoDup `{StrEnum A} : NoDup (members (A:=A)).
Proof.
  eapply NoDup_fmap_1. apply (bool_decide_eq_true_1 _ (values_distinct (A:=A))).
Qed.

Lemma size_of_list `{Countable A} (l : list A) :
  size (list_to_set l : gset A) = length l <-> NoDup l.
Proof.
  assert (forall l : list A, (size (list_to_set l : gset A) <= length l)%nat) as Hle.
  { clear. induction l as [|x l IH]; [by rewrite list_to_set_nil, size_empty|].
    rewrite list_to_set_cons, size_union_alt, size_singleton. simpl. apply le_n_S.
    etransitivity; [|exact IH]. apply subseteq_size. set_solver. }
  induction l as [|x l IH].
  - rewrite list_to_set_nil, size_empty. split; [constructor | done].
  - rewrite list_to_set_cons, length_cons, NoDup_cons. specialize (Hle l).
    destruct (decide (x ∈ l)) as [Hx|Hx].
    + replace ({[x]} ∪ list_to_set l : gset A) with (list_to_set l : gset A) by set_solver.
      split; [lia | naive_solver].
    + rewrite size_union by set_solver. rewrite size_singleton, <-IH.
      split; [intros; split; [done | lia] | intros [_ ->]; lia].
Qed.

Lemma each_member_once_spec `{StrEnum A} (l : list A) :
  each_member_once l = true <-> l ≡ₚ members.
Proof.
  unfold each_member_once. rewrite andb_true_iff, Nat.eqb_eq, bool_decide_eq_true, size_of_list.
  unfold all_members. split.
  - intros [Hnd Heq]. apply NoDup_Permutation; [done | apply members_NoDup|].
    intros x. rewrite <-(elem_of_list_to_set (C:=gset A) x l), Heq. set_solver.
  - intros Hp. split; [rewrite Hp; apply members_NoDup|]. apply set_eq. intros x.
    by rewrite !elem_of_list_to_set, Hp.
Qed.

Lemma identifier_spec v p n : _validate_identifier v p n = Ok tt <-> bounded_text n v.
Proof.
  unfold _validate_identifier, bounded_text, len. rewrite fail_if_Ok, orb_false_iff, Z.ltb_ge, bool_decide_eq_false.
  destruct v; simpl; split; intros; [naive_solver|lia| |]; (split; [try done; lia | lia]).
Qed.

Lemma short_spec v p : _validate_short v p = Ok tt <-> short_text v.
Proof. apply identifier_spec. Qed.

Lemma optional_spec v p : _validate_optional v p = Ok tt <-> optional_text v.
Proof. destruct v; simpl; [apply identifier_spec | done]. Qed.

Lemma cause_spec c : _validate_cause c = Ok tt <-> cause_ok c.
Proof. destruct c; simpl; [apply identifier_spec | done]. Qed.

Lemma AVG_spec s : fullmatch _AVG s = true <-> avg_text s.
Proof.
  unfold avg_text, _AVG. rewrite fullmatch_matches, matches_cat. split.
  - intros (? & ds & -> & ->%matches_rlit & [Hne Hd]%matches_plus_set).
    exists ds. by rewrite <-forallb_Forall.
  - intros (ds & -> & Hne & Hd%forallb_Forall). exists (lit "AVG-"), ds.
    split; [done|]. split; [by apply matches_rlit | by apply matches_plus_set].
Qed.

Lemma avg_identifier_spec v p : _validate_avg_identifier v p = Ok tt <-> short_text v /\ avg_text v.
Proof.
  unfold _validate_avg_identifier. by rewrite then_Ok, fail_if_Ok, negb_false_iff, AVG_spec, short_spec.
Qed.

Lemma kev_spec f :
  _validate_kev (known_exploited f) (kev_status f) (kev_provenance f) = Ok tt <-> kev_consistent f.
Proof.
  unfold kev_consistent, _validate_kev.
  destruct (kev_status f), (known_exploited f), (kev_provenance f) as [p|]; vm_compute; naive_solver.
Qed.

Ltac checks :=
  repeat rewrite then_Ok; rewrite ?fail_if_Ok, ?identifier_spec, ?short_spec, ?optional_spec, ?cause_spec, ?avg_identifier_spec,
    ?kev_spec, ?negb_false_iff, ?bool_decide_eq_false, ?unique_spec, ?for_each_Ok.

Lemma finding_spec g f : _validate_finding g f = Ok tt <-> valid_finding g f.
Proof.
  unfold _validate_finding. checks. split.
  - intros (? & ? & ? & ? & ? & ? & ?). constructor; auto; by apply dec_stable.
  - intros [? Hs ? ? ? ?]. rewrite <-Hs. repeat (split; [first [tauto | by intros Hn; apply Hn]|]). done.
Qed.

Lemma last_source_Some its k s :
  source_by_item_id its !! k = Some s -> exists i, i ∈ its /\ item_id i = k /\ item_source i = s.
Proof.
  intros H%elem_of_list_to_map_2. rewrite elem_of_reverse, list_elem_of_fmap in H.
  destruct H as (i & [= -> ->] & ?). by exists i.
Qed.

Lemma last_source its i :
  NoDup (item_id <$> its) -> i ∈ its -> source_by_item_id its !! item_id i = Some (item_source i).
Proof.
  intros Hnd Hi. apply elem_of_list_to_map_1.
  - rewrite fmap_reverse, <-list_fmap_compose, reverse_Permutation. done.
  - rewrite elem_of_reverse, list_elem_of_fmap. eauto.
Qed.

Lemma group_spec its g :
  NoDup (item_id <$> its) ->
  _validate_group (source_by_item_id its) g = Ok tt <-> valid_group its g.
Proof.
  intros Hnd. unfold _validate_group. checks. rewrite (Forall_ext _ _ _ (finding_spec (group_item_id g))), startswith_spec.
  assert ((match source_by_item_id its !! group_item_id g with
           | Some s => negb (_is_arch_source s) | None => false end = false)
          <-> (forall i, i ∈ its -> item_id i = group_item_id g -> item_source i = IS_ARCH)) as ->.
  { unfold _is_arch_source. split.
    - intros H i Hi E. rewrite <-E, last_source in H by done. by apply negb_false_iff, bool_decide_eq_true in H.
    - intros H. destruct (_ !! _) as [s|] eqn:E; [|done].
      apply last_source_Some in E as (i & Hi & ? & <-). rewrite (H i) by done. done. }
  assert ((match group_findings g with [] => true | _ => false end = false) <-> group_findings g <> []) as ->.
  { destruct (group_findings g); naive_solver. }
  split; [intros (? & ? & ? & ? & ?); by constructor | intros []; auto].
Qed.

Lemma item_spec i : _validate_item i = Ok tt <-> valid_item i.
Proof.
  unfold _validate_item. checks. rewrite andb_false_iff, bool_decide_eq_false. split.
  - intros (Ha & ? & ? & ? & ?). constructor; auto. intros Hw. destruct Ha; [congruence | by apply dec_stable].
  - intros [Ha ? ? ? ?]. split; [|auto]. destruct (watch_armed i); [right; by rewrite Ha; auto | by left].
Qed.

Lemma items_spec its : _validate_items its = Ok tt <-> valid_items its.
Proof. unfold _validate_items, valid_items. checks. by rewrite (Forall_ext _ _ _ item_spec). Qed.

Lemma scopes_spec s :
  _validate_cause (sh_cause s) = Ok tt /\ _validate_scopes s = Ok tt <-> valid_source s.
Proof.
  unfold _validate_scopes. rewrite cause_spec. destruct (sh_scopes s) as [|c l] eqn:E.
  - split; [intros [? _]; constructor; rewrite ?E; auto | intros []; done].
  - rewrite <-E. checks. rewrite each_member_once_spec, (Forall_ext _ _ _ (fun c => cause_spec (sc_cause c))).
    split.
    + intros (? & Hn & ? & ?). constructor; auto. right. split; [by apply dec_stable | done].
    + intros [? [H|[? ?]] ?]; [congruence|]. repeat split; auto.
Qed.

Lemma sources_spec l :
  _validate_sources l = Ok tt <-> sh_source <$> l ≡ₚ members /\ Forall valid_source l.
Proof.
  unfold _validate_sources. checks. rewrite each_member_once_spec.
  rewrite (Forall_ext _ valid_source l); [done|]. intros s. by rewrite then_Ok, scopes_spec.
Qed.

Lemma nonnegative_spec v p : _validate_nonnegative v p = Ok tt <-> 0 <= v.
Proof. unfold _validate_nonnegative. by rewrite fail_if_Ok, Z.ltb_ge. Qed.

Lemma snapshot_spec p : _validate_snapshot p = Ok tt <-> valid_snapshot p.
Proof.
  unfold _validate_snapshot, _validate_groups. checks. rewrite !nonnegative_spec, sources_spec, items_spec. split.
  - intros ([? ?] & Hi & [? ?] & ?). constructor; try tauto.
    eapply Forall_impl; [eassumption|]. intros g. cbv beta. by rewrite group_spec by apply Hi.
  - intros []. repeat split; try tauto; try (apply vp_items0).
    eapply Forall_impl; [eassumption|]. intros g. cbv beta. by rewrite group_spec by apply vp_items0.
Qed.

Lemma inventory_spec p : _validate_inventory p = Ok tt <-> valid_inventory p.
Proof.
  unfold _validate_inventory. checks. rewrite items_spec, nonnegative_spec, Z.ltb_ge.
  assert (_validate_inventory_source (inv_source p) = Ok tt <-> inv_source p <> IS_OMARCHY) as ->.
  { destruct (inv_source p); simpl; unfold fail; naive_solver. }
  assert (existsb (fun i => bool_decide (item_source i <> inv_source p)) (inv_items p) = false
          <-> Forall (fun i => item_source i = inv_source p) (inv_items p)) as ->.
  { induction (inv_items p); simpl; [by split|]. rewrite orb_false_iff, Forall_cons, bool_decide_eq_false.
    rewrite IHl. split; intros [? ?]; split; auto. by apply dec_stable. }
  unfold len. split; [intros (? & ? & ? & ? & ?); by constructor | intros []; repeat split; auto; try apply vv_items0].
  unfold len in *. lia.
Qed.

(** [validate_response] returns exactly on the valid responses. *)
Lemma validate_response_spec r : validate_response r = Ok tt <-> valid_response r.
Proof.
  unfold validate_response, valid_response, _validate_metadata. checks.
  rewrite Z.eqb_eq, Z.ltb_ge.
  set (k := _ = Ok tt). assert (k <-> valid_payload r) as ->.
  { unfold k, valid_payload. destruct r as [s|v|m p|m e].
    - apply snapshot_spec.
    - apply inventory_spec.
    - checks. rewrite andb_false_iff, bool_decide_eq_false.
      destruct (star_armed p), (star_mode p); intuition congruence.
    - apply identifier_spec. }
  split; [tauto|]. intros (Hv & ?). rewrite Hv. unfold PROTOCOL_VERSION. split; [|tauto]. split; [lia | tauto].
Qed.

(** ** The errors of the checks *)

Lemma fail_if_raises b c m : raises protocol_error (fail_if b c m).
Proof. unfold fail_if. auto with raises. Qed.
#[local] Hint Resolve fail_if_raises : raises.

Lemma identifier_raises v p n : raises protocol_error (_validate_identifier v p n).
Proof. apply fail_if_raises. Qed.
#[local] Hint Resolve identifier_raises : raises.

Lemma optional_check_raises v p : raises protocol_error (_validate_optional v p).
Proof. unfold _validate_optional, _validate_short. solve_raises. Qed.

Lemma cause_raises c : raises protocol_error (_validate_cause c).
Proof. unfold _validate_cause, _validate_error. solve_raises. Qed.
#[local] Hint Resolve optional_check_raises cause_raises : raises.

Lemma validate_items_raises its : raises protocol_error (_validate_items its).
Proof. unfold _validate_items, _validate_item, _validate_short. solve_raises. Qed.

Lemma validate_finding_raises g f : raises protocol_error (_validate_finding g f).
Proof.
  unfold _validate_finding, _validate_avg_identifier, _validate_short, _validate_kev. solve_raises.
Qed.
#[local] Hint Resolve validate_items_raises validate_finding_raises : raises.

Lemma validate_sources_raises l : raises protocol_error (_validate_sources l).
Proof. unfold _validate_sources, _validate_scopes. solve_raises. Qed.

Lemma validate_groups_raises gs its : raises protocol_error (_validate_groups gs its).
Proof. unfold _validate_groups, _validate_group. solve_raises. Qed.
#[local] Hint Resolve validate_sources_raises validate_groups_raises : raises.

Lemma validate_response_raises r : raises protocol_error (validate_response r).
Proof.
  unfold validate_response, _validate_metadata, _validate_snapshot, _validate_inventory,
    _validate_inventory_source, _validate_nonnegative, _validate_short, _validate_error. solve_raises.
Qed.
#[export] Hint Resolve validate_response_raises : raises.

(** Validation decides whether a response is valid: every item once, each with bounded
    texts and armed only as a temporary watch; every source once, scoped only for
    Flatpak and then with both scopes; findings grouped by Arch item, with AVG numbers
    and a consistent KEV status. It refuses with a protocol error. *)
Theorem validation_decides r :
  (validate_response r = Ok tt <-> valid_response r)
  /\ (~ valid_response r <-> exists info, validate_response r = Err (ProtocolError info)).
Proof.
  rewrite <-validate_response_spec. split; [done|].
  destruct (validate_response r) as [[]|e] eqn:E; [naive_solver|].
  destruct (validate_response_raises r e E) as [i ->]. naive_solver.
Qed.
