(* ===== verification/Wire.v ===== *)
(** * Responses as JSON values

    [wire.py]: [response_value] validates a response and builds its envelope; a
    timestamp that is not UTC raises on the way. *)

From S2P Require Import Prelude PyStr Calendar Models Json Validation.

Open Scope Z_scope.

(** Values the encoder writes in place: strings, enumeration members, optional strings. *)
Definition JEnum {A} `{StrEnum A} (a : A) : json := JStr (value a).
Definition JOpt {A} (f : A -> json) (v : option A) : json := from_option f JNull v.

Definition _timestamp (d : datetime) : res json :=
  if dt_utc d then Ok (JStr (timestamp_text d))
  else fail INVALID_TIMESTAMP (lit "timestamps must be UTC").

Definition _error (e : ErrorInfo) : json :=
  JObj [(lit "code", JEnum (code e)); (lit "message", JStr (message e))].

Definition _notification (o : NotificationOutcome) : json :=
  JObj [(lit "fingerprint", JStr (outcome_fingerprint o)); (lit "status", JEnum (outcome_status o))].

Definition _finding (f : SecurityFinding) : json :=
  JObj [(lit "advisoryId", JStr (advisory_id f));
        (lit "cveIds", JList (JStr <$> cve_ids f));
        (lit "fixedVersion", JOpt JStr (fixed_version f));
        (lit "id", JStr (finding_id f));
        (lit "installedVersion", JOpt JStr (installed_version f));
        (lit "itemId", JStr (finding_item_id f));
        (lit "kevProvenance", JOpt JEnum (kev_provenance f));
        (lit "kevStatus", JEnum (kev_status f));
        (lit "knownExploited", JBool (known_exploited f));
        (lit "provenance", JEnum (finding_provenance f));
        (lit "severity", JEnum (severity f));
        (lit "status", JEnum (finding_status f));
        (lit "type", JStr (advisory_type f))].

Definition _group (g : SecurityFindingGroup) : json :=
  JObj [(lit "findings", JList (_finding <$> group_findings g));
        (lit "itemId", JStr (group_item_id g))].

(** A key that is written only when its value is present. *)
Definition when_some (k : str) (v : option str) : dict :=
  match v with Some s => [(k, JStr s)] | None => [] end.

Definition _item (i : NormalizedItem) : json :=
  JObj ([(lit "candidate", JOpt JStr (candidate i));
         (lit "id", JStr (item_id i));
         (lit "installed", JOpt JStr (installed i));
         (lit "label", JStr (label i));
         (lit "provenance", JEnum (item_provenance i));
         (lit "source", JEnum (item_source i));
         (lit "watchMode", JEnum (watch_mode i));
         (lit "watchArmed", JBool (watch_armed i));
         (lit "watchable", JBool (watchable i))]
        ++ when_some (lit "installedFingerprint") (installed_fingerprint i)
        ++ when_some (lit "candidateFingerprint") (candidate_fingerprint i)).

Definition _summary (s : Summary) : json :=
  JObj [(lit "degradedSources", JInt (degraded_sources s));
        (lit "securityFindings", JInt (security_findings s));
        (lit "totalUpdates", JInt (total_updates s));
        (lit "watchedUpdates", JInt (watched_updates s))].

Definition _scope (s : ScopeHealth) : res json :=
  fresh ← _timestamp (sc_fresh_until s);
  observed ← _timestamp (sc_observed_at s);
  Ok (JObj [(lit "cause", JOpt _error (sc_cause s));
            (lit "freshUntil", fresh);
            (lit "observedAt", observed);
            (lit "provenance", JEnum (sc_provenance s));
            (lit "scope", JEnum (sc_scope s));
            (lit "status", JEnum (sc_status s))]).

Definition _source (s : SourceHealth) : res json :=
  fresh ← _timestamp (sh_fresh_until s);
  observed ← _timestamp (sh_observed_at s);
  let base := [(lit "cause", JOpt _error (sh_cause s));
               (lit "freshUntil", fresh);
               (lit "observedAt", observed);
               (lit "provenance", JEnum (sh_provenance s));
               (lit "source", JEnum (sh_source s));
               (lit "status", JEnum (sh_status s))] in
  match sh_scopes s with
  | [] => Ok (JObj base)
  | scopes => l ← mapM _scope scopes; Ok (JObj (base ++ [(lit "scopes", JList l)]))
  end.

Definition _snapshot (p : SnapshotPayload) : res json :=
  srcs ← mapM _source (sources p);
  Ok (JObj [(lit "findings", JList (_group <$> findings p));
            (lit "items", JList (_item <$> items p));
            (lit "notifications", JList (_notification <$> notifications p));
            (lit "scanState", JEnum (scan_state_of p));
            (lit "sources", JList srcs);
            (lit "summary", _summary (summary_of p))]).

Definition _inventory (p : InventoryPayload) : json :=
  JObj [(lit "items", JList (_item <$> inv_items p));
        (lit "source", JEnum (inv_source p));
        (lit "total", JInt (inv_total p))].

Definition _star_result (p : StarResultPayload) : json :=
  JObj [(lit "itemId", JStr (star_item_id p));
        (lit "mode", JEnum (star_mode p));
        (lit "watchArmed", JBool (star_armed p))].

Definition _envelope (m : Meta) (kind : ResponseKind) (payload : json) : res json :=
  generated ← _timestamp (generated_at m);
  Ok (JObj [(lit "generatedAt", generated);
            (lit "generationId", JStr (generation_id m));
            (lit "kind", JEnum kind);
            (lit "payload", payload);
            (lit "protocolVersion", JInt (protocol_version_of m))]).

Definition _error_envelope (m : Meta) (error : ErrorInfo) : res json :=
  generated ← _timestamp (generated_at m);
  Ok (JObj [(lit "error", _error error);
            (lit "generatedAt", generated);
            (lit "generationId", JStr (generation_id m));
            (lit "kind", JEnum RK_ERROR);
            (lit "protocolVersion", JInt (protocol_version_of m))]).

Definition response_value (r : Response) : res json :=
  _ ← validate_response r;
  match r with
  | RSnapshot r => p ← _snapshot (snap_payload r); _envelope (snap_meta r) RK_SNAPSHOT p
  | RInventory r => _envelope (inv_meta r) RK_INVENTORY (_inventory (inv_payload r))
  | RStar m p => _envelope m RK_STAR_RESULT (_star_result p)
  | RError m e => _error_envelope m e
  end.

(** ** Timestamps of a response *)

Definition scope_times (s : ScopeHealth) : list datetime := [sc_observed_at s; sc_fresh_until s].
Definition source_times (s : SourceHealth) : list datetime :=
  sh_observed_at s :: sh_fresh_until s :: (sh_scopes s ≫= scope_times).
Definition payload_times (r : Response) : list datetime :=
  match r with
  | RSnapshot r => sources (snap_payload r) ≫= source_times
  | _ => []
  end.
Definition response_times (r : Response) : list datetime :=
  generated_at (response_meta r) :: payload_times r.

Lemma timestamp_Ok d v : _timestamp d = Ok v <-> dt_utc d = true /\ v = JStr (timestamp_text d).
Proof. unfold _timestamp, fail. destruct (dt_utc d); naive_solver. Qed.

Lemma Forall_bind_iff {A B} (P : B -> Prop) (f : A -> list B) l :
  Forall P (l ≫= f) <-> Forall (fun x => Forall P (f x)) l.
Proof. induction l; csimpl; [done|]. by rewrite Forall_app, Forall_cons, IHl. Qed.

Lemma mapM_total {A B} (f : A -> res B) l (P : A -> Prop) :
  (forall x, P x <-> is_Some (match f x with Ok y => Some y | Err _ => None end)) ->
  (exists k, mapM f l = Ok k) <-> Forall P l.
Proof.
  intros H. induction l as [|x l IH]; simpl; [split; eauto|].
  rewrite Forall_cons, <-IH, (H x). destruct (f x); simpl.
  - split; [intros [? E]; inv_ok; eauto | intros [_ [? ->]]; simpl; eauto].
  - split; [intros [? ?]; done | intros [[? ?] _]; done].
Qed.

Abbreviation returns m := (is_Some (match m with Ok y => Some y | Err _ => None end)).

Lemma returns_Ok {A} (m : res A) : returns m <-> exists a, m = Ok a.
Proof. destruct m; naive_solver. Qed.

Abbreviation all_utc := (Forall (fun d => dt_utc d = true)).

Lemma timestamp_utc d : dt_utc d = true -> _timestamp d = Ok (JStr (timestamp_text d)).
Proof. by rewrite timestamp_Ok. Qed.

Lemma scope_returns s : all_utc (scope_times s) <-> returns (_scope s).
Proof.
  unfold scope_times, _scope, _timestamp, fail. rewrite !Forall_cons, returns_Ok.
  destruct (dt_utc (sc_observed_at s)), (dt_utc (sc_fresh_until s)); simpl; naive_solver.
Qed.

Lemma source_returns s : all_utc (source_times s) <-> returns (_source s).
Proof.
  unfold source_times, _source, _timestamp, fail. rewrite !Forall_cons, Forall_bind_iff, returns_Ok.
  rewrite <-(mapM_total _scope) by apply scope_returns.
  destruct (dt_utc (sh_observed_at s)), (dt_utc (sh_fresh_until s));
    cbn [mbind outcome_bind]; try (split; naive_solver).
  destruct (sh_scopes s) as [|c l]; [simpl; naive_solver|]. split.
  - intros (_ & _ & k & Hk). rewrite Hk. simpl. eauto.
  - intros [v H]. apply bind_Ok in H as (? & ? & ?). eauto.
Qed.

(** [response_value] returns exactly on valid responses whose timestamps are UTC. *)
Lemma response_value_returns r :
  returns (response_value r) <-> valid_response r /\ all_utc (response_times r).
Proof.
  rewrite returns_Ok. unfold response_value, response_times. rewrite Forall_cons.
  split.
  - intros [v H]. apply bind_Ok in H as ([] & Hv & H). apply validate_response_spec in Hv.
    split; [done|]. destruct r as [s|i|m p|m e]; simpl in *; unfold _envelope, _error_envelope, _snapshot in H;
      inv_ok; match goal with T : _timestamp _ = Ok _ |- _ => apply timestamp_Ok in T as [? _] end; auto.
    split; [done|]. rewrite Forall_bind_iff, <-(mapM_total _source) by apply source_returns. eauto.
  - intros (Hv%validate_response_spec & Hm & Hp). rewrite Hv. simpl.
    destruct r as [s|i|m p|m e]; simpl in *; unfold _envelope, _error_envelope.
    + apply Forall_bind_iff, (mapM_total _source _ _ source_returns) in Hp as [k Hk].
      unfold _snapshot. rewrite Hk. simpl. rewrite timestamp_utc by done. simpl. eauto.
    + rewrite timestamp_utc by done. simpl. eauto.
    + rewrite timestamp_utc by done. simpl. eauto.
    + rewrite timestamp_utc by done. simpl. eauto.
Qed.

(** A response is written exactly when it is valid and its timestamps are in UTC. *)
Theorem response_value_defined r :
  (exists v, response_value r = Ok v) <-> valid_response r /\ all_utc (response_times r).
Proof. by rewrite <-response_value_returns, returns_Ok. Qed.
