(* ===== verification/Codec.v ===== *)
(** * Field readers invert field writers

    What each reader of [Fields] returns on the JSON value [Wire] writes for a field, and
    the tactic that runs a record parser on an encoded record. *)

From S2P Require Import Prelude PyStr Calendar Models Json Fields Validation Wire.

Open Scope Z_scope.

Lemma bind_Ok_l {A B} (a : A) (k : A -> res B) : (Ok a ≫= k) = k a.
Proof. done. Qed.

Lemma enum_JEnum {A} `{StrEnum A} (a : A) path : enum (JEnum a) path = Ok a.
Proof. unfold enum, JEnum. simpl. by rewrite enum_of_value. Qed.

Lemma optional_string_JOpt v path : optional_string (JOpt JStr v) path = Ok v.
Proof. by destruct v. Qed.

Lemma optional_JOpt {A} (w : A -> json) (f : json -> res A) v :
  (forall a, w a <> JNull) -> (forall a, v = Some a -> f (w a) = Ok a) ->
  optional f (JOpt w v) = Ok v.
Proof.
  intros Hw Hf. destruct v as [a|]; [|done]. simpl. specialize (Hw a).
  pose proof (Hf a eq_refl) as E. destruct (w a); try done; simpl; by rewrite E.
Qed.

Lemma mapM_inverse {A} (w : A -> json) (f : json -> res A) l :
  Forall (fun a => f (w a) = Ok a) l -> mapM f (w <$> l) = Ok l.
Proof.
  intros H. rewrite mapM_map. rewrite (mapM_ret _ id); [by rewrite list_fmap_id|].
  intros x Hx. rewrite Forall_forall in H. by apply H.
Qed.

Lemma nonnegative_JInt z path : 0 <= z -> nonnegative_int (JInt z) path = Ok z.
Proof. intros Hz. simpl. by destruct (Z.ltb_spec z 0); [lia|]. Qed.

Lemma bounded_JStr s path n : bounded_text n s -> bounded_string (JStr s) path n = Ok s.
Proof.
  unfold bounded_string, out_of_bounds, bounded_text, len. simpl. intros H.
  rewrite bool_decide_false by (intros ->; simpl in H; lia). by destruct (Z.ltb_spec n (Z.of_nat (length s))); [lia|].
Qed.

Lemma timestamp_inverse `{IsoDialect} d v path :
  Wire._timestamp d = Ok v -> in_range d -> timestamp v path = Ok d.
Proof.
  destruct d as [us utc]. rewrite timestamp_Ok. intros [Hu ->] Hr. simpl in Hu. subst utc.
  unfold timestamp. rewrite timestamp_text_utc. cbn [string]. rewrite bind_Ok_l.
  assert (length (iso_body us ++ lit "Z") = 27%nat) as Hlen by (by rewrite length_app, length_iso_body).
  unfold len. rewrite Hlen, endswith_app, lookup_app_l by (rewrite length_iso_body; lia).
  rewrite iso_body_T, bool_decide_true by done. simpl (_ || _).
  rewrite take_app_le by (rewrite length_iso_body; lia).
  rewrite take_ge by (rewrite length_iso_body; lia). simpl. by rewrite fromisoformat_body.
Qed.

(** Runs a parser on an encoded record: the object test and each field look-up compute,
    the readers are closed by the lemmas above and by [tac]. *)
Ltac parse_fields tac :=
  repeat first
    [ match goal with
      | |- context [field ?r ?n] =>
          let t := eval hnf in (field r n) in change (field r n) with t
      | |- context [reader ?v ?p ?l] =>
          let t := eval hnf in (reader v p l) in
          let t := match t with Ok ?x => t end in change (reader v p l) with t
      | |- context [dict_mem ?d ?n] =>
          let t := eval vm_compute in (dict_mem d n) in
          let t := match t with true => t | false => t end in change (dict_mem d n) with t
      end
    | rewrite bind_Ok_l | rewrite enum_JEnum | rewrite optional_string_JOpt
    | progress cbn [identifier string boolean list_value rd_value]
    | tac ].
