(* ===== verification/PayloadParser.v ===== *)
(** * Parsers of payloads

    [payload_parser.py]: one parser per record, reading its fields in the code's order,
    each the inverse of the encoder of [Wire] and blind to the order of object keys. *)

From S2P Require Import Prelude PyStr Calendar Models Json Fields Validation Wire Codec.

Open Scope Z_scope.

Section Parsers.
Context `{Iso : IsoDialect}.

Definition parse_error (v : json) (path : str) : res ErrorInfo :=
  r ← reader v path (names ["code"; "message"]);
  c ← field r (lit "code"); c ← enum c (path ++ lit ".code");
  m ← field r (lit "message");
  m ← bounded_string m (path ++ lit ".message") MAX_ERROR_MESSAGE_LENGTH;
  Ok {| code := c; message := m |}.

Definition _scope (v : json) (path : str) : res ScopeHealth :=
  r ← reader v path (names ["scope"; "status"; "provenance"; "observedAt"; "freshUntil"; "cause"]);
  cause ← field r (lit "cause");
  cause ← optional (fun c => parse_error c (path ++ lit ".cause")) cause;
  x ← field r (lit "scope"); scope ← enum x (path ++ lit ".scope");
  x ← field r (lit "status"); status ← enum x (path ++ lit ".status");
  x ← field r (lit "provenance"); prov ← enum x (path ++ lit ".provenance");
  x ← field r (lit "observedAt"); observed ← timestamp x (path ++ lit ".observedAt");
  x ← field r (lit "freshUntil"); fresh ← timestamp x (path ++ lit ".freshUntil");
  Ok {| sc_scope := scope; sc_status := status; sc_provenance := prov;
        sc_observed_at := observed; sc_fresh_until := fresh; sc_cause := cause |}.

Definition _source (v : json) (path : str) : res SourceHealth :=
  r ← reader v path (names ["source"; "status"; "provenance"; "observedAt"; "freshUntil"; "cause"; "scopes"]);
  cause ← field r (lit "cause");
  cause ← optional (fun c => parse_error c (path ++ lit ".cause")) cause;
  scopes ← (if dict_mem (rd_value r) (lit "scopes")
            then x ← field r (lit "scopes");
                 l ← list_value x (path ++ lit ".scopes");
                 mapM (fun e => _scope e (path ++ lit ".scopes")) l
            else Ok []);
  x ← field r (lit "source"); source ← enum x (path ++ lit ".source");
  x ← field r (lit "status"); status ← enum x (path ++ lit ".status");
  x ← field r (lit "provenance"); prov ← enum x (path ++ lit ".provenance");
  x ← field r (lit "observedAt"); observed ← timestamp x (path ++ lit ".observedAt");
  x ← field r (lit "freshUntil"); fresh ← timestamp x (path ++ lit ".freshUntil");
  Ok {| sh_source := source; sh_status := status; sh_provenance := prov;
        sh_observed_at := observed; sh_fresh_until := fresh; sh_cause := cause;
        sh_scopes := scopes |}.

Definition _summary (v : json) : res Summary :=
  r ← reader v (lit "summary") (names ["totalUpdates"; "watchedUpdates"; "securityFindings"; "degradedSources"]);
  x ← field r (lit "totalUpdates"); total ← nonnegative_int x (lit "summary.totalUpdates");
  x ← field r (lit "watchedUpdates"); watched ← nonnegative_int x (lit "summary.watchedUpdates");
  x ← field r (lit "securityFindings"); found ← nonnegative_int x (lit "summary.securityFindings");
  x ← field r (lit "degradedSources"); degraded ← nonnegative_int x (lit "summary.degradedSources");
  Ok {| total_updates := total; watched_updates := watched;
        security_findings := found; degraded_sources := degraded |}.

(** [None if name not in r.value else optional_string(r.field(name), path)] *)
Definition absent_or_string (r : Reader) (name path : str) : res (option str) :=
  if dict_mem (rd_value r) name then x ← field r name; optional_string x path else Ok None.

Definition _item (v : json) (path : str) : res NormalizedItem :=
  r ← reader v path (names ["id"; "source"; "label"; "installed"; "candidate"; "watchMode";
        "watchArmed"; "watchable"; "provenance"; "installedFingerprint"; "candidateFingerprint"]);
  inst_fp ← absent_or_string r (lit "installedFingerprint") (path ++ lit ".installedFingerprint");
  cand_fp ← absent_or_string r (lit "candidateFingerprint") (path ++ lit ".candidateFingerprint");
  x ← field r (lit "id"); id ← identifier x (path ++ lit ".id");
  x ← field r (lit "source"); source ← enum x (path ++ lit ".source");
  x ← field r (lit "label"); lab ← identifier x (path ++ lit ".label");
  x ← field r (lit "installed"); inst ← optional_string x (path ++ lit ".installed");
  x ← field r (lit "candidate"); cand ← optional_string x (path ++ lit ".candidate");
  x ← field r (lit "watchMode"); mode ← enum x (path ++ lit ".watchMode");
  x ← field r (lit "watchable"); able ← boolean x (path ++ lit ".watchable");
  x ← field r (lit "provenance"); prov ← enum x (path ++ lit ".provenance");
  x ← field r (lit "watchArmed"); armed ← boolean x (path ++ lit ".watchArmed");
  Ok {| item_id := id; item_source := source; label := lab; installed := inst;
        candidate := cand; watch_mode := mode; watchable := able; item_provenance := prov;
        installed_fingerprint := inst_fp; candidate_fingerprint := cand_fp;
        watch_armed := armed |}.

Definition _finding (v : json) (path : str) : res SecurityFinding :=
  r ← reader v path (names ["id"; "itemId"; "advisoryId"; "cveIds"; "severity"; "fixedVersion";
        "installedVersion"; "knownExploited"; "kevStatus"; "kevProvenance"; "provenance";
        "status"; "type"]);
  x ← field r (lit "cveIds");
  l ← list_value x (path ++ lit ".cveIds");
  cves ← mapM (fun e => identifier e (path ++ lit ".cveIds")) l;
  x ← field r (lit "id"); id ← identifier x (path ++ lit ".id");
  x ← field r (lit "itemId"); item ← identifier x (path ++ lit ".itemId");
  x ← field r (lit "advisoryId"); advisory ← identifier x (path ++ lit ".advisoryId");
  x ← field r (lit "severity"); sev ← enum x (path ++ lit ".severity");
  x ← field r (lit "fixedVersion"); fixed ← optional_string x (path ++ lit ".fixedVersion");
  x ← field r (lit "knownExploited"); known ← boolean x (path ++ lit ".knownExploited");
  x ← field r (lit "provenance"); prov ← enum x (path ++ lit ".provenance");
  x ← field r (lit "status"); status ← enum x (path ++ lit ".status");
  x ← field r (lit "type"); type ← identifier x (path ++ lit ".type");
  x ← field r (lit "installedVersion"); inst ← optional_string x (path ++ lit ".installedVersion");
  x ← field r (lit "kevStatus"); kev ← enum x (path ++ lit ".kevStatus");
  x ← field r (lit "kevProvenance");
  kprov ← optional (fun y => enum y (path ++ lit ".kevProvenance")) x;
  Ok {| finding_id := id; finding_item_id := item; advisory_id := advisory; cve_ids := cves;
        severity := sev; fixed_version := fixed; known_exploited := known;
        finding_provenance := prov; finding_status := status; advisory_type := type;
        installed_version := inst; kev_status := kev; kev_provenance := kprov |}.

Definition _group (v : json) (path : str) : res SecurityFindingGroup :=
  r ← reader v path (names ["itemId"; "findings"]);
  x ← field r (lit "itemId"); id ← identifier x (path ++ lit ".itemId");
  x ← field r (lit "findings");
  l ← list_value x (path ++ lit ".findings");
  fs ← mapM (fun e => _finding e (path ++ lit ".findings")) l;
  Ok {| group_item_id := id; group_findings := fs |}.

Definition _notification (v : json) (path : str) : res NotificationOutcome :=
  r ← reader v path (names ["fingerprint"; "status"]);
  x ← field r (lit "fingerprint"); fp ← identifier x (path ++ lit ".fingerprint");
  x ← field r (lit "status"); status ← enum x (path ++ lit ".status");
  Ok {| outcome_fingerprint := fp; outcome_status := status |}.

(** [tuple(parse(entry, path) for entry in list_value(r.field(name), path))] *)
Definition entries {A} (parse : json -> str -> res A) (r : Reader) (name path : str) : res (list A) :=
  x ← field r name;
  l ← list_value x path;
  mapM (fun e => parse e path) l.

Definition parse_snapshot (v : json) : res SnapshotPayload :=
  r ← reader v (lit "snapshot") (names ["scanState"; "sources"; "summary"; "items"; "findings"; "notifications"]);
  srcs ← entries _source r (lit "sources") (lit "snapshot.sources");
  its ← entries _item r (lit "items") (lit "snapshot.items");
  groups ← entries _group r (lit "findings") (lit "snapshot.findings");
  notes ← entries _notification r (lit "notifications") (lit "snapshot.notifications");
  x ← field r (lit "scanState"); state ← enum x (lit "snapshot.scanState");
  x ← field r (lit "summary"); sum ← _summary x;
  Ok {| scan_state_of := state; sources := srcs; summary_of := sum; items := its;
        findings := groups; notifications := notes |}.

Definition parse_inventory (v : json) : res InventoryPayload :=
  r ← reader v (lit "inventory") (names ["source"; "total"; "items"]);
  its ← entries _item r (lit "items") (lit "inventory.items");
  x ← field r (lit "source"); source ← enum x (lit "inventory.source");
  x ← field r (lit "total"); total ← nonnegative_int x (lit "inventory.total");
  Ok {| inv_source := source; inv_total := total; inv_items := its |}.

Definition parse_star_result (v : json) : res StarResultPayload :=
  r ← reader v (lit "star-result") (names ["itemId"; "mode"; "watchArmed"]);
  x ← field r (lit "itemId"); id ← identifier x (lit "star-result.itemId");
  x ← field r (lit "mode"); mode ← enum x (lit "star-result.mode");
  x ← field r (lit "watchArmed"); armed ← boolean x (lit "star-result.watchArmed");
  Ok {| star_item_id := id; star_mode := mode; star_armed := armed |}.

(** ** Parsing what [Wire] writes *)

Lemma parse_error_inverse e path :
  bounded_text MAX_ERROR_MESSAGE_LENGTH (message e) -> parse_error (Wire._error e) path = Ok e.
Proof.
  intros H. unfold parse_error, Wire._error.
  parse_fields ltac:(rewrite bounded_JStr by done). by destruct e.
Qed.

Lemma cause_inverse c path :
  cause_ok c -> optional (fun v => parse_error v path) (JOpt Wire._error c) = Ok c.
Proof.
  intros H. apply optional_JOpt; [done|]. intros e ->. by apply parse_error_inverse.
Qed.

Lemma scope_inverse s v path :
  cause_ok (sc_cause s) -> Forall in_range (scope_times s) -> Wire._scope s = Ok v ->
  _scope v path = Ok s.
Proof.
  intros Hc Ht Hv. unfold scope_times in Ht. rewrite !Forall_cons in Ht. destruct Ht as (? & ? & _).
  unfold Wire._scope in Hv. inv_ok. unfold _scope.
  parse_fields ltac:(first [rewrite cause_inverse by done | erewrite timestamp_inverse by eassumption]).
  by destruct s.
Qed.

Lemma scopes_inverse l k path :
  mapM Wire._scope l = Ok k ->
  Forall (fun s => cause_ok (sc_cause s)) l -> Forall in_range (l ≫= scope_times) ->
  mapM (fun e => _scope e path) k = Ok l.
Proof.
  rewrite Forall_bind_iff, !mapM_Ok. intros Hk Hc Ht.
  induction Hk as [|s v l k Hv Hk IH]; [constructor|]. inversion Hc; inversion Ht; subst.
  constructor; [by apply scope_inverse | by apply IH].
Qed.

Lemma source_inverse s v path :
  valid_source s -> Forall in_range (source_times s) -> Wire._source s = Ok v ->
  _source v path = Ok s.
Proof.
  intros [Hc _ Hcs] Ht Hv. unfold source_times in Ht. rewrite !Forall_cons in Ht.
  destruct Ht as (? & ? & Ht). unfold Wire._source in Hv. inv_ok. unfold _source.
  destruct (sh_scopes s) as [|c l] eqn:E; inv_ok; cbn [app];
    parse_fields ltac:(first [rewrite cause_inverse by done | erewrite scopes_inverse by eassumption
                             | erewrite timestamp_inverse by eassumption]);
    rewrite <-E; by destruct s.
Qed.

Lemma summary_inverse s :
  0 <= total_updates s /\ 0 <= watched_updates s /\ 0 <= security_findings s /\ 0 <= degraded_sources s ->
  _summary (Wire._summary s) = Ok s.
Proof.
  intros (? & ? & ? & ?). unfold _summary, Wire._summary.
  parse_fields ltac:(rewrite nonnegative_JInt by done). by destruct s.
Qed.

Lemma item_inverse i path : _item (Wire._item i) path = Ok i.
Proof.
  destruct i as [? ? ? ? ? ? ? ? [] [] ?]; unfold _item, Wire._item, absent_or_string; simpl (_ ++ _);
    parse_fields ltac:(progress cbn [optional_string]); done.
Qed.

Lemma finding_inverse f path : _finding (Wire._finding f) path = Ok f.
Proof.
  unfold _finding, Wire._finding.
  parse_fields ltac:(first [rewrite (mapM_inverse JStr (fun e => identifier e _)) by (by apply Forall_true)
                           | rewrite optional_JOpt by (done || (intros; apply enum_JEnum))]).
  by destruct f.
Qed.

Lemma group_inverse g path : _group (Wire._group g) path = Ok g.
Proof.
  unfold _group, Wire._group.
  parse_fields ltac:(rewrite (mapM_inverse Wire._finding (fun e => _finding e _))
                       by (apply Forall_true; intros; apply finding_inverse)).
  by destruct g.
Qed.

Lemma notification_inverse o path : _notification (Wire._notification o) path = Ok o.
Proof. unfold _notification, Wire._notification. parse_fields ltac:(fail). by destruct o. Qed.

Lemma entries_inverse {A} (w : A -> json) (parse : json -> str -> res A) r name path l :
  field r name = Ok (JList (w <$> l)) -> (forall a p, parse (w a) p = Ok a) ->
  entries parse r name path = Ok l.
Proof.
  intros Hf Hp. unfold entries. rewrite Hf. simpl. apply (mapM_inverse w (fun e => parse e path)).
  apply Forall_true. auto.
Qed.

Lemma sources_inverse l k path :
  mapM Wire._source l = Ok k -> Forall valid_source l -> Forall in_range (l ≫= source_times) ->
  mapM (fun e => _source e path) k = Ok l.
Proof.
  rewrite Forall_bind_iff, !mapM_Ok. intros Hk Hc Ht.
  induction Hk as [|s v l k Hv Hk IH]; [constructor|]. inversion Hc; inversion Ht; subst.
  constructor; [by apply source_inverse | by apply IH].
Qed.

Lemma snapshot_inverse p v :
  valid_snapshot p -> Forall in_range (sources p ≫= source_times) ->
  Wire._snapshot p = Ok v -> parse_snapshot v = Ok p.
Proof.
  intros [] Ht Hv. unfold Wire._snapshot in Hv. inv_ok. unfold parse_snapshot.
  parse_fields ltac:(first
    [ erewrite (entries_inverse Wire._item) by (reflexivity || apply item_inverse)
    | erewrite (entries_inverse Wire._group) by (reflexivity || apply group_inverse)
    | erewrite (entries_inverse Wire._notification) by (reflexivity || apply notification_inverse)
    | rewrite summary_inverse by done
    | erewrite sources_inverse by eassumption | progress unfold entries ]).
  by destruct p.
Qed.

Lemma inventory_inverse p : valid_inventory p -> parse_inventory (Wire._inventory p) = Ok p.
Proof.
  intros []. unfold parse_inventory, Wire._inventory.
  parse_fields ltac:(first
    [ erewrite (entries_inverse Wire._item) by (reflexivity || apply item_inverse)
    | rewrite nonnegative_JInt by (unfold len in *; lia) ]).
  by destruct p.
Qed.

Lemma star_result_inverse p : parse_star_result (Wire._star_result p) = Ok p.
Proof. unfold parse_star_result, Wire._star_result. parse_fields ltac:(fail). by destruct p. Qed.

(** ** Parsing does not see the order of object keys *)

Lemma parse_error_jeq v w path : jeq v w -> parse_error v path = parse_error w path.
Proof. unfold parse_error. json_proper. Qed.

#[local] Hint Resolve parse_error_jeq : opatchy.

Lemma scope_jeq v w path : jeq v w -> _scope v path = _scope w path.
Proof. unfold _scope. json_proper; auto with opatchy. Qed.

Lemma entries_jeq {A} (parse : json -> str -> res A) r s name path :
  (forall v w p, jeq v w -> parse v p = parse w p) -> reader_eq r s ->
  entries parse r name path = entries parse s name path.
Proof. intros Hp Hr. unfold entries. json_proper. eapply mapM_rel; eauto. Qed.

Lemma absent_or_string_jeq r s name path :
  reader_eq r s -> absent_or_string r name path = absent_or_string s name path.
Proof.
  intros Hr. unfold absent_or_string. rewrite (dict_eq_mem _ _ name (proj2 Hr)).
  destruct (dict_mem _ _); json_proper.
Qed.

Lemma source_jeq v w path : jeq v w -> _source v path = _source w path.
Proof.
  unfold _source. json_proper; auto with opatchy.
  match goal with H : reader_eq ?a ?b |- context [dict_mem (rd_value ?a) ?n] =>
    rewrite (dict_eq_mem _ _ n (proj2 H)) end.
  match goal with |- (if dict_mem (rd_value ?b) _ then ?m else _) ≫= _ = (if _ then ?m' else _) ≫= _ =>
    assert (m = m') as -> by (json_proper; eapply mapM_rel; eauto using scope_jeq) end.
  destruct (dict_mem _ _); json_proper.
Qed.

Lemma summary_jeq v w : jeq v w -> _summary v = _summary w.
Proof. unfold _summary. json_proper. Qed.

Lemma item_jeq v w path : jeq v w -> _item v path = _item w path.
Proof.
  unfold _item. json_proper.
  match goal with H : reader_eq ?a ?b |- _ => rewrite (absent_or_string_jeq a b) by done end. json_proper.
  match goal with H : reader_eq ?a ?b |- _ => rewrite (absent_or_string_jeq a b) by done end. json_proper.
Qed.

Lemma finding_jeq v w path : jeq v w -> _finding v path = _finding w path.
Proof. unfold _finding, identifier. json_proper. Qed.

Lemma group_jeq v w path : jeq v w -> _group v path = _group w path.
Proof. unfold _group, identifier. json_proper; auto using finding_jeq. Qed.

Lemma notification_jeq v w path : jeq v w -> _notification v path = _notification w path.
Proof. unfold _notification, identifier. json_proper. Qed.

#[local] Hint Resolve source_jeq item_jeq group_jeq notification_jeq summary_jeq : opatchy.

(** One [entries] call, then the rest of the record. *)
Ltac entries_step :=
  match goal with H : reader_eq ?a ?b |- (entries ?p ?a ?n ?q ≫= _) = _ =>
    rewrite (entries_jeq p a b n q) by auto with opatchy end; json_proper.

#[global] Instance parse_snapshot_proper : Proper (jeq ==> (=)) parse_snapshot.
Proof.
  intros v w Hvw. unfold parse_snapshot. json_proper. do 4 entries_step.
  eapply bind_rel; [apply outcome_rel_eq; auto with opatchy | intros ? ? <-; done].
Qed.

#[global] Instance parse_inventory_proper : Proper (jeq ==> (=)) parse_inventory.
Proof. intros v w Hvw. unfold parse_inventory. json_proper. entries_step. Qed.

#[global] Instance parse_star_result_proper : Proper (jeq ==> (=)) parse_star_result.
Proof. intros v w Hvw. unfold parse_star_result, identifier. json_proper. Qed.

(** ** The parsers raise only protocol errors *)

Lemma parse_error_raises v p : raises protocol_error (parse_error v p).
Proof. unfold parse_error. solve_raises. Qed.
#[local] Hint Resolve parse_error_raises : raises.

Lemma scope_raises v p : raises protocol_error (_scope v p).
Proof. unfold _scope. solve_raises. Qed.
#[local] Hint Resolve scope_raises : raises.

Lemma source_raises v p : raises protocol_error (_source v p).
Proof. unfold _source. solve_raises. Qed.

Lemma item_raises v p : raises protocol_error (_item v p).
Proof. unfold _item, absent_or_string, identifier. solve_raises. Qed.

Lemma finding_raises v p : raises protocol_error (_finding v p).
Proof. unfold _finding, identifier. solve_raises. Qed.
#[local] Hint Resolve finding_raises : raises.

Lemma group_raises v p : raises protocol_error (_group v p).
Proof. unfold _group, identifier. solve_raises. Qed.

Lemma notification_raises v p : raises protocol_error (_notification v p).
Proof. unfold _notification, identifier. solve_raises. Qed.
#[local] Hint Resolve source_raises item_raises group_raises notification_raises : raises.

Lemma entries_raises {A} (parse : json -> str -> res A) r n p :
  (forall v p, raises protocol_error (parse v p)) -> raises protocol_error (entries parse r n p).
Proof. intros Hp. unfold entries. solve_raises. Qed.
#[local] Hint Resolve entries_raises : raises.

Lemma parse_snapshot_raises v : raises protocol_error (parse_snapshot v).
Proof. unfold parse_snapshot, _summary. solve_raises. Qed.

Lemma parse_inventory_raises v : raises protocol_error (parse_inventory v).
Proof. unfold parse_inventory. solve_raises. Qed.

Lemma parse_star_result_raises v : raises protocol_error (parse_star_result v).
Proof. unfold parse_star_result, identifier. solve_raises. Qed.

End Parsers.

#[export] Hint Resolve parse_error_raises parse_snapshot_raises parse_inventory_raises
  parse_star_result_raises : raises.
