(* ===== verification/Parser.v ===== *)
(** * Parsing a response

    [parser.py]: [parse_response] reads an envelope and validates what it read; with
    [Wire.response_value] it is the helper's protocol at the level of JSON values. *)

From S2P Require Import Prelude PyStr Calendar Models Samples Json Fields Validation Wire Codec PayloadParser.

Open Scope Z_scope.

Section Parser.
Context `{Iso : IsoDialect}.

Definition _validated (r : Response) : res Response :=
  _ ← validate_response r; Ok r.

Definition parse_response (v : json) : res Response :=
  r ← reader v (lit "response")
        (names ["protocolVersion"; "kind"; "generatedAt"; "generationId"; "payload"; "error"]);
  _ ← raise_if (negb (dict_mem (rd_value r) (lit "protocolVersion")))
        (ProtocolError {| code := PROTOCOL_VERSION_MISSING;
                          message := lit "protocolVersion is required" |});
  x ← field r (lit "protocolVersion"); version ← protocol_version x;
  x ← field r (lit "generatedAt"); generated ← timestamp x (lit "response.generatedAt");
  x ← field r (lit "generationId"); generation ← identifier x (lit "response.generationId");
  x ← field r (lit "kind"); kind ← enum x (lit "response.kind");
  let meta := {| generated_at := generated; generation_id := generation;
                 protocol_version_of := version |} in
  match kind with
  | RK_SNAPSHOT =>
      _ ← reject_field r (lit "error");
      x ← field r (lit "payload"); p ← parse_snapshot x;
      _validated (RSnapshot {| snap_meta := meta; snap_payload := p |})
  | RK_INVENTORY =>
      _ ← reject_field r (lit "error");
      x ← field r (lit "payload"); p ← parse_inventory x;
      _validated (RInventory {| inv_meta := meta; inv_payload := p |})
  | RK_STAR_RESULT =>
      _ ← reject_field r (lit "error");
      x ← field r (lit "payload"); p ← parse_star_result x;
      _validated (RStar meta p)
  | RK_ERROR =>
      _ ← reject_field r (lit "payload");
      x ← field r (lit "error"); e ← parse_error x (lit "response.error");
      _validated (RError meta e)
  end.

Lemma validated_Ok r r' : _validated r = Ok r' -> r' = r /\ valid_response r.
Proof.
  unfold _validated. intros H. apply bind_Ok in H as ([] & Hv & [= <-]). by apply validate_response_spec in Hv.
Qed.

(** Whatever is parsed is a valid response. *)
Lemma parse_response_valid v r : parse_response v = Ok r -> valid_response r.
Proof.
  unfold parse_response. intros H.
  repeat (apply bind_Ok in H as (? & ? & H)).
  match type of H with match ?k with _ => _ end = _ => destruct k end;
    unfold _validated in H; inv_ok; by apply validate_response_spec.
Qed.

(** The order of object keys is irrelevant at every depth. *)
#[global] Instance parse_response_proper : Proper (jeq ==> (=)) parse_response.
Proof.
  intros v w Hvw. unfold parse_response. json_proper.
  match goal with H : reader_eq ?a ?b |- context [dict_mem (rd_value ?a) ?n] =>
    rewrite (dict_eq_mem _ _ n (proj2 H)) end.
  unfold identifier. json_proper.
  match goal with |- match ?k with _ => _ end = _ => destruct k end; json_proper.
  eapply bind_rel; [apply outcome_rel_eq, parse_error_jeq; done | intros ? ? <-; done].
Qed.

Lemma protocol_version_inverse n : n = PROTOCOL_VERSION -> protocol_version (JInt n) = Ok n.
Proof. by intros ->. Qed.

(** A parser inverts the encoder on the response it is given: an envelope whose payload
    parser inverts its payload encoder. *)
Lemma parse_response_inverse r v :
  Forall in_range (response_times r) -> response_value r = Ok v -> parse_response v = Ok r.
Proof.
  unfold response_times. rewrite Forall_cons. intros [Hm Hp] H.
  unfold response_value in H. apply bind_Ok in H as ([] & Hv & H).
  pose proof Hv as Hvalid. apply validate_response_spec in Hvalid as (Hver & _ & Hvalid).
  destruct r as [[m p]|[m p]|m p|m e]; simpl in Hm, Hp, Hver, Hvalid;
    unfold Wire._envelope, Wire._error_envelope in H; cbn [snap_payload snap_meta inv_payload inv_meta] in H;
    inv_ok; unfold parse_response, raise_if, reject_field;
    parse_fields ltac:(first
      [ rewrite protocol_version_inverse by done | erewrite timestamp_inverse by eassumption
      | erewrite snapshot_inverse by eassumption | rewrite inventory_inverse by done
      | rewrite star_result_inverse | rewrite parse_error_inverse by done
      | progress cbn [negb raise_if] ]);
    destruct m; simpl in *; unfold _validated; by rewrite Hv.
Qed.

Lemma parse_response_raises v : raises protocol_error (parse_response v).
Proof. unfold parse_response, identifier, _validated. solve_raises. Qed.

(** Parsing a JSON value gives a valid response or raises a protocol error, nothing else. *)
Theorem parse_response_safe v :
  match parse_response v with
  | Ok r => valid_response r
  | Err e => exists info, e = ProtocolError info
  end.
Proof.
  destruct (parse_response v) as [r|e] eqn:E; [by eapply parse_response_valid | by eapply parse_response_raises].
Qed.

(** A response survives the wire: the JSON value written for it is read back as the same
    response, whatever the order the keys of its objects come in. *)
Theorem response_roundtrip r v w :
  Forall in_range (response_times r) -> response_value r = Ok v -> jeq v w -> parse_response w = Ok r.
Proof. intros Ht Hv Hw. rewrite <-(parse_response_proper v w Hw). by apply parse_response_inverse. Qed.

End Parser.

(** On a snapshot whose keys come back in another order. *)
Lemma response_roundtrip_witness :
  let r := RSnapshot sample_snapshot in
  exists d, response_value r = Ok (JObj d)
  /\ jeq (JObj d) (JObj (reverse d)) /\ parse_response (Iso:=fun _ => None) (JObj (reverse d)) = Ok r.
Proof.
  intros r. assert (Forall in_range (response_times r)) as Ht.
  { repeat (constructor; [vm_compute; split; congruence|]). constructor. }
  destruct (response_value r) as [v|e] eqn:E; vm_compute in E; [|discriminate E].
  injection E as E. rewrite <-E. eexists. split; [reflexivity|].
  match goal with |- jeq (JObj ?d) _ /\ _ => assert (jeq (JObj d) (JObj (reverse d))) as Hj end.
  { apply jeq_permutation; [apply (bool_decide_unpack _); vm_compute; exact I | by rewrite reverse_Permutation]. }
  split; [exact Hj|]. eapply (response_roundtrip (Iso:=fun _ => None) r); [exact Ht | vm_compute; reflexivity | exact Hj].
Defined.
