(* ===== verification/Utf8.v ===== *)
(** * UTF-8

    Python's strict UTF-8 codec: [s.encode()] and [b.decode("utf-8")], the first raising
    on surrogates, the second on anything that is not the encoding of a string. *)

From S2P Require Import Prelude Models Json.

Open Scope N_scope.

(** The code points of a Python string; a number above them is no character, and the model
    does not encode it. *)
Definition unicode (c : N) : Prop := c <= 0x10FFFF.

Definition encode_char (c : N) : bytes :=
  if c <? 0x80 then [c]
  else if c <? 0x800 then [0xC0 + c / 64; 0x80 + c mod 64]
  else if c <? 0x10000 then [0xE0 + c / 4096; 0x80 + c / 64 mod 64; 0x80 + c mod 64]
  else [0xF0 + c / 262144; 0x80 + c / 4096 mod 64; 0x80 + c / 64 mod 64; 0x80 + c mod 64].

Fixpoint encode (s : str) : res bytes :=
  match s with
  | [] => Ok []
  | c :: s' =>
      if is_surrogate c || (0x10FFFF <? c) then Err UnicodeEncodeError
      else b ← encode s'; Ok (encode_char c ++ b)
  end.

Definition cont (b : N) : bool := (0x80 <=? b) && (b <=? 0xBF).

(** A decoded character and the rest: [c] came from a sequence of the shortest length. *)
Definition decoded (c lo : N) (rest : res str) : res str :=
  if (lo <=? c) && (c <=? 0x10FFFF) && negb (is_surrogate c)
  then s ← rest; Ok (c :: s)
  else Err UnicodeDecodeError.

Fixpoint decode (b : bytes) : res str :=
  match b with
  | [] => Ok []
  | b0 :: r0 =>
      if b0 <? 0x80 then s ← decode r0; Ok (b0 :: s)
      else
        match r0 with
        | [] => Err UnicodeDecodeError
        | b1 :: r1 =>
            if negb (cont b1) then Err UnicodeDecodeError
            else if (0xC0 <=? b0) && (b0 <=? 0xDF)
            then decoded ((b0 - 0xC0) * 64 + (b1 - 0x80)) 0x80 (decode r1)
            else
              match r1 with
              | [] => Err UnicodeDecodeError
              | b2 :: r2 =>
                  if negb (cont b2) then Err UnicodeDecodeError
                  else if (0xE0 <=? b0) && (b0 <=? 0xEF)
                  then decoded ((b0 - 0xE0) * 4096 + (b1 - 0x80) * 64 + (b2 - 0x80)) 0x800 (decode r2)
                  else
                    match r2 with
                    | [] => Err UnicodeDecodeError
                    | b3 :: r3 =>
                        if cont b3 && (0xF0 <=? b0) && (b0 <=? 0xF7)
                        then decoded ((b0 - 0xF0) * 262144 + (b1 - 0x80) * 4096
                                      + (b2 - 0x80) * 64 + (b3 - 0x80)) 0x10000 (decode r3)
                        else Err UnicodeDecodeError
                    end
              end
        end
  end.

Definition encodable (s : str) : Prop := Forall (fun c => unicode c /\ is_surrogate c = false) s.

Lemma split64 n : exists q r, n / 64 = q /\ n mod 64 = r /\ n = 64 * q + r /\ r < 64.
Proof.
  exists (n / 64), (n mod 64). split; [done|]. split; [done|].
  split; [apply N.div_mod; lia | apply N.mod_lt; lia].
Qed.

Lemma cont_low r : r < 64 -> cont (0x80 + r) = true.
Proof. intros. unfold cont. apply andb_true_iff. rewrite !N.leb_le. lia. Qed.

Lemma decoded_ok c lo rest :
  lo <= c -> unicode c -> is_surrogate c = false -> decoded c lo rest = (s ← rest; Ok (c :: s)).
Proof.
  unfold decoded, unicode. intros Hl Hu ->.
  by rewrite (proj2 (N.leb_le lo c) Hl), (proj2 (N.leb_le c 0x10FFFF) Hu).
Qed.

Lemma in_bounds lo hi b : lo <= b <= hi -> (lo <=? b) && (b <=? hi) = true.
Proof. intros [? ?]. apply andb_true_iff. by rewrite !N.leb_le. Qed.

Lemma out_bounds lo hi b : hi < b -> (lo <=? b) && (b <=? hi) = false.
Proof. intros ?. apply andb_false_iff. right. by apply N.leb_gt. Qed.

Lemma decode_char c b :
  unicode c -> is_surrogate c = false -> decode (encode_char c ++ b) = (s ← decode b; Ok (c :: s)).
Proof.
  intros Hu Hs. unfold encode_char. unfold unicode in Hu.
  destruct (N.ltb_spec c 0x80) as [H1|H1]; [cbn [app decode]; by destruct (N.ltb_spec c 0x80); [|lia]|].
  destruct (N.ltb_spec c 0x800) as [H2|H2]; [|destruct (N.ltb_spec c 0x10000) as [H3|H3]].
  - destruct (split64 c) as (q & r & -> & -> & -> & Hr).
    cbn [app decode]. rewrite cont_low by done. destruct (N.ltb_spec (0xC0 + q) 0x80); [lia|].
    rewrite in_bounds by lia. cbn [negb].
    replace ((0xC0 + q - 0xC0) * 64 + (0x80 + r - 0x80)) with (64 * q + r) by lia. by rewrite decoded_ok.
  - change 4096 with (64 * 64) at 1. rewrite <-N.Div0.div_div.
    destruct (split64 c) as (q & r & -> & -> & -> & Hr). destruct (split64 q) as (q' & r' & -> & -> & -> & Hr').
    cbn [app decode]. rewrite !cont_low by done. destruct (N.ltb_spec (0xE0 + q') 0x80); [lia|].
    rewrite (out_bounds 0xC0), in_bounds by lia. cbn [negb].
    replace ((0xE0 + q' - 0xE0) * 4096 + (0x80 + r' - 0x80) * 64 + (0x80 + r - 0x80))
      with (64 * (64 * q' + r') + r) by lia. by rewrite decoded_ok.
  - change 262144 with (64 * 64 * 64) at 1. change 4096 with (64 * 64) at 1. rewrite <-!N.Div0.div_div.
    destruct (split64 c) as (q & r & -> & -> & -> & Hr). destruct (split64 q) as (q' & r' & -> & -> & -> & Hr').
    destruct (split64 q') as (p & t & -> & -> & -> & Ht).
    cbn [app decode]. rewrite !cont_low by done. destruct (N.ltb_spec (0xF0 + p) 0x80); [lia|].
    rewrite (out_bounds 0xC0), (out_bounds 0xE0) by lia. cbn [negb andb]. rewrite in_bounds by lia.
    replace ((0xF0 + p - 0xF0) * 262144 + (0x80 + t - 0x80) * 4096 + (0x80 + r' - 0x80) * 64 + (0x80 + r - 0x80))
      with (64 * (64 * (64 * p + t) + r') + r) by lia. by rewrite decoded_ok.
Qed.

(** What is encoded decodes to itself. *)
Lemma encode_decode s b : encode s = Ok b -> decode b = Ok s.
Proof.
  revert b. induction s as [|c s IH]; intros b; cbn [encode]; [by intros [= <-]|].
  destruct (is_surrogate c) eqn:Es; [done|]. destruct (N.ltb_spec 0x10FFFF c) as [|Hu]; [done|].
  intros (x & Hx & [= <-])%bind_Ok. rewrite decode_char by done. by erewrite IH.
Qed.

(** Exactly the strings without surrogates encode. *)
Lemma encode_Ok s : (exists b, encode s = Ok b) <-> encodable s.
Proof.
  unfold encodable, unicode. induction s as [|c s IH]; [split; [constructor | simpl; eauto]|]. simpl.
  rewrite Forall_cons, <-IH. destruct (is_surrogate c), (N.ltb_spec 0x10FFFF c); simpl.
  - split; [by intros [? ?] | by intros [[? ?] ?]].
  - split; [by intros [? ?] | by intros [[? ?] ?]].
  - split; [by intros [? ?] | intros [[? ?] ?]; lia].
  - split; [intros [b H']; inv_ok; eauto | intros [_ [b ->]]; simpl; eauto].
Qed.

Lemma encode_app s t b c : encode s = Ok b -> encode t = Ok c -> encode (s ++ t) = Ok (b ++ c).
Proof.
  revert b. induction s as [|x s IH]; intros b; cbn [encode app]; [by intros [= <-]|].
  destruct (_ || _); [done|]. intros (y & Hy & [= <-])%bind_Ok Ht. rewrite (IH y) by done.
  cbn [mbind outcome_bind]. by rewrite app_assoc.
Qed.

(** ASCII text is its own encoding. *)
Lemma encode_ascii s : Forall (fun c => c <= 127)%N s -> encode s = Ok s.
Proof.
  induction 1 as [|c s Hc _ IH]; [done|]. cbn [encode]. rewrite IH.
  assert (is_surrogate c = false) as ->. { unfold is_surrogate. apply andb_false_iff. left. apply N.leb_gt. lia. }
  rewrite (proj2 (N.ltb_ge 0x10FFFF c)) by lia. cbn [orb mbind outcome_bind].
  unfold encode_char. by rewrite (proj2 (N.ltb_lt c 0x80)) by lia.
Qed.

(** What is encoded is octets. *)
Lemma encode_octets s b : encode s = Ok b -> Forall (fun x => x < 256) b.
Proof.
  revert b. induction s as [|c s IH]; intros b; cbn [encode]; [intros [= <-]; constructor|].
  destruct (is_surrogate c); [done|]. destruct (N.ltb_spec 0x10FFFF c) as [|Hu]; [done|].
  intros (x & Hx & [= <-])%bind_Ok. apply Forall_app. split; [|by apply IH].
  assert (forall n k, k <= 192 -> k + n mod 64 < 256) as Hm.
  { intros n k Hk. pose proof (N.mod_lt n 64). lia. }
  unfold encode_char. destruct (N.ltb_spec c 0x80); [repeat constructor; lia|].
  destruct (N.ltb_spec c 0x800); [|destruct (N.ltb_spec c 0x10000)].
  - assert (c / 64 < 32) by (apply N.Div0.div_lt_upper_bound; lia).
    repeat constructor; [lia | apply Hm; lia].
  - assert (c / 4096 < 16) by (apply N.Div0.div_lt_upper_bound; lia).
    repeat constructor; [lia | apply Hm; lia..].
  - assert (c / 262144 < 16) by (apply N.Div0.div_lt_upper_bound; lia).
    repeat constructor; [lia | apply Hm; lia..].
Qed.

(** ** Replacing what cannot be decoded

    [b.decode("utf-8", errors="replace")]: every longest start of a sequence that cannot
    be completed becomes one replacement character. *)

Definition between (lo hi b : N) : bool := (lo <=? b) && (b <=? hi).

(** The second bytes that may follow a first one. *)
Definition second_ok (b0 b1 : N) : bool :=
  if b0 =? 0xE0 then between 0xA0 0xBF b1
  else if b0 =? 0xED then between 0x80 0x9F b1
  else if b0 =? 0xF0 then between 0x90 0xBF b1
  else if b0 =? 0xF4 then between 0x80 0x8F b1
  else cont b1.

Definition REPLACEMENT : N := 0xFFFD.

Fixpoint decode_replace (b : bytes) : str :=
  match b with
  | [] => []
  | b0 :: r0 =>
      if b0 <? 0x80 then b0 :: decode_replace r0
      else if between 0xC2 0xF4 b0 then
        match r0 with
        | [] => [REPLACEMENT]
        | b1 :: r1 =>
            if negb (second_ok b0 b1) then REPLACEMENT :: decode_replace r0
            else if b0 <=? 0xDF then (b0 - 0xC0) * 64 + (b1 - 0x80) :: decode_replace r1
            else
              match r1 with
              | [] => [REPLACEMENT]
              | b2 :: r2 =>
                  if negb (cont b2) then REPLACEMENT :: decode_replace r1
                  else if b0 <=? 0xEF
                  then (b0 - 0xE0) * 4096 + (b1 - 0x80) * 64 + (b2 - 0x80) :: decode_replace r2
                  else
                    match r2 with
                    | [] => [REPLACEMENT]
                    | b3 :: r3 =>
                        if negb (cont b3) then REPLACEMENT :: decode_replace r2
                        else (b0 - 0xF0) * 262144 + (b1 - 0x80) * 4096 + (b2 - 0x80) * 64 + (b3 - 0x80)
                             :: decode_replace r3
                    end
              end
        end
      else REPLACEMENT :: decode_replace r0
  end.

Example replaces : decode_replace [97; 0xE2; 0x82; 98; 0xC0; 0x80; 0xC3; 0xA9; 0xF0; 0x9F] = [97; 0xFFFD; 98; 0xFFFD; 0xFFFD; 233; 0xFFFD].
Proof. vm_compute. reflexivity. Qed.

Lemma decoded_inv c lo rest s :
  decoded c lo rest = Ok s -> lo <= c <= 0x10FFFF /\ is_surrogate c = false /\ exists s', rest = Ok s' /\ s = c :: s'.
Proof.
  unfold decoded. destruct (_ && _) eqn:E; [|done]. rewrite !andb_true_iff, negb_true_iff, !N.leb_le in E.
  intros (s' & -> & <-%Ok_inj)%bind_Ok. split; [lia|]. split; [tauto|]. by exists s'.
Qed.

(** On valid UTF-8 nothing is replaced. *)
Lemma decode_replace_valid b s : decode b = Ok s -> decode_replace b = s.
Proof.
  remember (length b) as n eqn:En. revert b s En. induction n as [n IH] using lt_wf_ind. intros [|b0 r0] s ->; [by intros <-%Ok_inj|].
  cbn [decode decode_replace]. destruct (N.ltb_spec b0 0x80) as [H0|H0].
  { intros (x & Hx & <-%Ok_inj)%bind_Ok. f_equal. eapply IH; [|reflexivity | done]. simpl. lia. }
  destruct r0 as [|b1 r1]; [done|]. destruct (cont b1) eqn:E1; [|done]. cbn [negb].
  pose proof E1 as E1'. unfold cont in E1'. apply andb_true_iff in E1' as [L1%N.leb_le U1%N.leb_le].
  destruct ((0xC0 <=? b0) && (b0 <=? 0xDF)) eqn:R1.
  - apply andb_true_iff in R1 as [L0%N.leb_le U0%N.leb_le]. intros (Hc & _ & x & Hx & ->)%decoded_inv.
    assert (between 0xC2 0xF4 b0 = true) as -> by (unfold between; rewrite andb_true_iff, !N.leb_le; lia).
    assert (second_ok b0 b1 = true) as ->.
    { unfold second_ok. repeat (match goal with |- context [b0 =? ?k] => destruct (N.eqb_spec b0 k) end; [lia|]). done. }
    rewrite (proj2 (N.leb_le _ _) U0). cbn [negb]. f_equal. eapply IH; [|reflexivity | done]. simpl. lia.
  - destruct r1 as [|b2 r2]; [done|]. destruct (cont b2) eqn:E2; [|done]. cbn [negb].
    pose proof E2 as E2'. unfold cont in E2'. apply andb_true_iff in E2' as [L2%N.leb_le U2%N.leb_le].
    destruct ((0xE0 <=? b0) && (b0 <=? 0xEF)) eqn:R2.
    + apply andb_true_iff in R2 as [L0%N.leb_le U0%N.leb_le]. intros (Hc & Hs & x & Hx & ->)%decoded_inv.
      assert (between 0xC2 0xF4 b0 = true) as -> by (unfold between; rewrite andb_true_iff, !N.leb_le; lia).
      assert (second_ok b0 b1 = true) as ->.
      { unfold second_ok, between. unfold is_surrogate in Hs. apply andb_false_iff in Hs. rewrite !N.leb_gt in Hs.
        destruct (N.eqb_spec b0 0xE0); [rewrite andb_true_iff, !N.leb_le; lia|].
        destruct (N.eqb_spec b0 0xED); [rewrite andb_true_iff, !N.leb_le; lia|].
        repeat (match goal with |- context [b0 =? ?k] => destruct (N.eqb_spec b0 k) end; [lia|]). done. }
      cbn [negb]. destruct (N.leb_spec b0 0xDF); [lia|]. rewrite (proj2 (N.leb_le _ _) U0).
      f_equal. eapply IH; [|reflexivity | done]. simpl. lia.
    + destruct r2 as [|b3 r3]; [done|]. destruct (cont b3 && (0xF0 <=? b0) && (b0 <=? 0xF7)) eqn:R3; [|done].
      rewrite !andb_true_iff, !N.leb_le in R3. destruct R3 as [[E3 L0] U0]. intros (Hc & Hs & x & Hx & ->)%decoded_inv.
      rewrite E3. assert (between 0xC2 0xF4 b0 = true) as -> by (unfold between; rewrite andb_true_iff, !N.leb_le; lia).
      assert (second_ok b0 b1 = true) as ->.
      { pose proof E3 as E3'. unfold cont in E3'. apply andb_true_iff in E3' as [L3%N.leb_le U3%N.leb_le].
        unfold second_ok, between. repeat (match goal with |- context [b0 =? ?k] => destruct (N.eqb_spec b0 k) end; [rewrite ?andb_true_iff, ?N.leb_le; lia|]). exact E1. }
      cbn [negb]. destruct (N.leb_spec b0 0xDF); [lia|]. destruct (N.leb_spec b0 0xEF); [lia|].
      f_equal. eapply IH; [|reflexivity | done]. simpl. lia.
Qed.
