(* ===== verification/Protocol.v ===== *)
(** * The wire protocol

    [protocol.py]: a response as bytes, one line of JSON in UTF-8, and back. *)

From S2P Require Import Prelude PyStr Calendar Models Samples Json JsonText Utf8 Fields Validation Wire Codec.
From S2P Require Import PayloadParser Parser.

Open Scope Z_scope.

Definition MAX_PROTOCOL_BYTES : Z := 5 * 1024 * 1024.

(** [json.dumps(...).encode("utf-8") + b"\n"] *)
Definition dump_line (v : json) : res bytes :=
  t ← dumps v;
  b ← Utf8.encode t;
  Ok (b ++ [10%N]).

Definition _encode_json (r : Response) : res bytes :=
  v ← response_value r; dump_line v.

Definition encode_response (r : Response) : res bytes :=
  encoded ← _encode_json r;
  if MAX_PROTOCOL_BYTES <=? len encoded
  then fail OUTPUT_TOO_LARGE (lit "encoded response reaches the five MiB limit")
  else Ok encoded.

Section Decode.
Context `{Iso : IsoDialect} (stack : nat).

Definition decode_response (raw : bytes) : res Response :=
  if MAX_PROTOCOL_BYTES <=? len raw then fail PAYLOAD_TOO_LARGE (lit "input reaches the five MiB limit")
  else
    match Utf8.decode raw with
    | Err _ => fail INVALID_UTF8 (lit "input is not UTF-8")
    | Ok text => v ← decode_json stack text; parse_response v
    end.
End Decode.

(** ** What the encoder writes is shallow *)

Lemma shallow_opt {A} (f : A -> json) v b : 0 <= b -> (forall a, shallow b (f a)) -> shallow b (JOpt f v).
Proof. destruct v; simpl; [auto | by intros; apply shallow_scalar]. Qed.

Lemma shallow_timestamp d v b : 0 <= b -> Wire._timestamp d = Ok v -> shallow b v.
Proof. intros ? [_ ->]%timestamp_Ok. by apply shallow_scalar. Qed.

Lemma shallow_strings l b : 1 <= b -> shallow b (JList (JStr <$> l)).
Proof. intros. apply (shallow_list 0); [|lia]. apply Forall_fmap, Forall_true. intros s. by apply shallow_scalar. Qed.

Lemma shallow_error e : shallow 1 (Wire._error e).
Proof. unfold Wire._error. shallow_object 0. Qed.

Lemma shallow_cause c b : 1 <= b -> shallow b (JOpt Wire._error c).
Proof. intros. apply shallow_opt; [lia|]. intros e. eapply shallow_le; [apply shallow_error | lia]. Qed.

Lemma shallow_str_opt v b : 0 <= b -> shallow b (JOpt JStr v).
Proof. intros. apply shallow_opt; [done|]. intros. by apply shallow_scalar. Qed.

Lemma shallow_enum_opt {A} `{StrEnum A} (v : option A) b : 0 <= b -> shallow b (JOpt JEnum v).
Proof. intros. apply shallow_opt; [done|]. intros. by apply shallow_scalar. Qed.

#[local] Hint Resolve shallow_strings shallow_cause shallow_str_opt shallow_enum_opt shallow_timestamp : shallow.
#[local] Hint Extern 1 (_ <= _)%Z => lia : shallow.

Lemma shallow_notification o : shallow 1 (Wire._notification o).
Proof. unfold Wire._notification. shallow_object 0. Qed.

Lemma shallow_item i : shallow 1 (Wire._item i).
Proof.
  unfold Wire._item, when_some. destruct (installed_fingerprint i), (candidate_fingerprint i); simpl (_ ++ _);
    shallow_object 0.
Qed.

Lemma shallow_finding f : shallow 2 (Wire._finding f).
Proof. unfold Wire._finding. shallow_object 1. Qed.

Lemma shallow_map {A} (w : A -> json) b c l : (forall a, shallow b (w a)) -> 0 <= b < c -> shallow c (JList (w <$> l)).
Proof. intros Hw Hb. apply (shallow_list b); [|done]. by apply Forall_fmap, Forall_true. Qed.

Lemma shallow_group g : shallow 4 (Wire._group g).
Proof.
  unfold Wire._group. shallow_object 3. apply (shallow_map Wire._finding 2); [apply shallow_finding | lia].
Qed.

Lemma shallow_mapM {A} (w : A -> res json) b c l k :
  (forall a v, w a = Ok v -> shallow b v) -> 0 <= b < c -> mapM w l = Ok k -> shallow c (JList k).
Proof.
  intros Hw Hb Hk%mapM_Ok. apply (shallow_list b); [|done]. induction Hk; constructor; eauto.
Qed.

Lemma shallow_scope s v : Wire._scope s = Ok v -> shallow 2 v.
Proof. unfold Wire._scope. intros H. inv_ok. shallow_object 1. Qed.

Lemma shallow_source s v : Wire._source s = Ok v -> shallow 4 v.
Proof.
  unfold Wire._source. intros H. inv_ok. destruct (sh_scopes s) as [|c l]; inv_ok; simpl (_ ++ _); shallow_object 3.
  eapply (shallow_mapM Wire._scope 2); [apply shallow_scope | lia | done].
Qed.

Lemma shallow_snapshot p v : Wire._snapshot p = Ok v -> shallow 6 v.
Proof.
  unfold Wire._snapshot. intros H. inv_ok. shallow_object 5.
  - apply (shallow_map Wire._group 4); [apply shallow_group | lia].
  - apply (shallow_map Wire._item 1); [apply shallow_item | lia].
  - apply (shallow_map Wire._notification 1); [apply shallow_notification | lia].
  - eapply (shallow_mapM Wire._source 4); [apply shallow_source | lia | done].
  - unfold Wire._summary. shallow_object 0.
Qed.

Lemma shallow_response r v : response_value r = Ok v -> shallow 7 v.
Proof.
  unfold response_value, Wire._envelope, Wire._error_envelope. intros H. apply bind_Ok in H as ([] & _ & H).
  destruct r as [s|i|m p|m e]; inv_ok; shallow_object 6.
  - by eapply shallow_snapshot.
  - unfold Wire._inventory. shallow_object 5. apply (shallow_map Wire._item 1); [apply shallow_item | lia].
  - unfold Wire._star_result. shallow_object 0.
  - eapply shallow_le; [apply shallow_error | lia].
Qed.

(** ** What can be written

    A value is written exactly when each text in it encodes. *)

Definition written (v : json) : Prop := exists t, dumps v = Ok t /\ encodable t.

Lemma encodable_join sep ts : encodable sep -> encodable (join sep ts) <-> Forall encodable ts.
Proof.
  unfold encodable. intros Hs. induction ts as [|t [|u ts] IH]; [by split| |].
  - cbn [join]. rewrite Forall_cons. by split; [intros; split; [|constructor] | intros []].
  - change (join sep (t :: u :: ts)) with (t ++ sep ++ join sep (u :: ts)).
    rewrite !Forall_app, IH, (Forall_cons _ t). naive_solver.
Qed.

Lemma encodable_lit_ascii s : forallb (fun c => c <=? 127)%N s = true -> encodable s.
Proof.
  unfold encodable. rewrite forallb_forall, Forall_forall. intros H c Hc%list_elem_of_In.
  specialize (H c Hc). apply N.leb_le in H. split; [unfold unicode; lia|].
  unfold is_surrogate. apply andb_false_iff. left. apply N.leb_gt. lia.
Qed.

Lemma written_list l : written (JList l) <-> Forall written l.
Proof.
  unfold written. cbn [dumps]. split.
  - intros (t & (ts & Hts%mapM_Ok & <-%Ok_inj)%bind_Ok & He). unfold encodable in He.
    rewrite !Forall_app in He. destruct He as (_ & He & _).
    apply encodable_join in He; [|by apply encodable_lit_ascii].
    induction Hts as [|v t l ts Hv _ IH]; [constructor|]. apply Forall_cons in He as [? ?]. constructor; eauto.
  - intros H. assert (exists ts, mapM dumps l = Ok ts /\ Forall encodable ts) as (ts & -> & Hts).
    { induction H as [|v l (t & Hv & Ht) _ (ts & Hl & Hts)]; [by exists []|]. exists (t :: ts). simpl.
      rewrite Hv. cbn [mbind outcome_bind]. rewrite Hl. split; [done | by constructor]. }
    eexists. split; [done|]. unfold encodable. rewrite !Forall_app. split_and!; try (by apply encodable_lit_ascii).
    apply encodable_join; [by apply encodable_lit_ascii | done].
Qed.

Lemma written_object d :
  written (JObj d) <-> Forall (fun kv => encodable (quote kv.1) /\ written kv.2) d.
Proof.
  unfold written. cbn [dumps]. split.
  - intros (t & (ts & Hts%mapM_Ok & <-%Ok_inj)%bind_Ok & He). unfold encodable in He.
    rewrite !Forall_app in He. destruct He as (_ & He & _).
    apply encodable_join in He; [|by apply encodable_lit_ascii].
    unfold sorted_by_key in He. rewrite Forall_fmap, sorted_by_Permutation in He.
    induction Hts as [|kv kt d ts Hv _ IH]; [constructor|]. apply Forall_cons in He as [Hk He].
    apply bind_Ok in Hv as (t & Hv & <-%Ok_inj). constructor; [|by apply IH].
    unfold compose in Hk. cbn [fst snd] in Hk |- *. unfold encodable in *. rewrite !Forall_app in Hk. naive_solver.
  - intros H.
    assert (exists ts, mapM (fun kv => t ← dumps kv.2; Ok (kv.1, t)) d = Ok ts
              /\ Forall (fun kt => encodable (quote kt.1 ++ lit ":" ++ kt.2)) ts) as (ts & -> & Hts).
    { induction H as [|kv d (Hk & t & Hv & Ht) _ (ts & Hl & Hts)]; [by exists []|]. exists ((kv.1, t) :: ts).
      split; [simpl; rewrite Hv; cbn [mbind outcome_bind]; by rewrite Hl|]. constructor; [|done]. cbn [fst snd].
      unfold encodable in *. rewrite !Forall_app. split_and!; [done | by apply encodable_lit_ascii | done]. }
    eexists. split; [done|]. unfold encodable. rewrite !Forall_app. split_and!; try (by apply encodable_lit_ascii).
    apply encodable_join; [by apply encodable_lit_ascii|]. unfold sorted_by_key.
    by rewrite Forall_fmap, sorted_by_Permutation.
Qed.

Lemma dump_line_returns v : (exists raw, dump_line v = Ok raw) <-> written v.
Proof.
  unfold dump_line, written. split.
  - intros (raw & (t & Ht & (b & Hb & _)%bind_Ok)%bind_Ok). exists t. split; [done|]. apply encode_Ok. eauto.
  - intros (t & -> & (b & Hb)%encode_Ok). cbn [mbind outcome_bind]. rewrite Hb. cbn. eauto.
Qed.

(** ** Lines of JSON *)

Lemma dump_line_inverse stack v raw b :
  shallow b v -> b <= MAX_JSON_DEPTH < Z.of_nat stack -> dump_line v = Ok raw ->
  exists text, Utf8.decode raw = Ok text /\ decode_json stack text = Ok (sort_keys v) /\ jeq v (sort_keys v).
Proof.
  intros [Hw Hd] Hs H. unfold dump_line in H. apply bind_Ok in H as (t & Ht & H). apply bind_Ok in H as (u & Hu & [= <-]).
  exists (t ++ [10%N]). split; [apply encode_decode, (encode_app t [10%N]); [exact Hu | done]|].
  split; [|by apply sort_keys_jeq]. apply decode_dumps; [done | done | | lia | lia].
  assert (encodable t) as He by (apply encode_Ok; eauto). eapply Forall_impl; [exact He|]. by intros c [_ ?].
Qed.

Lemma line_ends v raw : dump_line v = Ok raw -> exists body, raw = body ++ [10%N].
Proof. unfold dump_line. intros H. inv_ok. eauto. Qed.

Lemma response_bytes_inverse `{Iso : IsoDialect} stack r raw :
  Forall in_range (response_times r) -> MAX_JSON_DEPTH < Z.of_nat stack -> encode_response r = Ok raw ->
  decode_response stack raw = Ok r.
Proof.
  intros Ht Hs H. unfold encode_response in H. apply bind_Ok in H as (raw' & He & H).
  destruct (Z.leb_spec MAX_PROTOCOL_BYTES (len raw')) as [|Hl]; [done|]. injection H as ->.
  unfold _encode_json in He. apply bind_Ok in He as (v & Hv & He).
  destruct (dump_line_inverse stack v raw 7 (shallow_response r v Hv)) as (text & Hd & Hj & Hq); [|done|].
  { unfold MAX_JSON_DEPTH in *. lia. }
  unfold decode_response. destruct (Z.leb_spec MAX_PROTOCOL_BYTES (len raw)); [lia|].
  rewrite Hd, Hj. cbn [mbind outcome_bind]. rewrite <-(parse_response_proper v _ Hq). by apply parse_response_inverse.
Qed.

Lemma encode_response_valid r raw :
  encode_response r = Ok raw ->
  valid_response r /\ len raw < MAX_PROTOCOL_BYTES /\ exists body, raw = body ++ [10%N].
Proof.
  unfold encode_response, _encode_json. intros H. apply bind_Ok in H as (raw' & He & H).
  destruct (Z.leb_spec MAX_PROTOCOL_BYTES (len raw')) as [|Hl]; [done|]. injection H as ->.
  apply bind_Ok in He as (v & Hv & He).
  split_and!; [by apply (proj1 (response_value_returns r)); rewrite Hv | done | by eapply line_ends].
Qed.

(** What is written is octets. *)
Lemma dump_line_octets v raw : dump_line v = Ok raw -> Forall (fun x => x < 256)%N raw.
Proof.
  unfold dump_line. intros H. inv_ok. apply Forall_app. split; [by eapply encode_octets | by repeat constructor].
Qed.

(** C1. Whatever the helper puts on its output, a valid response of less than five MiB on
    one line, it reads back as the same response. *)
Theorem protocol_roundtrip `{Iso : IsoDialect} stack r raw :
  Forall in_range (response_times r) -> MAX_JSON_DEPTH < Z.of_nat stack -> encode_response r = Ok raw ->
  decode_response stack raw = Ok r
  /\ valid_response r /\ len raw < MAX_PROTOCOL_BYTES /\ exists body, raw = body ++ [10%N].
Proof. intros. split; [by apply response_bytes_inverse | by apply encode_response_valid]. Qed.

(** C19. Bytes from outside become a valid response of less than five MiB or a protocol
    error. Anything else is a [ValueError] of the JSON reader itself, and only for a text
    with more than 4300 digits in a row: no timestamp, enum, number or name that is
    refused raises anything but a protocol error. *)
Theorem decode_response_safe `{Iso : IsoDialect} stack raw :
  match decode_response stack raw with
  | Ok r => valid_response r /\ len raw < MAX_PROTOCOL_BYTES
  | Err (ProtocolError _) => True
  | Err e =>
      e = ValueError
      /\ exists text pre ds post,
           Utf8.decode raw = Ok text /\ decode_json stack text = Err ValueError
           /\ text = pre ++ ds ++ post /\ forallb is_digit ds = true /\ (MAX_STR_DIGITS < length ds)%nat
  end.
Proof.
  unfold decode_response. destruct (Z.leb_spec MAX_PROTOCOL_BYTES (len raw)); [done|].
  destruct (Utf8.decode raw) as [text|]; [|done].
  destruct (decode_json stack text) as [v|e] eqn:Ej; cbn [mbind outcome_bind].
  - destruct (parse_response v) as [r|e] eqn:Ep; [by eapply parse_response_valid in Ep|].
    by destruct (parse_response_raises v e Ep) as [i ->].
  - pose proof (decode_json_raises stack text e Ej) as He.
    destruct e; try done; (split; [done|]); destruct (decode_json_long stack text Ej) as (pre & ds & post & ?); naive_solver.
Qed.

Lemma protocol_roundtrip_witness :
  exists raw, encode_response (RSnapshot sample_snapshot) = Ok raw
    /\ decode_response (Iso:=fun _ => None) 101 raw = Ok (RSnapshot sample_snapshot).
Proof.
  destruct (encode_response (RSnapshot sample_snapshot)) as [raw|e] eqn:E; [|vm_compute in E; discriminate E].
  exists raw. split; [reflexivity|].
  refine (proj1 (protocol_roundtrip (Iso:=fun _ => None) 101 (RSnapshot sample_snapshot) raw _ _ E)).
  - repeat (constructor; [vm_compute; split; congruence|]). constructor.
  - reflexivity.
Defined.
