(* ===== verification/Sha256.v ===== *)
(** * SHA-256

    [hashlib.sha256(data).hexdigest()] (FIPS 180-4) on 32-bit words, each an [N] below
    2^32. *)

From S2P Require Import Prelude.

Open Scope N_scope.

Definition word (n : N) : N := n mod 0x100000000.
Definition add (a b : N) : N := word (a + b).
Definition rotr (n x : N) : N := N.lor (N.shiftr x n) (word (N.shiftl x (32 - n))).
Definition xor3 (a b c : N) : N := N.lxor a (N.lxor b c).
Definition ch (x y z : N) : N := N.lxor (N.land x y) (N.land (N.lxor x 0xFFFFFFFF) z).
Definition maj (x y z : N) : N := xor3 (N.land x y) (N.land x z) (N.land y z).
Definition big0 (x : N) : N := xor3 (rotr 2 x) (rotr 13 x) (rotr 22 x).
Definition big1 (x : N) : N := xor3 (rotr 6 x) (rotr 11 x) (rotr 25 x).
Definition small0 (x : N) : N := xor3 (rotr 7 x) (rotr 18 x) (N.shiftr x 3).
Definition small1 (x : N) : N := xor3 (rotr 17 x) (rotr 19 x) (N.shiftr x 10).

(** The constants are the first 32 bits of the fractional parts of roots of primes. *)
Definition is_prime (n : N) : bool := forallb (fun d => negb (n mod N.of_nat d =? 0)) (seq 2 (N.to_nat n - 2)).
Definition primes : list N := List.filter is_prime (N.of_nat <$> seq 2 310).

(** The integer cube root of [n], below [2 ^ bits]. *)
Fixpoint cube_root (bits : nat) (acc n : N) : N :=
  match bits with
  | O => acc
  | S b =>
      let next := acc + 2 ^ N.of_nat b in
      cube_root b (if next * next * next <=? n then next else acc) n
  end.

Definition round_constants : list N :=
  Eval vm_compute in (fun p => word (cube_root 40 0 (p * 2 ^ 96))) <$> primes.

Record state := { ha : N; hb : N; hc : N; hd : N; he : N; hf : N; hg : N; hh : N }.

Definition state_of (l : list N) : state :=
  let w i := nth i l 0 in
  {| ha := w 0%nat; hb := w 1%nat; hc := w 2%nat; hd := w 3%nat;
     he := w 4%nat; hf := w 5%nat; hg := w 6%nat; hh := w 7%nat |}.

Definition initial : state :=
  Eval vm_compute in state_of ((fun p => word (N.sqrt (p * 2 ^ 64))) <$> take 8 primes).

(** Big-endian integers: [w] bytes of [n], and the integer of some bytes. *)
Fixpoint be_bytes (w : nat) (n : N) : bytes :=
  match w with O => [] | S w' => be_bytes w' (n / 256) ++ [n mod 256] end.
Definition be_value (b : bytes) : N := foldl (fun acc x => acc * 256 + x) 0 b.

Definition pad (m : bytes) : bytes :=
  let l := N.of_nat (length m) in
  let zeros := (119 - l mod 64) mod 64 in
  m ++ 0x80 :: repeat 0 (N.to_nat zeros) ++ be_bytes 8 (8 * l).

(** The 64 schedule words of a block, most recent first while they are built. *)
Fixpoint schedule (fuel : nat) (recent_first : list N) : list N :=
  match fuel with
  | O => reverse recent_first
  | S fuel' =>
      let w i := nth i recent_first 0 in
      schedule fuel' (add (add (small1 (w 1%nat)) (w 6%nat)) (add (small0 (w 14%nat)) (w 15%nat)) :: recent_first)
  end.

Definition round (s : state) (kw : N * N) : state :=
  let t1 := add (add (hh s) (big1 (he s))) (add (add (ch (he s) (hf s) (hg s)) kw.1) kw.2) in
  let t2 := add (big0 (ha s)) (maj (ha s) (hb s) (hc s)) in
  {| ha := add t1 t2; hb := ha s; hc := hb s; hd := hc s;
     he := add (hd s) t1; hf := he s; hg := hf s; hh := hg s |}.

Definition compress (s : state) (ws : list N) : state :=
  let r := foldl round s (combine round_constants (schedule 48 (reverse ws))) in
  {| ha := add (ha s) (ha r); hb := add (hb s) (hb r); hc := add (hc s) (hc r); hd := add (hd s) (hd r);
     he := add (he s) (he r); hf := add (hf s) (hf r); hg := add (hg s) (hg r); hh := add (hh s) (hh r) |}.

Fixpoint words (b : bytes) : list N :=
  match b with
  | b0 :: b1 :: b2 :: b3 :: rest => be_value [b0; b1; b2; b3] :: words rest
  | _ => []
  end.

Fixpoint blocks (n : nat) (s : state) (ws : list N) : state :=
  match n with O => s | S n' => blocks n' (compress s (take 16 ws)) (drop 16 ws) end.

Definition digest (m : bytes) : bytes :=
  let ws := words (pad m) in
  let s := blocks (length ws / 16)%nat initial ws in
  [ha s; hb s; hc s; hd s; he s; hf s; hg s; hh s] ≫= be_bytes 4.

Definition hex_digit (n : N) : N := if n <? 10 then 48 + n else 87 + n.
Definition hexdigest (m : bytes) : str := digest m ≫= (fun b => [hex_digit (b / 16); hex_digit (b mod 16)]).

Lemma length_be_bytes w n : length (be_bytes w n) = w.
Proof. revert n. induction w as [|w IH]; intros n; simpl; [done|]. rewrite length_app, IH. simpl. lia. Qed.

Lemma length_digest m : length (digest m) = 32%nat.
Proof. unfold digest. cbn [mbind list_bind]. rewrite !length_app, !length_be_bytes. done. Qed.

Lemma length_hexdigest m : length (hexdigest m) = 64%nat.
Proof.
  unfold hexdigest.
  assert (forall l, length (l ≫= fun b : N => [hex_digit (b / 16); hex_digit (b mod 16)]) = 2 * length l)%nat as ->.
  { induction l as [|b l IH]; [done|]. cbn [mbind list_bind] in *. rewrite length_app, IH. simpl. lia. }
  by rewrite length_digest.
Qed.

(** The digests of the standard's examples. *)
Example sha256_abc :
  hexdigest (lit "abc") = lit "ba7816bf8f01cfea414140de5dae2223b00361a396177a9cb410ff61f20015ad".
Proof. vm_compute. reflexivity. Qed.

Example sha256_two_blocks :
  hexdigest (lit "abcdbcdecdefdefgefghfghighijhijkijkljklmklmnlmnomnopnopq")
  = lit "248d6a61d20638b8e5c026930c3e6039a33ce45964ff2167f6ecedd419db06c1".
Proof. vm_compute. reflexivity. Qed.
