(* ===== verification/StorageWatches.v ===== *)
(** * Watch records of the state document

    [storage_watches.py]: reading a watch in each schema version, validating it and
    writing it back. *)

From S2P Require Import Prelude PyStr Regex Models Json Fields Validation Wire Codec.

Open Scope Z_scope.

Definition _MAX_VERSION_LENGTH : Z := 256.
Definition _MAX_CVE_IDS : Z := 16.

Definition is_alnum (c : N) : bool :=
  is_digit c || ((65 <=? c) && (c <=? 90))%N || ((97 <=? c) && (c <=? 122))%N.
(** [[A-Za-z0-9<extra>]] *)
Definition rclass (extra : str) : regex := RSet (fun c => is_alnum c || existsb (N.eqb c) extra).

Definition _ARCH_ITEM_ID : regex :=
  RCat (rlit (lit "arch:")) (RCat (rclass (lit "@_+")) (rrange 0 127 (rclass (lit "@._+-")))).
Definition _ADVISORY_ID : regex := RCat (rlit (lit "AVG-")) (rrange 1 120 rdigit).
Definition _CVE_ID : regex :=
  RCat (rlit (lit "CVE-")) (rtimes 4 rdigit (RCat (rlit (lit "-")) (rrange 4 19 rdigit))).

Create HintDb doc_jeq.

Definition corrupt {A} (reason : str) : res A := Err (StateCorruptError reason).
Definition corrupt_if (b : bool) (reason : str) : res unit := raise_if b (StateCorruptError reason).

(** ** Readers *)

Definition _field (d : dict) (name : str) : res json :=
  match dict_get d name with
  | Some v => Ok v
  | None => corrupt (lit "state is missing " ++ name)
  end.

Definition _object (v : json) (path : str) : res dict :=
  match v with JObj d => Ok d | _ => corrupt (path ++ lit " must be an object") end.

Definition _string (v : json) (path : str) : res str :=
  match v with JStr s => Ok s | _ => corrupt (path ++ lit " must be a string") end.

Definition _optional_string (v : json) (path : str) : res (option str) :=
  match v with JNull => Ok None | _ => s ← _string v path; Ok (Some s) end.

Definition _boolean (v : json) (path : str) : res bool :=
  match v with JBool b => Ok b | _ => corrupt (path ++ lit " must be a boolean") end.

Definition _watch_mode (v : json) : res WatchMode :=
  s ← _string v (lit "watch.mode");
  match enum_of s with Some m => Ok m | None => corrupt (lit "watch.mode is invalid") end.

Definition _cve_ids (v : json) : res (list str) :=
  match v with
  | JList l => mapM (fun e => _string e (lit "watch.condition.cveIds")) l
  | _ => corrupt (lit "watch.condition.cveIds must be an array")
  end.

(** ** Conditions *)

Definition _validate_condition (c : SecurityFixCondition) : res unit :=
  _ ← corrupt_if (negb (fullmatch _ADVISORY_ID (cond_advisory_id c)))
        (lit "watch.condition advisory is invalid");
  _ ← corrupt_if (match cond_cve_ids c with [] => true | _ => false end
                  || (_MAX_CVE_IDS <? len (cond_cve_ids c))
                  || negb (unique (cond_cve_ids c))
                  || existsb (fun x => negb (fullmatch _CVE_ID x)) (cond_cve_ids c))
        (lit "watch.condition CVE evidence is invalid");
  corrupt_if (bool_decide (cond_fixed_version c = [])
              || (_MAX_VERSION_LENGTH <? len (cond_fixed_version c))
              || negb (isascii (cond_fixed_version c))
              || negb (ascii_printable (cond_fixed_version c)))
    (lit "watch.condition fixed version is invalid").

Definition security_fix_condition (advisory : str) (cves : list str) (fixed : str)
    : res SecurityFixCondition :=
  let c := {| cond_advisory_id := advisory; cond_cve_ids := cves; cond_fixed_version := fixed |} in
  _ ← _validate_condition c; Ok c.

(** [set(d) != {...}] *)
Definition keys_differ (d : dict) (expected : list str) : bool :=
  bool_decide ((list_to_set (keys d) : gset str) <> list_to_set expected).

Definition _condition (v : json) : res (option SecurityFixCondition) :=
  match v with
  | JNull => Ok None
  | _ =>
      d ← _object v (lit "watch.condition");
      _ ← corrupt_if (keys_differ d (names ["advisoryId"; "cveIds"; "fixedVersion"]))
            (lit "watch.condition fields are invalid");
      x ← _field d (lit "advisoryId"); advisory ← _string x (lit "watch.condition.advisoryId");
      x ← _field d (lit "cveIds"); cves ← _cve_ids x;
      x ← _field d (lit "fixedVersion"); fixed ← _string x (lit "watch.condition.fixedVersion");
      c ← security_fix_condition advisory cves fixed;
      Ok (Some c)
  end.

Definition _condition_value (c : option SecurityFixCondition) : json :=
  match c with
  | None => JNull
  | Some c => JObj [(lit "advisoryId", JStr (cond_advisory_id c));
                    (lit "cveIds", JList (JStr <$> cond_cve_ids c));
                    (lit "fixedVersion", JStr (cond_fixed_version c))]
  end.

(** ** Watches *)

Definition parse_v0_watch (v : json) : res WatchRecord :=
  d ← _object v (lit "watch");
  x ← _field d (lit "itemId"); id ← _string x (lit "watch.itemId");
  x ← _field d (lit "mode"); mode ← _watch_mode x;
  match mode with
  | PERMANENT | TEMPORARY =>
      Ok {| w_item_id := id; w_mode := PERMANENT; w_installed_fingerprint := None;
            w_candidate_fingerprint := None; w_armed := false; w_condition := None |}
  | OFF => corrupt (lit "v0 off watches are not durable")
  end.

(** The five fields versions 1 and 2 share. *)
Definition parse_watch_fields (d : dict) (condition : option SecurityFixCondition) : res WatchRecord :=
  x ← _field d (lit "itemId"); id ← _string x (lit "watch.itemId");
  x ← _field d (lit "mode"); mode ← _watch_mode x;
  x ← _field d (lit "installedFingerprint");
  inst ← _optional_string x (lit "watch.installedFingerprint");
  x ← _field d (lit "candidateFingerprint");
  cand ← _optional_string x (lit "watch.candidateFingerprint");
  x ← _field d (lit "armed"); armed ← _boolean x (lit "watch.armed");
  Ok {| w_item_id := id; w_mode := mode; w_installed_fingerprint := inst;
        w_candidate_fingerprint := cand; w_armed := armed; w_condition := condition |}.

Definition parse_v1_watch (v : json) : res WatchRecord :=
  d ← _object v (lit "watch"); parse_watch_fields d None.

Definition parse_watch (v : json) : res WatchRecord :=
  d ← _object v (lit "watch");
  x ← _field d (lit "condition"); c ← _condition x;
  parse_watch_fields d c.

Definition is_some {A} (v : option A) : bool := match v with Some _ => true | None => false end.

Definition validate_watch (w : WatchRecord) : res unit :=
  match w_mode w with
  | PERMANENT =>
      corrupt_if (is_some (w_installed_fingerprint w) || is_some (w_candidate_fingerprint w)
                  || w_armed w || is_some (w_condition w))
        (lit "permanent watches must not retain temporary internals")
  | TEMPORARY =>
      _ ← corrupt_if (negb (is_some (w_installed_fingerprint w)))
            (lit "temporary watches require an installed baseline");
      _ ← corrupt_if (negb (Bool.eqb (w_armed w) (is_some (w_candidate_fingerprint w))))
            (lit "temporary watch candidate and arming are inconsistent");
      match w_condition w with
      | None => Ok tt
      | Some c =>
          _ ← corrupt_if (negb (fullmatch _ARCH_ITEM_ID (w_item_id w)))
                (lit "conditional watches require a canonical Arch item ID");
          _validate_condition c
      end
  | OFF => corrupt (lit "off watches are not durable")
  end.

Definition watch_value (w : WatchRecord) : json :=
  JObj [(lit "itemId", JStr (w_item_id w));
        (lit "mode", JEnum (w_mode w));
        (lit "installedFingerprint", JOpt JStr (w_installed_fingerprint w));
        (lit "candidateFingerprint", JOpt JStr (w_candidate_fingerprint w));
        (lit "armed", JBool (w_armed w));
        (lit "condition", _condition_value (w_condition w))].

(** ** What a durable watch is *)

Record valid_condition (c : SecurityFixCondition) : Prop := {
  vc_advisory : matches _ADVISORY_ID (cond_advisory_id c);
  vc_count : 1 <= len (cond_cve_ids c) <= _MAX_CVE_IDS;
  vc_distinct : NoDup (cond_cve_ids c);
  vc_cves : Forall (matches _CVE_ID) (cond_cve_ids c);
  vc_version : 1 <= len (cond_fixed_version c) <= _MAX_VERSION_LENGTH;
  vc_printable : ascii_printable (cond_fixed_version c) = true;
}.

(** A watch is permanent and bare, or temporary with a baseline, armed exactly when it
    has a candidate, and conditional only on an Arch package. *)
Inductive valid_watch : WatchRecord -> Prop :=
| valid_permanent id : valid_watch (Build_WatchRecord id PERMANENT None None false None)
| valid_temporary id inst cand cond :
    (forall c, cond = Some c -> matches _ARCH_ITEM_ID id /\ valid_condition c) ->
    valid_watch (Build_WatchRecord id TEMPORARY (Some inst) cand (is_some cand) cond).

Lemma corrupt_if_Ok b reason u : corrupt_if b reason = Ok u <-> b = false.
Proof. apply raise_if_Ok. Qed.

Lemma printable_isascii s : ascii_printable s = true -> isascii s = true.
Proof.
  unfold ascii_printable, isascii. rewrite !forallb_Forall. intros H. eapply Forall_impl; [exact H|].
  intros c. rewrite andb_true_iff, !N.leb_le. lia.
Qed.

Lemma existsb_negb {A} (f : A -> bool) l :
  existsb (fun x => negb (f x)) l = false <-> Forall (fun x => f x = true) l.
Proof. induction l; simpl; [by split|]. by rewrite orb_false_iff, Forall_cons, negb_false_iff, IHl. Qed.

Lemma nonempty_len {A} (l : list A) : l <> [] <-> 1 <= len l.
Proof. unfold len. destruct l; simpl; split; try done; lia. Qed.

Lemma condition_spec c : _validate_condition c = Ok tt <-> valid_condition c.
Proof.
  unfold _validate_condition. rewrite !then_Ok, !corrupt_if_Ok, !orb_false_iff, !negb_false_iff.
  rewrite !Z.ltb_ge, existsb_negb, unique_spec, fullmatch_matches, bool_decide_eq_false, nonempty_len.
  rewrite (Forall_ext _ (matches _CVE_ID)) by (intros; apply fullmatch_matches).
  assert (match cond_cve_ids c with [] => true | _ => false end = false <-> 1 <= len (cond_cve_ids c)) as ->.
  { rewrite <-nonempty_len. destruct (cond_cve_ids c); naive_solver. }
  split; [intros; destruct_and!; by constructor | intros []; auto 8 using printable_isascii].
Qed.

Lemma validate_watch_spec w : validate_watch w = Ok tt <-> valid_watch w.
Proof.
  unfold validate_watch. destruct w as [id mode inst cand armed cond]. cbn. destruct mode.
  - split; [done | inversion 1].
  - rewrite then_Ok. setoid_rewrite then_Ok. rewrite !corrupt_if_Ok, !negb_false_iff, eqb_true_iff. split.
    + destruct inst as [inst|]; [|by intros [[=] _]]. intros (_ & -> & Hc).
      constructor. intros c ->.
      rewrite then_Ok, corrupt_if_Ok, negb_false_iff, fullmatch_matches, condition_spec in Hc. done.
    + inversion 1; subst. cbn. split; [done|]. split; [done|]. destruct cond as [c|]; [|done].
      rewrite then_Ok, corrupt_if_Ok, negb_false_iff, fullmatch_matches, condition_spec. auto.
  - rewrite corrupt_if_Ok, !orb_false_iff. split.
    + destruct inst, cand, armed, cond; cbn; try (intros; destruct_and!; discriminate). constructor.
    + inversion 1. done.
Qed.

(** ** Reading what is written *)

Ltac doc_fields tac :=
  repeat first
    [ match goal with
      | |- context [_field ?d ?n] =>
          let t := eval hnf in (_field d n) in change (_field d n) with t
      | |- context [dict_mem ?d ?n] =>
          let t := eval vm_compute in (dict_mem d n) in
          let t := match t with true => t | false => t end in change (dict_mem d n) with t
      end
    | rewrite bind_Ok_l
    | progress cbn [_object _string _boolean]
    | tac ].

Lemma watch_mode_JEnum m : _watch_mode (JEnum m) = Ok m.
Proof. unfold _watch_mode, JEnum. cbn [_string]. by rewrite bind_Ok_l, enum_of_value. Qed.

Lemma doc_optional_string v path : _optional_string (JOpt JStr v) path = Ok v.
Proof. by destruct v. Qed.

Lemma cve_ids_inverse l : _cve_ids (JList (JStr <$> l)) = Ok l.
Proof. simpl. rewrite (mapM_inverse JStr (fun e => _string e _)); [done|]. by apply Forall_true. Qed.

Lemma condition_inverse c :
  (forall c', c = Some c' -> valid_condition c') -> _condition (_condition_value c) = Ok c.
Proof.
  destruct c as [[a l f]|]; [|done]. intros Hc. specialize (Hc _ eq_refl). unfold _condition, _condition_value.
  cbn [cond_advisory_id cond_cve_ids cond_fixed_version _object]. rewrite bind_Ok_l.
  match goal with |- context [keys_differ ?d ?n] =>
    replace (keys_differ d n) with false by (vm_compute; reflexivity) end.
  unfold corrupt_if, raise_if. doc_fields ltac:(rewrite cve_ids_inverse).
  unfold security_fix_condition. apply condition_spec in Hc. by rewrite Hc.
Qed.

Lemma watch_inverse w : valid_watch w -> parse_watch (watch_value w) = Ok w.
Proof.
  intros Hw. unfold parse_watch, watch_value. doc_fields ltac:(fail).
  rewrite condition_inverse by (inversion Hw; naive_solver). unfold parse_watch_fields.
  doc_fields ltac:(first [rewrite watch_mode_JEnum | rewrite doc_optional_string]). by destruct w.
Qed.

(** ** Documents up to the order of keys *)

Lemma object_jeq v w path : jeq v w -> outcome_rel dict_eq (_object v path) (_object w path).
Proof. intros []; simpl; by constructor. Qed.

Lemma field_jeq d e name : dict_eq d e -> outcome_rel jeq (_field d name) (_field e name).
Proof. intros H. unfold _field. specialize (H name). inversion H; by constructor. Qed.

Lemma string_jeq v w path : jeq v w -> _string v path = _string w path.
Proof. by intros []. Qed.

Lemma optional_string_jeq v w path : jeq v w -> _optional_string v path = _optional_string w path.
Proof. by intros []. Qed.

Lemma boolean_jeq v w path : jeq v w -> _boolean v path = _boolean w path.
Proof. by intros []. Qed.

Lemma watch_mode_jeq v w : jeq v w -> _watch_mode v = _watch_mode w.
Proof. intros H. unfold _watch_mode. by rewrite (string_jeq v w). Qed.

Lemma cve_ids_jeq v w : jeq v w -> _cve_ids v = _cve_ids w.
Proof. intros [| | | | |l k H|]; try done. simpl. apply mapM_rel; [done|]. intros. by apply string_jeq. Qed.

#[export] Hint Resolve string_jeq optional_string_jeq boolean_jeq watch_mode_jeq cve_ids_jeq : doc_jeq.

Ltac doc_step :=
  match goal with
  | |- (_object _ _ ≫= _) = _ => eapply bind_rel; [by apply object_jeq | intros ? ? ?]
  | |- (_field _ _ ≫= _) = _ => eapply bind_rel; [by apply field_jeq | intros ? ? ?]
  | |- (?m ≫= _) = (?m ≫= _) => eapply bind_rel; [apply outcome_rel_refl | intros ? ? <-]
  | |- (_ ≫= _) = (_ ≫= _) =>
      eapply bind_rel; [apply outcome_rel_eq; solve [eauto with doc_jeq] | intros ? ? <-]
  end.
Ltac doc_proper := intros; repeat first [reflexivity | doc_step | progress intros]; eauto with doc_jeq.

Lemma keys_differ_jeq d e l : dict_eq d e -> keys_differ d l = keys_differ e l.
Proof.
  intros H. unfold keys_differ.
  replace (list_to_set (keys d) : gset str) with (list_to_set (keys e) : gset str); [done|].
  apply set_eq. intros x. rewrite !elem_of_list_to_set. symmetry. by apply dict_eq_keys.
Qed.

Lemma condition_jeq v w : jeq v w -> _condition v = _condition w.
Proof.
  intros H. unfold _condition. destruct H; try done. simpl.
  rewrite (keys_differ_jeq d e) by done. doc_proper.
Qed.

Lemma watch_fields_jeq d e c : dict_eq d e -> parse_watch_fields d c = parse_watch_fields e c.
Proof. unfold parse_watch_fields. doc_proper. Qed.

#[export] Hint Resolve condition_jeq watch_fields_jeq : doc_jeq.

Lemma v0_watch_jeq v w : jeq v w -> parse_v0_watch v = parse_v0_watch w.
Proof. unfold parse_v0_watch. doc_proper. Qed.
Lemma v1_watch_jeq v w : jeq v w -> parse_v1_watch v = parse_v1_watch w.
Proof. unfold parse_v1_watch. doc_proper. Qed.
Lemma watch_jeq v w : jeq v w -> parse_watch v = parse_watch w.
Proof. unfold parse_watch. doc_proper. Qed.

#[export] Hint Resolve v0_watch_jeq v1_watch_jeq watch_jeq : doc_jeq.
