(* ===== verification/StorageState.v ===== *)
(** * The state document

    [storage_state.py]: the persistent state as a JSON document of schema version 2, its
    validation, the pruning of its ledger, and the migration of versions 0 and 1. *)

From S2P Require Import Prelude PyStr Calendar Models Samples Json Fields Validation Wire Codec StorageWatches.

Open Scope Z_scope.

Definition STATE_SCHEMA_VERSION : Z := 2.
Definition MAX_INACTIVE_LEDGER_ENTRIES : nat := 5000.
Definition MAX_INACTIVE_LEDGER_AGE : Z := days 180.

(** ** Validation *)

Definition validate_source (s : SourceMetadata) : res unit :=
  corrupt_if (md_failure_count s <? 0) (lit "source failure count is invalid").

Definition validate_lease (e : LedgerEntry) : res unit :=
  _ ← corrupt_if (xorb (negb (is_some (e_lease_token e))) (negb (is_some (e_lease_expires_at e))))
        (lit "ledger lease is incomplete");
  corrupt_if (bool_decide (e_lease_token e = Some [])) (lit "ledger lease token is invalid").

Definition _unique (values : list str) (reason : str) : res unit :=
  corrupt_if (negb (unique values)) reason.

Definition validate_state (s : PersistentState) : res unit :=
  _ ← _unique (w_item_id <$> st_watches s) (lit "state has duplicate watches");
  _ ← _unique (e_fingerprint <$> st_ledger s) (lit "state has duplicate ledger entries");
  _ ← _unique ((fun m => value (md_source m)) <$> st_sources s)
        (lit "state has duplicate source metadata");
  _ ← for_each validate_source (st_sources s);
  _ ← for_each validate_watch (st_watches s);
  for_each validate_lease (st_ledger s).

(** ** Pruning *)

(** [(e.recorded_at, e.fingerprint)]: the entries sorted are all aware, or all naive. *)
Definition entry_leb (a b : LedgerEntry) : bool :=
  if dt_us (e_recorded_at a) =? dt_us (e_recorded_at b)
  then str_leb (e_fingerprint a) (e_fingerprint b)
  else dt_us (e_recorded_at a) <? dt_us (e_recorded_at b).

(** [sorted(entries, key=..., reverse=True)] *)
Definition newest_first : list LedgerEntry -> list LedgerEntry :=
  sorted_by (fun a b => entry_leb b a).

(** [e for e in ledger if not e.is_active and e.recorded_at >= cutoff] *)
Fixpoint recent_inactive (cutoff : datetime) (ledger : list LedgerEntry) : res (list LedgerEntry) :=
  match ledger with
  | [] => Ok []
  | e :: rest =>
      if is_active e then recent_inactive cutoff rest
      else
        keep ← dt_cmp Z.geb (e_recorded_at e) cutoff;
        es ← recent_inactive cutoff rest;
        Ok match keep with true => e :: es | false => es end
  end.

Definition prune_ledger (s : PersistentState) (now : datetime) : res PersistentState :=
  cutoff ← dt_plus now (- MAX_INACTIVE_LEDGER_AGE);
  inactive ← recent_inactive cutoff (st_ledger s);
  Ok {| st_watches := st_watches s;
        st_ledger := List.filter is_active (st_ledger s)
                     ++ take MAX_INACTIVE_LEDGER_ENTRIES (newest_first inactive);
        st_sources := st_sources s |}.

(** ** Encoding *)

Definition _format_timestamp (d : datetime) : res json :=
  if dt_utc d then Ok (JStr (timestamp_text d)) else corrupt (lit "state timestamps must be UTC").

Definition _optional_timestamp_value (d : option datetime) : res json :=
  match d with None => Ok JNull | Some d => _format_timestamp d end.

Definition _ledger_value (e : LedgerEntry) : res json :=
  recorded ← _format_timestamp (e_recorded_at e);
  expires ← _optional_timestamp_value (e_lease_expires_at e);
  Ok (JObj [(lit "fingerprint", JStr (e_fingerprint e));
            (lit "status", JEnum (e_status e));
            (lit "recordedAt", recorded);
            (lit "leaseToken", JOpt JStr (e_lease_token e));
            (lit "leaseExpiresAt", expires)]).

Definition _source_value (m : SourceMetadata) : res json :=
  success ← _optional_timestamp_value (md_last_success m);
  backoff ← _optional_timestamp_value (md_backoff_until m);
  Ok (JObj [(lit "source", JEnum (md_source m));
            (lit "lastSuccess", success);
            (lit "backoffUntil", backoff);
            (lit "failureCount", JInt (md_failure_count m));
            (lit "permanentFailure", JBool (md_permanent_failure m))]).

(** The document [encode_state] hands to [json.dumps]. *)
Definition encode_document (s : PersistentState) (now : datetime) : res json :=
  _ ← validate_state s;
  normalized ← prune_ledger s now;
  ledger ← mapM _ledger_value (st_ledger normalized);
  srcs ← mapM _source_value (st_sources normalized);
  Ok (JObj [(lit "schemaVersion", JInt STATE_SCHEMA_VERSION);
            (lit "watches", JList (watch_value <$> st_watches normalized));
            (lit "ledger", JList ledger);
            (lit "sources", JList srcs)]).

(** ** Decoding *)

Definition _array (v : json) (path : str) : res (list json) :=
  match v with JList l => Ok l | _ => corrupt (path ++ lit " must be an array") end.

Definition _integer (v : json) (path : str) : res Z :=
  match v with JInt z => Ok z | _ => corrupt (path ++ lit " must be an integer") end.

Definition _nonnegative_integer (v : json) (path : str) : res Z :=
  z ← _integer v path;
  _ ← corrupt_if (z <? 0) (path ++ lit " must be non-negative");
  Ok z.

Definition _notification_status (v : json) : res NotificationStatus :=
  s ← _string v (lit "ledger.status");
  match enum_of s with Some x => Ok x | None => corrupt (lit "ledger.status is invalid") end.

Definition _source_name (v : json) : res SourceName :=
  s ← _string v (lit "source.source");
  match enum_of s with Some x => Ok x | None => corrupt (lit "source.source is invalid") end.

Section Decode.
Context `{Iso : IsoDialect}.

Definition _timestamp (v : json) (path : str) : res datetime :=
  raw ← _string v path;
  _ ← corrupt_if (negb (endswith raw (lit "Z"))) (path ++ lit " must be UTC RFC3339");
  match fromisoformat (take (length raw - 1) raw ++ lit "+00:00") with
  | Some d => Ok d
  | None => corrupt (path ++ lit " must be UTC RFC3339")
  end.

Definition _optional_timestamp (v : json) (path : str) : res (option datetime) :=
  match v with JNull => Ok None | _ => d ← _timestamp v path; Ok (Some d) end.

(** [None if name not in document else read(document[name], f"ledger.{name}")] *)
Definition _optional_ledger {A} (read : json -> str -> res (option A)) (d : dict) (name : str)
    : res (option A) :=
  match dict_get d name with None => Ok None | Some v => read v (lit "ledger." ++ name) end.

Definition _optional_ledger_string : dict -> str -> res (option str) :=
  _optional_ledger _optional_string.
Definition _optional_ledger_timestamp : dict -> str -> res (option datetime) :=
  _optional_ledger _optional_timestamp.

Definition _source_failure_count (d : dict) : res Z :=
  match dict_get d (lit "failureCount") with
  | None => Ok 0
  | Some v => _nonnegative_integer v (lit "source.failureCount")
  end.

Definition _source_permanent_failure (d : dict) : res bool :=
  match dict_get d (lit "permanentFailure") with
  | None => Ok false
  | Some v => _boolean v (lit "source.permanentFailure")
  end.

Definition _parse_ledger (v : json) : res LedgerEntry :=
  d ← _object v (lit "ledger entry");
  token ← _optional_ledger_string d (lit "leaseToken");
  expires ← _optional_ledger_timestamp d (lit "leaseExpiresAt");
  x ← _field d (lit "fingerprint"); fp ← _string x (lit "ledger.fingerprint");
  x ← _field d (lit "status"); status ← _notification_status x;
  x ← _field d (lit "recordedAt"); recorded ← _timestamp x (lit "ledger.recordedAt");
  Ok {| e_fingerprint := fp; e_status := status; e_recorded_at := recorded;
        e_lease_token := token; e_lease_expires_at := expires |}.

Definition _parse_source (v : json) : res SourceMetadata :=
  d ← _object v (lit "source metadata");
  x ← _field d (lit "source"); source ← _source_name x;
  x ← _field d (lit "lastSuccess"); success ← _optional_timestamp x (lit "source.lastSuccess");
  x ← _field d (lit "backoffUntil"); backoff ← _optional_timestamp x (lit "source.backoffUntil");
  count ← _source_failure_count d;
  permanent ← _source_permanent_failure d;
  Ok {| md_source := source; md_last_success := success; md_backoff_until := backoff;
        md_failure_count := count; md_permanent_failure := permanent |}.

Definition _validated_state (s : PersistentState) : res PersistentState :=
  _ ← validate_state s; Ok s.

Definition _parse (d : dict) (parse_watch_record : json -> res WatchRecord) : res PersistentState :=
  x ← _field d (lit "watches"); l ← _array x (lit "watches"); ws ← mapM parse_watch_record l;
  x ← _field d (lit "ledger"); l ← _array x (lit "ledger"); es ← mapM _parse_ledger l;
  x ← _field d (lit "sources"); l ← _array x (lit "sources"); ms ← mapM _parse_source l;
  _validated_state {| st_watches := ws; st_ledger := es; st_sources := ms |}.

Definition _migrate_v0 (d : dict) : res PersistentState :=
  x ← _field d (lit "watches"); l ← _array x (lit "watches"); ws ← mapM parse_v0_watch l;
  _validated_state {| st_watches := ws; st_ledger := []; st_sources := [] |}.

Definition _migrate_v1 (d : dict) : res PersistentState := _parse d parse_v1_watch.
Definition _parse_v2 (d : dict) : res PersistentState := _parse d parse_watch.

(** [decode_state] from the JSON value on. *)
Definition decode_document (v : json) : res PersistentState :=
  d ← _object v (lit "state");
  x ← _field d (lit "schemaVersion"); version ← _integer x (lit "state.schemaVersion");
  if STATE_SCHEMA_VERSION <? version then Err (StateSchemaIncompatible version)
  else if version =? 0 then _migrate_v0 d
  else if version =? 1 then _migrate_v1 d
  else if negb (version =? STATE_SCHEMA_VERSION) then corrupt (lit "state.schemaVersion is unsupported")
  else _parse_v2 d.
End Decode.

(** ** What a durable state is *)

Definition valid_lease (e : LedgerEntry) : Prop :=
  (is_Some (e_lease_token e) <-> is_Some (e_lease_expires_at e)) /\ e_lease_token e <> Some [].

Record valid_state (s : PersistentState) : Prop := {
  vt_items : NoDup (w_item_id <$> st_watches s);
  vt_fingerprints : NoDup (e_fingerprint <$> st_ledger s);
  vt_sources : NoDup (md_source <$> st_sources s);
  vt_counts : Forall (fun m => 0 <= md_failure_count m) (st_sources s);
  vt_watches : Forall valid_watch (st_watches s);
  vt_leases : Forall valid_lease (st_ledger s);
}.

Lemma lease_spec e : validate_lease e = Ok tt <-> valid_lease e.
Proof.
  unfold validate_lease, valid_lease. rewrite then_Ok, !corrupt_if_Ok, bool_decide_eq_false.
  destruct (e_lease_token e), (e_lease_expires_at e); simpl; split; intros [H ?]; split; try done;
    try (split; intros []; done); destruct H as [H1 H2]; naive_solver.
Qed.

Lemma validate_state_spec s : validate_state s = Ok tt <-> valid_state s.
Proof.
  unfold validate_state, _unique. rewrite !then_Ok, !corrupt_if_Ok, !negb_false_iff, !unique_spec, !for_each_Ok.
  change (fun m => value (md_source m)) with (value (A:=SourceName) ∘ md_source). rewrite list_fmap_compose.
  rewrite (Forall_ext _ _ _ lease_spec), (Forall_ext _ _ _ validate_watch_spec).
  rewrite (Forall_ext (fun x => validate_source x = Ok tt) (fun m => 0 <= md_failure_count m)).
  2:{ intros m. unfold validate_source. by rewrite corrupt_if_Ok, Z.ltb_ge. }
  split.
  - intros (? & ? & Hs & ? & ? & ?). constructor; try done. by eapply NoDup_fmap_1.
  - intros []. repeat (split; [try done|]); [|done]. by apply (NoDup_fmap_2 _).
Qed.

(** ** The ledger after pruning *)

Lemma entry_leb_total a b : entry_leb a b = true \/ entry_leb b a = true.
Proof.
  unfold entry_leb. destruct (Z.eqb_spec (dt_us (e_recorded_at a)) (dt_us (e_recorded_at b))) as [->|].
  - rewrite Z.eqb_refl. apply str_leb_total.
  - destruct (Z.eqb_spec (dt_us (e_recorded_at b)) (dt_us (e_recorded_at a))); [congruence|].
    rewrite !Z.ltb_lt. lia.
Qed.

Lemma entry_leb_trans a b c : entry_leb a b = true -> entry_leb b c = true -> entry_leb a c = true.
Proof.
  unfold entry_leb.
  destruct (Z.eqb_spec (dt_us (e_recorded_at a)) (dt_us (e_recorded_at b))),
    (Z.eqb_spec (dt_us (e_recorded_at b)) (dt_us (e_recorded_at c))),
    (Z.eqb_spec (dt_us (e_recorded_at a)) (dt_us (e_recorded_at c)));
    rewrite ?Z.ltb_lt; try lia. apply str_leb_trans.
Qed.

Lemma entry_leb_time a b : entry_leb a b = true -> dt_us (e_recorded_at a) <= dt_us (e_recorded_at b).
Proof. unfold entry_leb. destruct (Z.eqb_spec (dt_us (e_recorded_at a)) (dt_us (e_recorded_at b))); rewrite ?Z.ltb_lt; lia. Qed.

Definition newer (a b : LedgerEntry) : Prop := entry_leb b a = true.

Lemma newest_first_sorted l : StronglySorted newer (newest_first l).
Proof.
  apply (sorted_by_sorted (fun a b => entry_leb b a)).
  - intros. apply entry_leb_total.
  - eauto using entry_leb_trans.
Qed.

(** The inactive entries that pruning considers. *)
Definition recent (cutoff : datetime) (e : LedgerEntry) : bool :=
  negb (is_active e) && (dt_us (e_recorded_at e) >=? dt_us cutoff).
Definition comparable (cutoff : datetime) (e : LedgerEntry) : Prop :=
  is_active e = false -> dt_utc (e_recorded_at e) = dt_utc cutoff.

Lemma recent_inactive_Ok cutoff l k :
  recent_inactive cutoff l = Ok k <->
  Forall (comparable cutoff) l /\ k = List.filter (recent cutoff) l.
Proof.
  revert k. induction l as [|e l IH]; intros k; simpl; [naive_solver|].
  rewrite Forall_cons. unfold recent at 1. destruct (is_active e) eqn:Ea; simpl.
  - rewrite IH. unfold comparable at 2. rewrite Ea. naive_solver.
  - unfold dt_cmp. destruct (Bool.eqb (dt_utc (e_recorded_at e)) (dt_utc cutoff)) eqn:Eb; simpl.
    + apply eqb_prop in Eb. rewrite bind_Ok. setoid_rewrite IH.
      assert (comparable cutoff e) by (by intros _). destruct (_ >=? _); naive_solver.
    + apply eqb_false_iff in Eb. split; [done|]. intros [[Hc _] _]. by apply Hc in Ea.
Qed.

Definition pruned_ledger (cutoff : datetime) (l : list LedgerEntry) : list LedgerEntry :=
  List.filter is_active l ++ take MAX_INACTIVE_LEDGER_ENTRIES (newest_first (List.filter (recent cutoff) l)).

Definition with_ledger (s : PersistentState) (l : list LedgerEntry) : PersistentState :=
  {| st_watches := st_watches s; st_ledger := l; st_sources := st_sources s |}.

Definition cutoff_of (now : datetime) : datetime := dt_add now (- MAX_INACTIVE_LEDGER_AGE).

Lemma prune_ledger_Ok s now s' :
  prune_ledger s now = Ok s' <->
  in_range (cutoff_of now) /\ Forall (comparable (cutoff_of now)) (st_ledger s)
  /\ s' = with_ledger s (pruned_ledger (cutoff_of now) (st_ledger s)).
Proof.
  unfold prune_ledger. rewrite bind_Ok. setoid_rewrite dt_plus_Ok. setoid_rewrite bind_Ok.
  setoid_rewrite recent_inactive_Ok. unfold cutoff_of. split.
  - intros (? & [-> ?] & ? & [? ->] & [= <-]). done.
  - intros (? & ? & ->). exists (dt_add now (- MAX_INACTIVE_LEDGER_AGE)). split; [done|]. eauto.
Qed.

Lemma pruned_submseteq cutoff l : pruned_ledger cutoff l ⊆+ l.
Proof.
  unfold pruned_ledger. transitivity (List.filter is_active l ++ List.filter (recent cutoff) l).
  - apply submseteq_app; [done|]. etransitivity; [apply sublist_submseteq, sublist_take|].
    unfold newest_first. by rewrite sorted_by_Permutation.
  - apply filter_partition. intros e. unfold recent. by intros ->.
Qed.

Lemma with_ledger_valid s l : valid_state s -> l ⊆+ st_ledger s -> valid_state (with_ledger s l).
Proof.
  intros [] Hl. constructor; simpl; try done.
  - eapply NoDup_submseteq; [|exact vt_fingerprints0]. by apply fmap_submseteq.
  - apply submseteq_Permutation in Hl as [r Hr]. rewrite Hr in vt_leases0. by apply Forall_app in vt_leases0 as [? _].
Qed.

(** The inactive part of a pruned ledger: recent, newest first, at most 5000. *)
Definition kept cutoff l := take MAX_INACTIVE_LEDGER_ENTRIES (newest_first (List.filter (recent cutoff) l)).

Lemma kept_recent cutoff l : Forall (fun e => recent cutoff e = true) (kept cutoff l).
Proof. apply Forall_take. unfold newest_first. rewrite sorted_by_Permutation. apply Forall_filter_true. Qed.

Lemma pruned_active cutoff l : List.filter is_active (pruned_ledger cutoff l) = List.filter is_active l.
Proof.
  unfold pruned_ledger. rewrite List.filter_app, (filter_all _ (List.filter _ _)) by apply Forall_filter_true.
  rewrite (filter_none _ (take _ _)), app_nil_r; [done|]. eapply Forall_impl; [apply kept_recent|].
  intros e. unfold recent. by destruct (is_active e).
Qed.

Lemma pruned_recent old cutoff l :
  dt_us old <= dt_us cutoff -> List.filter (recent old) (pruned_ledger cutoff l) = kept cutoff l.
Proof.
  intros Ho. unfold pruned_ledger. rewrite List.filter_app, (filter_all _ (take _ _)).
  2:{ eapply Forall_impl; [apply kept_recent|]. intros e. unfold recent. rewrite !andb_true_iff, !Z.geb_le. intros [? ?]. split; [done | lia]. }
  rewrite (filter_none _ (List.filter _ l)); [done|]. eapply Forall_impl; [apply Forall_filter_true|].
  intros e. unfold recent. by intros ->.
Qed.

(** Pruning again, at the same time or an earlier one, changes nothing. *)
Lemma pruned_stable old cutoff l :
  dt_us old <= dt_us cutoff -> pruned_ledger old (pruned_ledger cutoff l) = pruned_ledger cutoff l.
Proof.
  intros Ho. unfold pruned_ledger at 1. rewrite pruned_active, pruned_recent by done. unfold pruned_ledger. f_equal.
  unfold newest_first at 1. rewrite sorted_by_id by (apply StronglySorted_take, newest_first_sorted).
  unfold kept. by rewrite take_take, Nat.min_id.
Qed.

Lemma pruned_idempotent cutoff l : pruned_ledger cutoff (pruned_ledger cutoff l) = pruned_ledger cutoff l.
Proof. by apply pruned_stable. Qed.

Lemma prune_again s now s' : prune_ledger s now = Ok s' -> prune_ledger s' now = Ok s'.
Proof.
  intros (Hr & Hc & ->)%prune_ledger_Ok. apply prune_ledger_Ok. split; [done|]. cbn [st_ledger with_ledger]. split.
  - pose proof (pruned_submseteq (cutoff_of now) (st_ledger s)) as [r Hp]%submseteq_Permutation.
    rewrite Hp in Hc. by apply Forall_app in Hc as [? _].
  - unfold with_ledger. cbn. by rewrite pruned_idempotent.
Qed.

(** What is dropped is inactive, and expired or older than 5000 entries that are kept. *)
Lemma dropped_entry cutoff l e :
  e ∈ l -> e ∉ pruned_ledger cutoff l ->
  is_active e = false /\
  (dt_us (e_recorded_at e) < dt_us cutoff
   \/ length (kept cutoff l) = MAX_INACTIVE_LEDGER_ENTRIES /\ Forall (fun k => newer k e) (kept cutoff l)).
Proof.
  unfold pruned_ledger. rewrite elem_of_app, elem_of_filter_bool. intros Hl Hn.
  destruct (is_active e) eqn:Ea; [exfalso; apply Hn; auto|]. split; [done|].
  destruct (Z.ltb_spec (dt_us (e_recorded_at e)) (dt_us cutoff)) as [|Hge]; [by left|]. right.
  set (all := newest_first (List.filter (recent cutoff) l)) in *.
  assert (e ∈ all) as He.
  { apply elem_of_sorted_by, elem_of_filter_bool. split; [done|]. unfold recent.
    rewrite Ea. simpl. apply Z.geb_le. lia. }
  rewrite <-(take_drop MAX_INACTIVE_LEDGER_ENTRIES all), elem_of_app in He.
  destruct He as [He|He]; [exfalso; apply Hn; by right|].
  unfold kept. fold all. split.
  - rewrite length_take. apply Nat.min_l. destruct (Nat.le_gt_cases MAX_INACTIVE_LEDGER_ENTRIES (length all)) as [|Hlt]; [done|].
    rewrite drop_ge in He by lia. by apply elem_of_nil in He.
  - pose proof (newest_first_sorted (List.filter (recent cutoff) l)) as Hs. fold all in Hs.
    rewrite <-(take_drop MAX_INACTIVE_LEDGER_ENTRIES all) in Hs. apply StronglySorted_app in Hs as (Hs & _ & _).
    apply Forall_forall. intros k Hk. by apply Hs.
Qed.

(** ** Reading the document that is written *)

(** Decides the tests on a literal [schemaVersion]. *)
Ltac version_branch := cbv iota beta delta [STATE_SCHEMA_VERSION Z.ltb Z.eqb negb Z.compare Pos.compare Pos.compare_cont Pos.eqb].

Section RoundTrip.
Context `{Iso : IsoDialect}.

Definition optional_list {A} (o : option A) : list A := match o with Some x => [x] | None => [] end.
Definition entry_times (e : LedgerEntry) : list datetime :=
  e_recorded_at e :: optional_list (e_lease_expires_at e).
Definition metadata_times (m : SourceMetadata) : list datetime :=
  optional_list (md_last_success m) ++ optional_list (md_backoff_until m).
Definition state_times (s : PersistentState) : list datetime :=
  (st_ledger s ≫= entry_times) ++ (st_sources s ≫= metadata_times).

Lemma format_timestamp_inverse d v path :
  _format_timestamp d = Ok v -> in_range d -> _timestamp v path = Ok d.
Proof.
  destruct d as [us utc]. unfold _format_timestamp. simpl. destruct utc; [|done].
  intros [= <-] Hr. unfold _timestamp. rewrite timestamp_text_utc. cbn [_string]. rewrite bind_Ok_l.
  assert (length (iso_body us ++ lit "Z") = 27%nat) as Hlen by (by rewrite length_app, length_iso_body).
  rewrite Hlen, endswith_app. unfold corrupt_if, raise_if. simpl (negb true). cbn iota. rewrite bind_Ok_l.
  rewrite take_app_le by (rewrite length_iso_body; lia).
  rewrite take_ge by (rewrite length_iso_body; lia). by rewrite fromisoformat_body.
Qed.

Lemma optional_timestamp_inverse d v path :
  _optional_timestamp_value d = Ok v -> Forall in_range (optional_list d) ->
  _optional_timestamp v path = Ok d.
Proof.
  destruct d as [d|]; simpl; [|by intros [= <-]]. rewrite Forall_cons. intros Hv [Hr _].
  pose proof (format_timestamp_inverse d v path Hv Hr) as E. unfold _optional_timestamp.
  destruct v; [discriminate|..]; by rewrite E.
Qed.

Lemma strenum_status_inverse st : _notification_status (JEnum st) = Ok st.
Proof. unfold _notification_status, JEnum. cbn [_string]. by rewrite bind_Ok_l, enum_of_value. Qed.

Lemma source_name_inverse n : _source_name (JEnum n) = Ok n.
Proof. unfold _source_name, JEnum. cbn [_string]. by rewrite bind_Ok_l, enum_of_value. Qed.

Ltac lookups :=
  repeat match goal with |- context [dict_get ?d ?n] =>
    let t := eval hnf in (dict_get d n) in change (dict_get d n) with t end.

Lemma ledger_inverse e v :
  _ledger_value e = Ok v -> Forall in_range (entry_times e) -> _parse_ledger v = Ok e.
Proof.
  unfold _ledger_value. intros H. inv_ok. intros [Hr He]%Forall_cons.
  unfold _parse_ledger. doc_fields ltac:(fail).
  unfold _optional_ledger_string, _optional_ledger_timestamp, _optional_ledger. lookups. cbv iota.
  erewrite optional_timestamp_inverse by eassumption.
  doc_fields ltac:(first [rewrite doc_optional_string | rewrite strenum_status_inverse
                         | erewrite format_timestamp_inverse by eassumption]).
  by destruct e.
Qed.

Lemma metadata_inverse m v :
  _source_value m = Ok v -> 0 <= md_failure_count m -> Forall in_range (metadata_times m) ->
  _parse_source v = Ok m.
Proof.
  unfold _source_value. intros H Hc. inv_ok. intros [Hs Hb]%Forall_app.
  unfold _parse_source, _source_failure_count, _source_permanent_failure, _nonnegative_integer.
  doc_fields ltac:(first [rewrite source_name_inverse | erewrite optional_timestamp_inverse by eassumption]).
  lookups. cbv iota. cbn [_integer]. rewrite bind_Ok_l. unfold corrupt_if, raise_if.
  destruct (Z.ltb_spec (md_failure_count m) 0); [lia|]. rewrite !bind_Ok_l. simpl. by destruct m.
Qed.

Lemma mapM_decode {A} (w : A -> res json) (f : json -> res A) l k :
  mapM w l = Ok k -> Forall (fun a => forall v, w a = Ok v -> f v = Ok a) l -> mapM f k = Ok l.
Proof.
  rewrite !mapM_Ok. intros Hk Hl.
  induction Hk as [|a v l k Hv _ IH]; inversion Hl; subst; constructor; auto.
Qed.

Lemma document_inverse s ledger srcs :
  valid_state s -> Forall in_range (state_times s) ->
  mapM _ledger_value (st_ledger s) = Ok ledger -> mapM _source_value (st_sources s) = Ok srcs ->
  decode_document (JObj [(lit "schemaVersion", JInt STATE_SCHEMA_VERSION);
            (lit "watches", JList (watch_value <$> st_watches s));
            (lit "ledger", JList ledger);
            (lit "sources", JList srcs)]) = Ok s.
Proof.
  intros Hv [Hl Hm]%Forall_app Hledger Hsrcs. unfold decode_document.
  doc_fields ltac:(progress cbn [_integer]). version_branch.
  unfold _parse_v2, _parse. doc_fields ltac:(progress cbn [_array]).
  rewrite mapM_inverse.
  2:{ destruct Hv. eapply Forall_impl; [eassumption|]. apply watch_inverse. }
  doc_fields ltac:(progress cbn [_array]). erewrite mapM_decode; [|exact Hledger|].
  2:{ apply Forall_bind_iff in Hl. eapply Forall_impl; [exact Hl|]. intros. by apply ledger_inverse. }
  doc_fields ltac:(progress cbn [_array]). erewrite mapM_decode; [|exact Hsrcs|].
  2:{ destruct Hv. apply Forall_bind_iff in Hm. eapply Forall_impl; [apply Forall_and; split; [exact Hm | exact vt_counts0]|].
      intros m [? ?] v ?. by apply metadata_inverse. }
  rewrite bind_Ok_l. unfold _validated_state. destruct s. simpl in *.
  by apply validate_state_spec in Hv as ->.
Qed.

Lemma with_ledger_times s l :
  l ⊆+ st_ledger s -> Forall in_range (state_times s) -> Forall in_range (state_times (with_ledger s l)).
Proof.
  unfold state_times. simpl. intros Hl. rewrite !Forall_app, !Forall_bind_iff. intros [H ?].
  apply submseteq_Permutation in Hl as [r Hr]. rewrite Hr in H. apply Forall_app in H. tauto.
Qed.

(** ** Documents up to the order of keys *)

Lemma array_jeq v w path : jeq v w -> outcome_rel (Forall2 jeq) (_array v path) (_array w path).
Proof. intros []; simpl; by constructor. Qed.

Lemma integer_jeq v w path : jeq v w -> _integer v path = _integer w path.
Proof. by intros []. Qed.

Lemma notification_status_jeq v w : jeq v w -> _notification_status v = _notification_status w.
Proof. intros H. unfold _notification_status. by rewrite (string_jeq v w). Qed.

Lemma source_name_jeq v w : jeq v w -> _source_name v = _source_name w.
Proof. intros H. unfold _source_name. by rewrite (string_jeq v w). Qed.

Lemma timestamp_jeq v w path : jeq v w -> _timestamp v path = _timestamp w path.
Proof. intros H. unfold _timestamp. by rewrite (string_jeq v w). Qed.

Lemma optional_timestamp_jeq v w path : jeq v w -> _optional_timestamp v path = _optional_timestamp w path.
Proof. intros H. unfold _optional_timestamp. destruct H; try done. Qed.

Lemma optional_ledger_jeq {A} (read : json -> str -> res (option A)) d e name :
  (forall v w p, jeq v w -> read v p = read w p) -> dict_eq d e ->
  _optional_ledger read d name = _optional_ledger read e name.
Proof. intros Hr H. unfold _optional_ledger. specialize (H name). inversion H; auto. Qed.

Lemma ledger_string_jeq d e name : dict_eq d e -> _optional_ledger_string d name = _optional_ledger_string e name.
Proof. apply optional_ledger_jeq. intros. by apply optional_string_jeq. Qed.

Lemma ledger_timestamp_jeq d e name :
  dict_eq d e -> _optional_ledger_timestamp d name = _optional_ledger_timestamp e name.
Proof. apply optional_ledger_jeq. intros. by apply optional_timestamp_jeq. Qed.

Lemma failure_count_jeq d e : dict_eq d e -> _source_failure_count d = _source_failure_count e.
Proof.
  intros H. unfold _source_failure_count, _nonnegative_integer. specialize (H (lit "failureCount")).
  inversion H; [|done]. by erewrite integer_jeq.
Qed.

Lemma permanent_failure_jeq d e : dict_eq d e -> _source_permanent_failure d = _source_permanent_failure e.
Proof.
  intros H. unfold _source_permanent_failure. specialize (H (lit "permanentFailure")).
  inversion H; [|done]. by apply boolean_jeq.
Qed.

#[local] Hint Resolve integer_jeq notification_status_jeq source_name_jeq timestamp_jeq
  optional_timestamp_jeq ledger_string_jeq ledger_timestamp_jeq failure_count_jeq
  permanent_failure_jeq : doc_jeq.

Lemma parse_ledger_jeq v w : jeq v w -> _parse_ledger v = _parse_ledger w.
Proof. unfold _parse_ledger. doc_proper. Qed.

Lemma parse_source_jeq v w : jeq v w -> _parse_source v = _parse_source w.
Proof. unfold _parse_source. doc_proper. Qed.

(** One array of records of the document. *)
Ltac array_step :=
  eapply bind_rel; [by apply array_jeq | intros ? ? ?];
  eapply bind_rel; [apply outcome_rel_eq; eapply mapM_rel; [eassumption|] | intros ? ? <-].

Lemma parse_jeq d e p :
  (forall v w, jeq v w -> p v = p w) -> dict_eq d e -> _parse d p = _parse e p.
Proof.
  intros Hp H. unfold _parse. doc_proper. array_step; [done|]. doc_proper. array_step; [apply parse_ledger_jeq|].
  doc_proper. array_step; [apply parse_source_jeq | done].
Qed.

Lemma migrate_v0_jeq d e : dict_eq d e -> _migrate_v0 d = _migrate_v0 e.
Proof. intros H. unfold _migrate_v0. doc_proper. array_step; [apply v0_watch_jeq | done]. Qed.

#[global] Instance decode_document_proper : Proper (jeq ==> (=)) decode_document.
Proof.
  intros v w H. unfold decode_document. doc_proper.
  repeat case_match; try done; auto using migrate_v0_jeq.
  - apply parse_jeq; auto using v1_watch_jeq.
  - apply parse_jeq; auto using watch_jeq.
Qed.
End RoundTrip.

(** ** Properties *)

Definition state_error (e : exn) : Prop :=
  (exists reason, e = StateCorruptError reason)
  \/ (exists version, e = StateSchemaIncompatible version /\ STATE_SCHEMA_VERSION < version).

Section StateErrors.
Context `{Iso : IsoDialect}.

Lemma corrupt_error reason : state_error (StateCorruptError reason).
Proof. left. eauto. Qed.
#[local] Hint Resolve corrupt_error : raises.

Ltac corrupt_only := unfold corrupt, corrupt_if; solve_raises.

Lemma _field_raises d n : raises state_error (_field d n).
Proof. unfold _field. corrupt_only. Qed.
Lemma _object_raises v p : raises state_error (_object v p).
Proof. unfold _object. corrupt_only. Qed.
Lemma _string_raises v p : raises state_error (_string v p).
Proof. unfold _string. corrupt_only. Qed.
Lemma _array_raises v p : raises state_error (_array v p).
Proof. unfold _array. corrupt_only. Qed.
Lemma _integer_raises v p : raises state_error (_integer v p).
Proof. unfold _integer. corrupt_only. Qed.
Lemma _boolean_raises v p : raises state_error (_boolean v p).
Proof. unfold _boolean. corrupt_only. Qed.
#[local] Hint Resolve _field_raises _object_raises _string_raises _array_raises _integer_raises
  _boolean_raises : raises.

Lemma _optional_string_raises v p : raises state_error (_optional_string v p).
Proof. unfold _optional_string. corrupt_only. Qed.
Lemma _watch_mode_raises v : raises state_error (_watch_mode v).
Proof. unfold _watch_mode. corrupt_only. Qed.
Lemma _cve_ids_raises v : raises state_error (_cve_ids v).
Proof. unfold _cve_ids. corrupt_only. Qed.
Lemma _timestamp_raises v p : raises state_error (_timestamp v p).
Proof. unfold _timestamp. corrupt_only. Qed.
#[local] Hint Resolve _optional_string_raises _watch_mode_raises _cve_ids_raises _timestamp_raises : raises.

Lemma _optional_timestamp_raises v p : raises state_error (_optional_timestamp v p).
Proof. unfold _optional_timestamp. corrupt_only. Qed.
Lemma _validate_condition_raises c : raises state_error (_validate_condition c).
Proof. unfold _validate_condition. corrupt_only. Qed.
#[local] Hint Resolve _optional_timestamp_raises _validate_condition_raises : raises.

Lemma _condition_raises v : raises state_error (_condition v).
Proof. unfold _condition, security_fix_condition. corrupt_only. Qed.
Lemma parse_watch_fields_raises d c : raises state_error (parse_watch_fields d c).
Proof. unfold parse_watch_fields. corrupt_only. Qed.
#[local] Hint Resolve _condition_raises parse_watch_fields_raises : raises.

Lemma parse_watch_raises v : raises state_error (parse_watch v).
Proof. unfold parse_watch. corrupt_only. Qed.
Lemma parse_v1_watch_raises v : raises state_error (parse_v1_watch v).
Proof. unfold parse_v1_watch. corrupt_only. Qed.
Lemma parse_v0_watch_raises v : raises state_error (parse_v0_watch v).
Proof. unfold parse_v0_watch. corrupt_only. Qed.
Lemma validate_watch_raises w : raises state_error (validate_watch w).
Proof. unfold validate_watch. corrupt_only. Qed.
#[local] Hint Resolve parse_watch_raises parse_v1_watch_raises parse_v0_watch_raises
  validate_watch_raises : raises.

Lemma validate_state_raises s : raises state_error (validate_state s).
Proof. unfold validate_state, _unique, validate_source, validate_lease. corrupt_only. Qed.
Lemma _parse_ledger_raises v : raises state_error (_parse_ledger v).
Proof.
  unfold _parse_ledger, _optional_ledger_string, _optional_ledger_timestamp, _optional_ledger, _notification_status.
  corrupt_only.
Qed.
Lemma _parse_source_raises v : raises state_error (_parse_source v).
Proof.
  unfold _parse_source, _source_name, _source_failure_count, _source_permanent_failure, _nonnegative_integer.
  corrupt_only.
Qed.
#[local] Hint Resolve validate_state_raises _parse_ledger_raises _parse_source_raises : raises.

Lemma _parse_raises d p : (forall v, raises state_error (p v)) -> raises state_error (_parse d p).
Proof. unfold _parse, _validated_state. corrupt_only. Qed.
#[local] Hint Resolve _parse_raises : raises.

Lemma decode_document_raises v : raises state_error (decode_document v).
Proof.
  unfold decode_document, _migrate_v0, _migrate_v1, _parse_v2, _validated_state.
  apply raises_bind; [corrupt_only|]. intros d _. apply raises_bind; [corrupt_only|]. intros x _.
  apply raises_bind; [corrupt_only|]. intros n _. destruct (Z.ltb_spec STATE_SCHEMA_VERSION n).
  - intros e [= <-]. right. eauto.
  - corrupt_only.
Qed.
End StateErrors.

Lemma format_timestamp_utc d : dt_utc d = true -> _format_timestamp d = Ok (JStr (timestamp_text d)).
Proof. unfold _format_timestamp. by intros ->. Qed.

Lemma mapM_exists {A B} (f : A -> res B) l :
  Forall (fun a => exists b, f a = Ok b) l -> exists k, mapM f l = Ok k.
Proof.
  induction 1 as [|a l [b Hb] _ [k IH]]; simpl; [eauto|]. rewrite Hb. simpl. rewrite IH. simpl. eauto.
Qed.

Lemma optional_value_utc o :
  all_utc (optional_list o) -> exists v, _optional_timestamp_value o = Ok v.
Proof.
  destruct o as [d|]; simpl; [|eauto]. rewrite Forall_cons. intros [Hu _].
  rewrite format_timestamp_utc by done. eauto.
Qed.

Lemma ledger_value_utc e : all_utc (entry_times e) -> exists v, _ledger_value e = Ok v.
Proof.
  unfold entry_times, _ledger_value. intros [Hr [v Hv]%optional_value_utc]%Forall_cons.
  rewrite format_timestamp_utc, Hv by done. simpl. eauto.
Qed.

Lemma source_value_utc m : all_utc (metadata_times m) -> exists v, _source_value m = Ok v.
Proof.
  unfold metadata_times, _source_value.
  intros [[v Hv]%optional_value_utc [w Hw]%optional_value_utc]%Forall_app. rewrite Hv, Hw. simpl. eauto.
Qed.

(** A state the helper may write at [now]. *)
Record storable (s : PersistentState) (now : datetime) : Prop := {
  so_valid : valid_state s;
  so_utc : all_utc (state_times s);
  so_range : Forall in_range (state_times s);
  so_now : dt_utc now = true;
  so_cutoff : in_range (cutoff_of now);
}.

Lemma storable_prune s now :
  storable s now -> prune_ledger s now = Ok (with_ledger s (pruned_ledger (cutoff_of now) (st_ledger s))).
Proof.
  intros []. apply prune_ledger_Ok. split; [done|]. split; [|done].
  apply Forall_app in so_utc0 as [H _]. apply Forall_bind_iff in H. eapply Forall_impl; [exact H|].
  intros e [He _]%Forall_cons _. by rewrite He.
Qed.

Lemma storable_pruned s now l : storable s now -> l ⊆+ st_ledger s -> storable (with_ledger s l) now.
Proof.
  intros [] Hl. constructor; auto using with_ledger_valid, with_ledger_times.
  unfold state_times in *. simpl. rewrite !Forall_app, !Forall_bind_iff in *. destruct so_utc0 as [H ?].
  apply submseteq_Permutation in Hl as [r Hr]. rewrite Hr in H. apply Forall_app in H. tauto.
Qed.

Lemma sample_state_valid : valid_state sample_state.
Proof. apply validate_state_spec. vm_compute. reflexivity. Qed.

Lemma sample_state_storable : storable sample_state sample_now.
Proof.
  constructor; [apply sample_state_valid | | | done | vm_compute; split; congruence];
    repeat first [constructor; [reflexivity|] | constructor; [vm_compute; split; congruence|] | constructor].
Qed.

(** Encoding a storable state succeeds; decoding the document, whatever the order of
    its keys, returns exactly the pruned state; and the pruned state encodes to the same
    document, so that load and store reach a fixed point. *)
Lemma document_roundtrip `{Iso : IsoDialect} s now :
  storable s now ->
  exists v s', encode_document s now = Ok v /\ prune_ledger s now = Ok s'
    /\ (forall w, jeq v w -> decode_document w = Ok s')
    /\ encode_document s' now = Ok v.
Proof.
  intros Hs. pose proof (storable_prune s now Hs) as Hp.
  pose proof (storable_pruned s now _ Hs (pruned_submseteq (cutoff_of now) (st_ledger s))) as Hs'.
  set (s' := with_ledger s _) in *.
  pose proof (storable_prune s' now Hs') as Hp'. cbn [st_ledger s' with_ledger] in Hp'.
  rewrite pruned_idempotent in Hp'. fold s' in Hp'.
  destruct (mapM_exists _ledger_value (st_ledger s')) as [es Hes].
  { destruct Hs' as [_ [H _]%Forall_app _ _ _]. apply Forall_bind_iff in H.
    eapply Forall_impl; [exact H|]. apply ledger_value_utc. }
  destruct (mapM_exists _source_value (st_sources s')) as [ms Hms].
  { destruct Hs' as [_ [_ H]%Forall_app _ _ _]. apply Forall_bind_iff in H.
    eapply Forall_impl; [exact H|]. apply source_value_utc. }
  pose proof (document_inverse s' es ms (so_valid _ _ Hs') (so_range _ _ Hs') Hes Hms) as Hd.
  eexists _, s'. split; [|split; [exact Hp|split]].
  - unfold encode_document. rewrite (proj2 (validate_state_spec s) (so_valid _ _ Hs)), bind_Ok_l, Hp, bind_Ok_l.
    rewrite Hes, bind_Ok_l, Hms, bind_Ok_l. reflexivity.
  - intros w Hw. rewrite <-(decode_document_proper _ _ Hw). exact Hd.
  - unfold encode_document. rewrite (proj2 (validate_state_spec s') (so_valid _ _ Hs')), bind_Ok_l.
    assert (prune_ledger s' now = Ok s') as -> by exact Hp'. by rewrite bind_Ok_l, Hes, bind_Ok_l, Hms.
Qed.

(** Whatever was encoded decodes to the pruned state, which encodes the same at any time
    at which it is pruned to itself. *)
Lemma encoded_document `{Iso : IsoDialect} s now v :
  encode_document s now = Ok v -> Forall in_range (state_times s) ->
  exists s', prune_ledger s now = Ok s' /\ (forall w, jeq v w -> decode_document w = Ok s')
    /\ encode_document s' now = Ok v.
Proof.
  unfold encode_document. intros H Hr. apply bind_Ok in H as ([] & Hv%validate_state_spec & H).
  apply bind_Ok in H as (s' & Hp & H). apply bind_Ok in H as (es & Hes & H). apply bind_Ok in H as (ms & Hms & [= <-]).
  exists s'. split; [done|]. pose proof (prune_again s now s' Hp) as Hp'.
  apply prune_ledger_Ok in Hp as (_ & _ & ->).
  pose proof (pruned_submseteq (cutoff_of now) (st_ledger s)) as Hsub.
  pose proof (with_ledger_valid s _ Hv Hsub) as Hv'. split.
  - intros w Hw. rewrite <-(decode_document_proper _ _ Hw).
    by apply document_inverse; [|apply with_ledger_times| |].
  - rewrite (proj2 (validate_state_spec _) Hv'), bind_Ok_l, Hp', bind_Ok_l, Hes, bind_Ok_l, Hms. done.
Qed.

(** Pruning keeps every pending entry, the watches and the sources; of the others it
    keeps at most 5000, none older than 180 days; a dropped entry is expired or older
    than 5000 entries that stay; and pruning again changes nothing. *)
Theorem prune_ledger_retention s now s' :
  prune_ledger s now = Ok s' ->
  st_watches s' = st_watches s /\ st_sources s' = st_sources s
  /\ List.filter is_active (st_ledger s') = List.filter is_active (st_ledger s)
  /\ st_ledger s' ⊆+ st_ledger s
  /\ (let inactive := List.filter (fun e => negb (is_active e)) (st_ledger s') in
      len inactive <= 5000
      /\ Forall (fun e => dt_us now - days 180 <= dt_us (e_recorded_at e)) inactive
      /\ forall e, e ∈ st_ledger s -> e ∉ st_ledger s' ->
           is_active e = false
           /\ (dt_us (e_recorded_at e) < dt_us now - days 180
               \/ len inactive = 5000
                  /\ Forall (fun k => dt_us (e_recorded_at e) <= dt_us (e_recorded_at k)) inactive))
  /\ prune_ledger s' now = Ok s'.
Proof.
  intros (Hr & Hc & ->)%prune_ledger_Ok. set (cutoff := cutoff_of now) in *.
  set (l := st_ledger s) in *. cbn [st_watches st_sources st_ledger with_ledger].
  assert (List.filter (fun e => negb (is_active e)) (pruned_ledger cutoff l) = kept cutoff l) as Hi.
  { unfold pruned_ledger. rewrite List.filter_app, (filter_none _ (List.filter _ l)), (filter_all _ (take _ _)); [done| |].
    - eapply Forall_impl; [apply kept_recent|]. intros e. unfold recent. by destruct (is_active e).
    - eapply Forall_impl; [apply Forall_filter_true|]. cbv beta. by intros e ->. }
  rewrite Hi. split_and!; try done.
  - apply pruned_active.
  - apply pruned_submseteq.
  - unfold kept, len. rewrite length_take. change 5000 with (Z.of_nat MAX_INACTIVE_LEDGER_ENTRIES). lia.
  - eapply Forall_impl; [apply kept_recent|]. intros e. unfold recent.
    rewrite andb_true_iff, Z.geb_le. intros [_ H]. exact H.
  - intros e He Hn. destruct (dropped_entry cutoff l e He Hn) as [Ha [Ht|[Hl Hk]]]; (split; [done|]).
    + left. exact Ht.
    + right. split; [unfold len; by rewrite Hl|]. eapply Forall_impl; [exact Hk|].
      intros k. apply entry_leb_time.
  - apply (prune_again s). by apply prune_ledger_Ok.
Qed.

Lemma decode_document_valid `{Iso : IsoDialect} v s : decode_document v = Ok s -> valid_state s.
Proof.
  unfold decode_document, _migrate_v0, _migrate_v1, _parse_v2, _parse, _validated_state, corrupt. intros H.
  apply bind_Ok in H as (? & _ & H). apply bind_Ok in H as (? & _ & H). apply bind_Ok in H as (? & _ & H).
  repeat match type of H with (if ?b then _ else _) = _ => destruct b end; inv_ok; by apply validate_state_spec.
Qed.

(** Decoding either returns a state in which every invariant of the store holds, or
    raises [StateCorruptError] or, only for a version newer than 2,
    [StateSchemaIncompatible]: no other exception leaves it. *)
Lemma decode_document_cases `{Iso : IsoDialect} v :
  match decode_document v with
  | Ok s => valid_state s
  | Err (StateCorruptError _) => True
  | Err (StateSchemaIncompatible n) => 2 < n
  | Err _ => False
  end.
Proof.
  destruct (decode_document v) as [s|e] eqn:E; [by eapply decode_document_valid|].
  destruct (decode_document_raises v e E) as [[r ->]|(n & -> & Hn)]; done.
Qed.

(** ** Older schemas *)

Definition v1_watch_value (w : WatchRecord) : json :=
  JObj [(lit "itemId", JStr (w_item_id w));
        (lit "mode", JEnum (w_mode w));
        (lit "installedFingerprint", JOpt JStr (w_installed_fingerprint w));
        (lit "candidateFingerprint", JOpt JStr (w_candidate_fingerprint w));
        (lit "armed", JBool (w_armed w))].

Definition v1_document (s : PersistentState) (ledger srcs : list json) : json :=
  JObj [(lit "schemaVersion", JInt 1);
        (lit "watches", JList (v1_watch_value <$> st_watches s));
        (lit "ledger", JList ledger);
        (lit "sources", JList srcs)].

Definition v0_document (watches : list (str * WatchMode)) : json :=
  JObj [(lit "schemaVersion", JInt 0);
        (lit "watches", JList ((fun w => JObj [(lit "itemId", JStr w.1); (lit "mode", JEnum w.2)]) <$> watches))].

Definition permanent_watch (id : str) : WatchRecord := Build_WatchRecord id PERMANENT None None false None.

Lemma v1_watch_inverse w : w_condition w = None -> parse_v1_watch (v1_watch_value w) = Ok w.
Proof.
  intros Hc. unfold parse_v1_watch, v1_watch_value, parse_watch_fields.
  doc_fields ltac:(first [rewrite watch_mode_JEnum | rewrite doc_optional_string]). rewrite <-Hc. by destruct w.
Qed.

Lemma v1_inverse `{Iso : IsoDialect} s ledger srcs :
  valid_state s -> Forall in_range (state_times s) ->
  Forall (fun w => w_condition w = None) (st_watches s) ->
  mapM _ledger_value (st_ledger s) = Ok ledger -> mapM _source_value (st_sources s) = Ok srcs ->
  decode_document (v1_document s ledger srcs) = Ok s.
Proof.
  intros Hv [Hl Hm]%Forall_app Hw Hledger Hsrcs. unfold decode_document, v1_document.
  doc_fields ltac:(progress cbn [_integer]). version_branch.
  unfold _migrate_v1, _parse. doc_fields ltac:(progress cbn [_array]).
  rewrite mapM_inverse by (eapply Forall_impl; [exact Hw|]; apply v1_watch_inverse).
  doc_fields ltac:(progress cbn [_array]). erewrite mapM_decode; [|exact Hledger|].
  2:{ apply Forall_bind_iff in Hl. eapply Forall_impl; [exact Hl|]. intros. by apply ledger_inverse. }
  doc_fields ltac:(progress cbn [_array]). erewrite mapM_decode; [|exact Hsrcs|].
  2:{ destruct Hv. apply Forall_bind_iff in Hm. eapply Forall_impl; [apply Forall_and; split; [exact Hm | exact vt_counts0]|].
      intros m [? ?] v ?. by apply metadata_inverse. }
  rewrite bind_Ok_l. unfold _validated_state. destruct s. simpl in *.
  by apply validate_state_spec in Hv as ->.
Qed.

Lemma v0_watches_inverse l :
  Forall (fun w : str * WatchMode => w.2 <> OFF) l ->
  mapM parse_v0_watch ((fun w => JObj [(lit "itemId", JStr w.1); (lit "mode", JEnum w.2)]) <$> l)
  = Ok ((fun w => permanent_watch w.1) <$> l).
Proof.
  intros H. rewrite mapM_map. apply mapM_ret. intros [id m] Hi. rewrite Forall_forall in H.
  specialize (H _ Hi). unfold parse_v0_watch. doc_fields ltac:(rewrite watch_mode_JEnum). by destruct m.
Qed.

(** A version 1 document reads back as the state it was written from, its watches
    unconditional; a version 0 document makes every watch permanent and starts with an
    empty ledger; a document of a newer version is refused whatever else it holds. *)
Theorem state_migration `{Iso : IsoDialect} :
  (forall s now ledger srcs, storable s now ->
    Forall (fun w => w_condition w = None) (st_watches s) ->
    mapM _ledger_value (st_ledger s) = Ok ledger -> mapM _source_value (st_sources s) = Ok srcs ->
    decode_document (v1_document s ledger srcs) = Ok s)
  /\ (forall watches : list (str * WatchMode), Forall (fun w : str * WatchMode => w.2 <> OFF) watches -> NoDup watches.*1 ->
      decode_document (v0_document watches)
      = Ok {| st_watches := (fun w => permanent_watch w.1) <$> watches; st_ledger := []; st_sources := [] |})
  /\ (forall d n, dict_get d (lit "schemaVersion") = Some (JInt n) -> 2 < n ->
      decode_document (JObj d) = Err (StateSchemaIncompatible n)).
Proof.
  split_and!.
  - intros s now ledger srcs [] Hw He Hm. by apply v1_inverse.
  - intros l Hoff Hnd. unfold decode_document, v0_document. doc_fields ltac:(progress cbn [_integer]).
    version_branch. unfold _migrate_v0. doc_fields ltac:(progress cbn [_array]).
    rewrite v0_watches_inverse, bind_Ok_l by done. unfold _validated_state.
    rewrite (proj2 (validate_state_spec _)); [done|]. constructor; simpl; try constructor.
    + rewrite <-list_fmap_compose. exact Hnd.
    + apply Forall_fmap, Forall_true. intros. constructor.
  - intros d n Hn Hlt. unfold decode_document. cbn [_object]. rewrite bind_Ok_l. unfold _field at 1. rewrite Hn.
    rewrite bind_Ok_l. cbn [_integer]. rewrite bind_Ok_l. unfold STATE_SCHEMA_VERSION.
    destruct (Z.ltb_spec 2 n); [done | lia].
Qed.

(** A timestamp without a time of day, such as "2024-01-01Z", is read as a naive
    datetime: the document decodes, and pruning its ledger, which every load does next,
    raises the [TypeError] of comparing it with the aware cut-off. *)
Theorem naive_timestamp_decodes `{Iso : IsoDialect} :
  exists v s, decode_document v = Ok s
  /\ forall us, in_range (cutoff_of (Datetime us true)) -> prune_ledger s (Datetime us true) = Err TypeError.
Proof.
  set (e := JObj [(lit "fingerprint", JStr (lit "f")); (lit "status", JStr (lit "delivered"));
                  (lit "recordedAt", JStr (lit "2024-01-01Z"))]).
  exists (JObj [(lit "schemaVersion", JInt 2); (lit "watches", JList []);
                (lit "ledger", JList [e]); (lit "sources", JList [])]).
  eexists. split; [vm_compute; reflexivity|]. intros us Hr. unfold prune_ledger.
  rewrite (proj2 (dt_plus_Ok _ _ _) (conj eq_refl Hr)), bind_Ok_l. reflexivity.
Qed.

(** ** Witnesses *)

(** 180 days and a second later the delivered entry is gone and the pending one stays. *)
Lemma prune_ledger_retention_witness :
  let later := dt_add sample_now (days 180 + seconds 1) in
  exists s', prune_ledger sample_state later = Ok s' /\ st_ledger s' = [sample_leased]
    /\ prune_ledger s' later = Ok s'.
Proof.
  intros later. exists (with_ledger sample_state [sample_leased]).
  assert (prune_ledger sample_state later = Ok (with_ledger sample_state [sample_leased])) as Hp
    by (vm_compute; reflexivity).
  split; [exact Hp|]. split; [reflexivity|]. apply (prune_ledger_retention _ _ _ Hp).
Defined.
