(* ===== verification/StateFile.v ===== *)
(** * The state file

    [encode_state] and [decode_state] of [storage_state.py]: the state document as a line
    of JSON in UTF-8, and back. *)

From S2P Require Import Prelude PyStr Calendar Models Samples Json JsonText Utf8 Wire Protocol StorageWatches.
From S2P Require Import StorageState.

Open Scope Z_scope.

Definition encode_state (s : PersistentState) (now : datetime) : res bytes :=
  v ← encode_document s now; dump_line v.

Definition decode_state `{Iso : IsoDialect} (stack : nat) (raw : bytes) : res PersistentState :=
  match Utf8.decode raw with
  | Err _ => corrupt (lit "state is not UTF-8")
  | Ok text => v ← decode_json stack text; decode_document v
  end.

(** ** The document is shallow *)

#[local] Hint Resolve shallow_strings shallow_str_opt : shallow.
#[local] Hint Extern 1 (_ <= _)%Z => lia : shallow.

Lemma shallow_condition c : shallow 2 (_condition_value c).
Proof.
  destruct c as [c|]; [|by apply shallow_scalar]. unfold _condition_value. shallow_object 1.
Qed.

Lemma shallow_watch w : shallow 3 (watch_value w).
Proof. unfold watch_value. shallow_object 2. apply shallow_condition. Qed.

Lemma shallow_format d v : _format_timestamp d = Ok v -> shallow 0 v.
Proof. unfold _format_timestamp, corrupt. destruct (dt_utc d); [|done]. intros [= <-]. by apply shallow_scalar. Qed.

Lemma shallow_optional_timestamp d v : _optional_timestamp_value d = Ok v -> shallow 0 v.
Proof. destruct d; simpl; [apply shallow_format | intros [= <-]; by apply shallow_scalar]. Qed.

#[local] Hint Resolve shallow_format shallow_optional_timestamp : shallow.

Lemma shallow_ledger e v : _ledger_value e = Ok v -> shallow 1 v.
Proof. unfold _ledger_value. intros H. inv_ok. shallow_object 0. Qed.

Lemma shallow_metadata m v : _source_value m = Ok v -> shallow 1 v.
Proof. unfold _source_value. intros H. inv_ok. shallow_object 0. Qed.

Lemma shallow_document s now v : encode_document s now = Ok v -> shallow 5 v.
Proof.
  unfold encode_document. intros H. inv_ok. shallow_object 4.
  - apply (shallow_map watch_value 3); [apply shallow_watch | lia].
  - eapply (shallow_mapM _ledger_value 1); [apply shallow_ledger | lia | done].
  - eapply (shallow_mapM _source_value 1); [apply shallow_metadata | lia | done].
Qed.

Lemma state_bytes_inverse `{Iso : IsoDialect} stack s now raw :
  encode_state s now = Ok raw -> Forall in_range (state_times s) -> MAX_JSON_DEPTH < Z.of_nat stack ->
  exists s', prune_ledger s now = Ok s' /\ decode_state stack raw = Ok s' /\ encode_state s' now = Ok raw.
Proof.
  unfold encode_state. intros (v & Hv & H)%bind_Ok Hr Hst.
  destruct (encoded_document s now v Hv Hr) as (s' & Hp & Hd & He). exists s'. rewrite He.
  split; [done|]. split; [|done].
  destruct (dump_line_inverse stack v raw 5 (shallow_document s now v Hv)) as (text & Hu & Hj & Hq); [|done|].
  { unfold MAX_JSON_DEPTH in *. lia. }
  unfold decode_state. rewrite Hu, Hj. cbn [mbind outcome_bind]. by apply Hd.
Qed.

(** The state pruned at one time can still be written at another at which it could be. *)
Lemma encode_pruned s now gen raw raw' s' :
  encode_state s now = Ok raw -> encode_state s gen = Ok raw' -> prune_ledger s now = Ok s' ->
  exists raw'', encode_state s' gen = Ok raw''.
Proof.
  unfold encode_state, encode_document. intros H Hg Hp. rewrite Hp in H.
  apply bind_Ok in H as (v & H & Hdump). apply bind_Ok in H as ([] & Hv%validate_state_spec & H).
  apply bind_Ok in H as (? & <-%Ok_inj & H). apply bind_Ok in H as (es & Hes & H).
  apply bind_Ok in H as (ms & Hms & <-%Ok_inj).
  assert (written (JList es)) as Hw.
  { assert (written (JObj [(lit "schemaVersion", JInt STATE_SCHEMA_VERSION);
            (lit "watches", JList (watch_value <$> st_watches s')); (lit "ledger", JList es);
            (lit "sources", JList ms)])) as Hw by (apply dump_line_returns; eauto).
    rewrite written_object, !Forall_cons in Hw. apply Hw. }
  pose proof Hp as (_ & _ & ->)%prune_ledger_Ok.
  apply bind_Ok in Hg as (w & Hg & _). apply bind_Ok in Hg as ([] & _ & Hg). apply bind_Ok in Hg as (sg & Hpg & _).
  apply prune_ledger_Ok in Hpg as (Hrg & Hcg & ->).
  pose proof (pruned_submseteq (cutoff_of now) (st_ledger s)) as Hsub.
  pose proof (with_ledger_valid s _ Hv Hsub) as Hv'. set (s1 := with_ledger s _) in *.
  assert (prune_ledger s1 gen = Ok (with_ledger s1 (pruned_ledger (cutoff_of gen) (st_ledger s1)))) as Hpg.
  { apply prune_ledger_Ok. split_and!; [done | | done]. cbn [s1 st_ledger with_ledger].
    apply submseteq_Permutation in Hsub as [r Hx]. rewrite Hx in Hcg. by apply Forall_app in Hcg as [? _]. }
  pose proof (pruned_submseteq (cutoff_of gen) (st_ledger s1)) as Hsub'.
  destruct (mapM_incl _ _ _ (pruned_ledger (cutoff_of gen) (st_ledger s1)) Hes) as (es' & Hes' & Hin).
  { intros x Hx. by eapply elem_of_submseteq. }
  rewrite (proj2 (validate_state_spec s1) Hv'). cbn [mbind outcome_bind]. rewrite Hpg. cbn [mbind outcome_bind].
  cbn [st_ledger with_ledger st_sources st_watches]. rewrite Hes'. cbn [mbind outcome_bind].
  change (st_sources s1) with (st_sources s). change (st_sources s1) with (st_sources s) in Hms. rewrite Hms.
  cbn [mbind outcome_bind]. apply dump_line_returns.
  assert (written (JObj [(lit "schemaVersion", JInt STATE_SCHEMA_VERSION);
            (lit "watches", JList (watch_value <$> st_watches s1)); (lit "ledger", JList es);
            (lit "sources", JList ms)])) as Hwo by (apply dump_line_returns; eauto).
  rewrite written_object, !Forall_cons in Hwo |- *. destruct Hwo as (H1 & H2 & [H3 _] & H4 & H5).
  refine (conj H1 (conj H2 (conj (conj H3 _) (conj H4 H5)))). cbn [fst snd]. rewrite written_list, Forall_forall in Hw |- *. auto.
Qed.

(** C7. The state file read back is the state written, pruned; and writing that again
    gives the same bytes, so that loading and storing reach a fixed point. *)
Theorem state_file_roundtrip `{Iso : IsoDialect} stack s now raw :
  encode_state s now = Ok raw -> Forall in_range (state_times s) -> MAX_JSON_DEPTH < Z.of_nat stack ->
  exists s', prune_ledger s now = Ok s' /\ decode_state stack raw = Ok s' /\ encode_state s' now = Ok raw.
Proof. apply state_bytes_inverse. Qed.

Lemma decode_state_cases `{Iso : IsoDialect} stack raw :
  match decode_state stack raw with
  | Ok s => valid_state s
  | Err (StateCorruptError _) => True
  | Err (ProtocolError info) => code info = MALFORMED_JSON
  | Err (StateSchemaIncompatible n) => 2 < n
  | Err e => e = ValueError
  end.
Proof.
  unfold decode_state. destruct (Utf8.decode raw) as [text|]; [|done].
  destruct (decode_json stack text) as [v|e] eqn:E; cbn [mbind outcome_bind].
  - pose proof (decode_document_cases v) as H. destruct (decode_document v) as [s|[]]; done.
  - pose proof (decode_json_raises stack text e E) as H. by destruct e.
Qed.

Lemma decode_state_valid `{Iso : IsoDialect} stack raw s : decode_state stack raw = Ok s -> valid_state s.
Proof. intros H. pose proof (decode_state_cases stack raw) as Hc. by rewrite H in Hc. Qed.

(** Whatever the state file holds, decoding it gives a state in which every invariant of
    the store holds, or says that it is corrupt (no UTF-8, no JSON, no state), or of a
    newer schema; only an integer too long to convert raises something else. *)
Theorem decode_state_safe `{Iso : IsoDialect} stack raw :
  match decode_state stack raw with
  | Ok s => valid_state s
  | Err (StateCorruptError _) => True
  | Err (ProtocolError info) => code info = MALFORMED_JSON
  | Err (StateSchemaIncompatible n) => 2 < n
  | Err e => e = ValueError
  end.
Proof. apply decode_state_cases. Qed.

Lemma state_file_roundtrip_witness :
  exists raw s', encode_state sample_state sample_now = Ok raw /\ prune_ledger sample_state sample_now = Ok s'
    /\ decode_state (Iso:=fun _ => None) 101 raw = Ok s' /\ encode_state s' sample_now = Ok raw.
Proof.
  destruct (encode_state sample_state sample_now) as [raw|e] eqn:E; [|vm_compute in E; discriminate E].
  destruct (state_file_roundtrip (Iso:=fun _ => None) 101 sample_state sample_now raw) as (s' & H1 & H2 & H3).
  - exact E.
  - apply sample_state_storable.
  - reflexivity.
  - exists raw, s'. split; [reflexivity|]. split; [exact H1|]. split; [exact H2 | exact H3].
Defined.
