(* ===== verification/StateStore.v ===== *)
(** * The store, as its clients see it

    What [Storage.update_state] promises: a class for the modules that update the state
    without knowing the files. [Storage] on disk is an instance (file DiskStore), and so is
    a process that keeps its state in memory. *)

From S2P Require Import Prelude PyStr Calendar Models Json Fields Validation StorageWatches StorageState.

Open Scope Z_scope.

(** An update that took place: the stored state was loaded (pruned at some reading of the
    clock), mutated to [p], and [p] stored (pruned at another). *)
Definition committed {X} (m : PersistentState -> res (PersistentState * X)) (before p : PersistentState) (x : X)
    (after : PersistentState) : Prop :=
  exists c1 c2 loaded, prune_ledger before c1 = Ok loaded /\ m loaded = Ok (p, x) /\ prune_ledger p c2 = Ok after.

(** The mutation makes no timestamp outside the years of Python's [datetime]. *)
Definition keeps_range {X} (m : PersistentState -> res (PersistentState * X)) : Prop :=
  forall s p x, Forall in_range (state_times s) -> m s = Ok (p, x) -> Forall in_range (state_times p).

(** An update either returns and took place, or raises; then it took place or did not. *)
Class StateStore (Store : Type) := {
  stored : Store -> PersistentState;
  sound_store : Store -> Prop;
  update_state {X} : (PersistentState -> res (PersistentState * X)) -> Store -> Store * res (PersistentState * X);
  update_state_law {X} (m : PersistentState -> res (PersistentState * X)) s :
    sound_store s -> keeps_range m ->
    let '(s', r) := update_state m s in
    sound_store s'
    /\ match r with
       | Ok (p, x) => committed m (stored s) p x (stored s')
       | Err _ => stored s' = stored s \/ exists p x, committed m (stored s) p x (stored s')
       end;
}.

Lemma pruned_times s c s' :
  prune_ledger s c = Ok s' -> Forall in_range (state_times s) -> Forall in_range (state_times s').
Proof. intros (_ & _ & ->)%prune_ledger_Ok. apply with_ledger_times, pruned_submseteq. Qed.

Lemma committed_times {X} (m : PersistentState -> res (PersistentState * X)) s p x s' :
  keeps_range m -> Forall in_range (state_times s) -> committed m s p x s' -> Forall in_range (state_times s').
Proof.
  intros Hm Hs (c1 & c2 & loaded & H1 & H & H2). eapply pruned_times; [exact H2|].
  eapply Hm; [|exact H]. by eapply pruned_times.
Qed.

(** The store of one process that keeps its state in memory and never fails half way: the
    least a [StateStore] is. Its clock stands still. *)
Definition memory_update (c : datetime) {X} (m : PersistentState -> res (PersistentState * X)) (s : PersistentState)
    : PersistentState * res (PersistentState * X) :=
  match (loaded ← prune_ledger s c; r ← m loaded; s' ← prune_ledger r.1 c; Ok (s', r)) with
  | Ok (s', r) => (s', Ok r)
  | Err e => (s, Err e)
  end.

Program Definition memory_store (c : datetime) : StateStore PersistentState := {|
  stored s := s;
  sound_store s := Forall in_range (state_times s);
  update_state X m s := memory_update c m s;
|}.
Next Obligation.
  intros c X m s Hs Hm. unfold memory_update.
  destruct (loaded ← prune_ledger s c; r ← m loaded; s' ← prune_ledger r.1 c; Ok (s', r)) as [[s' [p x]]|e] eqn:E;
    [|by split; [|left]].
  apply bind_Ok in E as (loaded & H1 & E). apply bind_Ok in E as ([q y] & H & E).
  apply bind_Ok in E as (t & H2 & E).
  injection E as -> -> ->. assert (committed m s p x s') as Hc by (by exists c, c, loaded).
  split; [exact (committed_times m s p x s' Hm Hs Hc) | done].
Qed.
