(* ===== verification/CliRequests.v ===== *)
(** * Requests of the command line

    [cli_requests.py]: the arguments of the helper become a command with bounded fields,
    or a usage error. *)

From S2P Require Import Prelude PyStr Decimals Regex Models Validation StorageWatches.

Open Scope Z_scope.

Definition MAX_OFFSET : Z := 100000.
Definition MAX_QUERY_LENGTH : Z := 128.

Record ScanCommand := { force : bool; settings : NotificationSettings; enable_cisa_kev : bool }.
Record InventoryCommand := { ic_source : ItemSource; ic_query : str; ic_limit : Z; ic_offset : Z }.
Record SetStarCommand := {
  ss_item_id : str;
  ss_mode : WatchMode;
  ss_condition : option SecurityFixCondition;
}.

Inductive CliCommand :=
| CScan (c : ScanCommand)
| CSnapshot
| CInventory (c : InventoryCommand)
| CSetStar (c : SetStarCommand).

Definition usage {A} (msg : string) : res A := Err (CliUsageError (lit msg)).
Definition unsupported {A} : res A := usage "unsupported helper command or arguments".

(** A literal in a pattern. *)
Definition says (s : string) (argument : str) : bool := bool_decide (argument = lit s).

Definition _inventory_source (v : str) : res ItemSource :=
  match enum_of v with
  | None => usage "inventory source is unsupported"
  | Some source =>
      match source with
      | IS_ARCH | IS_AUR | IS_FLATPAK | IS_MISE => Ok source
      | IS_OMARCHY => usage "inventory source is unsupported"
      end
  end.

Definition _query (v : str) : res str :=
  if MAX_QUERY_LENGTH <? len v then usage "inventory query is invalid" else Ok v.

(** [isdecimal] is false of the empty string; of ASCII it accepts the ten digits. *)
Definition _decimal (v : str) (msg : string) : res Z :=
  if negb (isascii v) || negb (negb (bool_decide (v = [])) && forallb is_digit v) || (6 <? len v)
  then usage msg else Ok (digits_value v).

Definition _limit (v : str) : res Z :=
  parsed ← _decimal v "inventory pagination is invalid";
  if (parsed <? 1) || (100 <? parsed) then usage "inventory pagination is invalid" else Ok parsed.

Definition _offset (v : str) : res Z :=
  parsed ← _decimal v "inventory pagination is invalid";
  if MAX_OFFSET <? parsed then usage "inventory pagination is invalid" else Ok parsed.

Definition _item_id (v : str) : res str :=
  if bool_decide (v = []) || (128 <? len v) then usage "item ID is invalid" else Ok v.

Definition _watch_mode (v : str) : res WatchMode :=
  match enum_of v with Some mode => Ok mode | None => usage "watch mode is invalid" end.

Definition _boolean (v : str) : res bool :=
  if says "true" v then Ok true else if says "false" v then Ok false
  else usage "notification setting is invalid".

Definition _notification_severity (v : str) : res Severity :=
  if says "high" v then Ok SEV_HIGH else if says "critical" v then Ok SEV_CRITICAL
  else usage "notification severity is invalid".

Definition _notification_settings (permanent security minimum : str) : res NotificationSettings :=
  p ← _boolean permanent;
  s ← _boolean security;
  m ← _notification_severity minimum;
  Ok {| notify_permanent := p; notify_security := s; security_minimum_severity := m |}.

Definition _arch_item_id (v : str) : res str :=
  id ← _item_id v;
  if startswith id (lit "arch:") then Ok id
  else usage "conditional watch item ID must be canonical Arch".

Definition _security_condition (advisory cves fixed : str) : res SecurityFixCondition :=
  match security_fix_condition advisory (split cves (lit ",")) fixed with
  | Err (StateCorruptError _) => usage "conditional watch evidence is invalid"
  | r => r
  end.

Definition _scan_command (arguments : list str) : res CliCommand :=
  let force := bool_decide (take 1 (drop 1 arguments) = names ["--force"]) in
  match (if force then drop 2 arguments else drop 1 arguments) with
  | [] => Ok (CScan {| force := force; settings := default_notification_settings; enable_cisa_kev := true |})
  | [f1; permanent; f2; security; f3; minimum] =>
      if says "--notify-permanent" f1 && says "--notify-security" f2 && says "--security-minimum-severity" f3
      then
        s ← _notification_settings permanent security minimum;
        Ok (CScan {| force := force; settings := s; enable_cisa_kev := true |})
      else unsupported
  | [f1; permanent; f2; security; f3; minimum; f4; kev] =>
      if says "--notify-permanent" f1 && says "--notify-security" f2 && says "--security-minimum-severity" f3
         && says "--enable-cisa-kev" f4
      then
        s ← _notification_settings permanent security minimum;
        k ← _boolean kev;
        Ok (CScan {| force := force; settings := s; enable_cisa_kev := k |})
      else unsupported
  | _ => unsupported
  end.

Definition parse_command (arguments : list str) : res CliCommand :=
  if match arguments with a :: _ => says "scan" a | [] => false end then _scan_command arguments
  else
    match arguments with
    | [a] => if says "snapshot" a then Ok CSnapshot else unsupported
    | [a; f1; source; f2; query; f3; limit; f4; offset] =>
        if says "inventory" a && says "--source" f1 && says "--query" f2 && says "--limit" f3 && says "--offset" f4
        then
          s ← _inventory_source source;
          q ← _query query;
          l ← _limit limit;
          o ← _offset offset;
          Ok (CInventory {| ic_source := s; ic_query := q; ic_limit := l; ic_offset := o |})
        else unsupported
    | [a; f1; item; f2; mode] =>
        if says "set-star" a && says "--item-id" f1 && says "--mode" f2
        then
          i ← _item_id item;
          m ← _watch_mode mode;
          Ok (CSetStar {| ss_item_id := i; ss_mode := m; ss_condition := None |})
        else unsupported
    | [a; f1; item; f2; mode; f3; advisory; f4; fixed; f5; cves] =>
        if says "set-star" a && says "--item-id" f1 && says "--mode" f2 && says "temporary" mode
           && says "--security-advisory" f3 && says "--fixed-version" f4 && says "--cve-ids" f5
        then
          i ← _arch_item_id item;
          c ← _security_condition advisory cves fixed;
          Ok (CSetStar {| ss_item_id := i; ss_mode := TEMPORARY; ss_condition := Some c |})
        else unsupported
    | _ => unsupported
    end.

(** ** Commands the operations may rely on *)

Definition valid_settings (s : NotificationSettings) : Prop :=
  security_minimum_severity s = SEV_HIGH \/ security_minimum_severity s = SEV_CRITICAL.

Definition valid_command (c : CliCommand) : Prop :=
  match c with
  | CScan c => valid_settings (settings c)
  | CSnapshot => True
  | CInventory c =>
      ic_source c <> IS_OMARCHY /\ len (ic_query c) <= 128
      /\ 1 <= ic_limit c <= 100 /\ 0 <= ic_offset c <= 100000
  | CSetStar c =>
      1 <= len (ss_item_id c) <= 128
      /\ match ss_condition c with
         | None => True
         | Some e => ss_mode c = TEMPORARY /\ startswith (ss_item_id c) (lit "arch:") = true /\ valid_condition e
         end
  end.

(** The arguments that ask for a command. *)
Definition bool_text (b : bool) : str := lit (if b then "true" else "false").

Definition command_arguments (c : CliCommand) : list str :=
  match c with
  | CScan c =>
      [lit "scan"] ++ (if force c then [lit "--force"] else [])
      ++ [lit "--notify-permanent"; bool_text (notify_permanent (settings c));
          lit "--notify-security"; bool_text (notify_security (settings c));
          lit "--security-minimum-severity"; value (security_minimum_severity (settings c));
          lit "--enable-cisa-kev"; bool_text (enable_cisa_kev c)]
  | CSnapshot => [lit "snapshot"]
  | CInventory c =>
      [lit "inventory"; lit "--source"; value (ic_source c); lit "--query"; ic_query c;
       lit "--limit"; str_of_Z (ic_limit c); lit "--offset"; str_of_Z (ic_offset c)]
  | CSetStar c =>
      [lit "set-star"; lit "--item-id"; ss_item_id c; lit "--mode"; value (ss_mode c)]
      ++ match ss_condition c with
         | None => []
         | Some e => [lit "--security-advisory"; cond_advisory_id e; lit "--fixed-version";
                      cond_fixed_version e; lit "--cve-ids"; join (lit ",") (cond_cve_ids e)]
         end
  end.

(** ** Every field is read within its bounds *)

Definition usage_error (e : exn) : Prop := exists msg, e = CliUsageError msg.

Lemma usage_raises {A} msg : raises usage_error (usage msg : res A).
Proof. intros e [= <-]. by eexists. Qed.
#[local] Hint Resolve usage_raises : raises.

Lemma says_spec s a : says s a = true <-> a = lit s.
Proof. apply bool_decide_eq_true. Qed.

Lemma bool_text_inverse b : _boolean (bool_text b) = Ok b.
Proof. by destruct b. Qed.

Lemma digits_fold_nonneg v acc :
  0 <= acc -> forallb is_digit v = true -> 0 <= fold_left (fun a c => a * 10 + (Z.of_N c - 48)) v acc.
Proof.
  revert acc. induction v as [|c v IH]; intros acc Ha; simpl; [done|].
  intros [Hc Hv]%andb_true_iff. apply IH; [|done]. unfold is_digit in Hc.
  apply andb_true_iff in Hc as [Hc%N.leb_le _]. lia.
Qed.

Lemma digits_nonneg v : forallb is_digit v = true -> 0 <= digits_value v.
Proof. by apply digits_fold_nonneg. Qed.

Lemma decimal_Ok v msg n : _decimal v msg = Ok n -> 0 <= n.
Proof.
  unfold _decimal. destruct (_ || _) eqn:E; [done|]. intros [= <-].
  rewrite !orb_false_iff, !negb_false_iff, andb_true_iff in E.
  destruct E as [[_ [_ E]] _]. by apply digits_nonneg.
Qed.

Lemma limit_Ok v n : _limit v = Ok n -> 1 <= n <= 100.
Proof.
  unfold _limit. intros (p & Hp & H)%bind_Ok. destruct (Z.ltb_spec p 1), (Z.ltb_spec 100 p); try done.
  injection H as <-. lia.
Qed.

Lemma offset_Ok v n : _offset v = Ok n -> 0 <= n <= 100000.
Proof.
  unfold _offset, MAX_OFFSET. intros (p & Hp%decimal_Ok & H)%bind_Ok. destruct (Z.ltb_spec 100000 p); [done|].
  injection H as <-. lia.
Qed.

Lemma item_id_Ok v i : _item_id v = Ok i <-> i = v /\ 1 <= len v <= 128.
Proof.
  unfold _item_id. assert (v = [] \/ 1 <= len v) as Hv by (rewrite <-nonempty_len; destruct v; auto).
  destruct (bool_decide_reflect (v = [])) as [->|Hne]; [cbn; by split; [|intros [_ [? _]]]|].
  destruct Hv as [|Hv]; [done|]. destruct (Z.ltb_spec 128 (len v)); simpl; split.
  - done.
  - lia.
  - by intros [= <-].
  - by intros [-> _].
Qed.

Lemma source_Ok v s : _inventory_source v = Ok s <-> v = value s /\ s <> IS_OMARCHY.
Proof.
  unfold _inventory_source. split.
  - destruct (enum_of v) as [x|] eqn:E; [|done]. apply enum_of_Some in E as <-. destruct x; try done;
      by intros [= <-].
  - intros [-> ?]. rewrite enum_of_value. by destruct s.
Qed.

Lemma query_Ok v q : _query v = Ok q <-> q = v /\ len v <= 128.
Proof.
  unfold _query, MAX_QUERY_LENGTH. destruct (Z.ltb_spec 128 (len v)); split; intros; try discriminate;
    destruct_and?; try lia; by simplify_eq.
Qed.

Lemma settings_Ok p s m r : _notification_settings p s m = Ok r -> valid_settings r.
Proof.
  unfold _notification_settings, _notification_severity, valid_settings. intros H. inv_ok. simpl.
  destruct (says "high" m); [left; congruence|]. destruct (says "critical" m); [right; congruence | done].
Qed.

Lemma security_condition_Ok adv cves fixed c :
  _security_condition adv cves fixed = Ok c ->
  valid_condition c /\ c = Build_SecurityFixCondition adv (split cves (lit ",")) fixed.
Proof.
  unfold _security_condition, security_fix_condition. destruct (_validate_condition _) as [[]|e] eqn:E; cbn.
  - intros [= <-]. by rewrite condition_spec in E.
  - by destruct e.
Qed.

Lemma validate_condition_raises c : raises (fun e => exists r, e = StateCorruptError r) (_validate_condition c).
Proof. unfold _validate_condition, corrupt_if. solve_raises. Qed.

Lemma security_condition_raises adv cves fixed : raises usage_error (_security_condition adv cves fixed).
Proof.
  unfold _security_condition, security_fix_condition. intros e.
  destruct (_validate_condition _) as [[]|x] eqn:E; cbn; [done|].
  apply validate_condition_raises in E as [r ->]. apply usage_raises.
Qed.
#[local] Hint Resolve security_condition_raises : raises.

Lemma scan_command_raises l : raises usage_error (_scan_command l).
Proof. unfold _scan_command, _notification_settings, _boolean, _notification_severity, unsupported. solve_raises. Qed.
#[local] Hint Resolve scan_command_raises : raises.

Lemma parse_command_raises l : raises usage_error (parse_command l).
Proof.
  unfold parse_command, _inventory_source, _query, _limit, _offset, _decimal, _arch_item_id, _item_id,
    _watch_mode, unsupported. solve_raises.
Qed.

Lemma scan_command_valid l c : _scan_command l = Ok c -> valid_command c.
Proof.
  unfold _scan_command. intros H.
  repeat (match type of H with match ?x with _ => _ end = _ => destruct x end; try discriminate H);
    inv_ok; simpl; eauto using settings_Ok; by left.
Qed.

Lemma parse_command_valid l c : parse_command l = Ok c -> valid_command c.
Proof.
  unfold parse_command. destruct (match l with [] => false | a :: _ => says "scan" a end); [apply scan_command_valid|].
  intros H.
  repeat (match type of H with match ?x with _ => _ end = _ => destruct x end; try discriminate H);
    inv_ok; simpl; try done.
  - match goal with H : CliRequests._item_id _ = Ok _ |- _ => apply item_id_Ok in H as [-> ?] end. done.
  - repeat match goal with
    | H : _inventory_source _ = Ok _ |- _ => apply source_Ok in H as [_ ?]
    | H : _query _ = Ok _ |- _ => apply query_Ok in H as [-> ?]
    | H : _limit _ = Ok _ |- _ => apply limit_Ok in H
    | H : _offset _ = Ok _ |- _ => apply offset_Ok in H
    end. done.
  - match goal with H : _security_condition _ _ _ = Ok _ |- _ => apply security_condition_Ok in H as [? _] end.
    match goal with H : _arch_item_id _ = Ok _ |- _ => unfold _arch_item_id in H end. inv_ok.
    match goal with H : _item_id _ = Ok _ |- _ => apply item_id_Ok in H as [-> ?] end.
    destruct (startswith _ _) eqn:E; [|done]. by simplify_eq.
Qed.

(** Every command line is either refused with a usage error, or becomes a command whose
    fields are within their bounds: a source with an inventory, a page of 1 to 100 items,
    an offset of at most 100,000, a condition only on a temporary watch of an Arch item. *)
Theorem parse_command_safe arguments :
  match parse_command arguments with
  | Ok c => valid_command c
  | Err e => exists msg, e = CliUsageError msg
  end.
Proof.
  destruct (parse_command arguments) as [c|e] eqn:E;
    [by eapply parse_command_valid | exact (parse_command_raises arguments e E)].
Qed.

(** ** Every valid command can be asked for *)

Lemma digits_fold_lower ds acc :
  0 <= acc -> forallb is_digit ds = true ->
  acc * 10 ^ len ds <= fold_left (fun a c => a * 10 + (Z.of_N c - 48)) ds acc.
Proof.
  revert acc. unfold len. induction ds as [|c ds IH]; intros acc Ha; [simpl; lia|].
  cbn [forallb fold_left length]. intros [Hc Hd]%andb_true_iff.
  unfold is_digit in Hc. apply andb_true_iff in Hc as [Hc%N.leb_le _].
  assert (0 <= acc * 10 + (Z.of_N c - 48)) as Hacc by lia. specialize (IH _ Hacc Hd).
  rewrite Nat2Z.inj_succ, Z.pow_succ_r by lia.
  pose proof (Z.pow_pos_nonneg 10 (Z.of_nat (length ds)) ltac:(lia) ltac:(lia)). nia.
Qed.

Lemma numeral_length n k : 0 <= n < 10 ^ (k + 1) -> 0 <= k -> len (str_of_Z n) <= k + 1.
Proof.
  intros Hn Hk. assert (str_of_Z n = uint_str (N.to_uint (Z.to_N n))) as -> by (destruct n; [done|done|lia]).
  pose proof (digits_value_N (Z.to_N n)) as Hv.
  destruct (uint_shape (Z.to_N n)) as [E|(c & ds & E & Hc & Hc0 & Hds)]; rewrite E in *; [change (1 <= k + 1); lia|].
  unfold digits_value in Hv. cbn [fold_left] in Hv. unfold is_digit in Hc.
  apply andb_true_iff in Hc as [Hc1%N.leb_le _].
  pose proof (digits_fold_lower ds (0 * 10 + (Z.of_N c - 48)) ltac:(lia) Hds) as Hl. rewrite Hv, Z2N.id in Hl by lia.
  assert (10 ^ len ds <= n) as Hle.
  { etransitivity; [|exact Hl]. pose proof (Z.pow_nonneg 10 (len ds) ltac:(lia)). nia. }
  assert (len ds < k + 1) by (apply (Z.pow_lt_mono_r_iff 10); unfold len in *; lia).
  unfold len in *. cbn [length]. lia.
Qed.

Lemma digits_isascii v : forallb is_digit v = true -> isascii v = true.
Proof.
  unfold isascii. rewrite !forallb_forall. intros H x Hx. specialize (H x Hx).
  unfold is_digit in H. apply andb_true_iff in H as [_ H%N.leb_le]. apply N.leb_le. lia.
Qed.

Lemma decimal_inverse n msg : 0 <= n <= 100000 -> _decimal (str_of_Z n) msg = Ok n.
Proof.
  intros Hn. unfold _decimal. pose proof (numeral_length n 5 ltac:(lia) ltac:(lia)) as Hl.
  destruct (Z.ltb_spec 6 (len (str_of_Z n))); [lia|].
  assert (str_of_Z n = uint_str (N.to_uint (Z.to_N n))) as -> by (destruct n; [done|done|lia]).
  rewrite digits_isascii, uint_str_digits by apply uint_str_digits.
  rewrite bool_decide_false by apply uint_nonempty. cbn. by rewrite digits_value_N, Z2N.id by lia.
Qed.

Lemma limit_inverse n : 1 <= n <= 100 -> _limit (str_of_Z n) = Ok n.
Proof.
  intros. unfold _limit. rewrite decimal_inverse by lia. cbn.
  destruct (Z.ltb_spec n 1), (Z.ltb_spec 100 n); try lia. done.
Qed.

Lemma offset_inverse n : 0 <= n <= 100000 -> _offset (str_of_Z n) = Ok n.
Proof.
  intros. unfold _offset, MAX_OFFSET. rewrite decimal_inverse by lia. cbn. destruct (Z.ltb_spec 100000 n); [lia | done].
Qed.

(** The characters of a CVE identifier. *)
Lemma cve_no_comma s : matches _CVE_ID s -> 44%N ∉ s.
Proof.
  unfold _CVE_ID, rrange. rewrite matches_cat. intros (a & b & -> & Ha%matches_rlit & Hb). subst a.
  apply matches_rtimes_set in Hb as (d1 & r & -> & _ & H1 & Hr).
  rewrite matches_cat in Hr. destruct Hr as (u & v & -> & ->%matches_rlit & Hv).
  apply matches_rtimes_set in Hv as (d2 & d3 & -> & _ & H2 & H3). apply matches_ropt_set in H3 as [H3 _].
  assert (forall d, forallb is_digit d = true -> 44%N ∉ d) as Hd.
  { intros d Hd Hin. rewrite forallb_forall in Hd. apply list_elem_of_In, Hd in Hin. discriminate Hin. }
  rewrite !elem_of_app. intros [H|[H|[H|[H|H]]]].
  - vm_compute in H. set_solver.
  - exact (Hd _ H1 H).
  - vm_compute in H. set_solver.
  - exact (Hd _ H2 H).
  - exact (Hd _ H3 H).
Qed.

Lemma security_condition_inverse c :
  valid_condition c ->
  _security_condition (cond_advisory_id c) (join (lit ",") (cond_cve_ids c)) (cond_fixed_version c) = Ok c.
Proof.
  intros Hc. unfold _security_condition, security_fix_condition. change (lit ",") with [44%N].
  rewrite split_join.
  - apply condition_spec in Hc as Hv. destruct c as [adv cves fixed]. cbn in *. by rewrite Hv.
  - apply nonempty_len, (vc_count _ Hc).
  - eapply Forall_impl; [apply (vc_cves _ Hc)|]. apply cve_no_comma.
Qed.

Lemma severity_inverse s : s = SEV_HIGH \/ s = SEV_CRITICAL -> _notification_severity (value s) = Ok s.
Proof. by intros [-> | ->]. Qed.

Lemma mode_inverse m : CliRequests._watch_mode (value m) = Ok m.
Proof. by destruct m. Qed.

Lemma item_id_inverse v : 1 <= len v <= 128 -> _item_id v = Ok v.
Proof. intros. by apply item_id_Ok. Qed.

(** The command line reaches every valid command: the arguments that ask for it are
    read as that command, whatever its text fields hold. *)
Theorem command_roundtrip c : valid_command c -> parse_command (command_arguments c) = Ok c.
Proof.
  destruct c as [[force [p s m] kev]| |[source q l o]|[id mode cond]]; cbn [valid_command]; intros Hc.
  - assert (_notification_settings (bool_text p) (bool_text s) (value m) = Ok (Build_NotificationSettings p s m)) as Hs.
    { unfold _notification_settings. by rewrite !bool_text_inverse, severity_inverse. }
    assert (parse_command (command_arguments (CScan (Build_ScanCommand force (Build_NotificationSettings p s m) kev)))
            = (x ← _notification_settings (bool_text p) (bool_text s) (value m);
               k ← _boolean (bool_text kev); Ok (CScan (Build_ScanCommand force x k)))) as -> by by destruct force.
    rewrite Hs. cbn [mbind outcome_bind]. by rewrite bool_text_inverse.
  - reflexivity.
  - cbn in Hc. destruct_and!. change (parse_command _) with
      (s ← _inventory_source (value source); q ← _query q; l ← _limit (str_of_Z l); o ← _offset (str_of_Z o);
       Ok (CInventory {| ic_source := s; ic_query := q; ic_limit := l; ic_offset := o |})).
    rewrite (proj2 (source_Ok _ source)) by done. cbn [mbind outcome_bind].
    rewrite (proj2 (query_Ok q q)) by done. cbn [mbind outcome_bind].
    by rewrite limit_inverse, offset_inverse by done.
  - cbn in Hc. destruct Hc as [Hid Hc]. destruct cond as [e|].
    + destruct Hc as (-> & Ha & He). change (parse_command _) with
        (i ← _arch_item_id id;
         c ← _security_condition (cond_advisory_id e) (join (lit ",") (cond_cve_ids e)) (cond_fixed_version e);
         Ok (CSetStar {| ss_item_id := i; ss_mode := TEMPORARY; ss_condition := Some c |})).
      unfold _arch_item_id. rewrite item_id_inverse by done. cbn [mbind outcome_bind]. rewrite Ha.
      cbn [mbind outcome_bind]. by rewrite security_condition_inverse.
    + change (parse_command _) with
        (i ← _item_id id; m ← CliRequests._watch_mode (value mode);
         Ok (CSetStar {| ss_item_id := i; ss_mode := m; ss_condition := None |})).
      by rewrite item_id_inverse, mode_inverse.
Qed.

Definition sample_condition : SecurityFixCondition := {|
  cond_advisory_id := lit "AVG-2765"; cond_cve_ids := names ["CVE-2022-0778"; "CVE-2022-1292"];
  cond_fixed_version := lit "3.0.2-1";
|}.

Lemma command_roundtrip_witness :
  parse_command (names ["set-star"; "--item-id"; "arch:openssl"; "--mode"; "temporary"; "--security-advisory";
    "AVG-2765"; "--fixed-version"; "3.0.2-1"; "--cve-ids"; "CVE-2022-0778,CVE-2022-1292"])
  = Ok (CSetStar {| ss_item_id := lit "arch:openssl"; ss_mode := TEMPORARY; ss_condition := Some sample_condition |}).
Proof.
  apply (command_roundtrip
    (CSetStar {| ss_item_id := lit "arch:openssl"; ss_mode := TEMPORARY; ss_condition := Some sample_condition |})).
  split; [vm_compute; split; congruence|]. split; [reflexivity|]. split; [reflexivity|].
  apply condition_spec. vm_compute. reflexivity.
Defined.
