(* ===== verification/CacheMetadata.v ===== *)
(** * Metadata of a cached download

    [cache_metadata.py]: the validators of an HTTP response (its ETag and its date) are
    kept in a small text file that names the digest of the body they belong to. *)

From S2P Require Import Prelude PyStr Models Json Utf8 Sha256.

Open Scope Z_scope.

Definition _MAX_METADATA_BYTES : Z := 2048.
Definition _MAX_VALIDATOR_LENGTH : Z := 1024.
Definition _DIGEST_LENGTH : Z := 64.

Record CacheValidators := { etag : str; last_modified : str }.

Definition _safe_validator (v : str) : bool :=
  (len v <=? _MAX_VALIDATOR_LENGTH) && forallb (fun c => (32 <=? c) && (c <=? 126))%N v.

Definition _valid_digest (v : str) : bool :=
  (len v =? _DIGEST_LENGTH) && forallb (fun c => existsb (N.eqb c) (lit "0123456789abcdef")) v.

(** [b.decode("ascii")] *)
Definition decode_ascii (b : bytes) : option str :=
  if forallb (fun c => c <=? 127)%N b then Some b else None.

Definition parse_cache_metadata (metadata body : bytes) : option CacheValidators :=
  if _MAX_METADATA_BYTES <? len metadata then None
  else
    text ← decode_ascii metadata;
    match split text (lit "
") with
    | [etag; last_modified; digest; ending] =>
        if negb (bool_decide (ending = [])) || negb (_valid_digest digest)
           || negb (bool_decide (digest = hexdigest body))
        then None
        else if negb (_safe_validator etag) || negb (_safe_validator last_modified) then None
        else if bool_decide (etag = []) && bool_decide (last_modified = []) then None
        else Some {| etag := etag; last_modified := last_modified |}
    | _ => None
    end.

(** [value if value is not None and _safe_validator(value) else ""] *)
Definition safe_text (v : option str) : str :=
  match v with
  | Some v => if _safe_validator v then v else []
  | None => []
  end.

Definition serialize_cache_metadata (body : bytes) (etag last_modified : option str) : res bytes :=
  Utf8.encode (safe_text etag ++ lit "
" ++ safe_text last_modified ++ lit "
" ++ hexdigest body ++ lit "
").

(** ** The text of a metadata file *)

Definition plain (s : str) : Prop := Forall (fun c => 32 <= c <= 126)%N s.

Lemma newline_lit : lit "
" = [10%N].
Proof. reflexivity. Qed.

Lemma safe_validator_spec v : _safe_validator v = true <-> len v <= 1024 /\ plain v.
Proof.
  unfold _safe_validator, plain, _MAX_VALIDATOR_LENGTH. rewrite andb_true_iff, Z.leb_le, forallb_forall, Forall_forall.
  setoid_rewrite andb_true_iff. setoid_rewrite N.leb_le. setoid_rewrite <-list_elem_of_In. done.
Qed.

Lemma safe_text_plain v : len (safe_text v) <= 1024 /\ plain (safe_text v).
Proof.
  destruct v as [v|]; simpl; [|split; [done | constructor]].
  destruct (_safe_validator v) eqn:E; [by apply safe_validator_spec | split; [done | constructor]].
Qed.

Lemma hex_digit_plain n : (n < 16)%N -> existsb (N.eqb (hex_digit n)) (lit "0123456789abcdef") = true.
Proof.
  intros Hn. assert (n ∈ N.of_nat <$> seq 0 16) as Hin.
  { apply list_elem_of_fmap. exists (N.to_nat n). rewrite N2Nat.id, elem_of_seq. split; [done | lia]. }
  assert (Forall (fun n => existsb (N.eqb (hex_digit n)) (lit "0123456789abcdef") = true) (N.of_nat <$> seq 0 16)) as H.
  { vm_compute. repeat constructor. }
  rewrite Forall_forall in H. by apply H.
Qed.

Lemma word_bytes w n : Forall (fun b => b < 256)%N (be_bytes w n).
Proof.
  revert n. induction w as [|w IH]; intros n; simpl; [constructor|]. apply Forall_app. split; [apply IH|].
  constructor; [|constructor]. by apply N.mod_lt.
Qed.

Lemma hexdigest_valid body : _valid_digest (hexdigest body) = true.
Proof.
  unfold _valid_digest. apply andb_true_iff. split.
  - unfold len. rewrite length_hexdigest. reflexivity.
  - apply forallb_forall. intros x Hx%list_elem_of_In. unfold hexdigest in Hx.
    apply list_elem_of_bind in Hx as (b & Hx & Hb). unfold digest in Hb.
    apply list_elem_of_bind in Hb as (w & Hb & _).
    pose proof (word_bytes 4 w) as Hw. rewrite Forall_forall in Hw. specialize (Hw b Hb).
    assert (x = hex_digit (b / 16) \/ x = hex_digit (b mod 16)) as [-> | ->] by set_solver; apply hex_digit_plain.
    + apply N.Div0.div_lt_upper_bound. lia.
    + by apply N.mod_lt.
Qed.

Lemma digest_plain d : _valid_digest d = true -> plain d /\ len d = 64.
Proof.
  unfold _valid_digest, plain, _DIGEST_LENGTH. rewrite andb_true_iff, Z.eqb_eq, forallb_forall, Forall_forall.
  intros [Hl H]. split; [|done]. intros c Hc%list_elem_of_In. apply H, existsb_exists in Hc as (x & Hx & ->%N.eqb_eq).
  revert x Hx. apply List.Forall_forall. vm_compute. repeat (constructor; [split; discriminate|]). constructor.
Qed.

Lemma plain_no_newline s : plain s -> 10%N ∉ s.
Proof. unfold plain. rewrite Forall_forall. intros H Hin. specialize (H _ Hin). lia. Qed.
#[local] Hint Resolve plain_no_newline : core.

(** The file of two validators and a digest. *)
Definition metadata_text (e l d : str) : str := join [10%N] [e; l; d; []].

Lemma metadata_text_ascii e l d :
  plain e -> plain l -> plain d -> Forall (fun c => c <= 127)%N (metadata_text e l d).
Proof.
  assert (forall s, plain s -> Forall (fun c => c <= 127)%N s) as Hp.
  { intros s H. eapply Forall_impl; [exact H|]. cbn. lia. }
  intros. unfold metadata_text. cbn [join]. repeat (apply Forall_app; split; [auto|]); auto; try constructor; done.
Qed.

Lemma serialize_text body e l :
  serialize_cache_metadata body e l = Ok (metadata_text (safe_text e) (safe_text l) (hexdigest body)).
Proof.
  unfold serialize_cache_metadata. rewrite newline_lit.
  change (metadata_text ?a ?b ?d) with (a ++ [10%N] ++ b ++ [10%N] ++ d ++ [10%N] ++ []).
  rewrite app_nil_r. apply encode_ascii.
  pose proof (safe_text_plain e) as [_ ?]. pose proof (safe_text_plain l) as [_ ?].
  destruct (digest_plain _ (hexdigest_valid body)) as [? _].
  by apply metadata_text_ascii.
Qed.

Lemma metadata_text_split e l d :
  plain e -> plain l -> plain d -> split (metadata_text e l d) [10%N] = [e; l; d; []].
Proof. intros. unfold metadata_text. apply split_join; [done|]. repeat constructor; auto. set_solver. Qed.

Lemma metadata_text_length e l d : len (metadata_text e l d) = len e + len l + len d + 3.
Proof. unfold metadata_text, len. cbn [join]. rewrite !length_app. cbn [length]. lia. Qed.

Lemma parse_serialized e l body :
  plain e -> plain l -> len e <= 1024 -> len l <= 1024 -> len e + len l <= 1981 -> e <> [] \/ l <> [] ->
  parse_cache_metadata (metadata_text e l (hexdigest body)) body = Some {| etag := e; last_modified := l |}.
Proof.
  intros He Hl Le Ll Hlen Hne. destruct (digest_plain _ (hexdigest_valid body)) as [Hd Ld].
  unfold parse_cache_metadata, _MAX_METADATA_BYTES, decode_ascii. rewrite metadata_text_length, Ld.
  destruct (Z.ltb_spec 2048 (len e + len l + 64 + 3)); [lia|].
  rewrite (proj2 (forallb_forall _ _)).
  2:{ intros c Hc%list_elem_of_In. apply N.leb_le.
      pose proof (metadata_text_ascii e l _ He Hl Hd) as Ha. rewrite Forall_forall in Ha. by apply Ha. }
  cbn [mbind option_bind]. rewrite newline_lit, metadata_text_split by done.
  rewrite hexdigest_valid, !bool_decide_true, !(proj2 (safe_validator_spec _)) by done. cbn [negb orb].
  destruct (bool_decide_reflect (e = [])), (bool_decide_reflect (l = [])); simpl; naive_solver.
Qed.

Lemma parse_metadata_text m body v :
  parse_cache_metadata m body = Some v ->
  _safe_validator (etag v) = true /\ _safe_validator (last_modified v) = true
  /\ (etag v <> [] \/ last_modified v <> []) /\ len m <= 2048
  /\ m = metadata_text (etag v) (last_modified v) (hexdigest body).
Proof.
  unfold parse_cache_metadata, decode_ascii, _MAX_METADATA_BYTES.
  destruct (Z.ltb_spec 2048 (len m)) as [|Hl]; [done|]. destruct (forallb _ m); cbn [mbind option_bind]; [|done].
  rewrite newline_lit. destruct (split m [10%N]) as [|e [|l [|d [|x [|? ?]]]]] eqn:Em; try done.
  destruct (bool_decide_reflect (x = [])) as [->|]; [|done].
  destruct (_valid_digest d); [|done]. destruct (bool_decide_reflect (d = hexdigest body)) as [->|]; [|done].
  cbn [negb orb]. destruct (_safe_validator e) eqn:Ee, (_safe_validator l) eqn:El; try done. cbn [negb orb].
  intros H. pose proof (join_split 10%N m) as Hj. rewrite Em in Hj. symmetry in Hj.
  destruct (bool_decide_reflect (e = [])), (bool_decide_reflect (l = [])); simpl in H; try done;
    injection H as <-; cbn; split_and!; auto.
Qed.

(** A metadata file is trusted for a body exactly when it is the one the helper writes
    for that body and those validators: they are printable, one of them is there, and
    together they have at most 1981 characters (each alone may have 1024, so that a longer
    pair is written and then never trusted). *)
Theorem cache_metadata_exact metadata body v :
  parse_cache_metadata metadata body = Some v <->
  serialize_cache_metadata body (Some (etag v)) (Some (last_modified v)) = Ok metadata
  /\ _safe_validator (etag v) = true /\ _safe_validator (last_modified v) = true
  /\ (etag v <> [] \/ last_modified v <> []) /\ len (etag v) + len (last_modified v) <= 1981.
Proof.
  rewrite serialize_text. cbn [safe_text]. pose proof (digest_plain _ (hexdigest_valid body)) as [_ Ld]. split.
  - intros (He & Hl & Hne & Hlen & Hm)%parse_metadata_text. rewrite He, Hl. rewrite Hm in Hlen |- *.
    rewrite metadata_text_length in Hlen. repeat split; auto; lia.
  - intros (Hm & He & Hl & Hne & Hlen). rewrite He, Hl in Hm. injection Hm as <-.
    apply safe_validator_spec in He as [? ?], Hl as [? ?]. rewrite parse_serialized by done. by destruct v.
Qed.

Lemma metadata_roundtrip_sample :
  (m ← serialize_cache_metadata (lit "{}") (Some (lit "W/1")) None;
   Ok (parse_cache_metadata m (lit "{}"), parse_cache_metadata m (lit "[]")))
  = Ok (Some {| etag := lit "W/1"; last_modified := [] |}, None).
Proof. vm_compute. reflexivity. Qed.
