(* ===== verification/Base64.v ===== *)
(** * Base 64

    [base64.b64encode] and [base64.b64decode(..., validate=True)], which accepts whole
    groups of four and, at the end only, a group with one or two paddings. *)

From S2P Require Import Prelude.

Open Scope N_scope.

Definition pad : N := 61.

Definition symbol (n : N) : N :=
  if n <? 26 then 65 + n else if n <? 52 then 71 + n else if n <? 62 then n - 4
  else if n =? 62 then 43 else 47.

Definition digit (c : N) : option N :=
  if (65 <=? c) && (c <=? 90) then Some (c - 65)
  else if (97 <=? c) && (c <=? 122) then Some (c - 71)
  else if (48 <=? c) && (c <=? 57) then Some (c + 4)
  else if c =? 43 then Some 62 else if c =? 47 then Some 63 else None.

Fixpoint b64encode (b : bytes) : str :=
  match b with
  | [] => []
  | [x] => [symbol (x / 4); symbol (x mod 4 * 16); pad; pad]
  | [x; y] => [symbol (x / 4); symbol (x mod 4 * 16 + y / 16); symbol (y mod 16 * 4); pad]
  | x :: y :: z :: rest =>
      symbol (x / 4) :: symbol (x mod 4 * 16 + y / 16) :: symbol (y mod 16 * 4 + z / 64)
      :: symbol (z mod 64) :: b64encode rest
  end.

(** [None] where it raises [binascii.Error]. *)
Fixpoint b64decode (s : str) : option bytes :=
  match s with
  | [] => Some []
  | a :: b :: c :: d :: rest =>
      x ← digit a;
      y ← digit b;
      let first := x * 4 + y / 16 in
      if c =? pad
      then match rest with
           | [] => if d =? pad then Some [first] else None
           | _ => None
           end
      else
        z ← digit c;
        let second := y mod 16 * 16 + z / 4 in
        if d =? pad
        then match rest with [] => Some [first; second] | _ => None end
        else
          w ← digit d;
          bytes ← b64decode rest;
          Some (first :: second :: z mod 4 * 64 + w :: bytes)
  | _ => None
  end.

Definition octets (b : bytes) : Prop := Forall (fun x => x < 256) b.

(** The 64 symbols, by evaluation. *)
Lemma symbol_all : Forall (fun n => digit (symbol n) = Some n /\ (symbol n =? pad) = false /\ symbol n < 128)
                     (N.of_nat <$> seq 0 64).
Proof. vm_compute. repeat (constructor; [by split_and!|]). constructor. Qed.

Lemma symbol_spec n : n < 64 -> digit (symbol n) = Some n /\ (symbol n =? pad) = false /\ symbol n < 128.
Proof.
  intros Hn. pose proof symbol_all as H. rewrite Forall_forall in H. apply H. apply list_elem_of_fmap.
  exists (N.to_nat n). rewrite N2Nat.id, elem_of_seq. split; [done | lia].
Qed.

Lemma digit_symbol n : n < 64 -> digit (symbol n) = Some n.
Proof. by intros [? _]%symbol_spec. Qed.
Lemma symbol_pad n : n < 64 -> (symbol n =? pad) = false.
Proof. by intros [_ [? _]]%symbol_spec. Qed.

(** Splitting and rebuilding octets. *)
Lemma split_octet k m x : k * m = 256 -> 0 < m -> x < 256 ->
  exists q r, x / m = q /\ x mod m = r /\ x = m * q + r /\ q < k /\ r < m.
Proof.
  intros Hk Hm Hx. exists (x / m), (x mod m). split_and!; try done.
  - apply N.div_mod. lia.
  - apply N.Div0.div_lt_upper_bound. lia.
  - apply N.mod_lt. lia.
Qed.

Lemma div_mul_add q m r : r < m -> (q * m + r) / m = q.
Proof. intros. rewrite N.add_comm, N.div_add by lia. rewrite N.div_small by done. lia. Qed.
Lemma mod_mul_add q m r : r < m -> (q * m + r) mod m = r.
Proof. intros. rewrite N.add_comm, N.Div0.mod_add. by apply N.mod_small. Qed.

Ltac octet x k m q r :=
  let H := fresh in
  let Hq := fresh "H" q in let Hr := fresh "H" r in
  let E := fresh "E" in let Eq := fresh "E" in let Er := fresh "E" in
  destruct (split_octet k m x) as (q & r & Eq & Er & E & Hq & Hr);
  [reflexivity | reflexivity | assumption | rewrite ?Eq, ?Er; clear Eq Er].

(** What is encoded decodes to itself. *)
Lemma b64_inverse b : octets b -> b64decode (b64encode b) = Some b.
Proof.
  unfold octets. remember (length b) as n eqn:Hn. revert b Hn.
  induction (lt_wf n) as [n _ IH]. intros b -> H.
  destruct b as [|x [|y [|z rest]]]; [done| | |].
  - apply Forall_cons in H as [Hx _]. cbn [b64encode].
    octet x 64 4 q r. cbn [b64decode]. rewrite !digit_symbol by lia. cbn [mbind option_bind].
    rewrite N.eqb_refl. rewrite N.div_mul by lia. do 2 f_equal. lia.
  - apply Forall_cons in H as [Hx [Hy _]%Forall_cons]. cbn [b64encode].
    octet x 64 4 q r. octet y 16 16 q' r'. cbn [b64decode]. rewrite !digit_symbol by lia. cbn [mbind option_bind].
    rewrite symbol_pad, N.eqb_refl by lia. rewrite div_mul_add, mod_mul_add, N.div_mul by lia.
    repeat f_equal; lia.
  - apply Forall_cons in H as [Hx [Hy [Hz Hr]%Forall_cons]%Forall_cons]. cbn [b64encode].
    octet x 64 4 q r. octet y 16 16 q' r'. octet z 4 64 q'' r''. cbn [b64decode].
    rewrite !digit_symbol by lia. cbn [mbind option_bind]. rewrite !symbol_pad by lia.
    rewrite IH with (y := length rest) by (done || simpl; lia). cbn [mbind option_bind].
    rewrite !div_mul_add, !mod_mul_add by lia. repeat f_equal; lia.
Qed.

Lemma b64encode_ascii b : octets b -> Forall (fun c => c < 128) (b64encode b).
Proof.
  unfold octets. remember (length b) as n eqn:Hn. revert b Hn.
  induction (lt_wf n) as [n _ IH]. intros b -> H.
  assert (forall n, n < 64 -> symbol n < 128) as Hs by (by intros k [_ [_ ?]]%symbol_spec).
  destruct b as [|x [|y [|z rest]]]; [constructor| | |].
  - apply Forall_cons in H as [Hx _]. cbn [b64encode]. octet x 64 4 q r.
    repeat (constructor; [first [reflexivity | apply Hs; lia]|]). constructor.
  - apply Forall_cons in H as [Hx [Hy _]%Forall_cons]. cbn [b64encode].
    octet x 64 4 q r. octet y 16 16 q' r'.
    repeat (constructor; [first [reflexivity | apply Hs; lia]|]). constructor.
  - apply Forall_cons in H as [Hx [Hy [Hz Hr]%Forall_cons]%Forall_cons]. cbn [b64encode].
    octet x 64 4 q r. octet y 16 16 q' r'. octet z 4 64 q'' r''.
    repeat (constructor; [first [reflexivity | apply Hs; lia]|]).
    eapply IH; [|reflexivity|done]. simpl; lia.
Qed.

Example b64_examples :
  b64encode (lit "any") = lit "YW55" /\ b64encode (lit "an") = lit "YW4=" /\ b64encode (lit "a") = lit "YQ=="
  /\ b64decode (lit "YQ") = None /\ b64decode (lit "YQ=") = None /\ b64decode (lit "YQ==YQ==") = None
  /\ b64decode (lit "YQ==") = Some (lit "a") /\ b64decode (lit "YW5?") = None.
Proof. vm_compute. by split_and!. Qed.
