(* ===== verification/Stars.v ===== *)
(** * The star machine

    [stars.py]: the star of an item cycles off, temporary, permanent, off; fresh scans arm
    and retire temporary watches. States are those of [StorageState]. *)

From S2P Require Import Prelude PyStr Calendar Models Samples Json Fields Validation Wire Utf8 Sha256 StorageWatches.
From S2P Require Import StorageState.

Open Scope Z_scope.

Record CachedItem := {
  ci_item_id : str;
  ci_source : ItemSource;
  ci_installed_fingerprint : option str;
  ci_candidate_fingerprint : option str;
  ci_watchable : bool;
}.

Record CachedInventory := { cached_items : list CachedItem }.

Record StarClick := {
  click_item_id : str;
  click_inventory : CachedInventory;
  require_current_inventory : bool;
}.

Record FreshSourceScan := {
  scan_source : ItemSource;
  scan_inventory : CachedInventory;
  confirmed_removed_item_ids : gset str;
}.

Inductive WatchEvent :=
| EStarClick (e : StarClick)
| EFreshSourceScan (e : FreshSourceScan)
| EStaleSourceScan (source : ItemSource)
| EFailedSourceScan (source : ItemSource)
| EInvalidSourceScan (source : ItemSource).

(** [hashlib.sha256(f"{source}\0{item_id}\0{evidence}".encode()).hexdigest()] *)
Definition _fingerprint (source : ItemSource) (id : str) (evidence : option str) : res (option str) :=
  match evidence with
  | None => Ok None
  | Some e => b ← Utf8.encode (value source ++ [0%N] ++ id ++ [0%N] ++ e); Ok (Some (hexdigest b))
  end.

Definition cached_item (i : NormalizedItem) : res CachedItem :=
  inst ← _fingerprint (item_source i) (item_id i) (installed i);
  cand ← _fingerprint (item_source i) (item_id i) (candidate i);
  Ok {| ci_item_id := item_id i; ci_source := item_source i; ci_installed_fingerprint := inst;
        ci_candidate_fingerprint := cand; ci_watchable := watchable i |}.

Definition missing_permanent_item_ids (s : PersistentState) (inv : CachedInventory) : list str :=
  let present : gset str := list_to_set (ci_item_id <$> cached_items inv) in
  w_item_id <$> List.filter (fun w => bool_decide (w_mode w = PERMANENT)
                                      && bool_decide (w_item_id w ∉ present))
                  (sorted_by_key w_item_id (st_watches s)).

Definition watch_notification_reference (id candidate_fp : str) (installed_fp : option str) : str :=
  match installed_fp with
  | Some inst => lit "watch-v1:" ++ id ++ lit ":" ++ inst ++ lit ":" ++ candidate_fp
  | None => lit "watch-v1:" ++ id ++ lit ":" ++ candidate_fp
  end.

Definition _without_active_references (ledger : list LedgerEntry) (id : str) : list LedgerEntry :=
  let prefix := lit "watch-v1:" ++ id ++ lit ":" in
  List.filter (fun e => negb (is_active e && startswith (e_fingerprint e) prefix)) ledger.

Definition _click_existing_watch (s : PersistentState) (w : WatchRecord) (inv : CachedInventory)
    (require_current : bool) : res PersistentState :=
  match w_mode w with
  | TEMPORARY =>
      if require_current && negb (existsb (fun i => bool_decide (ci_item_id i = w_item_id w) && ci_watchable i)
                                    (cached_items inv))
      then Err (WatchTransitionError (lit "item is not a cached watchable item"))
      else
        let permanent := {| w_item_id := w_item_id w; w_mode := PERMANENT; w_installed_fingerprint := None;
                            w_candidate_fingerprint := None; w_armed := false; w_condition := None |} in
        Ok {| st_watches := (fun r => if bool_decide (r = w) then permanent else r) <$> st_watches s;
              st_ledger := st_ledger s; st_sources := st_sources s |}
  | PERMANENT =>
      Ok {| st_watches := List.filter (fun r => bool_decide (r <> w)) (st_watches s);
            st_ledger := _without_active_references (st_ledger s) (w_item_id w);
            st_sources := st_sources s |}
  | OFF => Err (WatchTransitionError (lit "off watches are not durable"))
  end.

Definition _star_click (s : PersistentState) (e : StarClick) : res PersistentState :=
  match List.find (fun w => bool_decide (w_item_id w = click_item_id e)) (st_watches s) with
  | None =>
      let refused := Err (WatchTransitionError (lit "item is not a cached watchable item")) in
      match List.find (fun i => bool_decide (ci_item_id i = click_item_id e))
              (cached_items (click_inventory e)) with
      | None => refused
      | Some i =>
          match ci_watchable i, ci_installed_fingerprint i with
          | true, Some inst =>
              let w := {| w_item_id := ci_item_id i; w_mode := TEMPORARY;
                          w_installed_fingerprint := Some inst;
                          w_candidate_fingerprint := ci_candidate_fingerprint i;
                          w_armed := is_some (ci_candidate_fingerprint i); w_condition := None |} in
              Ok {| st_watches := st_watches s ++ [w]; st_ledger := st_ledger s; st_sources := st_sources s |}
          | _, _ => refused
          end
      end
  | Some w => _click_existing_watch s w (click_inventory e) (require_current_inventory e)
  end.

(** The items of the scanned source, a later one replacing an earlier one of the same id. *)
Definition scanned_items (e : FreshSourceScan) : gmap str CachedItem :=
  list_to_map (reverse ((fun i => (ci_item_id i, i)) <$>
    List.filter (fun i => bool_decide (ci_source i = scan_source e)) (cached_items (scan_inventory e)))).

Definition of_source (source : ItemSource) (id : str) : bool := startswith id (value source ++ lit ":").

Definition _observe_watch (w : WatchRecord) (e : FreshSourceScan) (its : gmap str CachedItem)
    : res (option WatchRecord) :=
  match w_mode w with
  | PERMANENT => Ok (Some w)
  | TEMPORARY =>
      if negb (of_source (scan_source e) (w_item_id w)) then Ok (Some w)
      else
        match its !! w_item_id w with
        | None =>
            Ok (if bool_decide (w_item_id w ∈ confirmed_removed_item_ids e) then None else Some w)
        | Some i =>
            if is_some (ci_installed_fingerprint i)
               && bool_decide (ci_installed_fingerprint i <> w_installed_fingerprint w)
            then Ok None
            else if negb (w_armed w) && is_some (ci_candidate_fingerprint i)
            then Ok (Some {| w_item_id := w_item_id w; w_mode := w_mode w;
                             w_installed_fingerprint := w_installed_fingerprint w;
                             w_candidate_fingerprint := ci_candidate_fingerprint i;
                             w_armed := true; w_condition := w_condition w |})
            else Ok (Some w)
        end
  | OFF => Err (WatchTransitionError (lit "off watches are not durable"))
  end.

(** [tuple(updated for w in watches if (updated := observe(w)) is not None)] *)
Fixpoint filter_mapM {A B} (f : A -> res (option B)) (l : list A) : res (list B) :=
  match l with
  | [] => Ok []
  | x :: l' =>
      y ← f x;
      ys ← filter_mapM f l';
      Ok (match y with Some y => y :: ys | None => ys end)
  end.

Lemma elem_of_filter_mapM {A B} (f : A -> res (option B)) l k y :
  filter_mapM f l = Ok k -> y ∈ k <-> exists x, x ∈ l /\ f x = Ok (Some y).
Proof.
  revert k. induction l as [|x l IH]; simpl; intros k H.
  - injection H as <-. set_solver.
  - apply bind_Ok in H as (o & Hx & (ys & Hys & [= <-])%bind_Ok). specialize (IH _ Hys). split.
    + destruct o as [z|]; [|set_solver]. intros [->|Hy]%elem_of_cons; [|set_solver]. exists x. set_solver.
    + intros (x' & [->|Hx']%elem_of_cons & Hf).
      * rewrite Hx in Hf. injection Hf as ->. set_solver.
      * assert (y ∈ ys) by set_solver. destruct o; set_solver.
Qed.

Definition _fresh_scan (s : PersistentState) (e : FreshSourceScan) : res PersistentState :=
  ws ← filter_mapM (fun w => _observe_watch w e (scanned_items e)) (st_watches s);
  Ok {| st_watches := ws; st_ledger := st_ledger s; st_sources := st_sources s |}.

Definition transition (s : PersistentState) (e : WatchEvent) : res PersistentState :=
  match e with
  | EStarClick e => _star_click s e
  | EFreshSourceScan e => _fresh_scan s e
  | EStaleSourceScan _ | EFailedSourceScan _ | EInvalidSourceScan _ => Ok s
  end.

(** ** A fresh scan is a filter and a map *)

Definition is_temporary (w : WatchRecord) : bool := bool_decide (w_mode w = TEMPORARY).

(** What the scan says about a watch: [None] when it does not concern it. *)
Definition scanned (e : FreshSourceScan) (w : WatchRecord) : option (option CachedItem) :=
  if is_temporary w && of_source (scan_source e) (w_item_id w)
  then Some (scanned_items e !! w_item_id w) else None.

(** The item is confirmed removed, or another build of it is installed. *)
Definition retired (e : FreshSourceScan) (w : WatchRecord) : bool :=
  match scanned e w with
  | Some None => bool_decide (w_item_id w ∈ confirmed_removed_item_ids e)
  | Some (Some i) => is_some (ci_installed_fingerprint i)
                     && bool_decide (ci_installed_fingerprint i <> w_installed_fingerprint w)
  | None => false
  end.

Definition arm (e : FreshSourceScan) (w : WatchRecord) : WatchRecord :=
  match scanned e w with
  | Some (Some i) =>
      if negb (w_armed w) && is_some (ci_candidate_fingerprint i)
      then {| w_item_id := w_item_id w; w_mode := w_mode w;
              w_installed_fingerprint := w_installed_fingerprint w;
              w_candidate_fingerprint := ci_candidate_fingerprint i;
              w_armed := true; w_condition := w_condition w |}
      else w
  | _ => w
  end.

Lemma valid_watch_mode w : valid_watch w -> w_mode w <> OFF.
Proof. by intros []. Qed.

Lemma observe_watch_spec w e :
  valid_watch w ->
  _observe_watch w e (scanned_items e) = Ok (if retired e w then None else Some (arm e w)).
Proof.
  intros Hv%valid_watch_mode. unfold _observe_watch, retired, arm, scanned, is_temporary.
  destruct (w_mode w); [done| |done]. rewrite (bool_decide_true (TEMPORARY = TEMPORARY)) by done. simpl (true && _).
  destruct (of_source _ _); [|done]. simpl (negb true). cbv iota. destruct (scanned_items e !! _) as [i|].
  - destruct (_ && bool_decide _); [done|]. by destruct (_ && _).
  - by destruct (bool_decide _).
Qed.

Lemma filter_mapM_spec {A B} (f : A -> res (option B)) (out : A -> bool) (g : A -> B) l :
  Forall (fun x => f x = Ok (if out x then None else Some (g x))) l ->
  filter_mapM f l = Ok (g <$> List.filter (fun x => negb (out x)) l).
Proof.
  induction 1 as [|x l Hx _ IH]; simpl; [done|]. rewrite Hx. simpl. rewrite IH. by destruct (out x).
Qed.

Lemma fresh_scan_spec s e :
  Forall valid_watch (st_watches s) ->
  _fresh_scan s e
  = Ok {| st_watches := arm e <$> List.filter (fun w => negb (retired e w)) (st_watches s);
          st_ledger := st_ledger s; st_sources := st_sources s |}.
Proof.
  intros Hv. unfold _fresh_scan. erewrite filter_mapM_spec; [done|].
  eapply Forall_impl; [exact Hv|]. intros w Hw. by apply observe_watch_spec.
Qed.

Lemma arm_id e w : w_item_id (arm e w) = w_item_id w.
Proof. unfold arm. destruct (scanned e w) as [[i|]|]; try done. by destruct (_ && _). Qed.

Lemma arm_scanned e w : scanned e (arm e w) = scanned e w.
Proof.
  unfold scanned, is_temporary. rewrite arm_id.
  assert (w_mode (arm e w) = w_mode w) as ->; [|done].
  unfold arm. destruct (scanned e w) as [[i|]|]; try done. by destruct (_ && _).
Qed.

Lemma arm_baseline e w : w_installed_fingerprint (arm e w) = w_installed_fingerprint w.
Proof. unfold arm. destruct (scanned e w) as [[i|]|]; try done. by destruct (_ && _). Qed.

Lemma arm_retired e w : retired e (arm e w) = retired e w.
Proof. unfold retired. by rewrite arm_scanned, arm_id, arm_baseline. Qed.

Lemma arm_armed e w : w_armed w = true -> arm e w = w.
Proof. unfold arm. destruct (scanned e w) as [[i|]|]; try done. by intros ->. Qed.

Lemma arm_cases e w : arm e w = w \/ w_armed (arm e w) = true.
Proof. unfold arm. destruct (scanned e w) as [[i|]|]; auto. destruct (_ && _); auto. Qed.

Lemma arm_idempotent e w : arm e (arm e w) = arm e w.
Proof. destruct (arm_cases e w) as [H|H]; [by rewrite !H | by apply arm_armed]. Qed.

Lemma arm_valid e w : valid_watch w -> valid_watch (arm e w).
Proof.
  unfold arm. destruct (scanned e w) as [[i|]|] eqn:Es; try done. destruct (_ && _) eqn:E; [|done].
  apply andb_true_iff in E as [Ha Hc]. intros Hv. destruct Hv as [|id inst cand cond Hcond].
  - unfold scanned, is_temporary in Es. simpl in Es. discriminate.
  - simpl in *. destruct (ci_candidate_fingerprint i) as [c|] eqn:Ei; [|done].
    replace true with (is_some (Some c)) by done. by constructor.
Qed.

(** ** Events keep a state valid *)

Lemma fresh_scan_valid s e s' : valid_state s -> _fresh_scan s e = Ok s' -> valid_state s'.
Proof.
  intros []. rewrite fresh_scan_spec by done. intros [= <-]. constructor; simpl; try done.
  - rewrite <-list_fmap_compose.
    rewrite (list_fmap_ext _ w_item_id) by (intros; apply arm_id). by apply NoDup_map_filter.
  - apply Forall_fmap. eapply Forall_impl; [by apply Forall_filter_bool|]. intros w Hw. by apply arm_valid.
Qed.

Lemma click_new_valid s i inst :
  valid_state s -> ci_item_id i ∉ w_item_id <$> st_watches s ->
  valid_state {| st_watches := st_watches s ++
                   [{| w_item_id := ci_item_id i; w_mode := TEMPORARY; w_installed_fingerprint := Some inst;
                       w_candidate_fingerprint := ci_candidate_fingerprint i;
                       w_armed := is_some (ci_candidate_fingerprint i); w_condition := None |}];
                 st_ledger := st_ledger s; st_sources := st_sources s |}.
Proof.
  intros [] Hn. constructor; simpl; try done.
  - rewrite fmap_app. apply NoDup_app. split; [done|]. split; [|apply NoDup_singleton].
    intros x Hx Hx'. apply Hn. simpl in Hx'. set_solver.
  - apply Forall_app. split; [done|]. constructor; [by constructor | constructor].
Qed.

Lemma click_existing_valid s w inv b s' :
  valid_state s -> w ∈ st_watches s -> _click_existing_watch s w inv b = Ok s' -> valid_state s'.
Proof.
  intros Hs Hw. pose proof (vt_watches _ Hs) as Hwatches. destruct Hs. unfold _click_existing_watch. destruct (w_mode w); [done| |].
  - destruct (_ && _); [done|]. intros [= <-]. constructor; simpl; try done.
    + rewrite <-list_fmap_compose. rewrite (list_fmap_ext _ w_item_id); [done|].
      intros _ r _. simpl. by case_bool_decide; subst.
    + apply Forall_fmap. eapply Forall_impl; [exact Hwatches|]. intros r Hr. simpl.
      case_bool_decide; [constructor | done].
  - intros [= <-]. constructor; simpl; try done.
    + by apply NoDup_map_filter.
    + by apply NoDup_map_filter.
    + by apply Forall_filter_bool.
    + by apply Forall_filter_bool.
Qed.

Lemma star_click_valid s e s' : valid_state s -> _star_click s e = Ok s' -> valid_state s'.
Proof.
  intros Hs. unfold _star_click. destruct (List.find _ (st_watches s)) as [w|] eqn:Ew.
  - intros H. eapply click_existing_valid; [done| |exact H]. by apply find_Some in Ew as [? _].
  - destruct (List.find _ (cached_items _)) as [i|] eqn:Ei; [|done].
    destruct (ci_watchable i), (ci_installed_fingerprint i) as [inst|]; try done. intros [= <-].
    apply click_new_valid; [done|]. intros (w & Hw & Hin)%list_elem_of_fmap.
    apply find_None in Ew. rewrite Forall_forall in Ew. specialize (Ew w Hin).
    apply find_Some in Ei as [_ Ei]. apply bool_decide_eq_true in Ei. apply bool_decide_eq_false in Ew. congruence.
Qed.

Lemma transition_valid s e s' : valid_state s -> transition s e = Ok s' -> valid_state s'.
Proof.
  intros Hs. destruct e; simpl; try by intros [= <-].
  - by apply star_click_valid.
  - by apply fresh_scan_valid.
Qed.

Lemma click_error s w inv b :
  valid_watch w ->
  match _click_existing_watch s w inv b with
  | Ok _ => True
  | Err x => x = WatchTransitionError (lit "item is not a cached watchable item")
  end.
Proof.
  intros Hv%valid_watch_mode. unfold _click_existing_watch. destruct (w_mode w); [done| |done].
  by destruct (_ && _).
Qed.

Lemma filter_keep_others (l : list WatchRecord) (w : WatchRecord) :
  w ∉ l -> List.filter (fun r => bool_decide (r <> w)) l = l.
Proof. intros H. apply filter_all, Forall_forall. intros r Hr. apply bool_decide_eq_true. naive_solver. Qed.

Lemma map_replace_others (l : list WatchRecord) (w p : WatchRecord) :
  w ∉ l -> (fun r => if bool_decide (r = w) then p else r) <$> l = l.
Proof.
  intros H. induction l as [|r l IH]; [done|]. rewrite fmap_cons. apply not_elem_of_cons in H as [Hr Hl].
  rewrite bool_decide_false by done. by rewrite IH.
Qed.

(** ** Properties *)

Definition same_id_in (l : list WatchRecord) (id : str) : Prop := id ∈ w_item_id <$> l.

(** C36. Three clicks on the star of an unwatched item that the cached inventory offers
    make it a temporary watch (with the installed build as its baseline, armed exactly
    when an update is offered), then a permanent one, then remove it: the watches are
    those before the first click, and the ledger has lost exactly the pending entries of
    that item. *)
Theorem star_click_cycle s i inst inv b1 b2 b3 :
  let click b := EStarClick {| click_item_id := ci_item_id i; click_inventory := inv;
                               require_current_inventory := b |} in
  ~ same_id_in (st_watches s) (ci_item_id i) ->
  List.find (fun j => bool_decide (ci_item_id j = ci_item_id i)) (cached_items inv) = Some i ->
  ci_watchable i = true -> ci_installed_fingerprint i = Some inst ->
  let temporary := Build_WatchRecord (ci_item_id i) TEMPORARY (Some inst) (ci_candidate_fingerprint i)
                     (is_some (ci_candidate_fingerprint i)) None in
  let with_watch w := {| st_watches := st_watches s ++ [w]; st_ledger := st_ledger s; st_sources := st_sources s |} in
  transition s (click b1) = Ok (with_watch temporary)
  /\ transition (with_watch temporary) (click b2) = Ok (with_watch (permanent_watch (ci_item_id i)))
  /\ transition (with_watch (permanent_watch (ci_item_id i))) (click b3)
     = Ok {| st_watches := st_watches s;
             st_ledger := List.filter (fun e => negb (is_active e
                            && startswith (e_fingerprint e) (lit "watch-v1:" ++ ci_item_id i ++ lit ":")))
                            (st_ledger s);
             st_sources := st_sources s |}.
Proof.
  intros click Hn Hi Hw Hinst temporary with_watch. unfold same_id_in in Hn.
  assert (forall w, w_item_id w = ci_item_id i -> w ∉ st_watches s) as Hno.
  { intros w Hid Hin. apply Hn. rewrite <-Hid. apply list_elem_of_fmap. eauto. }
  unfold transition, click, _star_click. cbn [click_item_id click_inventory require_current_inventory].
  pose proof (find_not_in w_item_id (st_watches s) (ci_item_id i) Hn) as Hnone. rewrite Hnone, Hi, Hw, Hinst. split; [done|].
  cbn [with_watch st_watches]. rewrite !find_app, !Hnone. simpl List.find. rewrite !bool_decide_true by done. split.
  - unfold _click_existing_watch. cbn [w_mode w_item_id temporary]. rewrite andb_comm.
    assert (existsb (fun j => bool_decide (ci_item_id j = ci_item_id i) && ci_watchable j) (cached_items inv) = true) as ->.
    { apply existsb_exists. exists i. apply find_Some in Hi as [Hin Hid].
      split; [by apply list_elem_of_In|]. by rewrite Hid, Hw. }
    cbn [negb andb]. cbn [st_watches with_watch]. rewrite fmap_app, map_replace_others by (by apply Hno). simpl.
    by rewrite bool_decide_true.
  - unfold _click_existing_watch. cbn [w_mode permanent_watch st_watches st_ledger with_watch].
    rewrite List.filter_app, filter_keep_others by (by apply Hno). simpl. rewrite bool_decide_false by naive_solver.
    by rewrite app_nil_r.
Qed.

(** No event takes a valid state to an invalid one, and the only error a valid state
    can meet is the refusal of a click on an item that is not offered. *)
Theorem transition_safe s e :
  valid_state s ->
  match transition s e with
  | Ok s' => valid_state s'
  | Err x => x = WatchTransitionError (lit "item is not a cached watchable item")
             /\ exists c, e = EStarClick c
  end.
Proof.
  intros Hs. destruct (transition s e) as [s'|x] eqn:E; [by eapply transition_valid|].
  destruct e as [c|c| | |]; simpl in E; try discriminate.
  - split; [|eauto]. unfold _star_click in E. destruct (List.find _ (st_watches s)) as [w|] eqn:Ew.
    + apply find_Some in Ew as [Hw _]. pose proof (vt_watches s Hs) as Hv. rewrite Forall_forall in Hv.
      pose proof (click_error s w (click_inventory c) (require_current_inventory c) (Hv w Hw)) as H.
      by rewrite E in H.
    + destruct (List.find _ (cached_items _)) as [i|]; [|by injection E as <-].
      by destruct (ci_watchable i), (ci_installed_fingerprint i); try discriminate; injection E as <-.
  - rewrite fresh_scan_spec in E by apply Hs. discriminate.
Qed.

(** A fresh scan of a source only retires and arms temporary watches of that source:
    it drops those confirmed removed or whose installed build changed, records the
    candidate of those not armed yet, and leaves every other watch as it is, in order;
    the ledger and the sources are untouched; the same scan again changes nothing. *)
Theorem fresh_scan_effect s e :
  valid_state s ->
  exists s', transition s (EFreshSourceScan e) = Ok s'
  /\ st_ledger s' = st_ledger s /\ st_sources s' = st_sources s
  /\ st_watches s' = arm e <$> List.filter (fun w => negb (retired e w)) (st_watches s)
  /\ Forall (fun w =>
       (w_mode w = PERMANENT \/ of_source (scan_source e) (w_item_id w) = false \/ scanned_items e !! w_item_id w = None
          /\ w_item_id w ∉ confirmed_removed_item_ids e -> w ∈ st_watches s')
       /\ (w_armed w = true -> w ∈ st_watches s' \/ ~ same_id_in (st_watches s') (w_item_id w)))
       (st_watches s)
  /\ transition s' (EFreshSourceScan e) = Ok s'.
Proof.
  intros Hs. pose proof (vt_watches s Hs) as Hv. simpl. rewrite fresh_scan_spec by done.
  eexists. split; [done|]. cbn [st_watches st_ledger st_sources]. do 3 (split; [done|]). split.
  - apply Forall_forall. intros w Hw. split.
    + intros Hcase. assert (retired e w = false /\ arm e w = w) as [Hr Ha].
      { unfold retired, arm, scanned, is_temporary.
        destruct Hcase as [->|[->|[-> Hn]]]; rewrite ?andb_false_r; [done | done |].
        destruct (_ && _); [|done]. by rewrite bool_decide_false. }
      rewrite <-Ha. apply list_elem_of_fmap_2, elem_of_filter_bool. by rewrite Hr.
    + intros Harmed. destruct (retired e w) eqn:Hr; [right | left].
      * intros (w' & Hid & Hw')%list_elem_of_fmap. apply list_elem_of_fmap in Hw' as (x & -> & [Hx Hrx]%elem_of_filter_bool).
        rewrite arm_id in Hid.
        assert (x = w) as ->; [|by rewrite Hr in Hrx].
        pose proof (vt_items s Hs) as Hnd. apply list_elem_of_lookup in Hx as [a Ha], Hw as [b Hb].
        assert (a = b); [|congruence]. eapply (NoDup_lookup (w_item_id <$> st_watches s) a b (w_item_id w)); [done| |];
          rewrite list_lookup_fmap; rewrite ?Ha, ?Hb; simpl; congruence.
      * rewrite <-(arm_armed e w Harmed). apply list_elem_of_fmap_2, elem_of_filter_bool. by rewrite Hr.
  - rewrite fresh_scan_spec; cbn [st_watches st_ledger st_sources].
    + f_equal. f_equal. rewrite filter_all.
      * rewrite <-list_fmap_compose. apply list_fmap_ext. intros. apply arm_idempotent.
      * apply Forall_fmap. eapply Forall_impl; [apply Forall_filter_true|]. intros w. simpl. by rewrite arm_retired.
    + apply Forall_fmap. eapply Forall_impl; [by apply Forall_filter_bool|]. intros w Hw. by apply arm_valid.
Qed.

(** ** Witnesses *)

(** [openssl] in the cached inventory, with the update the sample watch waits for. *)
Definition sample_cached : CachedItem := {|
  ci_item_id := lit "arch:openssl"; ci_source := IS_ARCH;
  ci_installed_fingerprint := Some (lit "arch:3.0.1-1"); ci_candidate_fingerprint := Some (lit "arch:3.0.2-1");
  ci_watchable := true;
|}.

(** After the update: the installed build is the candidate, nothing is offered. *)
Definition sample_updated_scan : FreshSourceScan := {|
  scan_source := IS_ARCH;
  scan_inventory := {| cached_items := [
    {| ci_item_id := lit "arch:openssl"; ci_source := IS_ARCH;
       ci_installed_fingerprint := Some (lit "arch:3.0.2-1"); ci_candidate_fingerprint := None;
       ci_watchable := true |}] |};
  confirmed_removed_item_ids := ∅;
|}.

Lemma star_click_cycle_witness :
  let inv := {| cached_items := [sample_cached] |} in
  let click := EStarClick {| click_item_id := lit "arch:openssl"; click_inventory := inv;
                             require_current_inventory := true |} in
  exists s1 s2, transition empty_state click = Ok s1 /\ transition s1 click = Ok s2
    /\ transition s2 click = Ok empty_state.
Proof.
  intros inv click. do 2 eexists.
  apply (star_click_cycle empty_state sample_cached (lit "arch:3.0.1-1") inv true true true);
    [by intros ?%elem_of_nil | reflexivity | reflexivity | reflexivity].
Defined.

Lemma transition_safe_witness :
  valid_state sample_state
  /\ exists s', transition sample_state (EFreshSourceScan sample_updated_scan) = Ok s' /\ valid_state s'.
Proof.
  pose proof (transition_safe sample_state (EFreshSourceScan sample_updated_scan) sample_state_valid) as H.
  split; [apply sample_state_valid|].
  destruct (transition sample_state (EFreshSourceScan sample_updated_scan)) as [s'|e]; [by exists s'|].
  destruct H as [_ [c [=]]].
Defined.

(** The watch is retired by the update it was waiting for. *)
Lemma fresh_scan_effect_witness :
  exists s', transition sample_state (EFreshSourceScan sample_updated_scan) = Ok s'
    /\ w_item_id <$> st_watches s' = [lit "aur:paru"]
    /\ transition s' (EFreshSourceScan sample_updated_scan) = Ok s'.
Proof.
  destruct (fresh_scan_effect sample_state sample_updated_scan sample_state_valid) as (s' & Ht & _ & _ & Hw & _ & H2).
  exists s'. split; [exact Ht|]. split; [rewrite Hw; vm_compute; reflexivity | exact H2].
Defined.
