(* ===== verification/RunnerTypes.v ===== *)
(** * Results of commands and endpoints

    [runner_types.py]: what running an external command or fetching an endpoint can
    give back, and which arguments a command accepts. *)

From S2P Require Import Prelude PyStr Models.

Open Scope Z_scope.

Inductive CommandName :=
| OMARCHY_UPDATE_AVAILABLE
| PACMAN_NATIVE
| CHECKUPDATES
| VERCMP
| PACMAN_FOREIGN
| YAY_UPDATES
| PARU_UPDATES
| FLATPAK_USER_APP_LIST
| FLATPAK_USER_RUNTIME_LIST
| FLATPAK_SYSTEM_APP_LIST
| FLATPAK_SYSTEM_RUNTIME_LIST
| FLATPAK_USER_UPDATES
| FLATPAK_SYSTEM_UPDATES
| MISE_OUTDATED
| ARCH_AUDIT
| NOTIFY.

#[global] Instance CommandName_eq_dec : EqDecision CommandName.
Proof. solve_decision. Defined.

#[global] Program Instance CommandName_enum : StrEnum CommandName := {|
  members := [OMARCHY_UPDATE_AVAILABLE; PACMAN_NATIVE; CHECKUPDATES; VERCMP; PACMAN_FOREIGN;
    YAY_UPDATES; PARU_UPDATES; FLATPAK_USER_APP_LIST; FLATPAK_USER_RUNTIME_LIST;
    FLATPAK_SYSTEM_APP_LIST; FLATPAK_SYSTEM_RUNTIME_LIST; FLATPAK_USER_UPDATES;
    FLATPAK_SYSTEM_UPDATES; MISE_OUTDATED; ARCH_AUDIT; NOTIFY];
  value a := lit match a with
    | OMARCHY_UPDATE_AVAILABLE => "omarchy-update-available"
    | PACMAN_NATIVE => "pacman-native"
    | CHECKUPDATES => "checkupdates"
    | VERCMP => "vercmp"
    | PACMAN_FOREIGN => "pacman-foreign"
    | YAY_UPDATES => "yay-updates"
    | PARU_UPDATES => "paru-updates"
    | FLATPAK_USER_APP_LIST => "flatpak-user-app-list"
    | FLATPAK_USER_RUNTIME_LIST => "flatpak-user-runtime-list"
    | FLATPAK_SYSTEM_APP_LIST => "flatpak-system-app-list"
    | FLATPAK_SYSTEM_RUNTIME_LIST => "flatpak-system-runtime-list"
    | FLATPAK_USER_UPDATES => "flatpak-user-updates"
    | FLATPAK_SYSTEM_UPDATES => "flatpak-system-updates"
    | MISE_OUTDATED => "mise-outdated"
    | ARCH_AUDIT => "arch-audit"
    | NOTIFY => "notify"
    end%string;
|}.
Next Obligation. solve_complete. Qed.
Next Obligation. solve_distinct. Qed.

Inductive EndpointName :=
| ENDPOINT_ARCH_SECURITY
| ENDPOINT_CISA_KEV.

Inductive CommandResult :=
| CommandSucceeded (stdout stderr : bytes)
| CommandExited (returncode : Z) (stdout stderr : bytes)
| CommandTimedOut (stdout stderr : bytes)
| CommandOutputExceeded (stream : str) (stdout stderr : bytes)
| CommandMissing (diagnostic : str)
| CommandRejected (diagnostic : str).

Inductive EndpointResult :=
| EndpointDownloaded (body : bytes) (etag last_modified : option str)
| EndpointNotModified
| EndpointRejected (diagnostic : str)
| EndpointTlsFailed (diagnostic : str)
| EndpointTimedOut (diagnostic : str)
| EndpointOversized (diagnostic : str)
| EndpointFailed (diagnostic : str).

Inductive ArgumentPolicy :=
| POLICY_NONE
| VERSION_PAIR
| NOTIFICATION_TEXT.

Definition arguments_allowed (policy : ArgumentPolicy) (arguments : list str) : bool :=
  match policy with
  | POLICY_NONE => match arguments with [] => true | _ => false end
  | VERSION_PAIR | NOTIFICATION_TEXT =>
      (len arguments =? 2)
      && forallb (fun a => negb (existsb (N.eqb 0) a) && (len a <=? 4096)) arguments
  end.
