(* ===== verification/Redaction.v ===== *)
(** * Redaction of diagnostics

    [redact_diagnostic] of [runner_types.py]: the home directory and what looks like a
    credential are removed from the text of a diagnostic, which is then cut. *)

From S2P Require Import Prelude PyStr Regex.

Open Scope N_scope.

(** ** [re.sub] *)

(** The longest prefix an expression matches. *)
Fixpoint longest (r : regex) (s : str) : option nat :=
  match s with
  | [] => if nullable r then Some O else None
  | c :: s' =>
      match longest (deriv c r) s' with
      | Some n => Some (S n)
      | None => if nullable r then Some O else None
      end
  end.

Lemma longest_None r s : longest r s = None <-> forall u t, s = u ++ t -> ~ matches r u.
Proof.
  revert r. induction s as [|c s IH]; intros r; cbn [longest].
  - pose proof (nullable_spec r) as Hn. destruct (nullable r); split; try done.
    + intros H. by destruct (H [] [] eq_refl (proj1 Hn eq_refl)).
    + intros _ u t E Hu. symmetry in E. apply app_eq_nil in E as [-> ->]. by apply Hn in Hu.
  - pose proof (nullable_spec r) as Hn. specialize (IH (deriv c r)). destruct (longest (deriv c r) s) as [n|].
    + split; [done|]. intros H. exfalso. assert (Some n = None) as [=]. apply IH. intros u t -> Hu.
      apply (H (c :: u) t eq_refl). by apply deriv_spec.
    + destruct (nullable r); split; try done.
      * intros H. by destruct (H [] (c :: s) eq_refl (proj1 Hn eq_refl)).
      * intros _ [|d u] t E Hu; [by apply Hn in Hu|]. injection E as -> ->.
        apply deriv_spec in Hu. by apply (proj1 IH eq_refl u t).
Qed.

Lemma longest_Some r s n : longest r s = Some n -> matches r (take n s) /\ (n <= length s)%nat.
Proof.
  revert r n. induction s as [|c s IH]; intros r n; cbn [longest].
  - destruct (nullable r) eqn:E; [|done]. intros [= <-]. split; [by apply nullable_spec | done].
  - destruct (longest (deriv c r) s) as [m|] eqn:El.
    + intros [= <-]. apply IH in El as [Hm Hl]. split; [by apply deriv_spec | simpl; lia].
    + destruct (nullable r) eqn:E; [|done]. intros [= <-]. split; [by apply nullable_spec | lia].
Qed.

(** [r.sub(new, s)] for an expression whose greedy match is its longest one and never
    empty; [skip] counts the characters of a match that are being dropped. *)
Fixpoint sub_go (r : regex) (new s : str) (skip : nat) : str :=
  match s with
  | [] => []
  | c :: s' =>
      match skip with
      | S k => sub_go r new s' k
      | O => match longest r s with
             | Some (S n) => new ++ sub_go r new s' n
             | _ => c :: sub_go r new s' O
             end
      end
  end.
Definition sub (r : regex) (new s : str) : str := sub_go r new s O.

(** ** [_TOKEN] *)

(** The characters that match an ASCII letter when case is ignored: those whose lower case
    it is, and the dotless i and the long s. *)
Definition variants (c : N) : list N :=
  [c; c - 32] ++ (if c =? 105 then [304; 305] else if c =? 107 then [8490] else if c =? 115 then [383] else []).
Definition letter (c : N) : regex := RSet (fun d => existsb (N.eqb d) (variants c)).
Definition word (w : string) : regex := foldr (fun c r => RCat (letter c) r) REps (lit w).

Definition value_char (c : N) : bool := negb (is_space c || (c =? 44)%N || (c =? 59)%N).

(** The word bearer and white space, or a name of a credential with an equals sign or a
    colon and perhaps white space. *)
Definition _TOKEN_KEY : regex :=
  let one_of l := RSet (fun c => existsb (N.eqb c) l) in
  let space := RSet is_space in
  RAlt (RCat (word "bearer") (rplus space))
    (RCat (RAlt (word "token")
             (RAlt (RCat (word "api") (RCat (ropt 1 (one_of (lit "_-"))) (word "key")))
                (RAlt (word "password") (word "secret"))))
       (RCat (one_of (lit "=:")) (RStar space))).

(** The pattern: a key, then anything but white space, commas and semicolons. Of the words at most one matches at a
    place, and no character can be taken by two parts of the expression: the greedy match
    is the longest. *)
Definition _TOKEN : regex := RCat _TOKEN_KEY (rplus (RSet value_char)).

Section Redact.
Context (_HOME : str).

(** [_HOME] is absolute: it is not empty. *)
Definition redact_diagnostic (v : str) : str :=
  take 512 (sub _TOKEN (lit "<redacted>") (replace v _HOME (lit "<home>"))).
End Redact.

Example redacts : redact_diagnostic (lit "/home/me") (lit "in /home/me: API-KEY = no, Token: abc;  bearer x y")
  = lit "in <home>: API-KEY = no, <redacted>;  <redacted> y".
Proof. vm_compute. reflexivity. Qed.

(** ** Nothing recognisable is left *)

(** A key at the head of a string, with a character of a value after it. *)
Definition token_at (s : str) : Prop :=
  exists k c t, s = k ++ c :: t /\ matches _TOKEN_KEY k /\ value_char c = true.

Lemma longest_token s : longest _TOKEN s = None <-> ~ token_at s.
Proof.
  rewrite longest_None. unfold _TOKEN, token_at. setoid_rewrite matches_cat. setoid_rewrite matches_plus_set. split.
  - intros H (k & c & t & -> & Hk & Hc). apply (H (k ++ [c]) t); [by rewrite <-app_assoc|].
    exists k, [c]. split; [done|]. split; [done|]. split; [done|]. simpl. by rewrite Hc.
  - intros H u t -> (k & x & -> & Hk & Hne & Hx). destruct x as [|c x]; [done|]. apply andb_true_iff in Hx as [Hc _].
    apply H. exists k, c, (x ++ t). by rewrite <-app_assoc.
Qed.

Lemma matches_letter c r s : matches (RCat (letter c) r) s -> exists d t, s = d :: t /\ d ∈ variants c /\ matches r t.
Proof.
  intros (d & t & -> & (x & Hx & ->%N.eqb_eq)%existsb_exists & Hr)%matches_cons_set. exists x, t. by rewrite list_elem_of_In.
Qed.

(** A key begins with one of five letters, none of which ends a value. *)
Lemma key_head k : matches _TOKEN_KEY k -> exists d t, k = d :: t /\ value_char d = true.
Proof.
  assert (forall c r s, forallb value_char (variants c) = true -> matches (RCat (letter c) r) s ->
            exists d t, s = d :: t /\ value_char d = true) as Hl.
  { intros c r s Hv (d & t & -> & Hd & _)%matches_letter. exists d, t. split; [done|].
    rewrite forallb_forall in Hv. by apply Hv, list_elem_of_In. }
  unfold _TOKEN_KEY. rewrite matches_alt, !matches_cat. setoid_rewrite matches_alt.
  intros [(u & v & -> & Hu & _)|(u & v & -> & Hu & _)].
  - apply Hl in Hu as (d & t & -> & ?); [by exists d, (t ++ v) | reflexivity].
  - assert (exists d t, u = d :: t /\ value_char d = true) as (d & t & -> & ?); [|by exists d, (t ++ v)].
    destruct Hu as [Hu|Hu]; [apply Hl in Hu; [done | reflexivity]|]. apply matches_alt in Hu as [Hu|Hu].
    + apply matches_cat in Hu as (x & y & -> & Hx & _). apply Hl in Hx as (d & t & -> & ?); [by exists d, (t ++ y) | reflexivity].
    + apply matches_alt in Hu as [Hu|Hu]; (apply Hl in Hu; [done | reflexivity]).
Qed.

Lemma match_head s n : longest _TOKEN s = Some n -> exists d t, s = d :: t /\ value_char d = true /\ (0 < n)%nat.
Proof.
  intros [H Hn]%longest_Some. unfold _TOKEN in H. apply matches_cat in H as (k & x & E & (d & t & -> & Hd)%key_head & _).
  destruct n as [|n]; [done|]. destruct s as [|c s]; [done|]. injection E as -> _. exists d, s. split; [done|]. split; [done | lia].
Qed.

Definition redacted : str := lit "<redacted>".

(** The next step of [sub]: a kept character, or a replaced match. *)
Lemma sub_step s :
  s = [] \/ (exists c s', s = c :: s' /\ ~ token_at s /\ sub _TOKEN redacted s = c :: sub _TOKEN redacted s')
  \/ exists c s' n, s = c :: s' /\ value_char c = true
       /\ sub _TOKEN redacted s = redacted ++ sub _TOKEN redacted (drop n s').
Proof.
  destruct s as [|c s]; [by left|]. right. unfold sub. cbn [sub_go].
  destruct (longest _TOKEN (c :: s)) as [[|n]|] eqn:E.
  - apply match_head in E as (? & ? & _ & _ & ?). lia.
  - right. pose proof E as E'. apply match_head in E' as (d & t & [= -> ->] & Hd & _). exists d, t, n. split; [done|].
    split; [done|]. f_equal. clear. revert n. induction t as [|x t IH]; intros [|n]; cbn [sub_go drop]; try done.
  - left. exists c, s. split; [done|]. split; [by apply longest_token | done].
Qed.

Lemma app_prefix {A} (p k r t : list A) x :
  x ∉ k -> p ++ x :: r = k ++ t -> exists q, p = k ++ q.
Proof.
  revert p. induction k as [|a k IH]; intros p Hx E; [by exists p|]. rewrite not_elem_of_cons in Hx. destruct Hx as [Ha Hk].
  destruct p as [|b p]; [injection E as -> _; done|]. injection E as -> E. destruct (IH p Hk E) as [q ->]. by exists q.
Qed.

(** A key that is kept was there, with what followed it or a match in its place. *)
Lemma kept_key k c t s :
  60%N ∉ k -> value_char c = true -> sub _TOKEN redacted s = k ++ c :: t ->
  exists c' t', s = k ++ c' :: t' /\ value_char c' = true.
Proof.
  revert s. induction k as [|a k IH]; intros s Hk Hc E.
  - destruct (sub_step s) as [->|[(x & s' & -> & _ & E')|(x & s' & n & -> & Hx & _)]]; [done | | by exists x, s'].
    rewrite E' in E. injection E as -> _. by exists c, s'.
  - rewrite not_elem_of_cons in Hk. destruct Hk as [Ha Hk].
    destruct (sub_step s) as [->|[(x & s' & -> & _ & E')|(x & s' & n & -> & Hx & E')]]; [done | |].
    + rewrite E' in E. injection E as -> E. destruct (IH s' Hk Hc E) as (c' & t' & -> & ?). by exists c', t'.
    + rewrite E' in E. injection E as <- _. done.
Qed.

(** No key begins inside the replacement. *)
Lemma redacted_no_key q p u :
  redacted = q ++ p -> p <> [] -> ~ token_at (p ++ u).
Proof.
  intros Hp Hne (k & c & r & E & Hk & _).
  assert (62%N ∉ k) as Hgt by (apply (avoids_spec 62 _TOKEN_KEY); [reflexivity | done]).
  assert (exists p', p = p' ++ [62%N]) as [p' ->].
  { destruct (exists_last Hne) as (p' & x & ->). exists p'. rewrite app_assoc in Hp.
    assert (lit "<redacted" ++ [62%N] = (q ++ p') ++ [x]) as [_ <-]%app_inj_tail by exact Hp. done. }
  rewrite <-app_assoc in E. destruct (app_prefix _ _ _ _ _ Hgt E) as [w ->].
  assert (lit "<redacted" = q ++ k ++ w) as Hr.
  { rewrite !app_assoc in Hp. change redacted with (lit "<redacted" ++ [62%N]) in Hp.
    apply app_inj_tail in Hp as [Hp _]. by rewrite <-app_assoc in Hp. }
  assert (forallb (fun i => forallb (fun j => negb (fullmatch _TOKEN_KEY (take j (drop i (lit "<redacted"))))) (seq 0 10)) (seq 0 10) = true)
    as Hall by (vm_compute; reflexivity).
  assert (length (lit "<redacted") = length q + (length k + length w))%nat as Hlen by (rewrite Hr, !length_app; done).
  change (length (lit "<redacted")) with 9%nat in Hlen.
  rewrite forallb_forall in Hall. specialize (Hall (length q)). rewrite forallb_forall in Hall.
  rewrite Hr, drop_app_length in Hall. specialize (Hall ltac:(apply in_seq; lia) (length k) ltac:(apply in_seq; lia)).
  rewrite take_app_length in Hall. apply fullmatch_matches in Hk. by rewrite Hk in Hall.
Qed.

Lemma sub_clean s u v : sub _TOKEN redacted s = u ++ v -> ~ token_at v.
Proof.
  remember (length s) as n eqn:En. revert s u v En. induction n as [n IH] using lt_wf_ind. intros s u v -> E Hv.
  assert (forall v', token_at v' -> sub _TOKEN redacted s = v' -> ~ ~ token_at s) as Hkept.
  { intros v' (k & c & t & -> & Hk & Hc) E' Hs. apply kept_key in E' as (c' & t' & -> & Hc'); [|by apply (avoids_spec 60 _TOKEN_KEY) | done].
    apply Hs. by exists k, c', t'. }
  destruct (sub_step s) as [->|[(c & s' & -> & Hs & E')|(c & s' & n & -> & _ & E')]].
  - symmetry in E. apply app_eq_nil in E as [_ ->]. destruct Hv as ([] & ? & ? & ? & _); done.
  - destruct u as [|a u]; [by apply (Hkept v Hv)|]. rewrite E' in E. injection E as _ E.
    by apply (IH (length s') ltac:(simpl; lia) s' u v).
  - rewrite E' in E. destruct (decide (length redacted <= length u)%nat) as [Hle|Hgt].
    + apply (f_equal (drop (length redacted))) in E. rewrite drop_app_length, drop_app_le in E by done.
      refine (IH (length (drop n s')) _ (drop n s') _ v eq_refl E Hv). rewrite length_drop. simpl. lia.
    + assert (redacted = u ++ drop (length u) redacted /\ v = drop (length u) redacted ++ sub _TOKEN redacted (drop n s')) as [Er ->].
      { pose proof (f_equal (take (length u)) E) as E1. pose proof (f_equal (drop (length u)) E) as E2.
        rewrite take_app_le, take_app_length in E1 by lia. rewrite drop_app_le, drop_app_length in E2 by lia.
        split; [|done]. rewrite <-(take_drop (length u) redacted) at 1. by rewrite E1. }
      apply (redacted_no_key u _ _ Er) in Hv; [done|]. intros H0. apply (f_equal length) in H0. rewrite length_drop in H0. simpl in H0.
      change (length redacted) with 10%nat in *. lia.
Qed.

(** C29. A diagnostic has at most 512 characters, and no credential is left in it that the
    pattern recognises: nowhere in it does a key come with a value, not even across the
    edge of something that was replaced or cut. *)
Theorem redaction_complete home v :
  (len (redact_diagnostic home v) <= 512)%Z
  /\ forall u t, redact_diagnostic home v = u ++ t -> longest _TOKEN t = None.
Proof.
  unfold redact_diagnostic, len. fold redacted. generalize (replace v home (lit "<home>")). intros s. split.
  - rewrite length_take. lia.
  - intros u t E. apply longest_token. intros (k & c & r & -> & Hk & Hc).
    apply (sub_clean s u (k ++ c :: r ++ drop 512 (sub _TOKEN redacted s))); [|by exists k, c, (r ++ drop 512 (sub _TOKEN redacted s))].
    rewrite <-(take_drop 512 (sub _TOKEN redacted s)) at 1. rewrite E. by rewrite <-!app_assoc, <-app_comm_cons.
Qed.

(** What follows a value is not part of it: of two keys in a row the second is taken for
    the value of the first, and its own value stays. *)
Lemma second_key_escapes :
  redact_diagnostic (lit "/root") (lit "token: Bearer abc") = lit "<redacted> abc".
Proof. vm_compute. reflexivity. Qed.
