(* ===== verification/NotificationBatch.v ===== *)
(** * Notification leases

    [notification_batch.py]: before a desktop notification is sent, its candidates are
    reserved in the ledger under a lease of 30 seconds; one kind has one owner at a time.
    [Storage] is used through the class [StateStore] (file StateStore). The last section is
    the interleaving of claims, completions, clicks and scans of any number of processes;
    a scan publishes the ledger it loaded, and what that drops is recorded. *)

From S2P Require Import Prelude PyStr Calendar Models Samples Json Fields Validation Wire StorageWatches StorageState.
From S2P Require Import StateStore RunnerTypes.

Open Scope Z_scope.

Definition _LEASE_DURATION : Z := seconds 30.

Record NotificationBatch := {
  b_kind : NotificationKind;
  b_candidates : list NotificationCandidate;
  b_lease_token : str;
}.

(** ** Entries and leases *)

Definition _entry (s : PersistentState) (fp : str) : option LedgerEntry :=
  List.find (fun e => bool_decide (e_fingerprint e = fp)) (st_ledger s).

Definition _owner_fingerprint (kind : NotificationKind) : str :=
  lit "notification-owner-v1:" ++ value kind.

Definition _pending (status : NotificationStatus) : bool :=
  match status with PENDING => true | DELIVERED | SUPPRESSED | FAILED => false end.

Definition is_dispatchable (e : option LedgerEntry) : bool :=
  match e with None => true | Some e => _pending (e_status e) end.

Definition failure_status (change : NotificationChange) : NotificationStatus :=
  match change with FIRST | NEW | UNCHANGED => PENDING end.

Definition _delivery_status (result : CommandResult) (change : NotificationChange) : NotificationStatus :=
  match result with
  | CommandSucceeded _ _ => DELIVERED
  | CommandExited _ _ _ | CommandMissing _ | CommandOutputExceeded _ _ _ | CommandTimedOut _ _ =>
      failure_status change
  | CommandRejected _ => FAILED
  end.

Definition _owned_by (e : option LedgerEntry) (token : str) : bool :=
  match e with None => false | Some e => bool_decide (e_lease_token e = Some token) end.

Definition _owns_owner (s : PersistentState) (kind : NotificationKind) (token : str) : bool :=
  _owned_by (_entry s (_owner_fingerprint kind)) token.

Definition _live_lease (e : LedgerEntry) (now : datetime) : res bool :=
  match e_lease_token e, e_lease_expires_at e with
  | Some _, Some expires => dt_cmp Z.gtb expires now
  | _, _ => Ok false
  end.

Definition _claimable (e : option LedgerEntry) (now : datetime) : res bool :=
  match e with
  | None => Ok true
  | Some e => if _pending (e_status e) then live ← _live_lease e now; Ok (negb live) else Ok false
  end.

(** [tuple(x for x in l if f(x))] *)
Fixpoint filterM {A} (f : A -> res bool) (l : list A) : res (list A) :=
  match l with
  | [] => Ok []
  | x :: l' =>
      b ← f x;
      ys ← filterM f l';
      Ok match b with true => x :: ys | false => ys end
  end.

Definition _upsert (ledger : list LedgerEntry) (updated : LedgerEntry) : list LedgerEntry :=
  if existsb (fun e => bool_decide (e_fingerprint e = e_fingerprint updated)) ledger
  then (fun e => if bool_decide (e_fingerprint e = e_fingerprint updated) then updated else e) <$> ledger
  else ledger ++ [updated].

Definition with_status (e : LedgerEntry) (status : NotificationStatus) : LedgerEntry :=
  {| e_fingerprint := e_fingerprint e; e_status := status; e_recorded_at := e_recorded_at e;
     e_lease_token := e_lease_token e; e_lease_expires_at := e_lease_expires_at e |}.

Definition _suppress_superseded (ledger : list LedgerEntry) (candidates : list NotificationCandidate)
    : list LedgerEntry :=
  let fingerprints : gset str := list_to_set (c_fingerprint <$> candidates) in
  let references := c_reference <$> candidates in
  (fun e => if bool_decide (e_fingerprint e ∉ fingerprints) && is_active e
               && existsb (startswith (e_fingerprint e)) references
            then with_status e SUPPRESSED else e) <$> ledger.

(** The entry a reservation writes. *)
Definition lease (fp token : str) (now expires : datetime) : LedgerEntry :=
  {| e_fingerprint := fp; e_status := PENDING; e_recorded_at := now;
     e_lease_token := Some token; e_lease_expires_at := Some expires |}.

Definition _reserve_batch (s : PersistentState) (kind : NotificationKind)
    (candidates : list NotificationCandidate) (now : datetime) (token : str) : res PersistentState :=
  held ← match _entry s (_owner_fingerprint kind) with
         | None => Ok false
         | Some owner => _live_lease owner now
         end;
  match held with
  | true => Ok s
  | false =>
      claimed ← filterM (fun c => _claimable (_entry s (c_fingerprint c)) now) candidates;
      match claimed with
      | [] => Ok s
      | _ =>
          expires ← dt_plus now _LEASE_DURATION;
          let ledger := foldl (fun l c => _upsert l (lease (c_fingerprint c) token now expires))
                          (_suppress_superseded (st_ledger s) claimed) claimed in
          let ledger := _upsert ledger (lease (_owner_fingerprint kind) token now expires) in
          Ok {| st_watches := st_watches s; st_ledger := ledger; st_sources := st_sources s |}
      end
  end.

(** [{c.fingerprint: status(c) for c in candidates}]: a later candidate replaces an earlier one. *)
Definition updates (b : NotificationBatch) (result : CommandResult) : gmap str NotificationStatus :=
  list_to_map (reverse ((fun c => (c_fingerprint c, _delivery_status result (c_change c))) <$> b_candidates b)).

Definition completed_by (b : NotificationBatch) (result : CommandResult) (e : LedgerEntry)
    : option NotificationStatus :=
  if _owned_by (Some e) (b_lease_token b) then updates b result !! e_fingerprint e else None.

Definition completed_entry (b : NotificationBatch) (result : CommandResult) (e : LedgerEntry) : LedgerEntry :=
  match completed_by b result e with
  | Some status =>
      {| e_fingerprint := e_fingerprint e; e_status := status; e_recorded_at := e_recorded_at e;
         e_lease_token := None; e_lease_expires_at := None |}
  | None => e
  end.

Definition _complete_batch (s : PersistentState) (b : NotificationBatch) (result : CommandResult)
    : PersistentState * gset str :=
  if negb (_owns_owner s (b_kind b) (b_lease_token b)) then (s, ∅)
  else
    let completed := list_to_set (e_fingerprint <$>
                       List.filter (fun e => is_some (completed_by b result e)) (st_ledger s)) in
    let ledger := completed_entry b result <$>
                    List.filter (fun e => bool_decide (e_fingerprint e <> _owner_fingerprint (b_kind b)))
                      (st_ledger s) in
    ({| st_watches := st_watches s; st_ledger := ledger; st_sources := st_sources s |}, completed).

Section Clients.
Context `{StateStore Store}.

(** [token] is the answer of [uuid4().hex]. The store is changed even when the update raises
    after it took place. *)
Definition claim_batch (kind : NotificationKind) (candidates : list NotificationCandidate)
    (now : datetime) (token : str) (store : Store) : Store * res (option NotificationBatch) :=
  let '(store', r) :=
    update_state (fun current => s ← _reserve_batch current kind candidates now token; Ok (s, tt)) store in
  (store',
   '(s, _) ← r;
   let claimed := List.filter (fun c => _owned_by (_entry s (c_fingerprint c)) token) candidates in
   Ok match claimed with
      | [] => None
      | _ => if _owns_owner s kind token
             then Some {| b_kind := kind; b_candidates := claimed; b_lease_token := token |}
             else None
      end).

Definition complete_batch (b : NotificationBatch) (result : CommandResult) (store : Store)
    : Store * res (list NotificationOutcome) :=
  let '(store', r) := update_state (fun current => Ok (_complete_batch current b result)) store in
  (store',
   '(_, completed) ← r;
   Ok ((fun c => {| outcome_fingerprint := c_fingerprint c;
                    outcome_status := _delivery_status result (c_change c) |})
         <$> List.filter (fun c => bool_decide (c_fingerprint c ∈ (completed : gset str))) (b_candidates b))).
End Clients.

(** ** The ledger as a finite map *)

Definition find_entry (l : list LedgerEntry) (fp : str) : option LedgerEntry :=
  List.find (fun e => bool_decide (e_fingerprint e = fp)) l.

Lemma find_entry_Some l fp e : find_entry l fp = Some e -> e ∈ l /\ e_fingerprint e = fp.
Proof. intros [? E]%List.find_some. apply bool_decide_eq_true in E. by rewrite list_elem_of_In. Qed.

Lemma find_entry_map (f : LedgerEntry -> LedgerEntry) l fp :
  (forall e, e_fingerprint (f e) = e_fingerprint e) -> find_entry (f <$> l) fp = f <$> find_entry l fp.
Proof.
  intros Hf. induction l as [|e l IH]; [done|]. unfold find_entry in *. csimpl. rewrite Hf.
  by case_bool_decide.
Qed.

Lemma find_entry_cons e l fp :
  find_entry (e :: l) fp = if bool_decide (e_fingerprint e = fp) then Some e else find_entry l fp.
Proof. done. Qed.

Lemma find_entry_replace l u fp :
  find_entry ((fun e => if bool_decide (e_fingerprint e = e_fingerprint u) then u else e) <$> l) fp
  = if bool_decide (fp = e_fingerprint u) then (fun _ => u) <$> find_entry l fp else find_entry l fp.
Proof.
  induction l as [|e l IH]; [by case_bool_decide|]. rewrite fmap_cons, !find_entry_cons, IH.
  destruct (decide (e_fingerprint e = e_fingerprint u)) as [He|He].
  - rewrite (bool_decide_true (e_fingerprint e = e_fingerprint u)), He by done.
    destruct (decide (e_fingerprint u = fp)) as [<-|Hn]; [by rewrite !bool_decide_true|].
    rewrite !bool_decide_false by congruence. done.
  - rewrite (bool_decide_false (e_fingerprint e = e_fingerprint u)) by done.
    destruct (decide (e_fingerprint e = fp)) as [<-|Hn].
    + rewrite (bool_decide_true (e_fingerprint e = e_fingerprint e)) by done. by rewrite bool_decide_false.
    + by rewrite !(bool_decide_false (e_fingerprint e = fp)).
Qed.

Lemma find_entry_existsb l fp :
  existsb (fun e => bool_decide (e_fingerprint e = fp)) l = is_some (find_entry l fp).
Proof. induction l as [|e l IH]; [done|]. rewrite find_entry_cons. simpl. by case_bool_decide. Qed.

Lemma find_entry_upsert l u fp :
  find_entry (_upsert l u) fp = if bool_decide (fp = e_fingerprint u) then Some u else find_entry l fp.
Proof.
  unfold _upsert. rewrite find_entry_existsb. destruct (find_entry l (e_fingerprint u)) eqn:E; simpl.
  - rewrite find_entry_replace. case_bool_decide; [|done]. subst. by rewrite E.
  - unfold find_entry in *. rewrite find_app. simpl. destruct (decide (fp = e_fingerprint u)) as [->|Hn].
    + by rewrite E, !bool_decide_true.
    + rewrite (bool_decide_false (e_fingerprint u = fp)), (bool_decide_false (fp = _)) by congruence.
      by case_match.
Qed.

Lemma find_entry_leases l claimed token now expires fp :
  find_entry (foldl (fun l c => _upsert l (lease (c_fingerprint c) token now expires)) l claimed) fp
  = if bool_decide (fp ∈ c_fingerprint <$> claimed) then Some (lease fp token now expires) else find_entry l fp.
Proof.
  revert l. induction claimed as [|c cs IH]; intros l; csimpl.
  - done.
  - rewrite IH, find_entry_upsert. cbn [e_fingerprint lease].
    destruct (decide (fp = c_fingerprint c)) as [->|Hne].
    + rewrite (bool_decide_true (c_fingerprint c = _)), (bool_decide_true (_ ∈ _ :: _)) by (done || constructor).
      by case_bool_decide.
    + rewrite (bool_decide_false (fp = _)) by done. do 2 case_bool_decide; try done; set_solver.
Qed.

Lemma find_entry_without l fp gone :
  find_entry (List.filter (fun e => bool_decide (e_fingerprint e <> gone)) l) fp
  = if bool_decide (fp = gone) then None else find_entry l fp.
Proof.
  induction l as [|e l IH]; [by case_bool_decide|].
  rewrite find_entry_cons. simpl. destruct (decide (e_fingerprint e = gone)) as [He|He].
  - rewrite (bool_decide_false (e_fingerprint e <> gone)), IH by (by intros []).
    destruct (decide (fp = gone)) as [->|]; [by rewrite !(bool_decide_true (gone = gone)) by done|].
    by rewrite !(bool_decide_false (fp = gone)), (bool_decide_false (e_fingerprint e = fp)) by congruence.
  - rewrite (bool_decide_true (e_fingerprint e <> gone)), find_entry_cons, IH by done.
    destruct (decide (e_fingerprint e = fp)) as [<-|]; [|by rewrite !(bool_decide_false (e_fingerprint e = fp)) by done].
    by rewrite !(bool_decide_true (e_fingerprint e = _)), (bool_decide_false (e_fingerprint e = gone)) by done.
Qed.

(** Pruning keeps pending entries where look-ups find them. *)
Lemma find_entry_pruned cutoff l fp e :
  find_entry l fp = Some e -> is_active e = true -> find_entry (pruned_ledger cutoff l) fp = Some e.
Proof.
  intros Hf Ha. unfold pruned_ledger, find_entry in *. rewrite find_app.
  assert (List.find (fun e => bool_decide (e_fingerprint e = fp)) (List.filter is_active l) = Some e) as ->; [|done].
  induction l as [|x l IH]; [done|]. simpl in *. case_bool_decide as Hx.
  - injection Hf as ->. rewrite Ha. simpl. by rewrite bool_decide_true.
  - destruct (is_active x); simpl; [rewrite bool_decide_false by done|]; auto.
Qed.

Lemma suppress_fingerprint cs e :
  e_fingerprint (if bool_decide (e_fingerprint e ∉ (list_to_set (c_fingerprint <$> cs) : gset str)) && is_active e
               && existsb (startswith (e_fingerprint e)) (c_reference <$> cs)
            then with_status e SUPPRESSED else e) = e_fingerprint e.
Proof. by destruct (_ && _). Qed.

Lemma suppress_cases l cs fp :
  find_entry (_suppress_superseded l cs) fp = find_entry l fp
  \/ exists e, find_entry l fp = Some e /\ is_active e = true
       /\ find_entry (_suppress_superseded l cs) fp = Some (with_status e SUPPRESSED)
       /\ existsb (startswith fp) (c_reference <$> cs) = true.
Proof.
  unfold _suppress_superseded. rewrite find_entry_map by apply suppress_fingerprint.
  destruct (find_entry l fp) as [e|] eqn:E; [|by left]. simpl. destruct (_ && _) eqn:Eb; [right|by left].
  apply andb_true_iff in Eb as [[_ Ha]%andb_true_iff Hr]. apply find_entry_Some in E as [_ <-]. eauto.
Qed.

(** ** Reserving *)

Lemma filterM_Ok {A} (f : A -> res bool) l k :
  filterM f l = Ok k -> forall x, x ∈ k <-> x ∈ l /\ f x = Ok true.
Proof.
  revert k. induction l as [|x l IH]; intros k; simpl.
  - intros [= <-] y. rewrite elem_of_nil. tauto.
  - intros H. apply bind_Ok in H as (b & Hb & H). apply bind_Ok in H as (ys & Hys & [= <-]). intros y.
    specialize (IH ys Hys y). rewrite elem_of_cons. destruct b; rewrite ?elem_of_cons, IH; intuition (subst; congruence).
Qed.

(** The two outcomes of a reservation: nothing, or a lease on the claimable candidates
    and on the owner entry of the kind, which was free. *)
Inductive reserved (s : PersistentState) (kind : NotificationKind) (candidates : list NotificationCandidate)
    (now : datetime) (token : str) : PersistentState -> Prop :=
| reserved_nothing : reserved s kind candidates now token s
| reserved_lease claimed expires ledger :
    (forall owner, _entry s (_owner_fingerprint kind) = Some owner -> _live_lease owner now = Ok false) ->
    claimed <> [] -> Forall (fun c => c ∈ candidates /\ _claimable (_entry s (c_fingerprint c)) now = Ok true) claimed ->
    expires = dt_add now _LEASE_DURATION ->
    (forall fp, find_entry ledger fp =
       if bool_decide (fp = _owner_fingerprint kind) then Some (lease fp token now expires)
       else if bool_decide (fp ∈ c_fingerprint <$> claimed) then Some (lease fp token now expires)
       else find_entry (_suppress_superseded (st_ledger s) claimed) fp) ->
    reserved s kind candidates now token
      {| st_watches := st_watches s; st_ledger := ledger; st_sources := st_sources s |}.

Lemma reserve_batch_reserved s kind cs now token s' :
  _reserve_batch s kind cs now token = Ok s' -> reserved s kind cs now token s'.
Proof.
  unfold _reserve_batch. intros H. apply bind_Ok in H as (held & Hheld & H).
  destruct held; [injection H as <-; constructor|]. apply bind_Ok in H as (claimed & Hcl & H).
  pose proof (filterM_Ok _ _ _ Hcl) as Hmem. destruct claimed as [|c0 cl]; [injection H as <-; constructor|].
  apply bind_Ok in H as (expires & [-> _]%dt_plus_Ok & H). injection H as <-.
  eapply (reserved_lease s kind cs now token (c0 :: cl) _ _).
  - intros owner Ho. by rewrite Ho in Hheld.
  - done.
  - apply Forall_forall. intros c Hc. by apply Hmem.
  - reflexivity.
  - intros fp. rewrite find_entry_upsert. cbn [e_fingerprint lease]. case_bool_decide; [by subst|].
    exact (find_entry_leases (_suppress_superseded (st_ledger s) (c0 :: cl)) (c0 :: cl) token now _ fp).
Qed.

(** ** Reservations keep the ledger valid *)

Definition valid_ledger (l : list LedgerEntry) : Prop :=
  NoDup (e_fingerprint <$> l) /\ Forall valid_lease l.

Lemma upsert_valid l u : valid_ledger l -> valid_lease u -> valid_ledger (_upsert l u).
Proof.
  intros [Hnd Hl] Hu. unfold _upsert. destruct (existsb _ l) eqn:E; split.
  - rewrite <-list_fmap_compose. rewrite (list_fmap_ext _ e_fingerprint); [done|].
    intros _ e _. simpl. by case_bool_decide.
  - apply Forall_fmap. eapply Forall_impl; [exact Hl|]. intros e He. simpl. by case_bool_decide.
  - rewrite fmap_app. apply NoDup_app. split; [done|]. split; [|apply NoDup_singleton].
    intros fp (e & -> & He)%list_elem_of_fmap Hfp. simpl in Hfp. apply list_elem_of_singleton in Hfp.
    assert (existsb (fun e => bool_decide (e_fingerprint e = e_fingerprint u)) l = true); [|congruence].
    apply existsb_exists. exists e. split; [by apply list_elem_of_In | by apply bool_decide_eq_true].
  - apply Forall_app. split; [done|]. by constructor.
Qed.

Lemma lease_valid fp token now expires : token <> [] -> valid_lease (lease fp token now expires).
Proof. intros Ht. split; simpl; [split; eauto | congruence]. Qed.

Lemma suppress_valid l cs : valid_ledger l -> valid_ledger (_suppress_superseded l cs).
Proof.
  intros [Hnd Hl]. unfold _suppress_superseded. split.
  - rewrite <-list_fmap_compose. rewrite (list_fmap_ext _ e_fingerprint); [done|].
    intros _ e _. apply suppress_fingerprint.
  - apply Forall_fmap. eapply Forall_impl; [exact Hl|]. intros e He. simpl. by destruct (_ && _).
Qed.

Lemma leases_valid l claimed token now expires :
  token <> [] -> valid_ledger l ->
  valid_ledger (foldl (fun l c => _upsert l (lease (c_fingerprint c) token now expires)) l claimed).
Proof.
  intros Ht. revert l. induction claimed as [|c cs IH]; intros l Hl; simpl; [done|].
  apply IH, upsert_valid; [done|]. by apply lease_valid.
Qed.

Lemma with_valid_ledger s l :
  valid_state s -> valid_ledger l ->
  valid_state {| st_watches := st_watches s; st_ledger := l; st_sources := st_sources s |}.
Proof. intros [] [? ?]. by constructor. Qed.

Lemma valid_state_ledger s : valid_state s -> valid_ledger (st_ledger s).
Proof. by intros []. Qed.

Lemma reserve_batch_valid s kind cs now token s' :
  valid_state s -> token <> [] -> _reserve_batch s kind cs now token = Ok s' -> valid_state s'.
Proof.
  intros Hs Ht H. unfold _reserve_batch in H. apply bind_Ok in H as (held & _ & H).
  destruct held; [by injection H as <-|]. apply bind_Ok in H as (claimed & _ & H).
  destruct claimed as [|c0 cl]; [by injection H as <-|]. apply bind_Ok in H as (expires & _ & H). injection H as <-.
  apply with_valid_ledger; [done|]. apply upsert_valid; [|by apply lease_valid].
  apply (leases_valid _ (c0 :: cl)); [done|]. by apply suppress_valid, valid_state_ledger.
Qed.

Lemma completed_fingerprint b r e : e_fingerprint (completed_entry b r e) = e_fingerprint e.
Proof. unfold completed_entry. by destruct (completed_by b r e). Qed.

Lemma complete_batch_valid s b r : valid_state s -> valid_state (_complete_batch s b r).1.
Proof.
  intros Hs. unfold _complete_batch. destruct (negb _); [done|]. cbn [fst].
  pose proof (valid_state_ledger s Hs) as [Hnd Hl]. apply with_valid_ledger; [done|]. split.
  - rewrite <-list_fmap_compose. rewrite (list_fmap_ext _ e_fingerprint) by (intros; apply completed_fingerprint).
    by apply NoDup_map_filter.
  - apply Forall_fmap. eapply Forall_impl; [by apply Forall_filter_bool|]. intros e He. simpl.
    unfold completed_entry. destruct (completed_by b r e); [|done]. split; simpl; [by split; intros []|done].
Qed.

(** ** Look-ups after a completion *)

Lemma find_entry_complete s b r fp :
  _owns_owner s (b_kind b) (b_lease_token b) = true ->
  _entry (_complete_batch s b r).1 fp
  = if bool_decide (fp = _owner_fingerprint (b_kind b)) then None else completed_entry b r <$> _entry s fp.
Proof.
  intros Ho. unfold _complete_batch. rewrite Ho. cbn [negb fst]. change (_entry ?s ?f) with (find_entry (st_ledger s) f).
  cbn [st_ledger]. rewrite find_entry_map by apply completed_fingerprint. rewrite find_entry_without.
  by case_bool_decide.
Qed.

(** ** Properties *)

(** Candidates of the policy: their fingerprints and references are not those of an
    owner entry. *)
Record proper_candidate (c : NotificationCandidate) : Prop := {
  pc_fingerprint kind : c_fingerprint c <> _owner_fingerprint kind;
  pc_reference kind : startswith (_owner_fingerprint kind) (c_reference c) = false;
}.

Lemma _entry_find s fp : _entry s fp = find_entry (st_ledger s) fp.
Proof. done. Qed.

Lemma owner_inj k k' : _owner_fingerprint k = _owner_fingerprint k' -> k = k'.
Proof. intros E%app_inv_head. by apply (inj value) in E. Qed.

(** What a reservation does to the owner entry of each kind. *)
Lemma reserved_owner s kind cs now token s' :
  Forall proper_candidate cs -> reserved s kind cs now token s' ->
  s' = s \/
  (forall owner, _entry s (_owner_fingerprint kind) = Some owner -> _live_lease owner now = Ok false)
  /\ forall k, _entry s' (_owner_fingerprint k)
     = if bool_decide (k = kind)
       then Some (lease (_owner_fingerprint kind) token now (dt_add now _LEASE_DURATION))
       else _entry s (_owner_fingerprint k).
Proof.
  intros Hp [|claimed expires ledger Hfree _ Hcl -> Hl]; [by left | right]. split; [done|]. intros k.
  assert (forall c, c ∈ claimed -> proper_candidate c) as Hpc.
  { intros c Hc. rewrite Forall_forall in Hcl, Hp. apply Hp, (Hcl c Hc). }
  rewrite !_entry_find. cbn [st_ledger]. rewrite Hl. destruct (decide (k = kind)) as [->|Hk].
  - by rewrite !bool_decide_true.
  - rewrite (bool_decide_false (k = kind)), (bool_decide_false (_ = _)) by (done || by intros E%owner_inj).
    rewrite bool_decide_false.
    2:{ intros (c & E & Hc)%list_elem_of_fmap. by apply (pc_fingerprint c (Hpc c Hc) k). }
    destruct (suppress_cases (st_ledger s) claimed (_owner_fingerprint k)) as [E|(e & _ & _ & _ & Hx)]; [done|].
    apply existsb_exists in Hx as (r & Hr & Hs). apply list_elem_of_In, list_elem_of_fmap in Hr as (c & -> & Hc).
    by rewrite (pc_reference c (Hpc c Hc) k) in Hs.
Qed.

Lemma unowned_filter s token (cs : list NotificationCandidate) :
  Forall (fun e => e_lease_token e <> Some token) (st_ledger s) ->
  List.filter (fun c => _owned_by (_entry s (c_fingerprint c)) token) cs = [].
Proof.
  intros Hf. apply filter_none, Forall_true. intros c. rewrite _entry_find.
  destruct (find_entry _ _) as [e|] eqn:E; [|done]. apply find_entry_Some in E as [He _].
  rewrite Forall_forall in Hf. simpl. apply bool_decide_eq_false. auto.
Qed.

(** ** Timestamps stay in range *)

Definition entry_in_range (e : LedgerEntry) : Prop := Forall in_range (entry_times e).

Lemma ledger_in_range s :
  Forall in_range (state_times s) <->
  Forall entry_in_range (st_ledger s) /\ Forall in_range (st_sources s ≫= metadata_times).
Proof. unfold state_times. by rewrite Forall_app, Forall_bind_iff. Qed.

Lemma upsert_Forall (P : LedgerEntry -> Prop) l u : Forall P l -> P u -> Forall P (_upsert l u).
Proof.
  intros Hl Hu. unfold _upsert. destruct (existsb _ l); [|apply Forall_app; auto].
  apply Forall_fmap. eapply Forall_impl; [exact Hl|]. intros e He. simpl. by case_bool_decide.
Qed.

Lemma leases_Forall (P : LedgerEntry -> Prop) l claimed token now expires :
  Forall P l -> (forall fp, P (lease fp token now expires)) ->
  Forall P (foldl (fun l c => _upsert l (lease (c_fingerprint c) token now expires)) l claimed).
Proof. intros Hl Hp. revert l Hl. induction claimed as [|c cs IH]; intros l Hl; [done|]. simpl. by apply IH, upsert_Forall. Qed.

Lemma reserve_keeps_range kind cs now token :
  in_range now -> keeps_range (fun s => s' ← _reserve_batch s kind cs now token; Ok (s', tt)).
Proof.
  intros Hn s p x Hs H. apply bind_Ok in H as (p' & H & [= -> _]). unfold _reserve_batch in H.
  apply bind_Ok in H as ([|] & _ & H); [by injection H as <-|].
  apply bind_Ok in H as ([|c0 cl] & _ & H); [by injection H as <-|].
  apply bind_Ok in H as (expires & [_ He]%dt_plus_Ok & <-%Ok_inj).
  apply ledger_in_range in Hs as [Hl Hm]. apply ledger_in_range. split; [|done]. cbn [st_ledger].
  assert (forall fp, entry_in_range (lease fp token now expires)) as Hle.
  { intros fp. constructor; [done|]. constructor; [done | constructor]. }
  apply upsert_Forall; [apply leases_Forall|]; auto. apply Forall_fmap. eapply Forall_impl; [exact Hl|].
  intros e Hx. simpl. by destruct (_ && _).
Qed.

Lemma complete_keeps_range b result : keeps_range (fun s => Ok (_complete_batch s b result)).
Proof.
  intros s p x Hs [= H]. apply (f_equal fst) in H. simpl in H. subst p. unfold _complete_batch.
  destruct (negb _); [done|]. cbn [fst]. apply ledger_in_range in Hs as [Hl Hm]. apply ledger_in_range. split; [|done].
  cbn [st_ledger]. apply Forall_fmap, Forall_filter_bool. eapply Forall_impl; [exact Hl|].
  intros e He. unfold compose, completed_entry. destruct (completed_by b result e); [|done].
  apply Forall_cons in He as [Hr _]. constructor; [done | constructor].
Qed.

(** ** Coordinators on one store

    Any number of helper processes claim and complete batches; each claim and each
    completion is one update of the store, which serialises them. *)

Section Coordinators.
Context `{StateStore Store}.

(** A batch being delivered. Its lease is live from the instant it was written until it
    expires, 30 seconds after the clock was read, which was before the lock was taken. *)
Record Delivery := { d_batch : NotificationBatch; d_start : Z; d_expires : Z }.

(** A scan under way: the state it loaded, and when. *)
Record Scan := { sc_loaded : PersistentState; sc_loaded_at : Z }.

(** A live lease that the commit of a scan has removed from the ledger. *)
Record Loss := { lost_delivery : Delivery; lost_loaded_at : Z; lost_committed_at : Z }.

Record World := {
  w_store : Store;
  w_clock : Z;
  w_deliveries : list Delivery;
  w_scans : list Scan;
  w_lost : list Loss;
}.

Definition fresh_token (w : World) (token : str) : Prop :=
  Forall (fun e => e_lease_token e <> Some token) (st_ledger (stored (w_store w)))
  /\ Forall (fun d => b_lease_token (d_batch d) <> token) (w_deliveries w).

Definition is_owner (d : Delivery) (e : LedgerEntry) : Prop :=
  e_status e = PENDING /\ e_lease_token e = Some (b_lease_token (d_batch d))
  /\ e_lease_expires_at e = Some (Datetime (d_expires d) true).

(** The owner entry of its kind is that of [d]. *)
Definition holds (s : PersistentState) (d : Delivery) : Prop :=
  exists e, _entry s (_owner_fingerprint (b_kind (d_batch d))) = Some e /\ is_owner d e.

#[local] Instance holds_dec s d : Decision (holds s d).
Proof.
  unfold holds. destruct (_entry s _) as [e|]; [|by right; intros (e & [=] & _)].
  assert (Decision (is_owner d e)) as [Hd|Hd] by (unfold is_owner; apply _); [left; by exists e|].
  right. by intros (e' & [= <-] & ?).
Defined.

(** What [build_generation] makes of the loaded state: the watches and the ledger are its,
    the sources are new. *)
Definition published_state (loaded : PersistentState) (srcs : list SourceMetadata) : PersistentState :=
  {| st_watches := st_watches loaded; st_ledger := st_ledger loaded; st_sources := srcs |}.

(** The live leases that are no longer in the ledger. *)
Definition losses (w : World) (sc : Scan) (store' : Store) : list Loss :=
  (fun d => {| lost_delivery := d; lost_loaded_at := sc_loaded_at sc; lost_committed_at := w_clock w |}) <$>
    List.filter (fun d => (w_clock w <? d_expires d) && negb (bool_decide (holds (stored store') d))) (w_deliveries w).

(** One step of one process. An operation that raises may have changed the store; a claim
    that raises delivers nothing, and a completion ends the delivery in any case. A scan
    loads the state, and much later its commit puts the state it loaded, with other
    sources, in the place of whatever is stored by then. *)
Inductive step (w : World) : World -> Prop :=
| step_tick clock :
    w_clock w <= clock ->
    step w {| w_store := w_store w; w_clock := clock; w_deliveries := w_deliveries w; w_scans := w_scans w;
              w_lost := w_lost w |}
| step_claim kind cs now token store' r :
    now <= w_clock w -> in_range (Datetime now true) -> Forall proper_candidate cs -> fresh_token w token ->
    claim_batch kind cs (Datetime now true) token (w_store w) = (store', r) ->
    step w {| w_store := store'; w_clock := w_clock w;
              w_deliveries := match r with
                | Ok (Some b) => {| d_batch := b; d_start := w_clock w; d_expires := now + _LEASE_DURATION |} :: w_deliveries w
                | _ => w_deliveries w
                end;
              w_scans := w_scans w; w_lost := w_lost w |}
| step_complete before d after result store' r :
    w_deliveries w = before ++ d :: after ->
    complete_batch (d_batch d) result (w_store w) = (store', r) ->
    step w {| w_store := store'; w_clock := w_clock w; w_deliveries := before ++ after; w_scans := w_scans w;
              w_lost := w_lost w |}
| step_click (m : PersistentState -> res (PersistentState * unit)) store' r :
    (forall s s' y k, m s = Ok (s', y) -> _entry s' (_owner_fingerprint k) = _entry s (_owner_fingerprint k)) ->
    keeps_range m -> update_state m (w_store w) = (store', r) ->
    step w {| w_store := store'; w_clock := w_clock w; w_deliveries := w_deliveries w; w_scans := w_scans w;
              w_lost := w_lost w |}
| step_load c loaded store' :
    prune_ledger (stored (w_store w)) c = Ok loaded -> sound_store store' ->
    stored store' = stored (w_store w) \/ (exists c', prune_ledger loaded c' = Ok (stored store')) ->
    step w {| w_store := store'; w_clock := w_clock w; w_deliveries := w_deliveries w;
              w_scans := {| sc_loaded := loaded; sc_loaded_at := w_clock w |} :: w_scans w; w_lost := w_lost w |}
| step_commit before sc after srcs store' :
    w_scans w = before ++ sc :: after -> sound_store store' ->
    stored store' = stored (w_store w)
    \/ (exists c, prune_ledger (published_state (sc_loaded sc) srcs) c = Ok (stored store')) ->
    step w {| w_store := store'; w_clock := w_clock w; w_deliveries := w_deliveries w; w_scans := before ++ after;
              w_lost := losses w sc store' ++ w_lost w |}.

Inductive reachable (w0 : World) : World -> Prop :=
| reach_refl : reachable w0 w0
| reach_step w w' : reachable w0 w -> step w w' -> reachable w0 w'.

(** Nothing is under way. *)
Definition idle (w : World) : Prop :=
  sound_store (w_store w) /\ w_deliveries w = [] /\ w_scans w = [] /\ w_lost w = [].

Definition same_kind (d d' : Delivery) : Prop := b_kind (d_batch d) = b_kind (d_batch d').

(** The live lease of [d] was removed by a scan that had loaded its state before it was taken. *)
Definition erased (l : list Loss) (d : Delivery) (x : Loss) : Prop :=
  x ∈ l /\ lost_delivery x = d /\ lost_loaded_at x <= d_start d <= lost_committed_at x /\ lost_committed_at x < d_expires d.

(** The lease of [d] is over, or was erased, or [d] holds the owner entry of its kind. *)
Definition owns (w : World) (d : Delivery) : Prop :=
  d_expires d <= w_clock w \/ holds (stored (w_store w)) d \/ exists x, erased (w_lost w) d x.

(** What a scan loaded: an older state, or the lease of [d] too. *)
Definition knows (w : World) (sc : Scan) (d : Delivery) : Prop :=
  d_expires d <= w_clock w \/ sc_loaded_at sc <= d_start d \/ holds (sc_loaded sc) d \/ exists x, erased (w_lost w) d x.

Definition in_order (l : list Loss) (newer older : Delivery) : Prop :=
  same_kind newer older ->
  d_expires older <= d_start newer \/ exists x, erased l older x /\ lost_committed_at x <= d_start newer.

Record invariant (w : World) : Prop := {
  inv_sound : sound_store (w_store w);
  inv_own : Forall (owns w) (w_deliveries w);
  inv_scans : Forall (fun sc => Forall (knows w sc) (w_deliveries w)) (w_scans w);
  inv_past : Forall (fun d => d_start d <= w_clock w) (w_deliveries w);
  inv_loaded : Forall (fun sc => sc_loaded_at sc <= w_clock w) (w_scans w);
  inv_committed : Forall (fun x => lost_committed_at x <= w_clock w) (w_lost w);
  inv_tokens : NoDup ((fun d => b_lease_token (d_batch d)) <$> w_deliveries w);
  inv_order : StronglySorted (in_order (w_lost w)) (w_deliveries w);
}.

Lemma pruned_owner p c s' fp e :
  prune_ledger p c = Ok s' -> _entry p fp = Some e -> e_status e = PENDING -> _entry s' fp = Some e.
Proof.
  intros (_ & _ & ->)%prune_ledger_Ok Hf Hs. rewrite _entry_find in *. cbn [st_ledger with_ledger].
  apply find_entry_pruned; [done|]. unfold is_active. by rewrite Hs.
Qed.

Lemma holds_pruned s c s' d : prune_ledger s c = Ok s' -> holds s d -> holds s' d.
Proof. intros H1 (e & He & Ho). exists e. split; [|done]. eapply pruned_owner; [exact H1 | exact He | apply Ho]. Qed.

Lemma holds_same s s' d :
  _entry s' (_owner_fingerprint (b_kind (d_batch d))) = _entry s (_owner_fingerprint (b_kind (d_batch d))) ->
  holds s d -> holds s' d.
Proof. intros E (e & He & Ho). exists e. by rewrite E. Qed.

(** An owner entry that a mutation leaves alone stays. *)
Lemma holds_committed s c1 loaded p c2 s' d :
  prune_ledger s c1 = Ok loaded -> prune_ledger p c2 = Ok s' ->
  _entry p (_owner_fingerprint (b_kind (d_batch d))) = _entry loaded (_owner_fingerprint (b_kind (d_batch d))) ->
  holds s d -> holds s' d.
Proof. intros H1 H2 He Hd. eapply holds_pruned; [exact H2|]. eapply holds_same; [exact He|]. by eapply holds_pruned. Qed.

Lemma erased_more l l' d x : erased l d x -> erased (l' ++ l) d x.
Proof. intros (Hx & ?). split; [|done]. apply elem_of_app. by right. Qed.

Lemma knows_more w store' clock ds scs l sc d :
  w_clock w <= clock -> knows w sc d ->
  knows {| w_store := store'; w_clock := clock; w_deliveries := ds; w_scans := scs; w_lost := l ++ w_lost w |} sc d.
Proof.
  intros Hc [?|[?|[?|[x ?]]]]; unfold knows; simpl; [left; lia | auto..]. do 3 right. exists x. by apply erased_more.
Qed.

Lemma order_more l l' ds : StronglySorted (in_order l) ds -> StronglySorted (in_order (l' ++ l)) ds.
Proof.
  induction 1 as [|d ds _ IH Hd]; constructor; [done|]. eapply Forall_impl; [exact Hd|]. intros y Hy Hk.
  destruct (Hy Hk) as [?|(x & ? & ?)]; [by left | right]. exists x. split; [by apply erased_more | done].
Qed.

Lemma sorted_sublist {A} (R : A -> A -> Prop) l k : sublist l k -> StronglySorted R k -> StronglySorted R l.
Proof.
  induction 1 as [|x l k Hs IH|x l k Hs IH]; intros Hk; [constructor| |]; inversion Hk as [|? ? Hk' Hf]; subst; [|auto].
  constructor; [auto|]. rewrite Forall_forall in Hf |- *. intros y Hy. apply Hf.
  eapply elem_of_submseteq; [exact Hy | by apply sublist_submseteq].
Qed.

Lemma Forall_sublist {A} (P : A -> Prop) l k : sublist l k -> Forall P k -> Forall P l.
Proof. rewrite !Forall_forall. intros Hs Hk x Hx. apply Hk. eapply elem_of_submseteq; [exact Hx | by apply sublist_submseteq]. Qed.

(** Fewer deliveries and scans, later, on a store that has the owner entries of what is left. *)
Lemma invariant_kept w store' clock ds scs :
  invariant w -> sound_store store' -> w_clock w <= clock -> sublist ds (w_deliveries w) -> sublist scs (w_scans w) ->
  (forall d, d ∈ ds -> d_expires d <= clock \/ (holds (stored (w_store w)) d -> holds (stored store') d)) ->
  invariant {| w_store := store'; w_clock := clock; w_deliveries := ds; w_scans := scs; w_lost := w_lost w |}.
Proof.
  intros [_ Hown Hsc Hpast Hload Hcom Htok Hord] Hs Hc Hsub Hsub' Hk. constructor; simpl.
  - done.
  - apply (Forall_sublist _ _ _ Hsub) in Hown. rewrite Forall_forall in Hown |- *. intros d Hd. unfold owns. simpl.
    destruct (Hk d Hd) as [?|Hd']; [by left|]. destruct (Hown d Hd) as [?|[?|?]]; [left; lia | auto..].
  - eapply Forall_impl; [exact (Forall_sublist _ _ _ Hsub' Hsc)|]. cbv beta. intros sc Hd.
    eapply Forall_impl; [exact (Forall_sublist _ _ _ Hsub Hd)|]. intros d. by apply (knows_more w _ _ _ _ []).
  - eapply Forall_impl; [exact (Forall_sublist _ _ _ Hsub Hpast)|]. cbv beta. lia.
  - eapply Forall_impl; [exact (Forall_sublist _ _ _ Hsub' Hload)|]. cbv beta. lia.
  - eapply Forall_impl; [exact Hcom|]. cbv beta. lia.
  - eapply NoDup_submseteq; [|exact Htok]. by apply fmap_submseteq, sublist_submseteq.
  - by eapply sorted_sublist.
Qed.

Lemma invariant_unchanged w store' ds :
  invariant w -> sound_store store' -> sublist ds (w_deliveries w) -> stored store' = stored (w_store w) ->
  invariant {| w_store := store'; w_clock := w_clock w; w_deliveries := ds; w_scans := w_scans w; w_lost := w_lost w |}.
Proof. intros Hinv Hs Hsub He. apply invariant_kept; try done. intros d _. right. by rewrite He. Qed.

Lemma invariant_other w store' p loaded c1 c2 ds :
  invariant w -> sound_store store' -> sublist ds (w_deliveries w) ->
  prune_ledger (stored (w_store w)) c1 = Ok loaded -> prune_ledger p c2 = Ok (stored store') ->
  (forall k, _entry p (_owner_fingerprint k) = _entry loaded (_owner_fingerprint k)) ->
  invariant {| w_store := store'; w_clock := w_clock w; w_deliveries := ds; w_scans := w_scans w; w_lost := w_lost w |}.
Proof. intros Hinv Hs Hsub H1 H2 He. apply invariant_kept; try done. intros d _. right. by eapply holds_committed. Qed.

(** A free owner entry means that the lease of a delivery of the kind is over, unless it
    was erased. *)
Lemma free_expired w d loaded c1 now :
  prune_ledger (stored (w_store w)) c1 = Ok loaded -> holds (stored (w_store w)) d ->
  (forall owner, _entry loaded (_owner_fingerprint (b_kind (d_batch d))) = Some owner ->
     _live_lease owner (Datetime now true) = Ok false) ->
  d_expires d <= now.
Proof.
  intros H1 Hd Hfree. destruct (holds_pruned _ _ _ _ H1 Hd) as (e & He & _ & Ht & Hx). specialize (Hfree e He).
  unfold _live_lease in Hfree. rewrite Ht, Hx in Hfree. unfold dt_cmp in Hfree. simpl in Hfree.
  injection Hfree as Hfree. destruct (Z.gtb_spec (d_expires d) now); [done | lia].
Qed.

(** The delivery a claim may start. *)
Definition started (w : World) (kind : NotificationKind) (cs : list NotificationCandidate) (now : Z) (token : str) : Delivery :=
  {| d_batch := {| b_kind := kind; b_candidates := cs; b_lease_token := token |};
     d_start := w_clock w; d_expires := now + _LEASE_DURATION |}.

Lemma claim_committed w kind cs now token store' p ds :
  invariant w -> sound_store store' -> now <= w_clock w -> Forall proper_candidate cs -> fresh_token w token ->
  committed (fun s => s' ← _reserve_batch s kind cs (Datetime now true) token; Ok (s', tt)) (stored (w_store w))
    p tt (stored store') ->
  ds = w_deliveries w
  \/ (let claimed := List.filter (fun c => _owned_by (_entry p (c_fingerprint c)) token) cs in
      claimed <> [] /\ _owns_owner p kind token = true /\ ds = started w kind claimed now token :: w_deliveries w) ->
  invariant {| w_store := store'; w_clock := w_clock w; w_deliveries := ds; w_scans := w_scans w; w_lost := w_lost w |}.
Proof.
  intros Hinv Hso Hclock Hp [Hfresh Hunused] (c1 & c2 & loaded & H1 & Hm & H2) Hds.
  apply bind_Ok in Hm as (p' & Hr & [= ->]).
  apply reserve_batch_reserved in Hr. apply (reserved_owner _ _ _ _ _ _ Hp) in Hr as [->|[Hfree Hk]].
  { destruct Hds as [->|[Hne _]]; [by eapply invariant_other|]. exfalso. apply Hne, unowned_filter.
    apply prune_ledger_Ok in H1 as (_ & _ & ->). cbn [st_ledger with_ledger].
    pose proof (pruned_submseteq (cutoff_of c1) (st_ledger (stored (w_store w)))) as [r Hx]%submseteq_Permutation.
    rewrite Hx in Hfresh. by apply Forall_app in Hfresh as [? _]. }
  assert (forall d, holds (stored (w_store w)) d -> b_kind (d_batch d) = kind -> d_expires d <= now) as Hover.
  { intros d Hd Hkind. eapply free_expired; [exact H1 | exact Hd |]. by rewrite Hkind. }
  assert (forall d, (holds (stored (w_store w)) d -> d_expires d <= w_clock w)
            \/ (holds (stored (w_store w)) d -> holds (stored store') d)) as Hold.
  { intros d. destruct (decide (b_kind (d_batch d) = kind)) as [E|E].
    - left. intros Hd. specialize (Hover d Hd E). lia.
    - right. eapply holds_committed; eauto. rewrite Hk. by rewrite bool_decide_false. }
  assert (invariant {| w_store := store'; w_clock := w_clock w; w_deliveries := w_deliveries w; w_scans := w_scans w;
                       w_lost := w_lost w |}) as Hkept.
  { apply invariant_kept; try done. intros d _. destruct (Hold d) as [Hd|Hd]; [|by right].
    destruct (decide (holds (stored (w_store w)) d)) as [Hh|Hh]; [left; by apply Hd | by right]. }
  destruct Hds as [->|(_ & _ & ->)]; [done|]. set (d0 := started w kind _ now token).
  assert (holds (stored store') d0) as Hd0.
  { specialize (Hk kind). rewrite bool_decide_true in Hk by done. eapply holds_pruned; [exact H2|]. by eexists. }
  destruct Hkept as [_ Hown Hsc Hpast Hload Hcom Htok Hord]. constructor; simpl in *; [done| | | |done|done| |].
  - constructor; [right; by left | exact Hown].
  - rewrite Forall_forall in Hsc, Hload |- *. intros sc Hin. constructor; [|by apply Hsc]. right. left. by apply Hload.
  - constructor; [done | exact Hpast].
  - rewrite NoDup_cons. split; [|done]. intros (d & E & Hd)%list_elem_of_fmap. simpl in E.
    rewrite Forall_forall in Hunused. by apply (Hunused d Hd).
  - constructor; [done|]. apply Forall_forall. intros d Hd E. symmetry in E. change (b_kind (d_batch d) = kind) in E.
    pose proof (inv_own w Hinv) as Ho. rewrite Forall_forall in Ho. destruct (Ho d Hd) as [?|[Hh|[x Hx]]].
    + by left.
    + left. specialize (Hover d Hh E). simpl. lia.
    + right. exists x. split; [done|]. destruct Hx as [Hx _]. rewrite Forall_forall in Hcom. by apply Hcom.
Qed.

Lemma complete_committed w before d after result store' p x :
  invariant w -> sound_store store' -> w_deliveries w = before ++ d :: after ->
  committed (fun s => Ok (_complete_batch s (d_batch d) result)) (stored (w_store w)) p x (stored store') ->
  invariant {| w_store := store'; w_clock := w_clock w; w_deliveries := before ++ after; w_scans := w_scans w;
               w_lost := w_lost w |}.
Proof.
  intros Hinv Hso Hd (c1 & c2 & loaded & H1 & [= Hm] & H2).
  assert (sublist (before ++ after) (w_deliveries w)) as Hsub.
  { rewrite Hd. apply sublist_app; [done | by constructor]. }
  destruct (_owns_owner loaded (b_kind (d_batch d)) (b_lease_token (d_batch d))) eqn:Eo.
  2:{ unfold _complete_batch in Hm. rewrite Eo in Hm. injection Hm as <- _. by eapply invariant_other. }
  apply invariant_kept; try done. intros y Hy. right. intros Hh.
  assert (b_lease_token (d_batch y) <> b_lease_token (d_batch d)) as Hne.
  { intros E. pose proof (inv_tokens w Hinv) as Htok. rewrite Hd, <-Permutation_middle, fmap_cons, NoDup_cons in Htok.
    destruct Htok as [Hn _]. apply Hn. rewrite <-E. apply list_elem_of_fmap. eauto. }
  destruct (holds_pruned _ _ _ _ H1 Hh) as (e & He & Hs & Ht & Hx').
  assert (b_kind (d_batch y) <> b_kind (d_batch d)) as Hkind.
  { intros E. rewrite E in He. unfold _owns_owner in Eo. rewrite He in Eo. simpl in Eo.
    apply bool_decide_eq_true in Eo. congruence. }
  exists e. split; [|done]. eapply pruned_owner; [exact H2| |done].
  replace p with (_complete_batch loaded (d_batch d) result).1 by (by rewrite Hm).
  rewrite find_entry_complete by done. rewrite bool_decide_false by (by intros E%owner_inj). rewrite He. simpl.
  unfold completed_entry, completed_by. simpl. rewrite bool_decide_false; [done|]. rewrite Ht. congruence.
Qed.

(** A scan begins: what it loads has the owner entries of the moment. *)
Lemma load_invariant w c loaded store' :
  invariant w -> prune_ledger (stored (w_store w)) c = Ok loaded -> sound_store store' ->
  stored store' = stored (w_store w) \/ (exists c', prune_ledger loaded c' = Ok (stored store')) ->
  invariant {| w_store := store'; w_clock := w_clock w; w_deliveries := w_deliveries w;
               w_scans := {| sc_loaded := loaded; sc_loaded_at := w_clock w |} :: w_scans w; w_lost := w_lost w |}.
Proof.
  intros Hinv Hl Hs Hst.
  assert (invariant {| w_store := store'; w_clock := w_clock w; w_deliveries := w_deliveries w; w_scans := w_scans w;
                       w_lost := w_lost w |}) as [Hso Hown Hsc Hpast Hload Hcom Htok Hord].
  { apply invariant_kept; try done. intros d _. right. intros Hd. destruct Hst as [->|[c' Hc]]; [done|].
    eapply holds_pruned; [exact Hc|]. by eapply holds_pruned. }
  constructor; simpl in *; [done | done | | done | by constructor | done..]. constructor; [|done].
  pose proof (inv_own w Hinv) as Ho. eapply Forall_impl; [exact Ho|]. intros d [?|[Hh|Hx]]; unfold knows; simpl; auto.
  right. right. left. by eapply holds_pruned.
Qed.

Lemma losses_spec w sc store' x :
  x ∈ losses w sc store' <-> exists d, x = {| lost_delivery := d; lost_loaded_at := sc_loaded_at sc; lost_committed_at := w_clock w |}
    /\ d ∈ w_deliveries w /\ w_clock w < d_expires d /\ ~ holds (stored store') d.
Proof.
  unfold losses. rewrite list_elem_of_fmap. setoid_rewrite elem_of_filter_bool.
  setoid_rewrite andb_true_iff. setoid_rewrite Z.ltb_lt. setoid_rewrite negb_true_iff. setoid_rewrite bool_decide_eq_false.
  firstorder.
Qed.

(** A scan ends: the live leases it did not know of are erased. *)
Lemma commit_invariant w before sc after srcs store' :
  invariant w -> w_scans w = before ++ sc :: after -> sound_store store' ->
  stored store' = stored (w_store w)
  \/ (exists c, prune_ledger (published_state (sc_loaded sc) srcs) c = Ok (stored store')) ->
  invariant {| w_store := store'; w_clock := w_clock w; w_deliveries := w_deliveries w; w_scans := before ++ after;
               w_lost := losses w sc store' ++ w_lost w |}.
Proof.
  intros [_ Hown Hsc Hpast Hload Hcom Htok Hord] Hscs Hs Hst.
  assert (sublist (before ++ after) (w_scans w)) as Hsub.
  { rewrite Hscs. apply sublist_app; [done | by constructor]. }
  assert (Forall (knows w sc) (w_deliveries w)) as Hknows.
  { rewrite Forall_forall in Hsc. apply Hsc. rewrite Hscs. set_solver. }
  constructor; simpl; [done | | | done | by eapply Forall_sublist | | done | by apply order_more].
  - rewrite Forall_forall in Hown, Hknows, Hpast |- *. intros d Hd. unfold owns. simpl.
    destruct (decide (d_expires d <= w_clock w)) as [?|Hlive]; [by left | right].
    destruct (decide (holds (stored store') d)) as [?|Hno]; [by left | right].
    assert (forall x, erased (w_lost w) d x -> exists x, erased (losses w sc store' ++ w_lost w) d x) as Hmore.
    { intros x Hx. exists x. by apply erased_more. }
    destruct (Hown d Hd) as [?|[Hh|[x Hx]]]; [lia | | by eapply Hmore].
    destruct Hst as [E|[c Hc]]; [by rewrite E in Hno|].
    destruct (Hknows d Hd) as [?|[Hlt|[Hl|[x Hx]]]]; [lia | | | by eapply Hmore].
    + eexists. split; [apply elem_of_app; left; apply losses_spec; exists d; split; [reflexivity|]; split; [done|]; split; [lia | done]|].
      simpl. split; [done|]. specialize (Hpast d Hd). lia.
    + exfalso. apply Hno. eapply holds_pruned; [exact Hc|]. by apply (holds_same (sc_loaded sc)).
  - eapply Forall_impl; [exact (Forall_sublist _ _ _ Hsub Hsc)|]. cbv beta. intros sc' Hsc'.
    eapply Forall_impl; [exact Hsc'|]. intros d. by apply (knows_more w).
  - apply Forall_app. split; [|done]. apply Forall_forall. by intros x (d & -> & _)%losses_spec.
Qed.

Lemma step_invariant w w' : invariant w -> step w w' -> invariant w'.
Proof.
  intros Hinv Hstep. pose proof (inv_sound w Hinv) as Hsound.
  destruct Hstep as [clock Hc|kind cs now token store' r Hclock Hn Hp Hf Hcl|before d after result store' r Hd Hc
    |m store' r Hm Hr Hu|c loaded store' Hl Hs Hst|before sc after srcs store' Hsc Hs Hst].
  - apply invariant_kept; try done. intros d _. by right.
  - unfold claim_batch in Hcl.
    pose proof (update_state_law _ _ Hsound (reserve_keeps_range kind cs (Datetime now true) token Hn)) as Hlaw.
    destruct (update_state _ _) as [st u]. injection Hcl as -> <-. destruct Hlaw as [Hso Hlaw].
    destruct u as [[p []]|e]; cbn [mbind outcome_bind].
    + eapply (claim_committed _ kind cs); eauto. cbv zeta.
      destruct (List.filter _ cs) as [|c0 cl]; [by left|]. destruct (_owns_owner p kind token); [right | by left]. done.
    + destruct Hlaw as [He|(p & [] & Hcm)]; [by apply (invariant_unchanged w) | by eapply (claim_committed _ kind cs); eauto].
  - unfold complete_batch in Hc.
    pose proof (update_state_law _ _ Hsound (complete_keeps_range (d_batch d) result)) as Hlaw.
    destruct (update_state _ _) as [st u]. injection Hc as -> <-. destruct Hlaw as [Hso Hlaw].
    assert (sublist (before ++ after) (w_deliveries w)) as Hsub.
    { rewrite Hd. apply sublist_app; [done | by constructor]. }
    destruct u as [[p x]|e]; [by eapply complete_committed|].
    destruct Hlaw as [He|(p & x & Hcm)]; [by apply (invariant_unchanged w) | by eapply complete_committed].
  - pose proof (update_state_law m _ Hsound Hr) as Hlaw. rewrite Hu in Hlaw. destruct Hlaw as [Hso Hlaw].
    assert (forall p x, committed m (stored (w_store w)) p x (stored store') ->
              invariant {| w_store := store'; w_clock := w_clock w; w_deliveries := w_deliveries w; w_scans := w_scans w;
                           w_lost := w_lost w |}) as Hcm.
    { intros p x (c1 & c2 & loaded & H1 & Hx & H2). eapply invariant_other; eauto. }
    destruct r as [[p x]|e]; [by eapply Hcm|].
    destruct Hlaw as [He|(p & x & H')]; [by apply (invariant_unchanged w) | by eapply Hcm].
  - by eapply load_invariant.
  - by eapply commit_invariant.
Qed.

Lemma reachable_invariant w0 w : idle w0 -> reachable w0 w -> invariant w.
Proof.
  intros (Hs & Hd & Hsc & Hl). induction 1 as [|w w' _ IH Hstep]; [|by eapply step_invariant].
  constructor; rewrite ?Hd, ?Hsc, ?Hl; simpl; (done || constructor).
Qed.

(** C8. However claims, completions, clicks, scans and their commits interleave, two
    deliveries of the same kind are never under a live lease at the same instant, with one
    exception, which it pins down: a scan loaded its state before one of the two leases was
    taken and its commit, which puts that state in the place of whatever is stored, removed
    the lease from the ledger while it was live. *)
Theorem lease_exclusion w0 w a b x y t :
  idle w0 -> reachable w0 w ->
  w_deliveries w !! a = Some x -> w_deliveries w !! b = Some y -> same_kind x y ->
  d_start x <= t < d_expires x -> d_start y <= t < d_expires y ->
  a = b
  \/ exists l z, (l ∈ w_lost w) /\ (z = x \/ z = y) /\ lost_delivery l = z
       /\ lost_loaded_at l <= d_start z <= lost_committed_at l /\ lost_committed_at l <= t.
Proof.
  intros Hi Hr Ha Hb Hk Hx Hy. pose proof (inv_order w (reachable_invariant w0 w Hi Hr)) as Ho.
  assert (forall a b x y, (a < b)%nat -> w_deliveries w !! a = Some x -> w_deliveries w !! b = Some y ->
            in_order (w_lost w) x y) as Hlt.
  { clear -Ho. intros a b x y Hab Ha Hb. revert a b Hab Ha Hb.
    induction Ho as [|z l Hl IH Hz]; intros a b Hab Ha Hb; [done|]. destruct b as [|b]; [lia|]. simpl in Hb.
    destruct a as [|a]; simpl in Ha; [|apply (IH a b); [lia | exact Ha | exact Hb]]. injection Ha as ->.
    rewrite Forall_forall in Hz. apply Hz. by eapply list_elem_of_lookup_2. }
  destruct (Nat.lt_trichotomy a b) as [Hab|[->|Hab]]; [right|by left|right].
  - destruct (Hlt a b x y Hab Ha Hb Hk) as [?|(l & (Hl & E & ? & ?) & ?)]; [lia|]. exists l, y.
    split; [done|]. split; [by right|]. split; [done|]. lia.
  - assert (same_kind y x) as Hk' by (by symmetry).
    destruct (Hlt b a y x Hab Hb Ha Hk') as [?|(l & (Hl & E & ? & ?) & ?)]; [lia|]. exists l, x.
    split; [done|]. split; [by left|]. split; [done|]. lia.
Qed.
End Coordinators.

Lemma claimable_pending e now : _claimable (Some e) now = Ok true -> e_status e = PENDING /\ _live_lease e now = Ok false.
Proof.
  simpl. destruct (_pending (e_status e)) eqn:Ep; [|done].
  intros H. apply bind_Ok in H as (b & Hb & [= Hn]). split; [by destruct (e_status e)|].
  rewrite Hb. by destruct b.
Qed.

(** A reservation keeps the state valid. It leases only entries that were absent or
    pending with no live lease, and only for candidates it was given; an entry that was
    delivered, suppressed or has failed is left as it was; a pending entry is left, leased
    by this batch, or suppressed because a candidate with its reference replaces it. *)
Theorem reserve_batch_effect s kind cs now token s' :
  valid_state s -> token <> [] ->
  Forall (fun e => e_lease_token e <> Some token) (st_ledger s) ->
  _reserve_batch s kind cs now token = Ok s' ->
  valid_state s' /\ st_watches s' = st_watches s /\ st_sources s' = st_sources s /\
  forall fp, fp <> _owner_fingerprint kind ->
    (_owned_by (_entry s' fp) token = true ->
       fp ∈ c_fingerprint <$> cs /\ _claimable (_entry s fp) now = Ok true
       /\ _entry s' fp = Some (lease fp token now (dt_add now _LEASE_DURATION)))
    /\ (forall e, _entry s fp = Some e -> e_status e <> PENDING -> _entry s' fp = Some e)
    /\ (forall e, _entry s fp = Some e -> e_status e = PENDING ->
          _entry s' fp = Some e \/ _owned_by (_entry s' fp) token = true
          \/ _entry s' fp = Some (with_status e SUPPRESSED)
             /\ exists c, c ∈ cs /\ startswith fp (c_reference c) = true)
    /\ (_entry s fp = None -> _owned_by (_entry s' fp) token = false -> _entry s' fp = None).
Proof.
  intros Hs Ht Hfresh H. split; [by eapply reserve_batch_valid|].
  assert (forall fp e, _entry s fp = Some e -> e_lease_token e <> Some token) as Hno.
  { intros fp e He. rewrite _entry_find in He. apply find_entry_Some in He as [He _].
    rewrite Forall_forall in Hfresh. auto. }
  apply reserve_batch_reserved in H as [|claimed expires ledger _ _ Hcl -> Hl].
  { split; [done|]. split; [done|]. intros fp _. split_and!; auto. destruct (_entry s fp) as [e|] eqn:E; [|done].
    intros Ho%bool_decide_eq_true. exfalso. by eapply Hno. }
  split; [done|]. split; [done|]. intros fp Hown. rewrite !_entry_find. cbn [st_ledger]. rewrite Hl.
  rewrite bool_decide_false by done. rewrite Forall_forall in Hcl. case_bool_decide as Hc.
  - apply list_elem_of_fmap in Hc as (c & -> & Hc). destruct (Hcl c Hc) as [Hin Hclaim].
    split_and!.
    + intros _. split; [apply list_elem_of_fmap; eauto | done].
    + intros e He Hst. rewrite _entry_find, He in Hclaim. by apply claimable_pending in Hclaim as [? _].
    + intros e _ _. right. left. by apply bool_decide_eq_true.
    + intros _ Hx. simpl in Hx. by rewrite bool_decide_true in Hx.
  - destruct (suppress_cases (st_ledger s) claimed fp) as [->|(e & He & Ha & -> & Hr)].
    + split_and!; auto. destruct (find_entry (st_ledger s) fp) as [e|] eqn:E; [|done].
      intros Ho%bool_decide_eq_true. exfalso. by eapply Hno.
    + rewrite He. split_and!.
      * intros Ho%bool_decide_eq_true. exfalso. by eapply Hno.
      * intros e' [= <-] Hst. unfold is_active in Ha. by destruct (e_status e).
      * intros e' [= <-] _. right. right. split; [done|].
        apply existsb_exists in Hr as (r & Hr & Hsw). apply list_elem_of_In, list_elem_of_fmap in Hr as (c & -> & Hcc).
        exists c. split; [apply (Hcl c Hcc) | done].
      * done.
Qed.

Lemma updates_status b r c :
  c ∈ b_candidates b -> exists d, d ∈ b_candidates b /\ c_fingerprint d = c_fingerprint c
    /\ updates b r !! c_fingerprint c = Some (_delivery_status r (c_change d)).
Proof.
  intros Hc. unfold updates. destruct (list_to_map _ !! _) as [st|] eqn:E.
  - apply elem_of_list_to_map_2 in E. rewrite elem_of_reverse, list_elem_of_fmap in E.
    destruct E as (d & [= E ->] & Hd). exists d. rewrite E. eauto.
  - exfalso. apply not_elem_of_list_to_map_2 in E. apply E. rewrite fmap_reverse, elem_of_reverse, <-list_fmap_compose.
    apply list_elem_of_fmap. eauto.
Qed.

Lemma updates_member b r fp st : updates b r !! fp = Some st -> fp ∈ c_fingerprint <$> b_candidates b.
Proof.
  intros E%elem_of_list_to_map_2. rewrite elem_of_reverse, list_elem_of_fmap in E.
  destruct E as (d & [= -> ->] & Hd). apply list_elem_of_fmap. eauto.
Qed.

(** A completion by a process that lost its lease changes nothing. Otherwise the
    owner entry is gone, each entry of the batch still held by it has the status of the
    delivery and no lease, and every other entry is as before. *)
Theorem complete_batch_effect s b result :
  let s' := (_complete_batch s b result).1 in
  let completed := (_complete_batch s b result).2 in
  valid_state s ->
  valid_state s'
  /\ (_owns_owner s (b_kind b) (b_lease_token b) = false -> s' = s /\ completed = ∅)
  /\ (_owns_owner s (b_kind b) (b_lease_token b) = true ->
      _entry s' (_owner_fingerprint (b_kind b)) = None
      /\ forall fp, fp <> _owner_fingerprint (b_kind b) ->
         match _entry s fp with
         | Some e =>
             if bool_decide (fp ∈ c_fingerprint <$> b_candidates b) && _owned_by (Some e) (b_lease_token b)
             then fp ∈ completed /\ exists c, c ∈ b_candidates b /\ c_fingerprint c = fp
                  /\ _entry s' fp = Some {| e_fingerprint := fp;
                                            e_status := _delivery_status result (c_change c);
                                            e_recorded_at := e_recorded_at e;
                                            e_lease_token := None; e_lease_expires_at := None |}
             else (fp ∉ completed) /\ _entry s' fp = Some e
         | None => _entry s' fp = None
         end).
Proof.
  intros s' completed Hs. split; [by apply complete_batch_valid|]. split.
  - intros Ho. unfold s', completed, _complete_batch. by rewrite Ho.
  - intros Ho. split; [unfold s'; rewrite find_entry_complete by done; by rewrite bool_decide_true|].
    intros fp Hfp. unfold s'. rewrite find_entry_complete by done.
    rewrite (bool_decide_false (fp = _)) by done.
    assert (forall x, x ∈ completed <-> exists e, e ∈ st_ledger s /\ e_fingerprint e = x /\ is_Some (completed_by b result e)) as Hx.
    { intros x. unfold completed, _complete_batch. rewrite Ho. cbn [negb snd]. rewrite elem_of_list_to_set, list_elem_of_fmap.
      setoid_rewrite elem_of_filter_bool. unfold is_Some, is_some. split.
      - intros (e & -> & He & Hc). exists e. destruct (completed_by b result e); eauto. done.
      - intros (e & He & <- & st & Hc). exists e. by rewrite Hc. }
    destruct (_entry s fp) as [e|] eqn:He; [|done]. rewrite _entry_find in He. apply find_entry_Some in He as [Hin <-].
    cbn [fmap option_fmap option_map]. unfold completed_entry. destruct (_owned_by (Some e) (b_lease_token b)) eqn:Eo.
    + rewrite andb_true_r. case_bool_decide as Hmem.
      * apply list_elem_of_fmap in Hmem as (c & Hc & Hcin).
        destruct (updates_status b result c Hcin) as (d & Hd & Hdc & Hu). rewrite <-Hc in Hu, Hdc.
        assert (completed_by b result e = Some (_delivery_status result (c_change d))) as Hcb.
        { unfold completed_by. by rewrite Eo. }
        split; [apply Hx; eauto|]. exists d. by rewrite Hcb.
      * assert (completed_by b result e = None) as Hcb.
        { unfold completed_by. rewrite Eo. destruct (_ !! _) eqn:E; [|done]. by apply updates_member in E. }
        rewrite Hcb. split; [|done]. intros (e' & Hin' & Hfp' & [st Hst])%Hx. apply Hmem.
        unfold completed_by in Hst. destruct (_owned_by (Some e') _); [|done]. rewrite Hfp' in Hst. by apply updates_member in Hst.
    + rewrite andb_false_r. assert (completed_by b result e = None) as Hcb by (unfold completed_by; by rewrite Eo).
      rewrite Hcb. split; [|done]. intros (e' & Hin' & Hfp' & Hst)%Hx.
      assert (e' = e) as ->; [|rewrite Hcb in Hst; by destruct Hst].
      pose proof (vt_fingerprints s Hs) as Hnd. apply list_elem_of_lookup in Hin as [i Hi], Hin' as [j Hj].
      assert (i = j); [|congruence]. eapply (NoDup_lookup (e_fingerprint <$> st_ledger s) i j (e_fingerprint e)); [done| |];
        rewrite list_lookup_fmap; rewrite ?Hi, ?Hj; simpl; congruence.
Qed.

(** ** Witnesses *)

Definition sample_candidate : NotificationCandidate := {|
  c_fingerprint := lit "watch-v1:arch:openssl:33"; c_reference := lit "watch-v1:arch:openssl:";
  c_kind := NK_WATCH; c_change := NEW; c_title := lit "Watched update available"; c_body := lit "openssl";
|}.

Lemma sample_candidate_proper : proper_candidate sample_candidate.
Proof. constructor; intros []; vm_compute; congruence. Qed.

(** A minute later the lease of the sample entry is over: the candidate that replaces it
    suppresses it and is leased. *)
Definition sample_minute : datetime := dt_add sample_now (minutes 1).

Definition sample_reserved : PersistentState := {|
  st_watches := sample_watches;
  st_ledger := [sample_delivered; with_status sample_leased SUPPRESSED;
                lease (c_fingerprint sample_candidate) (lit "t1") sample_minute (dt_add sample_minute _LEASE_DURATION);
                lease (_owner_fingerprint NK_WATCH) (lit "t1") sample_minute (dt_add sample_minute _LEASE_DURATION)];
  st_sources := st_sources sample_state;
|}.

Lemma sample_reserved_spec :
  _reserve_batch sample_state NK_WATCH [sample_candidate] sample_minute (lit "t1") = Ok sample_reserved.
Proof. vm_compute. reflexivity. Qed.

Lemma reserve_batch_effect_witness :
  _reserve_batch sample_state NK_WATCH [sample_candidate] sample_minute (lit "t1") = Ok sample_reserved
  /\ valid_state sample_reserved
  /\ _entry sample_reserved (e_fingerprint sample_delivered) = Some sample_delivered.
Proof.
  destruct (reserve_batch_effect sample_state NK_WATCH [sample_candidate] sample_minute (lit "t1") sample_reserved)
    as (Hv & _ & _ & Hf).
  - apply sample_state_valid.
  - discriminate.
  - repeat (constructor; [vm_compute; congruence|]). constructor.
  - apply sample_reserved_spec.
  - split; [apply sample_reserved_spec|]. split; [exact Hv|].
    apply (Hf (e_fingerprint sample_delivered)); vm_compute; congruence.
Defined.

Definition sample_batch : NotificationBatch :=
  {| b_kind := NK_WATCH; b_candidates := [sample_candidate]; b_lease_token := lit "t1" |}.

Lemma complete_batch_effect_witness :
  let r := _complete_batch sample_reserved sample_batch (CommandSucceeded [] []) in
  valid_state r.1 /\ _entry r.1 (_owner_fingerprint NK_WATCH) = None.
Proof.
  assert (valid_state sample_reserved) as Hv by (apply validate_state_spec; vm_compute; reflexivity).
  destruct (complete_batch_effect sample_reserved sample_batch (CommandSucceeded [] []) Hv) as (H1 & _ & H2).
  split; [exact H1|]. apply H2. vm_compute. reflexivity.
Defined.

(** The store prunes what it writes. *)
Definition sample_stored : PersistentState :=
  match prune_ledger sample_reserved sample_minute with Ok s => s | Err _ => empty_state end.

#[local] Instance sample_store : StateStore PersistentState := memory_store sample_minute.

(** A minute after the sample state, with nothing under way. *)
Definition quiet_start : World (Store:=PersistentState) :=
  {| w_store := sample_state; w_clock := dt_us sample_minute; w_deliveries := []; w_scans := []; w_lost := [] |}.

Lemma quiet_start_idle : idle quiet_start.
Proof. split; [apply sample_state_storable|]. done. Qed.

Definition sample_delivery (token : str) : Delivery :=
  {| d_batch := {| b_kind := NK_WATCH; b_candidates := [sample_candidate]; b_lease_token := token |};
     d_start := dt_us sample_minute; d_expires := dt_us sample_minute + _LEASE_DURATION |}.

Lemma lease_exclusion_witness :
  exists w, reachable quiet_start w /\ w_deliveries w = [sample_delivery (lit "t1")]
    /\ forall b y, w_deliveries w !! b = Some y -> same_kind (sample_delivery (lit "t1")) y ->
         d_start y <= dt_us sample_minute < d_expires y -> 0%nat = b.
Proof.
  eexists. match goal with |- reachable _ ?w /\ _ => assert (reachable quiet_start w) as Hw end.
  { eapply reach_step; [apply reach_refl|].
    apply (step_claim quiet_start NK_WATCH [sample_candidate] (dt_us sample_minute) (lit "t1")
             sample_stored (Ok (Some sample_batch))).
    - vm_compute. congruence.
    - vm_compute. split; congruence.
    - constructor; [apply sample_candidate_proper | constructor].
    - split; [repeat (constructor; [vm_compute; congruence|]) |]; constructor.
    - vm_compute. reflexivity. }
  split; [exact Hw|]. split; [reflexivity|]. intros b y Hb Hk Ht.
  destruct (lease_exclusion quiet_start _ 0%nat b _ y (dt_us sample_minute) quiet_start_idle Hw eq_refl Hb Hk) as [E|(l & z & Hl & _)].
  - vm_compute. split; congruence.
  - exact Ht.
  - exact E.
  - destruct (not_elem_of_nil _ Hl).
Defined.

(** The exception is real: a scan loads the state, a process claims the candidate, the scan
    commits, and a second process claims the same candidate within the same lease. *)
Definition sample_loaded : PersistentState :=
  match prune_ledger sample_state sample_minute with Ok s => s | Err _ => empty_state end.

Definition claimed_by (token : str) (s : PersistentState) : PersistentState :=
  match _reserve_batch s NK_WATCH [sample_candidate] sample_minute token with
  | Ok s => match prune_ledger s sample_minute with Ok s => s | Err _ => empty_state end
  | Err _ => empty_state
  end.

Lemma sample_loaded_sound : Forall in_range (state_times sample_loaded).
Proof. apply (pruned_times sample_state sample_minute); [vm_compute; reflexivity | apply sample_state_storable]. Qed.

Lemma commit_breaks_exclusion :
  exists w, reachable quiet_start w /\ w_deliveries w = [sample_delivery (lit "t2"); sample_delivery (lit "t1")].
Proof.
  eexists. split.
  - eapply reach_step; [eapply reach_step; [eapply reach_step; [eapply reach_step; [apply reach_refl|]|]|]|].
    + apply (step_load quiet_start sample_minute sample_loaded sample_loaded); [vm_compute; reflexivity | |].
      * apply sample_loaded_sound.
      * right. exists sample_minute. vm_compute. reflexivity.
    + apply (step_claim _ NK_WATCH [sample_candidate] (dt_us sample_minute) (lit "t1")
               (claimed_by (lit "t1") sample_loaded) (Ok (Some (d_batch (sample_delivery (lit "t1")))))).
      * vm_compute. congruence.
      * vm_compute. split; congruence.
      * constructor; [apply sample_candidate_proper | constructor].
      * split; [repeat (constructor; [vm_compute; congruence|]) |]; constructor.
      * vm_compute. reflexivity.
    + apply (step_commit _ [] {| sc_loaded := sample_loaded; sc_loaded_at := dt_us sample_minute |} []
               (st_sources sample_loaded) sample_loaded); [reflexivity | |].
      * apply sample_loaded_sound.
      * right. exists sample_minute. vm_compute. reflexivity.
    + apply (step_claim _ NK_WATCH [sample_candidate] (dt_us sample_minute) (lit "t2")
               (claimed_by (lit "t2") sample_loaded) (Ok (Some (d_batch (sample_delivery (lit "t2")))))).
      * vm_compute. congruence.
      * vm_compute. split; congruence.
      * constructor; [apply sample_candidate_proper | constructor].
      * split; repeat (constructor; [vm_compute; congruence|]); constructor.
      * vm_compute. reflexivity.
  - reflexivity.
Qed.
