(* ===== verification/PyRows.v ===== *)
(** * Rows of command output

    What [splitlines], [split] and [split(" -> ")] return on text made of rows of words:
    the round trips the adapters' parsers rest on. *)

From S2P Require Import Prelude PyStr Json Utf8.

Open Scope N_scope.

(** A field: not empty, without white space. *)
Definition word (s : str) : Prop := s <> [] /\ Forall (fun c => is_space c = false) s.

Lemma fields_go_word w cur s :
  Forall (fun c => is_space c = false) w -> fields_go (w ++ s) cur = fields_go s (reverse w ++ cur).
Proof.
  intros H. revert cur. induction H as [|c w Hc _ IH]; intros cur; [done|].
  simpl. rewrite Hc, IH. by rewrite reverse_cons, <-app_assoc.
Qed.

Lemma fields_word w : word w -> fields w = [w].
Proof.
  intros [Hne Hw]. unfold fields. rewrite <-(app_nil_r w) at 1. rewrite fields_go_word by done. simpl.
  rewrite app_nil_r. destruct (decide (reverse w = [])) as [E|]; [|by rewrite reverse_involutive].
  exfalso. apply Hne. by rewrite <-(reverse_involutive w), E.
Qed.

Lemma fields_two v w : word v -> word w -> fields (v ++ lit " " ++ w) = [v; w].
Proof.
  intros [Hne Hv] Hw. unfold fields. rewrite fields_go_word by done. simpl. rewrite app_nil_r.
  destruct (decide (reverse v = [])) as [E|]; [exfalso; apply Hne; by rewrite <-(reverse_involutive v), E|].
  rewrite reverse_involutive. simpl. f_equal. by apply fields_word.
Qed.

(** ** Lines *)

Definition no_break (s : str) : Prop := Forall (fun c => is_linebreak c = false) s.

Lemma linebreak_space c : is_linebreak c = true -> is_space c = true.
Proof.
  unfold is_linebreak, is_space. rewrite !orb_true_iff, !andb_true_iff, !N.leb_le, !N.eqb_eq. lia.
Qed.

Lemma word_no_break w : word w -> no_break w.
Proof.
  intros [_ Hw]. eapply Forall_impl; [exact Hw|]. intros c Hc. simpl.
  destruct (is_linebreak c) eqn:E; [|done]. apply linebreak_space in E. congruence.
Qed.

Definition lines_text (rows : list str) : str := rows ≫= fun r => r ++ [10].

Lemma lines_go_row r cur started s :
  no_break r -> (r <> [] \/ cur = []) ->
  lines_go (r ++ 10 :: s) cur started false = (reverse cur ++ r) :: lines_go s [] false false.
Proof.
  intros H. revert cur started. induction H as [|c r Hc Hr IH]; intros cur started Hne.
  - destruct Hne as [Hn | ->]; [done|]. simpl. done.
  - simpl. rewrite Hc. destruct (decide (r = [])) as [->|Hr'].
    + simpl. by rewrite reverse_cons.
    + rewrite IH by auto. by rewrite reverse_cons, <-app_assoc.
Qed.

Lemma splitlines_text rows : Forall no_break rows -> splitlines (lines_text rows) = rows.
Proof.
  unfold splitlines, lines_text. induction 1 as [|r rows Hr _ IH]; [done|].
  cbn [mbind list_bind]. rewrite <-app_assoc. cbn [app]. rewrite lines_go_row by auto. simpl. by rewrite IH.
Qed.

(** ** Arrows *)

Definition arrow : str := lit " -> ".

Lemma split_go_word w sep cur s :
  Forall (fun c => is_space c = false) w -> sep = arrow ->
  split_go sep (w ++ s) cur 0 = split_go sep s (reverse w ++ cur) 0.
Proof.
  intros H ->. revert cur. induction H as [|c w Hc _ IH]; intros cur; [done|].
  cbn [app split_go]. assert (startswith (c :: w ++ s) arrow = false) as ->.
  { change arrow with [32; 45; 62; 32]. cbn [startswith].
    destruct (N.eqb_spec 32 c) as [<-|]; [vm_compute in Hc; discriminate | done]. }
  rewrite IH. by rewrite reverse_cons, <-app_assoc.
Qed.

Lemma startswith_arrow_word w s : word w -> w <> lit "->" -> startswith (32 :: w ++ 32 :: s) arrow = false.
Proof.
  intros [Hne Hw] Hna. change arrow with [32; 45; 62; 32]. destruct w as [|a [|b [|c w]]]; [done| | |].
  - cbn [app startswith]. rewrite N.eqb_refl. by destruct (N.eqb_spec 45 a).
  - cbn [app startswith]. rewrite N.eqb_refl. destruct (N.eqb_spec 45 a) as [<-|]; [|done].
    destruct (N.eqb_spec 62 b) as [<-|]; [by destruct Hna | done].
  - apply Forall_cons in Hw as [_ Hw]. apply Forall_cons in Hw as [_ Hw]. apply Forall_cons in Hw as [Hc _].
    cbn [app startswith]. destruct (N.eqb_spec 32 c) as [<-|]; [vm_compute in Hc; discriminate|].
    by rewrite !andb_false_r.
Qed.

Lemma split_row n i c :
  word n -> word i -> word c -> i <> lit "->" ->
  split (n ++ lit " " ++ i ++ arrow ++ c) arrow = [n ++ lit " " ++ i; c].
Proof.
  intros [_ Hn] Hi Hc Hna. unfold split. rewrite split_go_word by done.
  change (lit " " ++ i ++ arrow ++ c) with (32 :: i ++ 32 :: (lit "-> " ++ c)).
  cbn [split_go]. rewrite startswith_arrow_word by done.
  rewrite split_go_word by (destruct Hi; done || done).
  change (32 :: lit "-> " ++ c) with (arrow ++ c). unfold arrow at 2.
  change (lit " -> " ++ c) with (32 :: 45 :: 62 :: 32 :: c). cbn [split_go].
  change (startswith (32 :: 45 :: 62 :: 32 :: c) arrow) with true. cbv iota.
  change (length arrow - 1)%nat with 3%nat. cbn [split_go].
  rewrite <-(app_nil_r c) at 1. rewrite split_go_word by (destruct Hc; done || done). cbn [split_go].
  by rewrite !app_nil_r, reverse_app, reverse_cons, !reverse_involutive, <-app_assoc.
Qed.

