(* ===== verification/Arch.v ===== *)
(** * The Arch adapter

    [adapters/arch.py]: native updates are the rows of [checkupdates] joined to the
    inventory of [pacman -Qn]. The command runner is an argument; each command is run at
    most once. *)

From S2P Require Import Prelude PyStr Models Json Utf8 PyRows RunnerTypes.

Open Scope Z_scope.

Inductive ArchFailure :=
| COMMAND_EXITED
| COMMAND_MISSING
| COMMAND_OUTPUT_EXCEEDED
| COMMAND_REJECTED
| COMMAND_TIMED_OUT
| DUPLICATE_PACKAGE
| INVALID_VERCMP_OUTPUT
| MALFORMED_ROW
| MISSING_NATIVE_PACKAGE
| UNEXPECTED_COMMAND_RESULT.

Record PackageRecord := { pkg_name : str; pkg_installed : str }.
Record UpdateRecord := { upd_name : str; upd_installed : str; upd_candidate : str }.
Record ArchDegraded := { degraded_failure : ArchFailure; degraded_detail : str }.

(** A union [X | ArchDegraded]. *)
Abbreviation arch_result := (outcome ArchDegraded).
Definition degraded {A} (f : ArchFailure) (detail : str) : arch_result A :=
  Err {| degraded_failure := f; degraded_detail := detail |}.

(** [CommandRunner]: what a command gives. In one collection each command is run once, so
    that a function of the command and its arguments is as good as a sequence of answers;
    [vercmp], which may be asked twice about the same two versions, answers alike. *)
Abbreviation CommandRunner := (CommandName -> list str -> CommandResult).

Definition _command_degraded {A} (result : CommandResult) (command : str) : arch_result A :=
  match result with
  | CommandExited code _ _ => degraded COMMAND_EXITED (command ++ lit ": exit " ++ str_of_Z code)
  | CommandMissing diagnostic => degraded COMMAND_MISSING diagnostic
  | CommandOutputExceeded stream _ _ => degraded COMMAND_OUTPUT_EXCEEDED (command ++ lit ": " ++ stream)
  | CommandRejected diagnostic => degraded COMMAND_REJECTED diagnostic
  | CommandTimedOut _ _ => degraded COMMAND_TIMED_OUT command
  | CommandSucceeded _ _ => degraded UNEXPECTED_COMMAND_RESULT command
  end.

(** [output.decode("utf-8").splitlines()] *)
Definition decoded_lines (output : bytes) : arch_result (list str) :=
  match Utf8.decode output with
  | Ok text => Ok (splitlines text)
  | Err _ => degraded MALFORMED_ROW (lit "non-UTF-8 output")
  end.

Fixpoint package_rows (lines : list str) (seen : list str) : arch_result (list PackageRecord) :=
  match lines with
  | [] => Ok []
  | line :: rest =>
      match fields line with
      | [name; inst] =>
          if bool_decide (name ∈ seen) then degraded DUPLICATE_PACKAGE name
          else
            records ← package_rows rest (name :: seen);
            Ok ({| pkg_name := name; pkg_installed := inst |} :: records)
      | _ => degraded MALFORMED_ROW line
      end
  end.

Definition _parse_package_rows (output : bytes) : arch_result (list PackageRecord) :=
  lines ← decoded_lines output; package_rows lines [].

Fixpoint update_rows (lines : list str) (seen : list str) : arch_result (list UpdateRecord) :=
  match lines with
  | [] => Ok []
  | line :: rest =>
      match split line (lit " -> ") with
      | [old; new] =>
          match fields old, fields new with
          | [name; inst], [cand] =>
              if bool_decide (name ∈ seen) then degraded DUPLICATE_PACKAGE name
              else
                records ← update_rows rest (name :: seen);
                Ok ({| upd_name := name; upd_installed := inst; upd_candidate := cand |} :: records)
          | _, _ => degraded MALFORMED_ROW line
          end
      | _ => degraded MALFORMED_ROW line
      end
  end.

Definition _parse_update_rows (output : bytes) : arch_result (list UpdateRecord) :=
  lines ← decoded_lines output; update_rows lines [].

(** [OMARCHY_DUPLICATE_FILTER] of [adapters/omarchy.py] *)
Definition OMARCHY_DUPLICATE_FILTER : list str := names ["omarchy"; "omarchy-dev"].

Definition arch_item (u : UpdateRecord) : NormalizedItem :=
  {| item_id := lit "arch:" ++ upd_name u; item_source := IS_ARCH; label := upd_name u;
     installed := Some (upd_installed u); candidate := Some (upd_candidate u); watch_mode := OFF;
     watchable := true; item_provenance := LIVE; installed_fingerprint := None;
     candidate_fingerprint := None; watch_armed := false |}.

Fixpoint _join_official_updates (inventory : list PackageRecord) (updates : list UpdateRecord)
    : arch_result (list NormalizedItem) :=
  match updates with
  | [] => Ok []
  | u :: rest =>
      if bool_decide (upd_name u ∈ pkg_name <$> inventory) then
        items ← _join_official_updates inventory rest;
        Ok (if bool_decide (upd_name u ∈ OMARCHY_DUPLICATE_FILTER) then items else arch_item u :: items)
      else degraded MISSING_NATIVE_PACKAGE (upd_name u)
  end.

Definition collect_official_inventory (run : CommandRunner) : arch_result (list PackageRecord) :=
  match run PACMAN_NATIVE [] with
  | CommandSucceeded stdout _ => _parse_package_rows stdout
  | result => _command_degraded result (lit "pacman -Qn")
  end.

Definition collect_foreign_inventory (run : CommandRunner) : arch_result (list PackageRecord) :=
  match run PACMAN_FOREIGN [] with
  | CommandSucceeded stdout _ => _parse_package_rows stdout
  | result => _command_degraded result (lit "pacman -Qm")
  end.

Definition collect_official_updates (run : CommandRunner) : arch_result (list NormalizedItem) :=
  inventory ← collect_official_inventory run;
  match run CHECKUPDATES [] with
  | CommandSucceeded stdout _ =>
      updates ← _parse_update_rows stdout;
      match updates with
      | [] => degraded MALFORMED_ROW (lit "empty checkupdates output")
      | _ => _join_official_updates inventory updates
      end
  | CommandExited code out err =>
      if code =? 2 then Ok [] else _command_degraded (CommandExited code out err) (lit "checkupdates")
  | result => _command_degraded result (lit "checkupdates")
  end.

Definition compare_versions (run : CommandRunner) (l r : str) : arch_result Z :=
  match run VERCMP [l; r] with
  | CommandSucceeded stdout _ =>
      match Utf8.decode stdout with
      | Err _ => degraded INVALID_VERCMP_OUTPUT (lit "non-UTF-8 output")
      | Ok text =>
          let output := strip text in
          if bool_decide (output = lit "-1") then Ok (-1)
          else if bool_decide (output = lit "0") then Ok 0
          else if bool_decide (output = lit "1") then Ok 1
          else degraded INVALID_VERCMP_OUTPUT output
      end
  | result => _command_degraded result (lit "vercmp")
  end.

(** ** Rows that are written are read *)

Definition package_row (p : PackageRecord) : str := pkg_name p ++ lit " " ++ pkg_installed p.
Definition update_row (u : UpdateRecord) : str :=
  upd_name u ++ lit " " ++ upd_installed u ++ arrow ++ upd_candidate u.

Record package_words (p : PackageRecord) : Prop := {
  pw_name : word (pkg_name p);
  pw_installed : word (pkg_installed p);
}.

Record update_words (u : UpdateRecord) : Prop := {
  uw_name : word (upd_name u);
  uw_installed : word (upd_installed u);
  uw_candidate : word (upd_candidate u);
  uw_arrow : upd_installed u <> lit "->";
}.

Lemma no_break_app r s : no_break r -> no_break s -> no_break (r ++ s).
Proof. apply Forall_app_2. Qed.

Lemma package_row_no_break p : package_words p -> no_break (package_row p).
Proof.
  intros []. repeat apply no_break_app; auto using word_no_break. by repeat constructor.
Qed.

Lemma update_row_no_break u : update_words u -> no_break (update_row u).
Proof.
  intros []. repeat apply no_break_app; auto using word_no_break; by repeat constructor.
Qed.

Lemma rows_no_break {A} (row : A -> str) (P : A -> Prop) l :
  (forall x, P x -> no_break (row x)) -> Forall P l -> Forall no_break (row <$> l).
Proof. intros Hr Hl. apply Forall_fmap. eapply Forall_impl; [exact Hl|]. exact Hr. Qed.

Lemma package_rows_inverse l seen :
  Forall package_words l -> NoDup (pkg_name <$> l) -> Forall (fun p => pkg_name p ∉ seen) l ->
  package_rows (package_row <$> l) seen = Ok l.
Proof.
  intros Hw. revert seen. induction Hw as [|p l [Hn Hi] _ IH]; intros seen; [done|].
  rewrite fmap_cons, NoDup_cons. intros [Hp Hnd] [Hs Hseen]%Forall_cons. csimpl. unfold package_row at 1.
  rewrite fields_two by done. rewrite bool_decide_false by done. rewrite IH; [by destruct p | done |].
  apply Forall_forall. intros q Hq. rewrite Forall_forall in Hseen. rewrite not_elem_of_cons. split; [|auto].
  intros E. apply Hp. rewrite <-E. apply list_elem_of_fmap. eauto.
Qed.

Lemma update_rows_inverse l seen :
  Forall update_words l -> NoDup (upd_name <$> l) -> Forall (fun u => upd_name u ∉ seen) l ->
  update_rows (update_row <$> l) seen = Ok l.
Proof.
  intros Hw. revert seen. induction Hw as [|u l [Hn Hi Hc Ha] _ IH]; intros seen; [done|].
  rewrite fmap_cons, NoDup_cons. intros [Hu Hnd] [Hs Hseen]%Forall_cons. csimpl. unfold update_row at 1.
  rewrite split_row, fields_two, fields_word by done. rewrite bool_decide_false by done.
  rewrite IH; [by destruct u | done |].
  apply Forall_forall. intros q Hq. rewrite Forall_forall in Hseen. rewrite not_elem_of_cons. split; [|auto].
  intros E. apply Hu. rewrite <-E. apply list_elem_of_fmap. eauto.
Qed.

Lemma decoded_lines_inverse rows out :
  Forall no_break rows -> Utf8.encode (lines_text rows) = Ok out ->
  decoded_lines out = Ok rows.
Proof.
  intros Hr Ho%encode_decode. unfold decoded_lines. rewrite Ho. by rewrite splitlines_text.
Qed.

Definition reported (u : UpdateRecord) : bool := bool_decide (upd_name u ∉ OMARCHY_DUPLICATE_FILTER).

Lemma reported_alt u : reported u = negb (bool_decide (upd_name u ∈ OMARCHY_DUPLICATE_FILTER)).
Proof. apply bool_decide_not. Qed.

Lemma join_spec inv l :
  Forall (fun u => upd_name u ∈ pkg_name <$> inv) l ->
  _join_official_updates inv l = Ok (arch_item <$> List.filter reported l).
Proof.
  induction 1 as [|u l Hu _ IH]; [done|]. cbn [_join_official_updates List.filter].
  rewrite bool_decide_true, IH by done. rewrite (reported_alt u). simpl. by case_bool_decide.
Qed.

Lemma join_items inv l its :
  _join_official_updates inv l = Ok its ->
  its = arch_item <$> List.filter reported l /\ Forall (fun u => upd_name u ∈ pkg_name <$> inv) l.
Proof.
  revert its. induction l as [|u l IH]; intros its; simpl; [by intros [= <-]|].
  case_bool_decide as Hu; [|done]. intros H. apply bind_Ok in H as (items & Hi & [= <-]).
  apply IH in Hi as [-> Hl]. split; [|by constructor]. rewrite (reported_alt u). by case_bool_decide.
Qed.

Lemma update_rows_distinct lines seen l :
  update_rows lines seen = Ok l -> NoDup (upd_name <$> l) /\ Forall (fun u => upd_name u ∉ seen) l.
Proof.
  revert seen l. induction lines as [|line lines IH]; intros seen l; simpl; [intros [= <-]; split; constructor|].
  repeat (case_match; try done). case_bool_decide as Hs; [done|]. intros H'.
  apply bind_Ok in H' as (records & Hr & [= <-]). apply IH in Hr as [Hnd Hf]. rewrite fmap_cons, NoDup_cons. simpl.
  split; [split; [|done]|constructor; [done|]].
  - intros (u & E & Hu)%list_elem_of_fmap. rewrite Forall_forall in Hf. specialize (Hf u Hu).
    rewrite not_elem_of_cons in Hf. destruct Hf as [Hf _]. congruence.
  - eapply Forall_impl; [exact Hf|]. intros u. rewrite not_elem_of_cons. tauto.
Qed.

Lemma arch_item_id_inj u v : item_id (arch_item u) = item_id (arch_item v) -> upd_name u = upd_name v.
Proof. cbn [item_id arch_item]. intros E%app_inv_head. done. Qed.

(** C40. When pacman and checkupdates print one row per package, the adapter reports
    exactly the updates printed, in order, less the packages Omarchy reports itself. *)
Theorem official_updates_complete run inventory updates out1 err1 out2 err2 :
  Forall package_words inventory -> NoDup (pkg_name <$> inventory) ->
  Forall update_words updates -> NoDup (upd_name <$> updates) -> updates <> [] ->
  Forall (fun u => upd_name u ∈ pkg_name <$> inventory) updates ->
  let inventory_text := lines_text (package_row <$> inventory) in
  let updates_text := lines_text (update_row <$> updates) in
  Utf8.encode inventory_text = Ok out1 -> Utf8.encode updates_text = Ok out2 ->
  run PACMAN_NATIVE [] = CommandSucceeded out1 err1 -> run CHECKUPDATES [] = CommandSucceeded out2 err2 ->
  collect_official_updates run = Ok (arch_item <$> List.filter reported updates).
Proof.
  intros Hp Hpn Hu Hun Hne Hin text1 text2 Ho1 Ho2 Hr1 Hr2.
  unfold collect_official_updates, collect_official_inventory, _parse_package_rows, _parse_update_rows.
  rewrite Hr1, Hr2, (decoded_lines_inverse _ _ (rows_no_break package_row _ _ package_row_no_break Hp) Ho1).
  simpl. rewrite package_rows_inverse by (done || by apply Forall_true; intros ? ?%elem_of_nil).
  simpl. rewrite (decoded_lines_inverse _ _ (rows_no_break update_row _ _ update_row_no_break Hu) Ho2).
  simpl. rewrite update_rows_inverse by (done || by apply Forall_true; intros ? ?%elem_of_nil).
  simpl. destruct updates as [|u us]; [done|]. by apply join_spec.
Qed.

(** Whatever the commands print, the items reported are Arch items with distinct ids. *)
Lemma official_updates_sound run its :
  collect_official_updates run = Ok its ->
  exists updates, its = arch_item <$> updates /\ NoDup (item_id <$> its)
    /\ Forall (fun u => upd_name u ∉ OMARCHY_DUPLICATE_FILTER) updates.
Proof.
  intros H. unfold collect_official_updates in H. apply bind_Ok in H as (inv & _ & H).
  destruct (run CHECKUPDATES []) as [out err|code out err| | | |]; try discriminate.
  - apply bind_Ok in H as (ups & Hu & H). unfold _parse_update_rows in Hu. apply bind_Ok in Hu as (lines & _ & Hu).
    apply update_rows_distinct in Hu as [Hnd _]. destruct ups as [|u us]; [done|].
    apply join_items in H as [-> _]. exists (List.filter reported (u :: us)). split; [done|]. split.
    + rewrite <-list_fmap_compose. apply (NoDup_map_filter upd_name reported) in Hnd. revert Hnd.
      generalize (List.filter reported (u :: us)). intros l. induction l as [|x l IH]; [constructor|].
      rewrite !fmap_cons, !NoDup_cons. intros [Hx Hl]. split; [|auto].
      intros (y & E & Hy)%list_elem_of_fmap. apply Hx. apply arch_item_id_inj in E. rewrite E.
      apply list_elem_of_fmap. eauto.
    + eapply Forall_impl; [apply Forall_filter_true|]. intros x. unfold reported. by rewrite bool_decide_eq_true.
  - destruct (code =? 2); [|done]. injection H as <-. exists []. split; [done|]. split; constructor.
Qed.

(** ** Witness *)

Definition sample_inventory : list PackageRecord :=
  [{| pkg_name := lit "linux"; pkg_installed := lit "6.9.1-1" |};
   {| pkg_name := lit "omarchy"; pkg_installed := lit "1.0-1" |}].
Definition sample_updates : list UpdateRecord :=
  [{| upd_name := lit "omarchy"; upd_installed := lit "1.0-1"; upd_candidate := lit "1.1-1" |};
   {| upd_name := lit "linux"; upd_installed := lit "6.9.1-1"; upd_candidate := lit "6.9.2-1" |}].

(** A machine with two native packages, both with updates, and two foreign ones. *)
Definition sample_run : CommandRunner := fun name _ =>
  match name with
  | PACMAN_NATIVE => CommandSucceeded (lines_text (package_row <$> sample_inventory)) []
  | CHECKUPDATES => CommandSucceeded (lines_text (update_row <$> sample_updates)) []
  | PACMAN_FOREIGN => CommandSucceeded (lines_text [lit "paru 2.0-1"; lit "yay-bin 1-1"]) []
  | PARU_UPDATES => CommandSucceeded (lines_text [lit "paru 2.0-1 -> 2.1-1"]) []
  | _ => CommandMissing (lit "executable not found")
  end.

Lemma official_updates_complete_witness :
  collect_official_updates sample_run
  = Ok [arch_item {| upd_name := lit "linux"; upd_installed := lit "6.9.1-1"; upd_candidate := lit "6.9.2-1" |}].
Proof.
  apply (official_updates_complete sample_run sample_inventory sample_updates
           (lines_text (package_row <$> sample_inventory)) [] (lines_text (update_row <$> sample_updates)) []);
    try reflexivity; try discriminate.
  - repeat (constructor; [constructor; (split; [discriminate | repeat constructor])|]). constructor.
  - apply (bool_decide_unpack _). vm_compute. exact I.
  - repeat (constructor; [constructor; first [split; [discriminate | repeat constructor] | discriminate]|]).
    constructor.
  - apply (bool_decide_unpack _). vm_compute. exact I.
  - apply (bool_decide_unpack _). vm_compute. exact I.
Defined.
