(* ===== verification/Aur.v ===== *)
(** * The AUR adapter

    [adapters/aur.py]: updates reported by yay, or by paru when yay is missing, for
    packages of the foreign inventory. *)

From S2P Require Import Prelude PyStr Regex Models Utf8 RunnerTypes Arch.

Open Scope Z_scope.

(** [re.compile(r"^\[(?:[0-9]+[smhdw])+\]$")] *)
Definition _YAY_AGE_SUFFIX : regex :=
  let unit := RCat (rplus rdigit) (RSet (fun c => existsb (N.eqb c) (lit "smhdw"))) in
  RCat (rlit (lit "[")) (RCat (rplus unit) (rlit (lit "]"))).

Inductive AurHelper := YAY | PARU.

#[global] Instance AurHelper_eq_dec : EqDecision AurHelper.
Proof. solve_decision. Defined.

#[global] Program Instance AurHelper_enum : StrEnum AurHelper := {|
  members := [YAY; PARU];
  value a := lit match a with YAY => "yay" | PARU => "paru" end%string;
|}.
Next Obligation. solve_complete. Qed.
Next Obligation. solve_distinct. Qed.

Inductive AurResult :=
| AurCollected (helper : AurHelper) (items : list NormalizedItem)
| AurNotApplicable
| AurMissingDependency
| AurInvalid (diagnostic : str)
| AurTimedOut (helper : AurHelper)
| AurOutputExceeded (helper : AurHelper) (stream : str)
| AurCommandFailed (helper : AurHelper) (returncode : Z)
| AurCommandRejected (helper : AurHelper) (diagnostic : str)
| AurForeignInventoryDegraded (failure : ArchFailure) (detail : str).

Definition aur_item (name inst cand : str) : NormalizedItem :=
  {| item_id := lit "aur:" ++ name; item_source := IS_AUR; label := name; installed := Some inst;
     candidate := Some cand; watch_mode := OFF; watchable := true; item_provenance := LIVE;
     installed_fingerprint := None; candidate_fingerprint := None; watch_armed := false |}.

(** The candidate of the right side of a row: one field, or one and an age. *)
Definition candidate_field (right_fields : list str) : option str :=
  match right_fields with
  | [c] => Some c
  | [c; age] => if fullmatch _YAY_AGE_SUFFIX age then Some c else None
  | _ => None
  end.

(** The loop of [_parse_helper_output]; an [Err] is the diagnostic of [AurInvalid]. *)
Fixpoint helper_rows (inventory : list PackageRecord) (lines seen : list str)
    : outcome str (list NormalizedItem) :=
  match lines with
  | [] => Ok []
  | line :: rest =>
      match split line (lit " -> ") with
      | [old; new] =>
          match fields old, candidate_field (fields new) with
          | [name; inst], Some cand =>
              if bool_decide (name ∈ seen) then Err (lit "duplicate package: " ++ name)
              else if bool_decide (name ∉ pkg_name <$> inventory) then Err (lit "missing foreign package: " ++ name)
              else
                items ← helper_rows inventory rest (name :: seen);
                Ok (aur_item name inst cand :: items)
          | _, _ => Err line
          end
      | _ => Err line
      end
  end.

Definition _parse_helper_output (helper : AurHelper) (output : bytes) (inventory : list PackageRecord)
    : AurResult :=
  match Utf8.decode output with
  | Err _ => AurInvalid (lit "non-UTF-8 output")
  | Ok text =>
      match helper_rows inventory (splitlines text) [] with
      | Ok items => AurCollected helper items
      | Err diagnostic => AurInvalid diagnostic
      end
  end.

Definition _collect_from_result (helper : AurHelper) (result : CommandResult)
    (inventory : list PackageRecord) : AurResult :=
  match result with
  | CommandSucceeded stdout _ => _parse_helper_output helper stdout inventory
  | CommandMissing _ => AurMissingDependency
  | CommandTimedOut _ _ => AurTimedOut helper
  | CommandOutputExceeded stream _ _ => AurOutputExceeded helper stream
  | CommandExited code _ _ => AurCommandFailed helper code
  | CommandRejected diagnostic => AurCommandRejected helper diagnostic
  end.

Definition _collect_from_paru (run : CommandRunner) (inventory : list PackageRecord) : AurResult :=
  _collect_from_result PARU (run PARU_UPDATES []) inventory.

Definition _collect_with_yay_or_paru (run : CommandRunner) (inventory : list PackageRecord) : AurResult :=
  match run YAY_UPDATES [] with
  | CommandMissing _ => _collect_from_paru run inventory
  | result => _collect_from_result YAY result inventory
  end.

Definition collect_aur_updates (run : CommandRunner) : AurResult :=
  match collect_foreign_inventory run with
  | Ok [] => AurNotApplicable
  | Ok records => _collect_with_yay_or_paru run records
  | Err d => AurForeignInventoryDegraded (degraded_failure d) (degraded_detail d)
  end.

Lemma helper_rows_sound inv lines seen its :
  helper_rows inv lines seen = Ok its ->
  Forall (fun i => exists name inst cand, i = aur_item name inst cand
                   /\ name ∈ pkg_name <$> inv /\ name ∉ seen) its
  /\ NoDup (label <$> its).
Proof.
  revert seen its. induction lines as [|line lines IH]; intros seen its; simpl; [intros [= <-]; split; constructor|].
  destruct (split line _) as [|old [|new [|? ?]]]; try done.
  destruct (fields old) as [|name [|inst [|? ?]]], (candidate_field (fields new)) as [cand|]; try done.
  destruct (decide (name ∈ seen)) as [|Hs]; [by rewrite bool_decide_true|]. rewrite bool_decide_false by done.
  destruct (decide (name ∈ pkg_name <$> inv)) as [Hi|]; [|by rewrite bool_decide_true].
  rewrite bool_decide_false by (by intros []).
  intros H'. apply bind_Ok in H' as (items & Hr & [= <-]). apply IH in Hr as [Hf Hnd].
  split; [constructor|].
  - eauto 10.
  - eapply Forall_impl; [exact Hf|]. intros i (n & x & c & -> & Hn & Hns). rewrite not_elem_of_cons in Hns. naive_solver.
  - rewrite fmap_cons, NoDup_cons. split; [|done]. intros (i & E & Hin)%list_elem_of_fmap.
    rewrite Forall_forall in Hf. destruct (Hf i Hin) as (n & x & c & -> & _ & Hns).
    rewrite not_elem_of_cons in Hns. simpl in E. naive_solver.
Qed.

(** What one helper reports. *)
Lemma from_result_sound h result inventory helper its :
  _collect_from_result h result inventory = AurCollected helper its ->
  h = helper /\ exists out err, result = CommandSucceeded out err
  /\ Forall (fun i => exists name inst cand, i = aur_item name inst cand /\ name ∈ pkg_name <$> inventory) its
  /\ NoDup (item_id <$> its).
Proof.
  destruct result as [out err|code out err|out err|stream out err|dg|dg]; intros Hr; simpl in Hr; try discriminate.
  unfold _parse_helper_output in Hr. destruct (Utf8.decode out) as [text|]; [|done].
  destruct (helper_rows _ _ _) as [items|] eqn:Er; [|done]. injection Hr as -> ->.
  apply helper_rows_sound in Er as [Hf Hnd]. split; [done|]. exists out, err. split; [done|]. split.
  - eapply Forall_impl; [exact Hf|]. naive_solver.
  - apply (NoDup_fmap_2 (fun l => lit "aur:" ++ l)) in Hnd.
    rewrite <-list_fmap_compose in Hnd. erewrite Forall_fmap_ext_1; [exact Hnd|].
    eapply Forall_impl; [exact Hf|]. by intros i (n & x & c & -> & _).
Qed.

Lemma aur_items run helper its :
  collect_aur_updates run = AurCollected helper its ->
  Forall (fun i => exists name inst cand, i = aur_item name inst cand) its.
Proof.
  unfold collect_aur_updates. destruct (collect_foreign_inventory run) as [[|p inv]|d]; try done.
  unfold _collect_with_yay_or_paru, _collect_from_paru. intros H.
  assert (exists h result, _collect_from_result h result (p :: inv) = AurCollected helper its) as (h & result & Hr)
    by (destruct (run YAY_UPDATES []); eauto).
  apply from_result_sound in Hr as (_ & out & err & _ & Hf & _). eapply Forall_impl; [exact Hf|]. naive_solver.
Qed.

(** AUR updates are reported only from a helper that ran successfully, only for
    packages of the foreign inventory, at most once each, and paru is asked only when yay
    is not installed. *)
Theorem aur_collected_sound run helper its :
  collect_aur_updates run = AurCollected helper its ->
  exists inventory out err,
    collect_foreign_inventory run = Ok inventory /\ inventory <> []
    /\ run (match helper with YAY => YAY_UPDATES | PARU => PARU_UPDATES end) [] = CommandSucceeded out err
    /\ (helper = PARU -> exists d, run YAY_UPDATES [] = CommandMissing d)
    /\ Forall (fun i => exists name inst cand, i = aur_item name inst cand
                        /\ name ∈ pkg_name <$> inventory) its
    /\ NoDup (item_id <$> its).
Proof.
  unfold collect_aur_updates. destruct (collect_foreign_inventory run) as [inv|d] eqn:Ei; [|done].
  destruct inv as [|p inv]; [done|]. intros H. exists (p :: inv).
  unfold _collect_with_yay_or_paru, _collect_from_paru in H.
  destruct (run YAY_UPDATES []) as [out err|code out err|out err|stream out err|dg|dg] eqn:Ey;
    apply from_result_sound in H as (<- & o & e & Hr & ? & ?); try discriminate.
  - exists o, e. rewrite Ey. split; [done|]. split; [done|]. split; [done|]. split; [discriminate|]. split; done.
  - exists o, e. split; [done|]. split; [done|]. split; [done|]. split; [eauto|]. split; done.
Qed.

(** yay is not installed, paru has one update. *)
Lemma aur_collected_sound_witness :
  let its := [aur_item (lit "paru") (lit "2.0-1") (lit "2.1-1")] in
  collect_aur_updates sample_run = AurCollected PARU its
  /\ (exists d, sample_run YAY_UPDATES [] = CommandMissing d) /\ NoDup (item_id <$> its).
Proof.
  intros its. assert (collect_aur_updates sample_run = AurCollected PARU its) as H by (vm_compute; reflexivity).
  destruct (aur_collected_sound _ _ _ H) as (inv & out & err & _ & _ & _ & Hp & _ & Hd).
  split; [exact H|]. split; [exact (Hp eq_refl) | exact Hd].
Defined.
