(* ===== verification/ScanOutcomes.v ===== *)
(** * Outcomes of sources

    [scan_outcomes.py] and the part of [scan_command_outcomes.py] for Arch and the AUR:
    what one source contributed to a scan, and how adapter results become outcomes. *)

From S2P Require Import Prelude PyStr Models Validation RunnerTypes Arch Aur.

Open Scope Z_scope.

Record SourceOutcome := {
  so_source : SourceName;
  so_scope : option SourceScope;
  so_status : SourceStatus;
  so_provenance : Provenance;
  so_items : list NormalizedItem;
  so_findings : list SecurityFindingGroup;
  so_cause : option ErrorInfo;
  so_permanent : bool;
  so_applicable : bool;
}.

(** [SourceOutcome.key] *)
Definition key_of (source : SourceName) (scope : option SourceScope) : str :=
  match scope with
  | None => value source
  | Some s => value source ++ lit ":" ++ value s
  end.
Definition so_key (o : SourceOutcome) : str := key_of (so_source o) (so_scope o).

Definition ok_status (s : SourceStatus) : bool :=
  match s with
  | SS_OK | SS_NOT_APPLICABLE => true
  | SS_MISSING_DEPENDENCY | SS_OFFLINE | SS_TIMEOUT | SS_ERROR | SS_INVALID | SS_STALE => false
  end.
Definition successful (o : SourceOutcome) : bool := ok_status (so_status o).

Definition current (source : SourceName) (its : list NormalizedItem) (prov : Provenance)
    (groups : list SecurityFindingGroup) (scope : option SourceScope) : SourceOutcome :=
  {| so_source := source; so_scope := scope; so_status := SS_OK; so_provenance := prov;
     so_items := its; so_findings := groups; so_cause := None; so_permanent := false;
     so_applicable := true |}.

Definition not_applicable (source : SourceName) (scope : option SourceScope) : SourceOutcome :=
  {| so_source := source; so_scope := scope; so_status := SS_NOT_APPLICABLE; so_provenance := LIVE;
     so_items := []; so_findings := []; so_cause := None; so_permanent := false;
     so_applicable := false |}.

(** [x or y] on strings *)
Definition str_or (x y : str) : str := match x with [] => y | _ => x end.

Definition failure (source : SourceName) (status : SourceStatus) (detail : str)
    (permanent applicable : bool) (scope : option SourceScope) (its : list NormalizedItem) : SourceOutcome :=
  let c := if bool_decide (status = SS_INVALID) then SOURCE_INVALID else SOURCE_UNAVAILABLE in
  {| so_source := source; so_scope := scope; so_status := status; so_provenance := LIVE;
     so_items := its; so_findings := [];
     so_cause := Some {| code := c; message := str_or (take 512 detail) (value status) |};
     so_permanent := permanent; so_applicable := applicable |}.

Definition simple_failure source status detail permanent applicable :=
  failure source status detail permanent applicable None [].

Definition from_status (source : SourceName) (status : SourceStatus) (its : list NormalizedItem)
    (groups : list SecurityFindingGroup) (diagnostic : option str) : SourceOutcome :=
  let detail := str_or (default [] diagnostic) (value status) in
  match status with
  | SS_OK => current source its LIVE groups None
  | SS_NOT_APPLICABLE => not_applicable source None
  | SS_MISSING_DEPENDENCY | SS_INVALID => simple_failure source status detail true true
  | SS_TIMEOUT | SS_OFFLINE | SS_ERROR | SS_STALE => simple_failure source status detail false true
  end.

Definition arch_failure (source : SourceName) (kind : ArchFailure) (detail : str) (applicable : bool)
    : SourceOutcome :=
  match kind with
  | COMMAND_MISSING => simple_failure source SS_MISSING_DEPENDENCY detail true applicable
  | COMMAND_TIMED_OUT => simple_failure source SS_TIMEOUT detail false applicable
  | MALFORMED_ROW | DUPLICATE_PACKAGE | INVALID_VERCMP_OUTPUT | MISSING_NATIVE_PACKAGE
  | UNEXPECTED_COMMAND_RESULT | COMMAND_REJECTED => simple_failure source SS_INVALID detail true applicable
  | COMMAND_EXITED | COMMAND_OUTPUT_EXCEEDED => simple_failure source SS_ERROR detail false applicable
  end.

(** ** [scan_command_outcomes.py] *)

Definition arch_outcome (result : arch_result (list NormalizedItem)) : SourceOutcome :=
  match result with
  | Ok its => current SN_ARCH its LIVE [] None
  | Err d => arch_failure SN_ARCH (degraded_failure d) (degraded_detail d) true
  end.

Definition aur_outcome (result : AurResult) : SourceOutcome :=
  match result with
  | AurCollected _ its => current SN_AUR its LIVE [] None
  | AurNotApplicable => not_applicable SN_AUR None
  | AurMissingDependency =>
      simple_failure SN_AUR SS_MISSING_DEPENDENCY (lit "AUR helper is unavailable") true true
  | AurInvalid diagnostic => simple_failure SN_AUR SS_INVALID diagnostic true true
  | AurTimedOut helper => simple_failure SN_AUR SS_TIMEOUT (value helper ++ lit " timed out") false true
  | AurOutputExceeded helper stream =>
      simple_failure SN_AUR SS_ERROR (value helper ++ lit " " ++ stream ++ lit " output exceeded") false true
  | AurCommandFailed helper code =>
      simple_failure SN_AUR SS_ERROR (value helper ++ lit " exited " ++ str_of_Z code) false true
  | AurCommandRejected helper diagnostic =>
      simple_failure SN_AUR SS_ERROR (value helper ++ lit " rejected: " ++ diagnostic) true true
  | AurForeignInventoryDegraded kind detail => arch_failure SN_AUR kind detail true
  end.

(** ** Well-formed outcomes

    What the adapters give the scan: items named after their source, findings only from
    the security source, a bounded cause. *)

Definition source_of_item (s : ItemSource) : SourceName :=
  match s with
  | IS_OMARCHY => SN_OMARCHY | IS_ARCH => SN_ARCH | IS_AUR => SN_AUR
  | IS_FLATPAK => SN_FLATPAK | IS_MISE => SN_MISE
  end.

Record scan_item (i : NormalizedItem) : Prop := {
  si_prefix : startswith (item_id i) (value (item_source i) ++ lit ":") = true;
  si_id : short_text (item_id i);
  si_label : short_text (label i);
  si_armed : watch_armed i = true -> watch_mode i = TEMPORARY;
}.

(** A finding group as the security adapter builds it. *)
Record scan_group (g : SecurityFindingGroup) : Prop := {
  sg_prefix : exists name, group_item_id g = lit "arch:" ++ name;
  sg_nonempty : group_findings g <> [];
  sg_distinct : NoDup (finding_id <$> group_findings g);
  sg_findings : Forall (valid_finding (group_item_id g)) (group_findings g);
}.

Definition scan_groups (l : list SecurityFindingGroup) : Prop :=
  NoDup (group_item_id <$> l) /\ Forall scan_group l.

Record well_formed (o : SourceOutcome) : Prop := {
  wf_items : Forall scan_item (so_items o);
  wf_findings : so_findings o = [] \/ so_source o = SN_SECURITY /\ scan_groups (so_findings o);
  wf_cause : cause_ok (so_cause o);
}.

Lemma str_or_bounded x y n : bounded_text n y -> len x <= n -> bounded_text n (str_or x y).
Proof. unfold bounded_text, len. destruct x; simpl; [done|]. lia. Qed.

Lemma status_bounded (s : SourceStatus) : bounded_text MAX_ERROR_MESSAGE_LENGTH (value s).
Proof. by destruct s. Qed.

(** The cause of a failure is never empty and never too long, whatever the command wrote. *)
Lemma failure_cause source status detail p a scope its :
  cause_ok (so_cause (failure source status detail p a scope its)).
Proof.
  simpl. apply str_or_bounded; [apply status_bounded|]. unfold len, MAX_ERROR_MESSAGE_LENGTH.
  rewrite length_take. lia.
Qed.

Lemma current_well_formed source its prov scope :
  Forall scan_item its -> well_formed (current source its prov [] scope).
Proof. constructor; simpl; auto. Qed.

Lemma not_applicable_well_formed source scope : well_formed (not_applicable source scope).
Proof. constructor; simpl; auto. Qed.

Lemma failure_well_formed source status detail p a scope its :
  Forall scan_item its -> well_formed (failure source status detail p a scope its).
Proof. intros H. constructor; [done | by left | apply failure_cause]. Qed.

Lemma simple_failure_well_formed source status detail p a : well_formed (simple_failure source status detail p a).
Proof. by apply failure_well_formed. Qed.

#[export] Hint Resolve current_well_formed not_applicable_well_formed failure_well_formed
  simple_failure_well_formed : opatchy.

Lemma arch_failure_well_formed source kind detail a : well_formed (arch_failure source kind detail a).
Proof. destruct kind; apply simple_failure_well_formed. Qed.

Lemma arch_item_scan u : short_text (lit "arch:" ++ upd_name u) -> upd_name u <> [] -> scan_item (arch_item u).
Proof.
  intros Hs Hn. constructor; simpl; try done.
  unfold bounded_text, len in *. rewrite length_app in Hs. simpl in Hs. destruct (upd_name u); [done|]. simpl in *. lia.
Qed.
