(* ===== verification/ScanResolution.v ===== *)
(** * Resolving outcomes against the previous generation

    [scan_resolution.py]: a source that was not asked keeps its cached evidence, a
    successful one replaces it, a failed one falls back to its last good evidence. *)

From S2P Require Import Prelude PyStr Calendar Models Validation ScanOutcomes.

Open Scope Z_scope.

(** [GenerationBundle] of [storage_generation.py] *)
Record GenerationBundle := {
  g_order : Z;
  g_snapshot : SnapshotResponse;
  g_inventories : list InventoryResponse;
  g_state : PersistentState;
  g_last_good : SnapshotResponse;
  g_last_good_keys : list str;
}.

Definition FRESHNESS : Z := hours 6.

(** [SourceHealth | ScopeHealth] *)
Inductive Health :=
| HSource (h : SourceHealth)
| HScope (h : ScopeHealth).

Definition health_status (h : Health) : SourceStatus :=
  match h with HSource h => sh_status h | HScope h => sc_status h end.
Definition health_provenance (h : Health) : Provenance :=
  match h with HSource h => sh_provenance h | HScope h => sc_provenance h end.
Definition health_observed_at (h : Health) : datetime :=
  match h with HSource h => sh_observed_at h | HScope h => sc_observed_at h end.
Definition health_fresh_until (h : Health) : datetime :=
  match h with HSource h => sh_fresh_until h | HScope h => sc_fresh_until h end.
Definition health_cause (h : Health) : option ErrorInfo :=
  match h with HSource h => sh_cause h | HScope h => sc_cause h end.

Record ResolvedOutcome := {
  ro_outcome : SourceOutcome;
  ro_health : Health;
  ro_items : list NormalizedItem;
  ro_findings : list SecurityFindingGroup;
  ro_usable : bool;
}.

(** The record for an outcome: scoped when the outcome is. *)
Definition make_health (o : SourceOutcome) (status : SourceStatus) (prov : Provenance)
    (observed fresh : datetime) (cause : option ErrorInfo) : Health :=
  match so_scope o with
  | None => HSource {| sh_source := so_source o; sh_status := status; sh_provenance := prov;
                       sh_observed_at := observed; sh_fresh_until := fresh; sh_cause := cause;
                       sh_scopes := [] |}
  | Some s => HScope {| sc_scope := s; sc_status := status; sc_provenance := prov;
                        sc_observed_at := observed; sc_fresh_until := fresh; sc_cause := cause |}
  end.

Definition _fresh_health (o : SourceOutcome) (now : datetime) : res Health :=
  fresh ← dt_plus now FRESHNESS;
  Ok (make_health o (so_status o) (so_provenance o) now fresh None).

Definition _failed_health (o : SourceOutcome) (now : datetime) : Health :=
  make_health o (so_status o) LIVE now now (so_cause o).

Definition _stale_health (o : SourceOutcome) (previous : Health) : Health :=
  make_health o SS_STALE LAST_GOOD (health_observed_at previous) (health_fresh_until previous) (so_cause o).

Definition missing_scope (s : SourceScope) (now : datetime) : ScopeHealth :=
  {| sc_scope := s; sc_status := SS_ERROR; sc_provenance := LIVE; sc_observed_at := now;
     sc_fresh_until := now;
     sc_cause := Some {| code := SOURCE_UNAVAILABLE; message := lit "source scope has no cached evidence" |} |}.

(** [next(...)] raises [StopIteration] when the snapshot has no such source. *)
Definition _previous_health (snapshot : SnapshotResponse) (source : SourceName) (scope : option SourceScope)
    (now : datetime) : res Health :=
  match List.find (fun h => bool_decide (sh_source h = source)) (sources (snap_payload snapshot)) with
  | None => Err StopIteration
  | Some health =>
      Ok match scope with
         | None => HSource health
         | Some s =>
             HScope match List.find (fun h => bool_decide (sc_scope h = s)) (sh_scopes health) with
                    | Some h => h
                    | None => missing_scope s now
                    end
         end
  end.

Definition _belongs_to (i : NormalizedItem) (source : SourceName) (scope : option SourceScope) : bool :=
  match source with
  | SN_OMARCHY => bool_decide (item_source i = IS_OMARCHY)
  | SN_ARCH => bool_decide (item_source i = IS_ARCH)
  | SN_AUR => bool_decide (item_source i = IS_AUR)
  | SN_FLATPAK =>
      bool_decide (item_source i = IS_FLATPAK)
      && startswith (item_id i)
           (lit "flatpak:" ++ match scope with Some s => value s | None => lit "None" end ++ lit ":")
  | SN_MISE => bool_decide (item_source i = IS_MISE)
  | SN_SECURITY | SN_CISA_KEV => false
  end.

Definition with_provenance (i : NormalizedItem) (prov : Provenance) : NormalizedItem :=
  {| item_id := item_id i; item_source := item_source i; label := label i; installed := installed i;
     candidate := candidate i; watch_mode := watch_mode i; watchable := watchable i;
     item_provenance := prov; installed_fingerprint := installed_fingerprint i;
     candidate_fingerprint := candidate_fingerprint i; watch_armed := watch_armed i |}.

Definition _last_good_items (snapshot : SnapshotResponse) (source : SourceName) (scope : option SourceScope)
    : list NormalizedItem :=
  (fun i => with_provenance i LAST_GOOD)
    <$> List.filter (fun i => _belongs_to i source scope) (items (snap_payload snapshot)).

Definition _last_good_findings (snapshot : SnapshotResponse) (source : SourceName) : list SecurityFindingGroup :=
  if bool_decide (source = SN_SECURITY) then findings (snap_payload snapshot) else [].

Definition _cached (source : SourceName) (scope : option SourceScope) (previous : option GenerationBundle)
    (now : datetime) : res ResolvedOutcome :=
  match previous with
  | None =>
      let o := {| so_source := source; so_scope := scope; so_status := SS_ERROR; so_provenance := LIVE;
                  so_items := []; so_findings := [];
                  so_cause := Some {| code := SOURCE_UNAVAILABLE; message := lit "source has no cached evidence" |};
                  so_permanent := false; so_applicable := bool_decide (source = SN_AUR) |} in
      Ok {| ro_outcome := o; ro_health := _failed_health o now; ro_items := []; ro_findings := [];
            ro_usable := false |}
  | Some p =>
      health ← _previous_health (g_snapshot p) source scope now;
      let o := {| so_source := source; so_scope := scope; so_status := health_status health;
                  so_provenance := health_provenance health; so_items := []; so_findings := [];
                  so_cause := health_cause health; so_permanent := false;
                  so_applicable := bool_decide (health_status health <> SS_NOT_APPLICABLE) |} in
      Ok {| ro_outcome := o; ro_health := health;
            ro_items := _last_good_items (g_snapshot p) source scope;
            ro_findings := _last_good_findings (g_snapshot p) source;
            ro_usable := bool_decide (so_key o ∈ g_last_good_keys p) |}
  end.

Definition resolve (current : option SourceOutcome) (source : SourceName) (scope : option SourceScope)
    (previous : option GenerationBundle) (now : datetime) : res ResolvedOutcome :=
  match current with
  | None => _cached source scope previous now
  | Some o =>
      if successful o then
        health ← _fresh_health o now;
        Ok {| ro_outcome := o; ro_health := health; ro_items := so_items o; ro_findings := so_findings o;
              ro_usable := true |}
      else
        let unusable := {| ro_outcome := o; ro_health := _failed_health o now; ro_items := [];
                           ro_findings := []; ro_usable := false |} in
        match previous with
        | Some p =>
            if bool_decide (so_key o ∈ g_last_good_keys p) then
              health ← _previous_health (g_last_good p) source scope now;
              Ok {| ro_outcome := o; ro_health := _stale_health o health;
                    ro_items := _last_good_items (g_last_good p) source scope;
                    ro_findings := _last_good_findings (g_last_good p) source; ro_usable := true |}
            else Ok unusable
        | None => Ok unusable
        end
  end.

Definition identities : list (SourceName * option SourceScope) :=
  [(SN_OMARCHY, None); (SN_ARCH, None); (SN_AUR, None); (SN_FLATPAK, Some USER);
   (SN_FLATPAK, Some SYSTEM); (SN_MISE, None); (SN_SECURITY, None); (SN_CISA_KEV, None)].

(** [zip(..., strict=True)]: raises [ValueError] when the lengths differ, after the pairs
    before. *)
Fixpoint resolve_zip (outcomes : list (option SourceOutcome)) (ids : list (SourceName * option SourceScope))
    (previous : option GenerationBundle) (now : datetime) : res (list ResolvedOutcome) :=
  match outcomes, ids with
  | [], [] => Ok []
  | o :: os, (source, scope) :: ids' =>
      r ← resolve o source scope previous now;
      rs ← resolve_zip os ids' previous now;
      Ok (r :: rs)
  | _, _ => Err ValueError
  end.

Definition resolve_all (outcomes : list (option SourceOutcome)) (previous : option GenerationBundle)
    (now : datetime) : res (list ResolvedOutcome) :=
  resolve_zip outcomes identities previous now.
