(* ===== verification/ScanAssembly.v ===== *)
(** * Assembling a generation

    [scan_assembly.py]: the health of every source, the items and findings of the
    snapshot, its summary and state, and the retry metadata of the sources. *)

From S2P Require Import Prelude PyStr Calendar Models Validation Utf8 Sha256 ScanOutcomes ScanResolution.

Open Scope Z_scope.

Definition RETRY_DELAYS : list Z := [minutes 5; minutes 15; hours 1; hours 6].
Definition _OMARCHY_SYSTEM_IDS : list str := names ["arch:omarchy"; "arch:omarchy-dev"].

(** [l[i]], a negative index counting from the end. *)
Definition py_index {A} (l : list A) (i : Z) : res A :=
  match l !! Z.to_nat (if i <? 0 then i + len l else i) with
  | Some x => if i <? - len l then Err IndexError else Ok x
  | None => Err IndexError
  end.

(** ** Source health *)

Definition _scope_health (r : ResolvedOutcome) : res ScopeHealth :=
  match ro_health r with
  | HScope h =>
      Ok (if bool_decide (sc_status h = SS_MISSING_DEPENDENCY)
          then {| sc_scope := sc_scope h; sc_status := SS_NOT_APPLICABLE; sc_provenance := sc_provenance h;
                  sc_observed_at := sc_observed_at h; sc_fresh_until := sc_fresh_until h; sc_cause := None |}
          else h)
  | HSource _ => fail INVALID_ENVELOPE (lit "Flatpak scope health is invalid")
  end.

Definition _source_health (r : ResolvedOutcome) : res SourceHealth :=
  match ro_health r with
  | HSource h => Ok h
  | HScope _ => fail INVALID_ENVELOPE (lit "source health is scoped")
  end.

Definition _flatpak_status (user system : ScopeHealth) : res SourceStatus :=
  let statuses := [sc_status user; sc_status system] in
  if bool_decide (SS_STALE ∈ statuses) then Ok SS_STALE
  else if bool_decide (SS_OK ∈ statuses)
          && forallb (fun s => bool_decide (s = SS_OK) || bool_decide (s = SS_NOT_APPLICABLE)) statuses
  then Ok SS_OK
  else if forallb (fun s => bool_decide (s = SS_NOT_APPLICABLE)) statuses then Ok SS_NOT_APPLICABLE
  else match List.find (fun s => bool_decide (s <> SS_NOT_APPLICABLE)) statuses with
       | Some s => Ok s
       | None => Err StopIteration
       end.

Definition _flatpak_provenance (user system : ScopeHealth) : Provenance :=
  if bool_decide (SS_STALE ∈ [sc_status user; sc_status system]) then LAST_GOOD else LIVE.

Definition _flatpak_cause (user system : ScopeHealth) : option ErrorInfo :=
  match sc_cause user with Some e => Some e | None => sc_cause system end.

(** [min(a, b)] *)
Definition dt_min (a b : datetime) : res datetime :=
  lt ← dt_cmp Z.ltb b a;
  Ok match lt with true => b | false => a end.

Definition is_flatpak (r : ResolvedOutcome) : bool := bool_decide (so_source (ro_outcome r) = SN_FLATPAK).

Definition source_healths (resolved : list ResolvedOutcome) (now : datetime) : res (list SourceHealth) :=
  basic ← mapM _source_health (List.filter (fun r => negb (is_flatpak r)) resolved);
  match List.filter is_flatpak resolved with
  | [user; system] =>
      user ← _scope_health user;
      system ← _scope_health system;
      status ← _flatpak_status user system;
      fresh ← dt_min (sc_fresh_until user) (sc_fresh_until system);
      let flatpak := {| sh_source := SN_FLATPAK; sh_status := status;
                        sh_provenance := _flatpak_provenance user system; sh_observed_at := now;
                        sh_fresh_until := fresh; sh_cause := _flatpak_cause user system;
                        sh_scopes := [user; system] |} in
      Ok (sorted_by_key (fun h => value (sh_source h)) (basic ++ [flatpak]))
  | _ => Err ValueError
  end.

(** ** Items and findings *)

Definition _fingerprint (i : NormalizedItem) (v : option str) : res (option str) :=
  match v with
  | None => Ok None
  | Some v => b ← Utf8.encode (value (item_source i) ++ [0%N] ++ item_id i ++ [0%N] ++ v); Ok (Some (hexdigest b))
  end.

Definition _fingerprinted (i : NormalizedItem) : res NormalizedItem :=
  inst ← _fingerprint i (installed i);
  cand ← _fingerprint i (candidate i);
  Ok {| item_id := item_id i; item_source := item_source i; label := label i; installed := installed i;
        candidate := candidate i; watch_mode := watch_mode i; watchable := watchable i;
        item_provenance := item_provenance i; installed_fingerprint := inst;
        candidate_fingerprint := cand; watch_armed := watch_armed i |}.

Definition normalized_items (resolved : list ResolvedOutcome) : res (list NormalizedItem) :=
  let its := List.filter (fun i => bool_decide (item_id i ∉ _OMARCHY_SYSTEM_IDS)) (resolved ≫= ro_items) in
  fingerprints ← mapM _fingerprinted its;
  _ ← fail_if (negb (unique (item_id <$> fingerprints))) DUPLICATE_ITEM_ID (lit "scan item IDs are duplicated");
  Ok (sorted_by_key item_id fingerprints).

Definition normalized_findings (resolved : list ResolvedOutcome) : list SecurityFindingGroup :=
  sorted_by_key group_item_id (resolved ≫= ro_findings).

Definition count {A} (f : A -> bool) (l : list A) : Z := len (List.filter f l).

Definition summary (its : list NormalizedItem) (groups : list SecurityFindingGroup) (srcs : list SourceHealth)
    : Summary :=
  {| total_updates := len its;
     watched_updates := count (fun i => bool_decide (watch_mode i <> OFF)) its;
     security_findings := foldr Z.add 0 ((fun g => len (group_findings g)) <$> groups);
     degraded_sources := count (fun s => negb (ok_status (sh_status s))) srcs |}.

(** ** The state of a scan *)

Definition _is_applicable (r : ResolvedOutcome) : bool :=
  so_applicable (ro_outcome r)
  && negb (bool_decide (so_source (ro_outcome r) = SN_FLATPAK)
           && bool_decide (so_status (ro_outcome r) = SS_MISSING_DEPENDENCY)).

Definition mandatory (r : ResolvedOutcome) : bool :=
  match so_source (ro_outcome r) with
  | SN_OMARCHY | SN_ARCH | SN_SECURITY => true
  | SN_AUR => so_applicable (ro_outcome r)
  | SN_CISA_KEV | SN_FLATPAK | SN_MISE => false
  end.

Definition healthy (r : ResolvedOutcome) : bool :=
  successful (ro_outcome r) && bool_decide (health_status (ro_health r) = SS_OK).

Definition scan_state (resolved : list ResolvedOutcome) : ScanState :=
  if negb (existsb ro_usable (List.filter mandatory resolved)) then FAILED_SCAN
  else
    let applicable := List.filter _is_applicable resolved in
    if forallb healthy applicable then COMPLETE
    else if existsb ro_usable applicable then PARTIAL
    else FAILED_SCAN.

Definition inventory_sources : list ItemSource := [IS_ARCH; IS_AUR; IS_FLATPAK; IS_MISE].

Definition inventories (m : Meta) (its : list NormalizedItem) : list InventoryResponse :=
  (fun source =>
     let mine := List.filter (fun i => bool_decide (item_source i = source)) its in
     {| inv_meta := m; inv_payload := {| inv_source := source; inv_total := len mine; inv_items := mine |} |})
    <$> inventory_sources.

(** ** Memory between scans *)

(** [tuple(sorted({...}))] *)
Definition sorted_set (l : list str) : list str := sorted_by_key id (elements (list_to_set l : gset str)).

Definition last_good_keys (previous : option GenerationBundle) (resolved : list ResolvedOutcome) : list str :=
  let retained := match previous with None => [] | Some p => g_last_good_keys p end in
  sorted_set (retained ++ ((fun r => so_key (ro_outcome r))
                             <$> List.filter (fun r => successful (ro_outcome r)) resolved)).

Definition _next_metadata (source : SourceName) (current : list (option SourceOutcome))
    (previous : option SourceMetadata) (now : datetime) : res SourceMetadata :=
  let fresh last backoff count permanent :=
    {| md_source := source; md_last_success := last; md_backoff_until := backoff;
       md_failure_count := count; md_permanent_failure := permanent |} in
  let old := default (fresh None None 0 false) previous in
  let attempted := omap id current in
  match attempted with
  | [] => Ok old
  | _ =>
      match List.find (fun o => negb (successful o)) attempted with
      | None => Ok (fresh (Some now) None 0 false)
      | Some failure =>
          let count := md_failure_count old + 1 in
          if so_permanent failure then
            delay ← py_index RETRY_DELAYS (-1);
            until ← dt_plus now delay;
            Ok (fresh (md_last_success old) (Some until) count true)
          else
            delay ← py_index RETRY_DELAYS (Z.min count (len RETRY_DELAYS) - 1);
            until ← dt_plus now delay;
            Ok (fresh (md_last_success old) (Some until) count false)
      end
  end.

Abbreviation SourceOutcomeGroups := (list (SourceName * list (option SourceOutcome))).

Definition metadata (previous : list SourceMetadata) (outcomes : SourceOutcomeGroups) (now : datetime)
    : res (list SourceMetadata) :=
  mapM (fun g : SourceName * list (option SourceOutcome) =>
          _next_metadata g.1 g.2 (List.find (fun e => bool_decide (md_source e = g.1)) previous) now) outcomes.
