(* ===== verification/ScanGeneration.v ===== *)
(** * Building a generation

    [scan_generation.py]: which sources are due, and the generation a scan publishes. *)

From S2P Require Import Prelude PyStr Calendar Models Validation StorageWatches StorageState ScanOutcomes.
From S2P Require Import ScanResolution ScanAssembly.

Open Scope Z_scope.

Record ScanInputs := {
  in_omarchy : option SourceOutcome;
  in_arch : option SourceOutcome;
  in_aur : option SourceOutcome;
  in_flatpak_user : option SourceOutcome;
  in_flatpak_system : option SourceOutcome;
  in_mise : option SourceOutcome;
  in_security : option SourceOutcome;
  in_cisa_kev : option SourceOutcome;
}.

Definition outcomes (i : ScanInputs) : list (option SourceOutcome) :=
  [in_omarchy i; in_arch i; in_aur i; in_flatpak_user i; in_flatpak_system i; in_mise i;
   in_security i; in_cisa_kev i].

Definition source_outcomes (i : ScanInputs) : SourceOutcomeGroups :=
  [(SN_OMARCHY, [in_omarchy i]); (SN_ARCH, [in_arch i]); (SN_AUR, [in_aur i]);
   (SN_FLATPAK, [in_flatpak_user i; in_flatpak_system i]); (SN_MISE, [in_mise i]);
   (SN_SECURITY, [in_security i]); (SN_CISA_KEV, [in_cisa_kev i])].

Definition due (m : option SourceMetadata) (now : datetime) (force : bool) : res bool :=
  match m with
  | None => Ok true
  | Some m =>
      if force then Ok true
      else
        held ← match md_backoff_until m with
               | None => Ok false
               | Some until => dt_cmp Z.ltb now until
               end;
        match held with
        | true => Ok false
        | false =>
            match md_last_success m with
            | None => Ok true
            | Some last => stale ← dt_plus last FRESHNESS; dt_cmp Z.geb now stale
            end
        end
  end.

Definition build_generation (generation : str) (order : Z) (inputs : ScanInputs)
    (previous : option GenerationBundle) (state : PersistentState) (now : datetime) : res GenerationBundle :=
  resolved ← resolve_all (outcomes inputs) previous now;
  srcs ← source_healths resolved now;
  its ← normalized_items resolved;
  let groups := normalized_findings resolved in
  let m := {| generated_at := now; generation_id := generation; protocol_version_of := PROTOCOL_VERSION |} in
  let snapshot := {| snap_meta := m;
                     snap_payload := {| scan_state_of := scan_state resolved; sources := srcs;
                                        summary_of := summary its groups srcs; items := its;
                                        findings := groups; notifications := [] |} |} in
  ms ← metadata (st_sources state) (source_outcomes inputs) now;
  Ok {| g_order := order; g_snapshot := snapshot; g_inventories := inventories m its;
        g_state := {| st_watches := st_watches state; st_ledger := st_ledger state; st_sources := ms |};
        g_last_good := snapshot; g_last_good_keys := last_good_keys previous resolved |}.
