(* ===== verification/ScanInvariant.v ===== *)
(** * Generations stay publishable

    Every generation built from well-formed outcomes and a good previous generation is
    itself good: its snapshot and inventories pass [Validation], so that publishing it
    never fails for what the sources said. *)

From S2P Require Import Prelude PyStr Calendar Models Samples Validation Utf8 Sha256 StorageWatches StorageState.
From S2P Require Import RunnerTypes Arch Aur ScanOutcomes ScanResolution ScanAssembly ScanGeneration.

Open Scope Z_scope.

Record good_payload (p : SnapshotPayload) : Prop := {
  gp_valid : valid_snapshot p;
  gp_items : Forall scan_item (items p);
}.

Definition good_generation (g : GenerationBundle) : Prop :=
  good_payload (snap_payload (g_snapshot g)) /\ good_payload (snap_payload (g_last_good g)).

Definition matched (o : option SourceOutcome) (id : SourceName * option SourceScope) : Prop :=
  forall x, o = Some x -> so_source x = id.1 /\ so_scope x = id.2 /\ well_formed x.

Definition findings_for (source : SourceName) (l : list SecurityFindingGroup) : Prop :=
  l = [] \/ source = SN_SECURITY /\ scan_groups l.

(** What the record of a resolved source must be. *)
Definition health_for (id : SourceName * option SourceScope) (h : Health) : Prop :=
  match id.2, h with
  | None, HSource h => sh_source h = id.1 /\ cause_ok (sh_cause h) /\ sh_scopes h = []
  | Some s, HScope h => sc_scope h = s /\ cause_ok (sc_cause h)
  | _, _ => False
  end.

Record resolved_for (id : SourceName * option SourceScope) (r : ResolvedOutcome) : Prop := {
  rf_source : so_source (ro_outcome r) = id.1;
  rf_health : health_for id (ro_health r);
  rf_items : Forall scan_item (ro_items r);
  rf_findings : findings_for id.1 (ro_findings r);
}.

(** ** Resolution *)

Lemma make_health_for o status prov observed fresh cause :
  cause_ok cause -> health_for (so_source o, so_scope o) (make_health o status prov observed fresh cause).
Proof. intros Hc. unfold make_health, health_for. by destruct (so_scope o). Qed.

Lemma last_good_items_scan p source scope :
  good_payload (snap_payload p) -> Forall scan_item (_last_good_items p source scope).
Proof.
  intros [_ H]. unfold _last_good_items. apply Forall_fmap. eapply Forall_impl; [by apply Forall_filter_bool|].
  intros i []. by constructor.
Qed.

Lemma valid_group_scan its g : valid_group its g -> scan_group g.
Proof. intros []. by constructor. Qed.

Lemma last_good_findings_scan p source :
  good_payload (snap_payload p) -> findings_for source (_last_good_findings p source).
Proof.
  intros [[] _]. unfold _last_good_findings. case_bool_decide; [right | by left]. split; [done|]. split; [done|].
  eapply Forall_impl; [eassumption|]. intros g. apply valid_group_scan.
Qed.

Lemma previous_health_for p source scope now h :
  good_payload (snap_payload p) -> (source, scope) ∈ identities -> _previous_health p source scope now = Ok h ->
  health_for (source, scope) h.
Proof.
  intros [Hv _] Hid. pose proof (vp_sources _ Hv) as Hsrc. unfold _previous_health. destruct (List.find _ _) as [sh|] eqn:E; [|done].
  apply find_Some in E as [Hin <-%bool_decide_eq_true]. rewrite Forall_forall in Hsrc.
  destruct (Hsrc sh Hin) as [Hc Hs Hcs]. intros [= <-]. unfold health_for. destruct scope as [s|]; simpl.
  - destruct (List.find _ (sh_scopes sh)) as [h|] eqn:Eh; [|done].
    apply find_Some in Eh as [Hh <-%bool_decide_eq_true]. rewrite Forall_forall in Hcs. auto.
  - split; [done|]. split; [done|]. destruct Hs as [|[Hf _]]; [done|]. rewrite Hf in Hid.
    exfalso. repeat (apply elem_of_cons in Hid as [Hid|Hid]; [discriminate|]). by apply elem_of_nil in Hid.
Qed.

Lemma cause_unavailable msg :
  bounded_text MAX_ERROR_MESSAGE_LENGTH msg -> cause_ok (Some {| code := SOURCE_UNAVAILABLE; message := msg |}).
Proof. done. Qed.

Lemma health_cause_for id h : health_for id h -> cause_ok (health_cause h).
Proof. unfold health_for. destruct (id.2), h; simpl; tauto. Qed.

Lemma cached_resolved source scope previous now r :
  (forall p, previous = Some p -> good_generation p) -> (source, scope) ∈ identities ->
  _cached source scope previous now = Ok r -> resolved_for (source, scope) r.
Proof.
  intros Hp Hid. unfold _cached. destruct previous as [p|].
  - intros H. apply bind_Ok in H as (h & Hh & [= <-]). destruct (Hp p eq_refl) as [Hg _].
    constructor; simpl; auto using last_good_items_scan, last_good_findings_scan.
    eapply previous_health_for; eauto.
  - intros [= <-]. constructor; simpl; auto; [|by left].
    by apply (make_health_for {| so_source := source; so_scope := scope; so_status := SS_ERROR; so_provenance := LIVE;
      so_items := []; so_findings := []; so_cause := None; so_permanent := false; so_applicable := false |}).
Qed.

Lemma resolve_resolved o source scope previous now r :
  (forall p, previous = Some p -> good_generation p) -> (source, scope) ∈ identities ->
  matched o (source, scope) -> resolve o source scope previous now = Ok r -> resolved_for (source, scope) r.
Proof.
  intros Hp Hid Ho. unfold resolve. destruct o as [x|]; [|by apply cached_resolved].
  destruct (Ho x eq_refl) as (Hs & Hsc & []). simpl in Hs, Hsc. subst source scope.
  assert (findings_for (so_source x) (so_findings x)) as Hf by (unfold findings_for; tauto).
  destruct (successful x).
  - intros H. apply bind_Ok in H as (h & Hh & [= <-]). unfold _fresh_health in Hh. apply bind_Ok in Hh as (f & _ & [= <-]).
    constructor; simpl; auto. by apply make_health_for.
  - assert (resolved_for (so_source x, so_scope x)
      {| ro_outcome := x; ro_health := _failed_health x now; ro_items := []; ro_findings := []; ro_usable := false |}) as Hu.
    { constructor; simpl; auto; [by apply make_health_for | by left]. }
    destruct previous as [p|]; [|by intros [= <-]]. case_bool_decide; [|by intros [= <-]].
    intros H'. apply bind_Ok in H' as (h & Hh & [= <-]). destruct (Hp p eq_refl) as [_ Hg].
    constructor; simpl; auto using last_good_items_scan, last_good_findings_scan. by apply make_health_for.
Qed.

Lemma resolve_all_resolved os previous now rs :
  (forall p, previous = Some p -> good_generation p) -> Forall2 matched os identities ->
  resolve_all os previous now = Ok rs -> Forall2 resolved_for identities rs.
Proof.
  intros Hp. unfold resolve_all.
  assert (forall ids, (forall id, id ∈ ids -> id ∈ identities) -> forall os rs, Forall2 matched os ids ->
            resolve_zip os ids previous now = Ok rs -> Forall2 resolved_for ids rs) as Hgen.
  { induction ids as [|[source scope] ids IH]; intros Hids os' rs' Hm; inversion Hm; subst; simpl.
    - intros [= <-]. constructor.
    - intros H'. apply bind_Ok in H' as (r & Hr & H'). apply bind_Ok in H' as (rs2 & Hrs & [= <-]).
      constructor; [|eapply IH; eauto; intros; apply Hids; by right].
      eapply resolve_resolved; eauto. apply Hids. by left. }
  by apply Hgen.
Qed.

(** ** Source health *)

(** The resolved outcomes split as the code splits them: six sources and two scopes. *)
Lemma resolved_split rs :
  Forall2 resolved_for identities rs ->
  exists basic user system,
    List.filter is_flatpak rs = [user; system]
    /\ resolved_for (SN_FLATPAK, Some USER) user /\ resolved_for (SN_FLATPAK, Some SYSTEM) system
    /\ List.filter (fun r => negb (is_flatpak r)) rs = basic
    /\ Forall2 (fun s r => resolved_for (s, None) r) [SN_OMARCHY; SN_ARCH; SN_AUR; SN_MISE; SN_SECURITY; SN_CISA_KEV] basic.
Proof.
  intros H. unfold identities in H.
  repeat match goal with H : Forall2 _ (_ :: _) _ |- _ => inversion H; clear H; subst end.
  match goal with H : Forall2 _ [] _ |- _ => inversion H; subst end.
  unfold is_flatpak. cbn [List.filter].
  repeat match goal with H : resolved_for ?id ?r |- context [so_source (ro_outcome ?r)] =>
    rewrite (rf_source id r H) end.
  cbn. eexists _, _, _. split; [done|]. split; [done|]. split; [done|]. split; [done|].
  repeat first [apply List.Forall2_nil | apply List.Forall2_cons; [assumption|]].
Qed.

Lemma source_health_mapM srcs basic hs :
  Forall2 (fun s r => resolved_for (s, None) r) srcs basic -> mapM _source_health basic = Ok hs ->
  sh_source <$> hs = srcs /\ Forall valid_source hs.
Proof.
  intros H. revert hs. induction H as [|s r srcs basic [_ Hh _ _] _ IH]; intros hs; simpl; [by intros [= <-]|].
  unfold health_for in Hh. simpl in Hh. destruct (ro_health r) as [h|] eqn:Er; [|done]. intros H'.
  apply bind_Ok in H' as (h' & Hh' & H'). unfold _source_health in Hh'. rewrite Er in Hh'. injection Hh' as <-.
  apply bind_Ok in H' as (hs' & Hhs & [= <-]). destruct (IH hs' Hhs) as [<- Hv].
  destruct Hh as (<- & Hc & Hsc). split; [done|]. constructor; [|done]. constructor; rewrite ?Hsc; auto.
Qed.

Lemma scope_health_for s r h :
  resolved_for (SN_FLATPAK, Some s) r -> _scope_health r = Ok h -> sc_scope h = s /\ cause_ok (sc_cause h).
Proof.
  intros [_ Hh _ _]. unfold health_for in Hh. simpl in Hh. unfold _scope_health. destruct (ro_health r) as [|h']; [done|].
  intros [= <-]. by case_bool_decide; simpl; destruct Hh.
Qed.

Lemma flatpak_cause_ok u s : cause_ok (sc_cause u) -> cause_ok (sc_cause s) -> cause_ok (_flatpak_cause u s).
Proof. unfold _flatpak_cause. by destruct (sc_cause u). Qed.

Lemma source_healths_valid rs now hs :
  Forall2 resolved_for identities rs -> source_healths rs now = Ok hs ->
  sh_source <$> hs ≡ₚ members /\ Forall valid_source hs.
Proof.
  intros Hrs. destruct (resolved_split rs Hrs) as (basic & user & system & Hf & Hu & Hs & Hb & Hbasic).
  unfold source_healths. rewrite Hb, Hf. intros H. apply bind_Ok in H as (bs & Hbs & H). apply bind_Ok in H as (uh & Huh & H).
  apply bind_Ok in H as (sh & Hsh & H). apply bind_Ok in H as (status & _ & H). apply bind_Ok in H as (fresh & _ & [= <-]).
  destruct (source_health_mapM _ _ _ Hbasic Hbs) as [Hsrc Hv].
  destruct (scope_health_for _ _ _ Hu Huh) as [Hus Huc]. destruct (scope_health_for _ _ _ Hs Hsh) as [Hss Hsc].
  unfold sorted_by_key. rewrite !sorted_by_Permutation. split.
  - rewrite fmap_app, Hsrc. cbn. by apply (bool_decide_unpack _); vm_compute.
  - apply Forall_app. split; [done|]. constructor; [|done]. constructor; simpl.
    + by apply flatpak_cause_ok.
    + right. split; [done|]. by rewrite Hus, Hss.
    + repeat constructor; done.
Qed.

(** ** Items and findings *)

Lemma hexdigest_short b : short_text (hexdigest b).
Proof. unfold bounded_text, len, MAX_IDENTIFIER_LENGTH. rewrite length_hexdigest. lia. Qed.

Lemma fingerprint_short i v o : ScanAssembly._fingerprint i v = Ok o -> optional_text o.
Proof.
  unfold _fingerprint. destruct v as [v|]; [|by intros [= <-]]. intros H. apply bind_Ok in H as (b & _ & [= <-]).
  apply hexdigest_short.
Qed.

Lemma fingerprinted_scan i j :
  scan_item i -> _fingerprinted i = Ok j -> item_id j = item_id i /\ scan_item j /\ valid_item j.
Proof.
  intros [] H. unfold _fingerprinted in H. apply bind_Ok in H as (inst & Hi & H). apply bind_Ok in H as (cand & Hc & [= <-]).
  apply fingerprint_short in Hi, Hc. split; [done|]. split; by constructor.
Qed.

Lemma resolved_items rs :
  Forall2 resolved_for identities rs -> Forall scan_item (rs ≫= ro_items).
Proof.
  intros H. apply Forall_bind. generalize dependent identities. intros ids H.
  induction H as [|id r ids rs [] _ IH]; constructor; auto.
Qed.

Lemma normalized_items_valid rs its :
  Forall2 resolved_for identities rs -> normalized_items rs = Ok its ->
  valid_items its /\ Forall scan_item its.
Proof.
  intros Hrs%resolved_items H. unfold normalized_items in H. apply bind_Ok in H as (fs & Hfs & H).
  apply bind_Ok in H as ([] & Hu & [= <-]). rewrite fail_if_Ok, negb_false_iff, unique_spec in Hu.
  assert (Forall (fun j => scan_item j /\ valid_item j) fs) as Hall.
  { clear Hu. apply mapM_Ok in Hfs. apply (Forall_filter_bool _ (fun i => bool_decide (item_id i ∉ _OMARCHY_SYSTEM_IDS))) in Hrs.
    revert Hrs Hfs. generalize (List.filter (fun i => bool_decide (item_id i ∉ _OMARCHY_SYSTEM_IDS)) (rs ≫= ro_items)).
    intros l Hl Hfs. induction Hfs as [|i j l fs Hij _ IH]; [constructor|]. inversion Hl; subst.
    constructor; [|auto]. apply (fingerprinted_scan i j) in Hij as (_ & ? & ?); auto. }
  unfold valid_items, sorted_by_key. rewrite !sorted_by_Permutation. apply Forall_and in Hall as [? ?]. auto.
Qed.

Lemma no_findings id r : resolved_for id r -> id.1 <> SN_SECURITY -> ro_findings r = [].
Proof. intros [_ _ _ [H|[? _]]] ?; [exact H | done]. Qed.

Lemma resolved_findings rs :
  Forall2 resolved_for identities rs -> scan_groups (rs ≫= ro_findings).
Proof.
  intros H. unfold identities in H.
  repeat match goal with H : Forall2 _ (_ :: _) _ |- _ => inversion H; clear H; subst end.
  match goal with H : Forall2 _ [] _ |- _ => inversion H; subst end. csimpl.
  repeat match goal with H : resolved_for (?s, _) ?r |- context [ro_findings ?r] =>
    rewrite (no_findings _ r H) by done end.
  match goal with H : resolved_for (SN_SECURITY, _) _ |- _ => destruct (rf_findings _ _ H) as [->|[_ Hg]] end.
  - split; constructor.
  - simpl. by rewrite app_nil_r.
Qed.

Lemma arch_prefix i name :
  scan_item i -> item_id i = lit "arch:" ++ name -> item_source i = IS_ARCH.
Proof. intros [Hp _ _ _] E. rewrite E in Hp. by destruct (item_source i). Qed.

Lemma normalized_findings_valid rs its :
  Forall2 resolved_for identities rs -> Forall scan_item its ->
  NoDup (group_item_id <$> normalized_findings rs) /\ Forall (valid_group its) (normalized_findings rs).
Proof.
  intros Hrs%resolved_findings Hits. unfold normalized_findings, sorted_by_key. rewrite !sorted_by_Permutation.
  destruct Hrs as [Hnd Hg]. split; [done|]. eapply Forall_impl; [exact Hg|]. intros g [[name Hn] ? ? ?].
  constructor; eauto. intros i Hi E. rewrite Forall_forall in Hits. eapply arch_prefix; [by apply Hits|].
  rewrite E. exact Hn.
Qed.

Lemma len_nonneg {A} (l : list A) : 0 <= len l.
Proof. unfold len. lia. Qed.

Lemma sum_nonneg l : Forall (fun z => 0 <= z) l -> 0 <= foldr Z.add 0 l.
Proof. induction 1; simpl; lia. Qed.

Lemma inventories_valid m its :
  protocol_version_of m = PROTOCOL_VERSION -> short_text (generation_id m) -> valid_items its ->
  Forall (fun r => valid_response (RInventory r)) (inventories m its).
Proof.
  intros Hm Hg [Hnd Hv]. unfold inventories. apply Forall_fmap, Forall_forall. intros source Hs.
  split; [done|]. split; [done|]. constructor; simpl.
  - intros ->. repeat (apply elem_of_cons in Hs as [Hs|Hs]; [discriminate|]). by apply elem_of_nil in Hs.
  - lia.
  - split; [by apply NoDup_map_filter | by apply Forall_filter_bool].
  - eapply Forall_impl; [apply Forall_filter_true|]. intros i. simpl. by rewrite bool_decide_eq_true.
Qed.

(** ** Retry metadata *)

Lemma next_metadata_valid source current previous now m :
  (forall p, previous = Some p -> md_source p = source /\ 0 <= md_failure_count p) ->
  _next_metadata source current previous now = Ok m ->
  md_source m = source /\ 0 <= md_failure_count m.
Proof.
  intros Hp. unfold _next_metadata.
  set (old := default _ previous). assert (md_source old = source /\ 0 <= md_failure_count old) as [Hs Hc].
  { unfold old. destruct previous as [p|]; [by apply Hp | done]. }
  destruct (omap id current) as [|o os]; [by intros [= <-]|].
  destruct (List.find _ _) as [f|]; [|by intros [= <-]].
  destruct (so_permanent f); intros H; apply bind_Ok in H as (? & _ & H); apply bind_Ok in H as (? & _ & [= <-]);
    (split; [done | simpl; lia]).
Qed.

Lemma metadata_valid previous groups now ms :
  Forall (fun m => 0 <= md_failure_count m) previous -> metadata previous groups now = Ok ms ->
  md_source <$> ms = groups.*1 /\ Forall (fun m => 0 <= md_failure_count m) ms.
Proof.
  intros Hp. unfold metadata. rewrite mapM_Ok. induction 1 as [|g m groups ms Hm _ [IH1 IH2]]; [done|].
  apply next_metadata_valid in Hm as [Hs Hc].
  - split; [by rewrite !fmap_cons, Hs, IH1 | by constructor].
  - intros p Hf. apply find_Some in Hf as [Hin <-%bool_decide_eq_true]. rewrite Forall_forall in Hp. auto.
Qed.

(** What is built from what is well formed. *)
Lemma build_generation_good generation order inputs previous state now g :
  short_text generation -> Forall2 matched (outcomes inputs) identities ->
  (forall p, previous = Some p -> good_generation p) -> valid_state state ->
  build_generation generation order inputs previous state now = Ok g ->
  validate_response (RSnapshot (g_snapshot g)) = Ok tt
  /\ Forall (fun r => validate_response (RInventory r) = Ok tt) (g_inventories g)
  /\ validate_state (g_state g) = Ok tt
  /\ good_generation g.
Proof.
  intros Hgen Hin Hp Hs H. unfold build_generation in H. apply bind_Ok in H as (rs & Hrs & H).
  apply bind_Ok in H as (srcs & Hsrcs & H). apply bind_Ok in H as (its & Hits & H).
  apply bind_Ok in H as (ms & Hms & [= <-]). cbn [g_snapshot g_inventories g_state g_last_good].
  pose proof (resolve_all_resolved _ _ _ _ Hp Hin Hrs) as Hres.
  destruct (source_healths_valid _ _ _ Hres Hsrcs) as [Hper Hvs].
  destruct (normalized_items_valid _ _ Hres Hits) as [Hvi Hsi].
  destruct (normalized_findings_valid rs its Hres Hsi) as [Hnd Hg].
  destruct (metadata_valid _ _ _ _ (vt_counts _ Hs) Hms) as [Hmd Hc].
  assert (valid_snapshot {| scan_state_of := scan_state rs; sources := srcs;
            summary_of := summary its (normalized_findings rs) srcs; items := its;
            findings := normalized_findings rs; notifications := [] |}) as Hsnap.
  { constructor; simpl; auto. unfold count. split_and!; try apply len_nonneg.
    apply sum_nonneg, Forall_fmap, Forall_true. intros gr. apply len_nonneg. }
  split; [by apply validate_response_spec|]. split.
  - eapply Forall_impl; [by eapply inventories_valid|]. intros r. apply validate_response_spec.
  - split; [|by split; constructor]. apply validate_state_spec. destruct Hs. constructor; simpl; auto.
    rewrite Hmd. apply (bool_decide_unpack _). vm_compute. exact I.
Qed.

(** C4. From well-formed outcomes, a valid state and a good previous generation, what a
    scan builds can always be published: the snapshot and the four inventories are valid
    responses, the state is valid, and the generation is a good one for the next scan. *)
Theorem build_generation_valid generation order inputs previous state now g :
  short_text generation -> Forall2 matched (outcomes inputs) identities ->
  (forall p, previous = Some p -> good_generation p) -> valid_state state ->
  build_generation generation order inputs previous state now = Ok g ->
  validate_response (RSnapshot (g_snapshot g)) = Ok tt
  /\ Forall (fun r => validate_response (RInventory r) = Ok tt) (g_inventories g)
  /\ validate_state (g_state g) = Ok tt
  /\ good_generation g.
Proof. apply build_generation_good. Qed.

(** The wait after the [n]-th consecutive failure. *)
Definition wait_after (n : Z) (permanent : bool) : Z :=
  if permanent then hours 6
  else if n <=? 1 then minutes 5 else if n =? 2 then minutes 15 else if n =? 3 then hours 1 else hours 6.

Lemma retry_delay n : 1 <= n -> py_index RETRY_DELAYS (Z.min n (len RETRY_DELAYS) - 1) = Ok (wait_after n false).
Proof.
  intros Hn. change (len RETRY_DELAYS) with 4. unfold wait_after.
  destruct (Z.leb_spec n 1); [by replace n with 1 by lia|].
  destruct (Z.eqb_spec n 2) as [->|]; [done|]. destruct (Z.eqb_spec n 3) as [->|]; [done|].
  rewrite Z.min_r by lia. done.
Qed.

Definition failures (previous : option SourceMetadata) : Z := from_option md_failure_count 0 previous.

(** What [_next_metadata] records when one of the outcomes of the source failed. *)
Lemma next_metadata_failure source current previous now o :
  List.find (fun o => negb (successful o)) (omap id current) = Some o -> 0 <= failures previous ->
  _next_metadata source current previous now =
  until ← dt_plus now (wait_after (failures previous + 1) (so_permanent o));
  Ok {| md_source := source; md_last_success := from_option md_last_success None previous;
        md_backoff_until := Some until; md_failure_count := failures previous + 1;
        md_permanent_failure := so_permanent o |}.
Proof.
  intros Hf Hc. unfold _next_metadata. destruct (omap id current) as [|x xs] eqn:E; [done|]. rewrite Hf.
  assert (md_failure_count (default {| md_source := source; md_last_success := None; md_backoff_until := None;
    md_failure_count := 0; md_permanent_failure := false |} previous) = failures previous) as -> by (by destruct previous).
  assert (md_last_success (default {| md_source := source; md_last_success := None; md_backoff_until := None;
    md_failure_count := 0; md_permanent_failure := false |} previous) = from_option md_last_success None previous)
    as -> by (by destruct previous).
  destruct (so_permanent o); [done|]. rewrite retry_delay by lia. done.
Qed.

(** After a failure a source waits 5 minutes, then 15, then an hour, then 6 hours (6
    hours at once when the failure is permanent): it is not due before, unless forced, and
    one that never succeeded is due from then on. *)
Theorem failure_backoff source current previous now o m us :
  List.find (fun o => negb (successful o)) (omap id current) = Some o ->
  0 <= failures previous -> dt_utc now = true ->
  _next_metadata source current previous now = Ok m ->
  let wait := wait_after (failures previous + 1) (so_permanent o) in
  minutes 5 <= wait <= hours 6
  /\ md_failure_count m = failures previous + 1
  /\ md_last_success m = from_option md_last_success None previous
  /\ due (Some m) (Datetime us true) true = Ok true
  /\ (us < dt_us now + wait -> due (Some m) (Datetime us true) false = Ok false)
  /\ (dt_us now + wait <= us -> md_last_success m = None -> due (Some m) (Datetime us true) false = Ok true).
Proof.
  intros Hf Hc Hu Hm. rewrite (next_metadata_failure _ _ _ _ o) in Hm by done.
  apply bind_Ok in Hm as (until & [-> _]%dt_plus_Ok & [= <-]). simpl.
  set (wait := wait_after (failures previous + 1) (so_permanent o)). split_and!; try done.
  - unfold wait, wait_after. vm_compute minutes. destruct (so_permanent o); [done|]. by repeat case_match.
  - unfold wait, wait_after. destruct (so_permanent o); [done|]. by repeat case_match.
  - intros Ht. unfold due. cbn [md_backoff_until]. unfold dt_cmp. cbn [dt_utc dt_add]. rewrite Hu. simpl.
    by destruct (Z.ltb_spec us (dt_us now + wait)); [|lia].
  - intros Ht Hl. unfold due. cbn [md_backoff_until md_last_success]. unfold dt_cmp. cbn [dt_utc dt_add]. rewrite Hu. simpl.
    destruct (Z.ltb_spec us (dt_us now + wait)); [lia|]. by rewrite Hl.
Qed.

(** C37. Evidence is never lost to a failure: the keys with good evidence only grow, by the
    sources that succeed now; and a source that fails while it has good evidence is shown
    as stale, with the items and findings of its last good snapshot and the times they
    were observed. *)
Theorem last_good_retained rs p o source scope now r :
  resolve (Some o) source scope (Some p) now = Ok r -> successful o = false -> so_key o ∈ g_last_good_keys p ->
  (forall k, k ∈ last_good_keys (Some p) rs <->
     k ∈ g_last_good_keys p \/ exists x, x ∈ rs /\ successful (ro_outcome x) = true /\ so_key (ro_outcome x) = k)
  /\ ro_usable r = true
  /\ health_status (ro_health r) = SS_STALE /\ health_provenance (ro_health r) = LAST_GOOD
  /\ health_cause (ro_health r) = so_cause o
  /\ ro_items r = (fun i => with_provenance i LAST_GOOD) <$>
       List.filter (fun i => _belongs_to i source scope) (items (snap_payload (g_last_good p)))
  /\ ro_findings r = (if bool_decide (source = SN_SECURITY) then findings (snap_payload (g_last_good p)) else [])
  /\ exists h, _previous_health (g_last_good p) source scope now = Ok h
     /\ health_observed_at (ro_health r) = health_observed_at h
     /\ health_fresh_until (ro_health r) = health_fresh_until h.
Proof.
  intros Hr Hs Hk. split.
  - intros k. unfold last_good_keys, sorted_set, sorted_by_key. rewrite elem_of_sorted_by, elem_of_elements.
    rewrite elem_of_list_to_set, elem_of_app, list_elem_of_fmap. setoid_rewrite elem_of_filter_bool. naive_solver.
  - unfold resolve in Hr. rewrite Hs, bool_decide_true in Hr by done. apply bind_Ok in Hr as (h & Hh & [= <-]).
    simpl. unfold _stale_health, make_health. split; [done|].
    destruct (so_scope o); simpl; split_and!; eauto.
Qed.

Lemma healthy_spec r :
  healthy r = true <-> successful (ro_outcome r) = true /\ health_status (ro_health r) = SS_OK.
Proof. unfold healthy. by rewrite andb_true_iff, bool_decide_eq_true. Qed.

(** The state of a scan: failed when no mandatory source has evidence; otherwise
    complete exactly when every applicable source succeeded and is healthy, else partial
    when an applicable source has evidence. AUR is mandatory when it applies, a Flatpak
    scope without Flatpak never is applicable. *)
Theorem scan_state_spec rs :
  (scan_state rs = COMPLETE <->
     (exists r, r ∈ rs /\ mandatory r = true /\ ro_usable r = true)
     /\ forall r, r ∈ rs -> _is_applicable r = true ->
          successful (ro_outcome r) = true /\ health_status (ro_health r) = SS_OK)
  /\ (scan_state rs = FAILED_SCAN <->
     (forall r, r ∈ rs -> mandatory r = true -> ro_usable r = false)
     \/ (exists r, r ∈ rs /\ _is_applicable r = true /\ healthy r = false)
        /\ forall r, r ∈ rs -> _is_applicable r = true -> ro_usable r = false).
Proof.
  unfold scan_state. setoid_rewrite <-healthy_spec.
  destruct (existsb ro_usable (List.filter mandatory rs)) eqn:Em; simpl.
  - apply existsb_filter_true in Em as (m & Hm & Hmm & Hmu).
    destruct (forallb healthy (List.filter _is_applicable rs)) eqn:Eh.
    + rewrite forallb_filter_true in Eh. split; split; try done; [eauto|].
      intros [H|[(r & Hr & Ha & Hh) _]]; [by rewrite (H m) in Hmu | by rewrite (Eh r) in Hh].
    + apply forallb_filter_false in Eh as (r & Hr & Ha & Hh).
      destruct (existsb ro_usable (List.filter _is_applicable rs)) eqn:Eu.
      * apply existsb_filter_true in Eu as (u & Hu & Hau & Huu). split; split; try done.
        -- intros [_ H]. by rewrite (H r) in Hh.
        -- intros [H|[_ H]]; [by rewrite (H m) in Hmu | by rewrite (H u) in Huu].
      * rewrite existsb_filter_false in Eu. split; split; try done; [|eauto 10].
        intros [_ H]. by rewrite (H r) in Hh.
  - rewrite existsb_filter_false in Em. split; split; try done; [|auto].
    intros [(r & Hr & Hrm & Hru) _]. by rewrite (Em r) in Hru.
Qed.

(** ** Witnesses *)

(** A first scan in which Arch and the AUR answered and the security feed did not. *)
Definition sample_inputs : ScanInputs := {|
  in_omarchy := None; in_arch := Some (arch_outcome (collect_official_updates sample_run));
  in_aur := Some (aur_outcome (collect_aur_updates sample_run));
  in_flatpak_user := None; in_flatpak_system := None; in_mise := None;
  in_security := Some (simple_failure SN_SECURITY SS_TIMEOUT (lit "arch-audit timed out") false true);
  in_cisa_kev := None;
|}.

Definition built (g : res GenerationBundle) : GenerationBundle :=
  match g with
  | Ok g => g
  | Err _ => {| g_order := 0; g_snapshot := sample_snapshot; g_inventories := []; g_state := empty_state;
                g_last_good := sample_snapshot; g_last_good_keys := [] |}
  end.

Definition sample_generation : GenerationBundle :=
  built (build_generation (lit "scan-1") 0 sample_inputs None sample_state sample_now).

Lemma sample_generation_built :
  build_generation (lit "scan-1") 0 sample_inputs None sample_state sample_now = Ok sample_generation.
Proof. vm_compute. reflexivity. Qed.

Lemma sample_inputs_matched : Forall2 matched (outcomes sample_inputs) identities.
Proof.
  assert (forall id, matched None id) as Hn by (intros id x [=]).
  assert (forall o id, so_source o = id.1 -> so_scope o = id.2 -> well_formed o -> matched (Some o) id) as Hs
    by (intros o id ? ? ? x [= <-]; auto).
  repeat (constructor; [first [apply Hn | apply Hs; [reflexivity | reflexivity |]]|]); [| | |constructor];
    (constructor; [|by left|]); first [vm_compute; split; congruence | exact I | idtac];
    repeat (constructor; [constructor; first [done | vm_compute; split; congruence]|]); constructor.
Qed.

Lemma build_generation_valid_witness :
  validate_response (RSnapshot (g_snapshot sample_generation)) = Ok tt
  /\ map item_id (items (snap_payload (g_snapshot sample_generation))) = [lit "arch:linux"; lit "aur:paru"]
  /\ good_generation sample_generation.
Proof.
  destruct (build_generation_valid (lit "scan-1") 0 sample_inputs None sample_state sample_now sample_generation)
    as (Hs & _ & _ & Hg).
  - vm_compute. split; congruence.
  - apply sample_inputs_matched.
  - discriminate.
  - apply sample_state_valid.
  - apply sample_generation_built.
  - split; [exact Hs|]. split; [vm_compute; reflexivity | exact Hg].
Defined.

(** The second failure in a row of Arch: a quarter of an hour. *)
Lemma failure_backoff_witness :
  let failed := simple_failure SN_ARCH SS_TIMEOUT (lit "checkupdates") false true in
  let previous := {| md_source := SN_ARCH; md_last_success := None; md_backoff_until := Some sample_now;
                     md_failure_count := 1; md_permanent_failure := false |} in
  exists m, _next_metadata SN_ARCH [Some failed] (Some previous) sample_now = Ok m
    /\ md_failure_count m = 2
    /\ due (Some m) (dt_add sample_now (minutes 15 - 1)) false = Ok false
    /\ due (Some m) (dt_add sample_now (minutes 15)) false = Ok true.
Proof.
  intros failed previous. eexists. split; [vm_compute; reflexivity|].
  match goal with |- md_failure_count ?m = _ /\ _ =>
    assert (_next_metadata SN_ARCH [Some failed] (Some previous) sample_now = Ok m) as Hm by (vm_compute; reflexivity);
    pose proof (failure_backoff SN_ARCH [Some failed] (Some previous) sample_now failed m) as H end.
  split; [exact (proj1 (proj2 (H 0 eq_refl ltac:(vm_compute; congruence) eq_refl Hm)))|].
  split; [eapply H | eapply H]; first [exact Hm | reflexivity | vm_compute; congruence].
Defined.

(** Arch fails in the scan after: its update is shown as stale. *)
Lemma last_good_retained_witness :
  let failed := simple_failure SN_ARCH SS_TIMEOUT (lit "checkupdates") false true in
  exists r, resolve (Some failed) SN_ARCH None (Some sample_generation) sample_later = Ok r
    /\ ro_usable r = true /\ health_status (ro_health r) = SS_STALE
    /\ map item_id (ro_items r) = [lit "arch:linux"].
Proof.
  intros failed. eexists. split; [vm_compute; reflexivity|].
  match goal with |- ro_usable ?r = _ /\ _ =>
    assert (resolve (Some failed) SN_ARCH None (Some sample_generation) sample_later = Ok r) as Hr
      by (vm_compute; reflexivity);
    destruct (last_good_retained [] sample_generation failed SN_ARCH None sample_later r Hr) as (_ & H1 & H2 & _) end.
  - reflexivity.
  - apply (bool_decide_unpack _). vm_compute. exact I.
  - split; [exact H1|]. split; [exact H2 | vm_compute; reflexivity].
Defined.
