(* ===== verification/Generation.v ===== *)
(** * The generation cache

    [storage_generation.py]: everything one scan publishes, in one file: the snapshot, the
    inventories, the state and the last good evidence, each encoded by its own codec and
    embedded in base 64. *)

From S2P Require Import Prelude PyStr Calendar Models Samples Json JsonText Utf8 Base64 Fields Validation Wire.
From S2P Require Import Codec PayloadParser Parser Protocol StorageWatches StorageState StateFile ScanResolution.

Open Scope Z_scope.

Definition GENERATION_SCHEMA_VERSION : Z := 1.

Definition _FIELDS : list str :=
  names ["schemaVersion"; "order"; "snapshot"; "inventories"; "state"; "lastGood"; "lastGoodKeys"].

Definition _LAST_GOOD_KEYS : gset str :=
  list_to_set ((value <$> members (A:=SourceName)) ++ names ["flatpak:user"; "flatpak:system"]).

Definition _fail {A} (msg : String.string) : res A := fail INVALID_ENVELOPE (lit msg).
Definition _fail_if (b : bool) (msg : String.string) : res unit := if b then _fail msg else Ok tt.

Definition inventory_sources_of (b : GenerationBundle) : list ItemSource :=
  (fun r => inv_source (inv_payload r)) <$> g_inventories b.

Definition _validate_bundle (b : GenerationBundle) : res unit :=
  _ ← _fail_if (g_order b <? 0) "generation order is invalid";
  _ ← encode_response (RSnapshot (g_snapshot b));
  _ ← encode_response (RSnapshot (g_last_good b));
  let srcs := inventory_sources_of b in
  _ ← _fail_if (negb (unique (value <$> srcs)) || bool_decide (srcs <> sorted_by_key value srcs))
        "generation inventories are not deterministically unique";
  _ ← for_each (fun r => _ ← encode_response (RInventory r); Ok tt) (g_inventories b);
  _ ← encode_state (g_state b) (generated_at (snap_meta (g_snapshot b)));
  _ ← _fail_if (negb (unique (g_last_good_keys b))) "generation last-good keys are duplicated";
  _fail_if (existsb (fun k => bool_decide (k ∉ _LAST_GOOD_KEYS)) (g_last_good_keys b))
    "generation last-good key is invalid".

Definition _encoded_response (r : Response) : res json :=
  raw ← encode_response r; Ok (JStr (b64encode raw)).

Definition _encoded_state (s : PersistentState) (now : datetime) : res json :=
  raw ← encode_state s now; Ok (JStr (b64encode raw)).

Definition generation_value (b : GenerationBundle) (now : datetime) : res json :=
  snapshot ← _encoded_response (RSnapshot (g_snapshot b));
  inventories ← mapM (fun r => _encoded_response (RInventory r)) (g_inventories b);
  state ← _encoded_state (g_state b) now;
  last_good ← _encoded_response (RSnapshot (g_last_good b));
  Ok (JObj [(lit "schemaVersion", JInt GENERATION_SCHEMA_VERSION);
            (lit "order", JInt (g_order b));
            (lit "snapshot", snapshot);
            (lit "inventories", JList inventories);
            (lit "state", state);
            (lit "lastGood", last_good);
            (lit "lastGoodKeys", JList (JStr <$> g_last_good_keys b))]).

Definition encode_generation (b : GenerationBundle) (now : datetime) : res bytes :=
  _ ← _validate_bundle b;
  v ← generation_value b now;
  dump_line v.

(** ** Reading *)

Definition _document (v : json) : res dict :=
  match v with JObj d => Ok d | _ => _fail "generation cache must be an object" end.

(** [document[name]] *)
Definition subscript (d : dict) (name : str) : res json :=
  match dict_get d name with Some v => Ok v | None => Err KeyError end.

Definition _integer (v : json) : res Z :=
  match v with
  | JInt n => if 0 <=? n then Ok n else _fail "generation integer is invalid"
  | _ => _fail "generation integer is invalid"
  end.

Definition as_str (v : json) : option str := match v with JStr s => Some s | _ => None end.

Definition _keys (v : json) : res (list str) :=
  match v with
  | JList l =>
      if existsb (fun e => negb (is_some (as_str e))) l
      then _fail "generation last-good keys are invalid"
      else Ok (omap as_str l)
  | _ => _fail "generation last-good keys are invalid"
  end.

Definition _decoded_bytes (v : json) : res bytes :=
  match v with
  | JStr s =>
      if isascii s
      then match b64decode s with Some b => Ok b | None => _fail "generation encoded value is invalid" end
      else _fail "generation encoded value is invalid"
  | _ => _fail "generation encoded value is invalid"
  end.

Section Decode.
Context `{Iso : IsoDialect} (stack : nat).

Definition _snapshot (v : json) : res SnapshotResponse :=
  raw ← _decoded_bytes v;
  response ← decode_response stack raw;
  match response with
  | RSnapshot s => Ok s
  | _ => _fail "generation snapshot has an invalid response kind"
  end.

Definition _inventory (v : json) : res InventoryResponse :=
  raw ← _decoded_bytes v;
  response ← decode_response stack raw;
  match response with
  | RInventory i => Ok i
  | _ => _fail "generation inventory has an invalid response kind"
  end.

Definition _inventories (v : json) : res (list InventoryResponse) :=
  match v with
  | JList l => mapM _inventory l
  | _ => _fail "generation inventories must be an array"
  end.

Definition parse_generation (v : json) : res GenerationBundle :=
  d ← _document v;
  _ ← _fail_if (keys_differ d _FIELDS) "generation cache fields are invalid";
  x ← subscript d (lit "schemaVersion"); version ← _integer x;
  _ ← _fail_if (negb (version =? GENERATION_SCHEMA_VERSION)) "generation cache schema is unsupported";
  x ← subscript d (lit "snapshot"); snapshot ← _snapshot x;
  x ← subscript d (lit "inventories"); inventories ← _inventories x;
  x ← subscript d (lit "state"); raw ← _decoded_bytes x; state ← decode_state stack raw;
  x ← subscript d (lit "lastGood"); last_good ← _snapshot x;
  x ← subscript d (lit "lastGoodKeys"); keys ← _keys x;
  x ← subscript d (lit "order"); order ← _integer x;
  let b := {| g_order := order; g_snapshot := snapshot; g_inventories := inventories; g_state := state;
              g_last_good := last_good; g_last_good_keys := keys |} in
  _ ← _validate_bundle b;
  Ok b.

Definition decode_generation (raw : bytes) : res GenerationBundle :=
  match Utf8.decode raw with
  | Err _ => _fail "generation cache is not UTF-8"
  | Ok text => v ← decode_json stack text; parse_generation v
  end.
End Decode.

(** ** Reading does not depend on the order of keys *)

Section Proper.
Context `{Iso : IsoDialect} (stack : nat).

Lemma subscript_jeq d e name : dict_eq d e -> outcome_rel jeq (subscript d name) (subscript e name).
Proof. intros H. unfold subscript. specialize (H name). inversion H; by constructor. Qed.

Lemma decoded_bytes_jeq v w : jeq v w -> _decoded_bytes v = _decoded_bytes w.
Proof. by intros []. Qed.

Lemma generation_integer_jeq v w : jeq v w -> _integer v = _integer w.
Proof. by intros []. Qed.

Lemma snapshot_jeq v w : jeq v w -> _snapshot stack v = _snapshot stack w.
Proof. intros H. unfold _snapshot. by rewrite (decoded_bytes_jeq v w H). Qed.

Lemma inventory_jeq v w : jeq v w -> _inventory stack v = _inventory stack w.
Proof. intros H. unfold _inventory. by rewrite (decoded_bytes_jeq v w H). Qed.

Lemma inventories_jeq v w : jeq v w -> _inventories stack v = _inventories stack w.
Proof. intros []; try done. simpl. apply mapM_rel; [done|]. intros. by apply inventory_jeq. Qed.

Lemma keys_jeq v w : jeq v w -> _keys v = _keys w.
Proof.
  intros [| | | | |l k Hl|]; try done. unfold _keys.
  assert (existsb (fun e => negb (is_some (as_str e))) l = existsb (fun e => negb (is_some (as_str e))) k
          /\ omap as_str l = omap as_str k) as [-> ->]; [|done].
  induction Hl as [|x y l k Hxy _ [IH1 IH2]]; [done|].
  assert (as_str x = as_str y) as E by (by destruct Hxy).
  cbn [existsb omap list_omap]. by rewrite E, IH1, IH2.
Qed.

#[local] Hint Resolve decoded_bytes_jeq generation_integer_jeq snapshot_jeq inventories_jeq keys_jeq : doc_jeq.

Ltac generation_step :=
  first [ eapply bind_rel; [by apply subscript_jeq | intros ? ? ?] | doc_step ].

Lemma parse_generation_jeq v w : jeq v w -> parse_generation stack v = parse_generation stack w.
Proof.
  intros H. unfold parse_generation. inversion H as [| | | | | |d e Hd]; subst; try done.
  cbn [_document]. rewrite !bind_Ok_l. rewrite (keys_differ_jeq d e) by done.
  repeat generation_step. done.
Qed.
End Proper.

(** ** The embedded values *)

Lemma decoded_bytes_inverse raw : octets raw -> _decoded_bytes (JStr (b64encode raw)) = Ok raw.
Proof.
  intros H. unfold _decoded_bytes. rewrite b64_inverse by done.
  assert (isascii (b64encode raw) = true) as ->; [|done].
  unfold isascii. apply forallb_forall. intros c Hc%list_elem_of_In. apply N.leb_le.
  pose proof (b64encode_ascii raw H) as Ha. rewrite Forall_forall in Ha. specialize (Ha c Hc). lia.
Qed.

Lemma encode_response_octets r raw : encode_response r = Ok raw -> octets raw.
Proof.
  unfold encode_response, _encode_json. intros H. apply bind_Ok in H as (x & Hx & H).
  destruct (_ <=? _); [done|]. injection H as ->. apply bind_Ok in Hx as (v & _ & Hx). by eapply dump_line_octets.
Qed.

Lemma encode_state_octets s now raw : encode_state s now = Ok raw -> octets raw.
Proof. unfold encode_state. intros (v & _ & H)%bind_Ok. by eapply dump_line_octets. Qed.

Section Roundtrip.
Context `{Iso : IsoDialect} (stack : nat) (Hstack : MAX_JSON_DEPTH < Z.of_nat stack).

Lemma stored_snapshot_inverse s v :
  Forall in_range (response_times (RSnapshot s)) -> _encoded_response (RSnapshot s) = Ok v ->
  _snapshot stack v = Ok s.
Proof using Hstack.
  unfold _encoded_response, _snapshot. intros Ht (raw & He & [= <-])%bind_Ok.
  rewrite decoded_bytes_inverse by (by eapply encode_response_octets). rewrite bind_Ok_l.
  by rewrite (response_bytes_inverse stack _ raw Ht Hstack He).
Qed.

Lemma stored_inventory_inverse s v :
  Forall in_range (response_times (RInventory s)) -> _encoded_response (RInventory s) = Ok v ->
  _inventory stack v = Ok s.
Proof using Hstack.
  unfold _encoded_response, _inventory. intros Ht (raw & He & [= <-])%bind_Ok.
  rewrite decoded_bytes_inverse by (by eapply encode_response_octets). rewrite bind_Ok_l.
  by rewrite (response_bytes_inverse stack _ raw Ht Hstack He).
Qed.

Lemma inventories_inverse l vs :
  Forall (fun i => Forall in_range (response_times (RInventory i))) l ->
  mapM (fun r => _encoded_response (RInventory r)) l = Ok vs -> _inventories stack (JList vs) = Ok l.
Proof using Hstack.
  intros Ht H%mapM_Ok. cbn [_inventories]. apply mapM_Ok. induction H as [|i v l vs Hv _ IH]; [constructor|].
  apply Forall_cons in Ht as [Hi Ht]. constructor; [by apply stored_inventory_inverse | auto].
Qed.

Lemma keys_inverse l : _keys (JList (JStr <$> l)) = Ok l.
Proof.
  unfold _keys. assert (existsb (fun e => negb (is_some (as_str e))) (JStr <$> l) = false) as -> by (by induction l).
  f_equal. induction l as [|x l IH]; [done|]. simpl. by f_equal.
Qed.
End Roundtrip.

(** ** The bundle *)

Definition response_ok (r : Response) : Prop := exists raw, encode_response r = Ok raw.

(** What [_validate_bundle] accepts. *)
Record valid_bundle (b : GenerationBundle) : Prop := {
  vb_order : 0 <= g_order b;
  vb_snapshot : response_ok (RSnapshot (g_snapshot b));
  vb_last_good : response_ok (RSnapshot (g_last_good b));
  vb_distinct : NoDup (inventory_sources_of b);
  vb_sorted : inventory_sources_of b = sorted_by_key value (inventory_sources_of b);
  vb_inventories : Forall (fun i => response_ok (RInventory i)) (g_inventories b);
  vb_state : exists raw, encode_state (g_state b) (generated_at (snap_meta (g_snapshot b))) = Ok raw;
  vb_keys : NoDup (g_last_good_keys b);
  vb_known : Forall (.∈ _LAST_GOOD_KEYS) (g_last_good_keys b);
}.

Lemma fail_if_returns b msg : _fail_if b msg = Ok tt <-> b = false.
Proof. unfold _fail_if. by destruct b. Qed.

Lemma ignore_Ok {A} (m : res A) (k : res unit) : (_ ← m; k) = Ok tt <-> (exists a, m = Ok a) /\ k = Ok tt.
Proof. rewrite bind_Ok. naive_solver. Qed.

Lemma existsb_bool_false {A} (P : A -> Prop) `{forall x, Decision (P x)} l :
  existsb (fun x => bool_decide (~ P x)) l = false <-> Forall P l.
Proof.
  induction l as [|x l IH]; simpl; [by split|].
  rewrite orb_false_iff, Forall_cons, IH, bool_decide_eq_false. split; intros [? ?]; (split; [|done]);
    destruct (decide (P x)); tauto.
Qed.

Lemma validate_bundle_spec b : _validate_bundle b = Ok tt <-> valid_bundle b.
Proof.
  unfold _validate_bundle. cbv zeta. repeat first [rewrite then_Ok | rewrite ignore_Ok].
  rewrite !fail_if_returns, orb_false_iff, !negb_false_iff.
  rewrite !unique_spec, bool_decide_eq_false, (existsb_bool_false (.∈ _LAST_GOOD_KEYS)), Z.ltb_ge.
  assert (for_each (fun r => _ ← encode_response (RInventory r); Ok tt) (g_inventories b) = Ok tt
          <-> Forall (fun i => response_ok (RInventory i)) (g_inventories b)) as ->.
  { rewrite for_each_Ok. apply Forall_ext. intros i. rewrite ignore_Ok. unfold response_ok. naive_solver. }
  assert (NoDup (value <$> inventory_sources_of b) <-> NoDup (inventory_sources_of b)) as ->.
  { split; [apply NoDup_fmap_1 | apply NoDup_fmap_2; apply _]. }
  split.
  - intros (? & ? & ? & [? ?] & ? & ? & ? & ?). constructor; auto. by apply dec_stable.
  - intros []. unfold response_ok in *. split_and!; auto.
Qed.

(** The times a bundle writes. *)
Definition bundle_times (b : GenerationBundle) : list datetime :=
  response_times (RSnapshot (g_snapshot b)) ++ response_times (RSnapshot (g_last_good b))
  ++ (g_inventories b ≫= fun i => response_times (RInventory i)).

Definition with_state (b : GenerationBundle) (s : PersistentState) : GenerationBundle :=
  {| g_order := g_order b; g_snapshot := g_snapshot b; g_inventories := g_inventories b; g_state := s;
     g_last_good := g_last_good b; g_last_good_keys := g_last_good_keys b |}.

(** The bytes of a generation hold texts in an object. *)
Lemma shallow_encoded r v c : 0 <= c -> _encoded_response r = Ok v -> shallow c v.
Proof. unfold _encoded_response. intros Hc H. inv_ok. by apply shallow_scalar. Qed.

Lemma shallow_encoded_state s now v c : 0 <= c -> _encoded_state s now = Ok v -> shallow c v.
Proof. unfold _encoded_state. intros Hc H. inv_ok. by apply shallow_scalar. Qed.

#[local] Hint Resolve shallow_encoded shallow_encoded_state shallow_strings : shallow.
#[local] Hint Extern 1 (_ <= _)%Z => lia : shallow.

Lemma shallow_generation b now v : generation_value b now = Ok v -> shallow 2 v.
Proof.
  unfold generation_value. intros H. inv_ok. shallow_object 1.
  eapply (shallow_mapM _ 0); [intros ? ?; apply shallow_encoded; lia | lia | eassumption].
Qed.

Ltac subscripts tac :=
  repeat first
    [ match goal with
      | |- context [subscript ?d ?n] =>
          let t := eval hnf in (subscript d n) in change (subscript d n) with t
      end
    | rewrite bind_Ok_l
    | tac ].

Lemma parse_generation_inverse `{Iso : IsoDialect} stack b now s' v :
  MAX_JSON_DEPTH < Z.of_nat stack -> Forall in_range (bundle_times b) -> generation_value b now = Ok v ->
  (forall raw, encode_state (g_state b) now = Ok raw -> decode_state stack raw = Ok s') ->
  0 <= g_order b -> _validate_bundle (with_state b s') = Ok tt ->
  parse_generation stack v = Ok (with_state b s').
Proof.
  intros Hst Ht Hv Hd Ho Hb. unfold generation_value in Hv.
  apply bind_Ok in Hv as (snap & Hsnap & Hv). apply bind_Ok in Hv as (invs & Hinvs & Hv).
  apply bind_Ok in Hv as (st & Hs & Hv). apply bind_Ok in Hv as (last & Hlast & [= <-]).
  unfold bundle_times in Ht. apply Forall_app in Ht as [Ht1 [Ht2 Ht3]%Forall_app]. apply Forall_bind_iff in Ht3.
  unfold parse_generation. cbn [_document]. rewrite bind_Ok_l.
  match goal with |- context [keys_differ ?d ?l] =>
    let t := eval vm_compute in (keys_differ d l) in change (keys_differ d l) with t end.
  cbn [_fail_if]. subscripts ltac:(fail).
  change (_integer (JInt GENERATION_SCHEMA_VERSION)) with (Ok GENERATION_SCHEMA_VERSION : res Z).
  subscripts ltac:(progress cbn [_fail_if Z.eqb negb GENERATION_SCHEMA_VERSION Pos.eqb]).
  rewrite (stored_snapshot_inverse stack Hst (g_snapshot b) snap) by done. subscripts ltac:(fail).
  rewrite (inventories_inverse stack Hst (g_inventories b) invs) by done. subscripts ltac:(fail).
  unfold _encoded_state in Hs. apply bind_Ok in Hs as (raw & Hr & [= <-]).
  rewrite decoded_bytes_inverse by (by eapply encode_state_octets). rewrite bind_Ok_l, (Hd _ Hr).
  subscripts ltac:(fail). rewrite (stored_snapshot_inverse stack Hst (g_last_good b) last) by done. subscripts ltac:(fail).
  rewrite keys_inverse. subscripts ltac:(fail). unfold _integer. rewrite (proj2 (Z.leb_le _ _) Ho), bind_Ok_l.
  fold (with_state b s'). by rewrite Hb.
Qed.

Lemma generation_bytes_inverse `{Iso : IsoDialect} stack b now raw :
  Forall in_range (bundle_times b) -> Forall in_range (state_times (g_state b)) ->
  MAX_JSON_DEPTH < Z.of_nat stack -> encode_generation b now = Ok raw ->
  exists s', prune_ledger (g_state b) now = Ok s' /\ decode_generation stack raw = Ok (with_state b s').
Proof.
  intros Ht Hts Hst H. unfold encode_generation in H. apply bind_Ok in H as ([] & Hb & H).
  apply bind_Ok in H as (v & Hv & H). pose proof Hv as Hv'.
  unfold generation_value in Hv'. apply bind_Ok in Hv' as (? & _ & Hv'). apply bind_Ok in Hv' as (? & _ & Hv').
  apply bind_Ok in Hv' as (st & Hs & _). unfold _encoded_state in Hs. apply bind_Ok in Hs as (r & Hr & _).
  destruct (state_bytes_inverse stack _ now r Hr Hts Hst) as (s' & Hp & Hd & _). exists s'. split; [done|].
  destruct (dump_line_inverse stack v raw 2) as (text & Hu & Hj & Hq); [by eapply shallow_generation | | done |].
  { unfold MAX_JSON_DEPTH in *. lia. }
  unfold decode_generation. rewrite Hu, Hj, bind_Ok_l, <-(parse_generation_jeq stack v _ Hq).
  apply validate_bundle_spec in Hb as Hvb. destruct (vb_state b Hvb) as [r' Hr'].
  apply (parse_generation_inverse stack b now); auto; [congruence | apply Hvb|]. apply validate_bundle_spec.
  destruct Hvb. constructor; try done. cbn [g_state with_state g_snapshot].
  exact (encode_pruned _ _ _ _ _ _ Hr Hr' Hp).
Qed.

(** C39. A generation the helper publishes is read back whole: the same order, snapshot,
    inventories and last good evidence, and the state with its ledger pruned. *)
Theorem generation_roundtrip `{Iso : IsoDialect} stack b now raw :
  Forall in_range (bundle_times b) -> Forall in_range (state_times (g_state b)) ->
  MAX_JSON_DEPTH < Z.of_nat stack -> encode_generation b now = Ok raw ->
  exists s', prune_ledger (g_state b) now = Ok s' /\ decode_generation stack raw = Ok (with_state b s').
Proof. apply generation_bytes_inverse. Qed.

Lemma decode_response_valid `{Iso : IsoDialect} stack raw r : decode_response stack raw = Ok r -> valid_response r.
Proof.
  unfold decode_response. destruct (_ <=? _); [done|]. destruct (Utf8.decode raw); [|done].
  intros (v & _ & H)%bind_Ok. by eapply parse_response_valid.
Qed.

(** What is decoded was checked. *)
Lemma decode_generation_checked `{Iso : IsoDialect} stack raw :
  match decode_generation stack raw with
  | Ok b =>
      valid_bundle b /\ valid_state (g_state b)
      /\ valid_response (RSnapshot (g_snapshot b)) /\ valid_response (RSnapshot (g_last_good b))
      /\ Forall (fun i => valid_response (RInventory i)) (g_inventories b)
  | Err _ => True
  end.
Proof.
  destruct (decode_generation stack raw) as [b|e] eqn:E; [|done].
  unfold decode_generation in E. destruct (Utf8.decode raw) as [text|]; [|done].
  apply bind_Ok in E as (v & _ & E). unfold parse_generation in E.
  repeat (apply bind_Ok in E as (? & ? & E)). injection E as <-. cbn [g_state g_snapshot g_last_good g_inventories].
  assert (forall w s, _snapshot stack w = Ok s -> valid_response (RSnapshot s)) as Hs.
  { intros w s H'. unfold _snapshot in H'. apply bind_Ok in H' as (? & _ & H'). apply bind_Ok in H' as (r & Hr & H').
    apply decode_response_valid in Hr. destruct r; try done. by injection H' as <-. }
  assert (forall w s, _inventory stack w = Ok s -> valid_response (RInventory s)) as Hi.
  { intros w s H'. unfold _inventory in H'. apply bind_Ok in H' as (? & _ & H'). apply bind_Ok in H' as (r & Hr & H').
    apply decode_response_valid in Hr. destruct r; try done. by injection H' as <-. }
  match goal with H : _validate_bundle _ = Ok ?u |- _ => destruct u; apply validate_bundle_spec in H end.
  match goal with H : _inventories _ _ = Ok _ |- _ => rename H into Hl end.
  split_and!; eauto using decode_state_valid.
  unfold _inventories in Hl. destruct x6; try done. apply mapM_Ok in Hl. clear -Hl Hi.
  induction Hl; constructor; eauto.
Qed.

(** A generation cache from disk is either refused or holds only what every other part
    may rely on: valid responses and a valid state, inventories of distinct sources in
    order, known and distinct last-good keys, and bytes the helper can write again. *)
Theorem decode_generation_sound `{Iso : IsoDialect} stack raw :
  match decode_generation stack raw with
  | Ok b =>
      valid_bundle b /\ valid_state (g_state b)
      /\ valid_response (RSnapshot (g_snapshot b)) /\ valid_response (RSnapshot (g_last_good b))
      /\ Forall (fun i => valid_response (RInventory i)) (g_inventories b)
  | Err _ => True
  end.
Proof. apply decode_generation_checked. Qed.

Definition sample_bundle : GenerationBundle := {|
  g_order := 3; g_snapshot := sample_snapshot; g_inventories := [sample_inventory]; g_state := sample_state;
  g_last_good := sample_snapshot; g_last_good_keys := names ["arch"; "flatpak:user"];
|}.

Lemma generation_roundtrip_witness :
  exists raw, encode_generation sample_bundle sample_later = Ok raw
    /\ exists s', prune_ledger sample_state sample_later = Ok s'
        /\ decode_generation (Iso:=fun _ => None) 101 raw = Ok (with_state sample_bundle s').
Proof.
  destruct (encode_generation sample_bundle sample_later) as [raw|e] eqn:E; [|vm_compute in E; discriminate E].
  exists raw. split; [reflexivity|].
  refine (generation_roundtrip (Iso:=fun _ => None) 101 sample_bundle sample_later raw _ _ _ E).
  - repeat (constructor; [vm_compute; split; congruence|]). constructor.
  - apply sample_state_storable.
  - reflexivity.
Defined.
