(* ===== verification/StorageIO.v ===== *)
(** * Files and atomic replacement

    [storage_io.py] over a model of the file system: every system call may fail, write
    less than it was given, or be the point at which the process is killed. What is on disk
    survives an exception: a computation takes the world to a new world and an outcome.
    [stat] may fail too, at any call, and [Path.exists] then answers that there is no file
    ([exists_]); [answers] says of a world that it does not. *)

From stdpp Require Import fin_maps.
From S2P Require Import Prelude PyStr Calendar Models.

Open Scope Z_scope.

(** The files of the helper: the state file, the copies of corrupt ones by their digest,
    the entries of the cache directory by their names, and temporary files. *)
Inductive location :=
| LState
| LCorrupt (digest : str)
| LCache (name : str)
| LTemp (n : N).

#[global] Instance location_eq_dec : EqDecision location.
Proof. solve_decision. Defined.

#[global] Program Instance location_countable : Countable location :=
  inj_countable'
    (fun l => match l with
              | LState => inl (inl tt)
              | LCorrupt d => inl (inr d)
              | LCache n => inr (inl n)
              | LTemp n => inr (inr n)
              end)
    (fun x => match x with
              | inl (inl tt) => LState
              | inl (inr d) => LCorrupt d
              | inr (inl n) => LCache n
              | inr (inr n) => LTemp n
              end) _.
Next Obligation. by intros []. Qed.

(** What happens at a system call. *)
Inductive fault :=
| Fine
| Short (n : nat)
| Fails
| Crashes.

(** [w_faults i] is the fate of the [i]-th system call, [w_clock i] the [i]-th reading of
    the clock, a timestamp of a year that [datetime] has; [w_stats i] says whether the
    [i]-th [stat] made by [Path.exists] answers or raises [OSError]. *)
Record world := {
  w_files : gmap location bytes;
  w_faults : nat -> fault;
  w_calls : nat;
  w_clock : nat -> datetime;
  w_clock_range : forall i, in_range (w_clock i);
  w_readings : nat;
  w_temps : N;
  w_stats : nat -> bool;
  w_stated : nat;
}.

(** ** Computations *)

Definition M (A : Type) : Type := world -> world * res A.

#[global] Instance M_ret : MRet M := fun A a w => (w, Ok a).
#[global] Instance M_bind : MBind M := fun A B k m w =>
  match m w with
  | (w', Ok a) => k a w'
  | (w', Err e) => (w', Err e)
  end.

Definition ret {A} (a : A) : M A := fun w => (w, Ok a).
(** A pure computation that may raise. *)
Definition lift {A} (r : res A) : M A := fun w => (w, r).

(** [try: m except <the exceptions p accepts>: h] *)
Definition catch {A} (m : M A) (p : exn -> bool) (h : M A) : M A := fun w =>
  match m w with
  | (w', Err e) => if p e then h w' else (w', Err e)
  | r => r
  end.

(** [try: m finally: f]; nothing runs after a kill. *)
Definition finally {A} (m : M A) (f : M unit) : M A := fun w =>
  match m w with
  | (w', Err Killed) => (w', Err Killed)
  | (w', r) => match f w' with
               | (w'', Ok _) => (w'', r)
               | (w'', Err e) => (w'', Err e)
               end
  end.

Definition is_oserror (e : exn) : bool := bool_decide (e = OSError).

(** [try: m except OSError: h; raise] *)
Definition cleanup {A} (m : M A) (h : M unit) : M A := fun w =>
  match m w with
  | (w', Err e) =>
      if is_oserror e
      then match h w' with
           | (w'', Ok _) => (w'', Err e)
           | (w'', Err e') => (w'', Err e')
           end
      else (w', Err e)
  | r => r
  end.

(** ** System calls *)

Definition with_files (f : gmap location bytes -> gmap location bytes) (w : world) : world :=
  {| w_files := f (w_files w); w_faults := w_faults w; w_calls := w_calls w; w_clock := w_clock w; w_clock_range := w_clock_range w;
     w_readings := w_readings w; w_temps := w_temps w; w_stats := w_stats w; w_stated := w_stated w |}.

Definition called (w : world) : world :=
  {| w_files := w_files w; w_faults := w_faults w; w_calls := S (w_calls w); w_clock := w_clock w; w_clock_range := w_clock_range w;
     w_readings := w_readings w; w_temps := w_temps w; w_stats := w_stats w; w_stated := w_stated w |}.

(** A call with an effect on the files, or none when it fails. *)
Definition sys (effect : gmap location bytes -> gmap location bytes) : M unit := fun w =>
  match w_faults w (w_calls w) with
  | Fine | Short _ => (with_files effect (called w), Ok tt)
  | Fails => (called w, Err OSError)
  | Crashes => (called w, Err Killed)
  end.
(** A call that concerns modes, directories, descriptors or buffers. *)
Definition sys_ : M unit := sys id.

Definition clock : M datetime := fun w =>
  ({| w_files := w_files w; w_faults := w_faults w; w_calls := w_calls w; w_clock := w_clock w; w_clock_range := w_clock_range w;
      w_readings := S (w_readings w); w_temps := w_temps w; w_stats := w_stats w; w_stated := w_stated w |}, Ok (w_clock w (w_readings w))).

Definition stated (w : world) : world :=
  {| w_files := w_files w; w_faults := w_faults w; w_calls := w_calls w; w_clock := w_clock w; w_clock_range := w_clock_range w;
     w_readings := w_readings w; w_temps := w_temps w; w_stats := w_stats w; w_stated := S (w_stated w) |}.

(** [Path.exists()]: [False] for a file that is not there, and, since Python 3.14, whenever
    [stat] raises any [OSError]: a file whose [stat] fails is taken for absent. *)
Definition exists_ (l : location) : M bool := fun w =>
  (stated w, Ok (w_stats w (w_stated w) && bool_decide (is_Some (w_files w !! l)))).

Definition read_bytes (l : location) : M bytes := fun w =>
  match sys_ w with
  | (w', Ok _) => (w', match w_files w !! l with Some b => Ok b | None => Err OSError end)
  | (w', Err e) => (w', Err e)
  end.

(** [handle.write(data)]: the number of bytes that got into the file. *)
Definition write (l : location) (data : bytes) : M Z := fun w =>
  let wrote d := (with_files (<[l := d]>) (called w), Ok (len d)) in
  match w_faults w (w_calls w) with
  | Fine => wrote data
  | Short n => wrote (take n data)
  | Fails => (called w, Err OSError)
  | Crashes => (called w, Err Killed)
  end.

(** [os.replace(source, destination)] *)
Definition replace (source destination : location) : M unit := fun w =>
  match w_files w !! source with
  | Some data => sys (fun f => <[destination := data]> (delete source f)) w
  | None => (called w, Err OSError)
  end.

Definition unlink (l : location) : M unit := sys (delete l).

Definition mkstemp : M location := fun w =>
  let l := LTemp (w_temps w) in
  match sys (<[l := []]>) w with
  | (w', Ok _) => ({| w_files := w_files w'; w_faults := w_faults w'; w_calls := w_calls w';
                      w_clock := w_clock w'; w_clock_range := w_clock_range w'; w_readings := w_readings w'; w_temps := N.succ (w_temps w');
                      w_stats := w_stats w'; w_stated := w_stated w' |}, Ok l)
  | (w', Err e) => (w', Err e)
  end.

(** ** [storage_io.py] *)

(** [mkdir] and [chmod]. *)
Definition ensure_directory : M unit := _ ← sys_; sys_.

(** [open], [fsync], [close]. *)
Definition fsync_directory : M unit := _ ← sys_; finally sys_ sys_.

(** The part before the file is in its place: [fchmod]; [write], [flush] and [fsync] inside
    the block that closes the file; [replace]. *)
Definition write_and_replace (path temporary : location) (data : bytes) : M unit :=
  _ ← sys_;
  _ ← finally (written ← write temporary data;
               _ ← lift (raise_if (negb (written =? len data)) OSError);
               _ ← sys_;
               sys_) sys_;
  replace temporary path.

Definition atomic_write (path : location) (data : bytes) : M unit :=
  _ ← ensure_directory;
  temporary ← mkstemp;
  _ ← cleanup (write_and_replace path temporary data) (unlink temporary);
  _ ← sys_;
  fsync_directory.

(** ** Postconditions

    [wp m Q R w]: from [w], [m] returns a value and a world with [Q], or raises an
    exception in a world with [R]; it does not choose which [stat] answers. *)

Definition wp {A} (m : M A) (Q : A -> world -> Prop) (R : exn -> world -> Prop) (w : world) : Prop :=
  match m w with
  | (w', Ok a) => w_stats w' = w_stats w /\ Q a w'
  | (w', Err e) => w_stats w' = w_stats w /\ R e w'
  end.

(** Every [stat] answers: what the operations that test for a file first rely on. *)
Definition answering (stats : nat -> bool) : Prop := forall i, stats i = true.
Definition answers (w : world) : Prop := answering (w_stats w).

Section Rules.
Context {A : Type}.
Implicit Types (m : M A) (Q : A -> world -> Prop) (R : exn -> world -> Prop).

Lemma wp_mono m Q R Q' R' w :
  wp m Q R w -> (forall a w', Q a w' -> Q' a w') -> (forall e w', R e w' -> R' e w') -> wp m Q' R' w.
Proof. unfold wp. destruct (m w) as [w' []]; intros [? ?]; auto. Qed.

(** Nothing is left to show of the outcome of [m]. *)
Lemma wp_any m Q0 R0 Q R w :
  wp m Q0 R0 w -> (forall a w', Q a w') -> (forall e w', R e w') -> wp m Q R w.
Proof. intros H HQ HR. eapply wp_mono; [exact H | auto | auto]. Qed.

(** The outcome in its world, and the [stat] calls as they were. *)
Lemma wp_here m Q R w :
  wp m Q R w -> wp m (fun a w' => m w = (w', Ok a) /\ w_stats w' = w_stats w /\ Q a w')
                     (fun e w' => m w = (w', Err e) /\ w_stats w' = w_stats w /\ R e w') w.
Proof. unfold wp. destruct (m w) as [w' []]; intros [? ?]; auto. Qed.

Lemma wp_stats m Q R w :
  wp m Q R w -> wp m (fun a w' => w_stats w' = w_stats w /\ Q a w')
                     (fun e w' => w_stats w' = w_stats w /\ R e w') w.
Proof. intros H. eapply wp_mono; [by apply wp_here | |]; cbv beta; tauto. Qed.

Lemma wp_answers m Q R w :
  answers w -> wp m Q R w -> wp m (fun a w' => answers w' /\ Q a w') (fun e w' => answers w' /\ R e w') w.
Proof. intros Hw H. eapply wp_mono; [by apply wp_stats | |]; cbv beta; unfold answers in *; intros ? ? [-> ?]; auto. Qed.

Lemma wp_and m Q R Q' R' w :
  wp m Q R w -> wp m Q' R' w -> wp m (fun a w' => Q a w' /\ Q' a w') (fun e w' => R e w' /\ R' e w') w.
Proof. unfold wp. destruct (m w) as [w' []]; intros [? ?] [? ?]; auto. Qed.

Lemma wp_result m Q R w w' a : wp m Q R w -> m w = (w', Ok a) -> w_stats w' = w_stats w /\ Q a w'.
Proof. unfold wp. intros H E. by rewrite E in H. Qed.

Lemma wp_error m Q R w w' e : wp m Q R w -> m w = (w', Err e) -> w_stats w' = w_stats w /\ R e w'.
Proof. unfold wp. intros H E. by rewrite E in H. Qed.

(** What [m] does from [w] only. *)
Lemma wp_same m m' Q R w : m w = m' w -> wp m' Q R w -> wp m Q R w.
Proof. unfold wp. by intros ->. Qed.

Lemma wp_ret a Q R w : Q a w -> wp (ret a) Q R w.
Proof. done. Qed.

Lemma wp_lift r Q R w : (forall a, r = Ok a -> Q a w) -> (forall e, r = Err e -> R e w) -> wp (lift r) Q R w.
Proof. unfold wp, lift. destruct r; auto. Qed.

Lemma wp_bind {B} (m : M B) (k : B -> M A) Q R w :
  wp m (fun b => wp (k b) Q R) R w -> wp (m ≫= k) Q R w.
Proof.
  unfold wp, mbind, M_bind. destruct (m w) as [w' [b|e]]; [|done]. intros [<- H]. exact H.
Qed.

Lemma wp_catch m (p : exn -> bool) h Q R w :
  wp m Q (fun e w' => if p e then wp h Q R w' else R e w') w -> wp (catch m p h) Q R w.
Proof.
  unfold wp, catch. destruct (m w) as [w' [a|e]]; [done|]. destruct (p e); [|done]. intros [<- H]. exact H.
Qed.

Lemma wp_finally (m : M A) (f : M unit) (Q : A -> world -> Prop) (R : exn -> world -> Prop) w :
  wp m (fun a w1 => wp f (fun _ w2 => Q a w2) R w1)
       (fun e w1 => R e w1 /\ wp f (fun _ w2 => R e w2) R w1) w ->
  wp (finally m f) Q R w.
Proof.
  unfold wp, finally. destruct (m w) as [w' [a|e]]; intros [<- H].
  - by destruct (f w') as [w'' []].
  - destruct H as [HR Hf]. destruct e; destruct (f w') as [w'' []]; done.
Qed.

Lemma wp_cleanup m (h : M unit) Q R w :
  wp m Q (fun e w1 => R e w1 /\ wp h (fun _ w2 => R e w2) R w1) w -> wp (cleanup m h) Q R w.
Proof.
  unfold wp, cleanup. destruct (m w) as [w' [a|e]]; [done|]. intros [<- [HR Hh]].
  destruct (is_oserror e); [|done]. by destruct (h w') as [w'' []].
Qed.
End Rules.

(** A file found is there; with every [stat] answered a file not found is not. *)
Lemma wp_exists l Q R w :
  (forall b, (b = true -> is_Some (w_files w !! l)) -> (answers w -> b = false -> w_files w !! l = None) ->
             Q b (stated w)) ->
  wp (exists_ l) Q R w.
Proof.
  intros H. split; [done|]. apply H.
  - by intros [_ ?%bool_decide_eq_true]%andb_true_iff.
  - intros Ha. rewrite (Ha (w_stated w)). simpl. by intros ?%bool_decide_eq_false%eq_None_not_Some.
Qed.

Lemma wp_clock Q R w : (forall c w', in_range c -> w_files w' = w_files w -> w_stats w' = w_stats w -> Q c w') -> wp clock Q R w.
Proof. intros H. split; [done|]. apply H; [apply w_clock_range | done..]. Qed.

(** ** Old or new, never in between *)

Definition lasting (l : location) : bool := match l with LTemp _ => false | _ => true end.

(** What the helper reads: temporary files are never opened again. *)
Definition durable (w : world) : gmap location bytes :=
  filter (fun kv => lasting kv.1 = true) (w_files w).

Definition os_or_kill (e : exn) : Prop := e = OSError \/ e = Killed.

Lemma os_OSError : os_or_kill OSError.
Proof. by left. Qed.
Lemma os_Killed : os_or_kill Killed.
Proof. by right. Qed.
#[export] Hint Resolve os_OSError os_Killed : opatchy.

Lemma durable_called w : durable (called w) = durable w.
Proof. done. Qed.

Lemma durable_lookup w l : lasting l = true -> durable w !! l = w_files w !! l.
Proof.
  intros Hl. unfold durable. apply option_eq. intros b. rewrite map_lookup_filter_Some. naive_solver.
Qed.

Lemma durable_insert w l b :
  lasting l = true -> durable (with_files <[l := b]> w) = <[l := b]> (durable w).
Proof. intros. unfold durable. cbn. by rewrite map_filter_insert_True. Qed.

Lemma durable_delete w l : durable (with_files (delete l) w) = delete l (durable w).
Proof. unfold durable. cbn. by rewrite map_filter_delete. Qed.

Lemma durable_temp w n b : durable (with_files <[LTemp n := b]> w) = durable w.
Proof.
  unfold durable. cbn. rewrite map_filter_insert_False by done. rewrite map_filter_delete, delete_id; [done|].
  apply map_lookup_filter_None. right. by intros ? _ [=].
Qed.

Lemma durable_delete_temp w n : durable (with_files (delete (LTemp n)) w) = durable w.
Proof.
  rewrite durable_delete, delete_id; [done|]. apply map_lookup_filter_None. right. by intros ? _ [=].
Qed.

(** A computation that leaves the lasting files alone. *)
Definition quiet {A} (m : M A) : Prop := forall w,
  wp m (fun _ w' => durable w' = durable w) (fun e w' => os_or_kill e /\ durable w' = durable w) w.

Lemma wp_sys effect Q R w :
  Q tt (with_files effect (called w)) -> (forall e, os_or_kill e -> R e (called w)) -> wp (sys effect) Q R w.
Proof. intros HQ HR. unfold wp, sys. destruct (w_faults w (w_calls w)); split; auto with opatchy. Qed.

Lemma quiet_sys : quiet sys_.
Proof. intros w. by apply wp_sys. Qed.

Lemma quiet_unlink_temp n : quiet (unlink (LTemp n)).
Proof. intros w. apply wp_sys; [by rewrite durable_delete_temp | done]. Qed.

Lemma quiet_bind {A B} (m : M A) (k : A -> M B) : quiet m -> (forall a, quiet (k a)) -> quiet (m ≫= k).
Proof.
  intros Hm Hk w. apply wp_bind. eapply wp_mono; [apply Hm | | auto].
  intros a w' <-. apply Hk.
Qed.

Lemma quiet_finally {A} (m : M A) (f : M unit) : quiet m -> quiet f -> quiet (finally m f).
Proof.
  intros Hm Hf w. apply wp_finally. eapply wp_mono; [apply Hm | |].
  - intros a w' <-. apply Hf.
  - intros e w' [He <-]. split; [done|]. eapply wp_mono; [apply Hf | by intros | auto].
Qed.

Lemma quiet_oserror {A} (r : res A) : (forall e, r = Err e -> e = OSError) -> quiet (lift r).
Proof. intros H w. apply wp_lift; [done|]. intros e ->%H. auto with opatchy. Qed.

Lemma quiet_write n data : quiet (write (LTemp n) data).
Proof.
  intros w. unfold wp, write. destruct (w_faults w (w_calls w)); (split; [done|]); auto with opatchy; by rewrite durable_temp.
Qed.

Lemma quiet_raise_if (b : bool) : quiet (lift (raise_if b OSError)).
Proof. apply quiet_oserror. destruct b; naive_solver. Qed.

Create HintDb quiet.
#[export] Hint Resolve quiet_sys quiet_unlink_temp quiet_finally quiet_bind quiet_write quiet_raise_if : quiet.

Lemma quiet_ensure_directory : quiet ensure_directory.
Proof. unfold ensure_directory. auto with quiet. Qed.
Lemma quiet_fsync_directory : quiet fsync_directory.
Proof. unfold fsync_directory. auto with quiet. Qed.
#[export] Hint Resolve quiet_ensure_directory quiet_fsync_directory : quiet.

(** A quiet computation can be skipped in a proof about the lasting files. *)
Lemma wp_quiet {A} (m : M A) Q R w :
  quiet m -> (forall a w', durable w' = durable w -> Q a w') ->
  (forall e w', os_or_kill e -> durable w' = durable w -> R e w') -> wp m Q R w.
Proof. intros Hm HQ HR. eapply wp_mono; [apply Hm | auto | naive_solver]. Qed.

Lemma replace_there source destination data w :
  w_files w !! source = Some data ->
  replace source destination w = sys (fun f => <[destination := data]> (delete source f)) w.
Proof. unfold replace. by intros ->. Qed.

Lemma wp_replace_temp n l data (Q : unit -> world -> Prop) (R : exn -> world -> Prop) w :
  lasting l = true -> w_files w !! LTemp n = Some data ->
  (forall w', durable w' = <[l := data]> (durable w) -> Q tt w') ->
  (forall e w', os_or_kill e -> durable w' = durable w -> R e w') ->
  wp (replace (LTemp n) l) Q R w.
Proof.
  intros Hl Hn HQ HR. eapply wp_same; [by apply replace_there|]. apply wp_sys; [|by auto].
  apply HQ. unfold durable. cbn. rewrite map_filter_insert_True by done. f_equal.
  by apply (durable_delete_temp (called w) n).
Qed.

(** The bytes are in the temporary file, whole, when the block that writes them is left. *)
Lemma written_whole n data w :
  wp (finally (written ← write (LTemp n) data;
               _ ← lift (raise_if (negb (written =? len data)) OSError);
               _ ← sys_;
               sys_) sys_)
    (fun _ w' => durable w' = durable w /\ w_files w' !! LTemp n = Some data)
    (fun e w' => os_or_kill e /\ durable w' = durable w) w.
Proof.
  set (Q := fun (_ : unit) w' => durable w' = durable w /\ w_files w' !! LTemp n = Some data).
  set (R := fun e w' => os_or_kill e /\ durable w' = durable w).
  assert (forall w1, Q tt w1 -> wp sys_ Q R w1) as Hsys.
  { intros w1 [H1 H2]. apply wp_sys; [by split | intros e He; by split]. }
  assert (forall d w1, durable w1 = durable w -> len d = len data -> (len d = len data -> d = data) ->
            Q tt (with_files <[LTemp n := d]> (called w1))) as Hd.
  { intros d w1 Hw Hlen Hx. split; [by rewrite durable_temp|]. cbn. by rewrite lookup_insert_eq, Hx. }
  apply wp_finally. eapply wp_mono.
  - apply wp_bind. instantiate (1 := R). instantiate (1 := Q).
    assert (forall d, (len d = len data -> d = data) ->
      wp (_ ← lift (raise_if (negb (len d =? len data)) OSError); _ ← sys_; sys_) Q R
         (with_files <[LTemp n := d]> (called w))) as Hk.
    { intros d Hx. apply wp_bind, wp_lift.
      - intros ? H%raise_if_Ok. apply negb_false_iff, Z.eqb_eq in H. apply wp_bind.
        eapply wp_mono; [apply Hsys; by apply Hd | intros [] w'; apply Hsys | auto].
      - intros e He. split; [|by rewrite durable_temp]. unfold raise_if in He. destruct (negb _); [|done].
        injection He as <-. auto with opatchy. }
    unfold wp at 1, write. destruct (w_faults w (w_calls w)) as [|k| |]; (split; [done|]); [| |split; auto with opatchy..].
    + by apply Hk.
    + apply Hk. unfold len. intros H. apply take_ge. rewrite length_take in H. lia.
  - intros [] w' HQ. by apply Hsys.
  - intros e w' HR. split; [done|]. apply wp_sys; [done|]. intros e' He. destruct HR. by split.
Qed.

Lemma write_and_replace_spec n l data w :
  lasting l = true ->
  wp (write_and_replace l (LTemp n) data)
    (fun _ w' => durable w' = <[l := data]> (durable w))
    (fun e w' => os_or_kill e /\ durable w' = durable w) w.
Proof.
  intros Hl. unfold write_and_replace. apply wp_bind, wp_quiet; [auto with quiet | | by auto].
  intros [] w1 <-. apply wp_bind. eapply wp_mono; [apply written_whole | | by auto].
  intros [] w2 [<- Hn]. by eapply wp_replace_temp; eauto.
Qed.

Lemma mkstemp_spec w :
  wp mkstemp (fun t w' => durable w' = durable w /\ exists n, t = LTemp n)
    (fun e w' => os_or_kill e /\ durable w' = durable w) w.
Proof.
  unfold wp, mkstemp, sys. destruct (w_faults w (w_calls w)); (split; [done|]); auto with opatchy;
    (split; [apply (durable_temp (called w)) | eauto]).
Qed.

Lemma atomic_write_spec l data w :
  lasting l = true ->
  wp (atomic_write l data)
    (fun _ w' => durable w' = <[l := data]> (durable w))
    (fun e w' => os_or_kill e /\ (durable w' = durable w \/ durable w' = <[l := data]> (durable w))) w.
Proof.
  intros Hl. unfold atomic_write. apply wp_bind, wp_quiet; [auto with quiet | | by auto].
  intros [] w1 <-. apply wp_bind.
  eapply wp_mono; [apply mkstemp_spec | | naive_solver]. intros t w2 [<- [n ->]]. apply wp_bind, wp_cleanup.
  eapply wp_mono; [by apply write_and_replace_spec | |].
  - intros [] w3 Hw. apply wp_bind, wp_quiet; [auto with quiet | |]; [intros [] w4 Hw4 | intros e w4 He Hw4].
    + apply wp_quiet; [auto with quiet | |]; [intros [] w5 Hw5 | intros e w5 He Hw5]; rewrite Hw5, Hw4; auto.
    + rewrite Hw4. auto.
  - intros e w3 [He Hw]. split; [by auto|]. apply wp_quiet; [auto with quiet | |].
    + intros [] w4 ->. auto.
    + intros e' w4 He' ->. auto.
Qed.
