(* ===== verification/Storage.v ===== *)
(** * Storage

    [storage_locked_state.py], [storage_cache.py], [storage_feeds.py],
    [storage_semantic.py] and [storage.py]: the state, the generation and the caches on
    disk, each operation under the lock of the state directory. The file of a generation,
    when there is one, is what counts; the state file is then a copy.

    A [Storage] made by [from_environment] has no [before_mutation] hook; the model has
    none either. *)

From S2P Require Import Prelude PyStr Calendar Models Json JsonText Utf8 Sha256 RunnerTypes CacheMetadata Fields.
From S2P Require Import Protocol StorageWatches StorageState StateFile ScanResolution Generation StorageIO.

Open Scope Z_scope.

Record StateLoad := { load_state_of : PersistentState; load_warning : option StorageWarning }.

Record EndpointCache := { body_path : location; metadata_path : location }.

(** ** Paths *)

Definition generation_path : location := LCache (lit "generation.json").
Definition snapshot_path : location := LCache (lit "snapshot.json").
Definition inventory_path (source : ItemSource) : location :=
  LCache (lit "inventory-" ++ value source ++ lit ".json").
Definition semantic_feed_path (feed : FeedName) : location := LCache (value feed ++ lit ".json").
Definition transport_endpoint_cache (feed : FeedName) : EndpointCache :=
  let prefix := lit "transport-" ++ value feed in
  {| body_path := LCache (prefix ++ lit ".body"); metadata_path := LCache (prefix ++ lit ".metadata") |}.

(** [_xdg_home]: the variable's value when it is set and not empty. *)
Definition _xdg_home (variable : str) (configured : option str) (fallback : str) : res str :=
  let path := match configured with
              | None | Some [] => fallback
              | Some configured => configured
              end in
  if startswith path (lit "/") then Ok path else Err (StoragePathError variable).

(** [except ProtocolError, StateCorruptError] *)
Definition invalid (e : exn) : bool :=
  match e with ProtocolError _ | StateCorruptError _ => true | _ => false end.

Definition state_lock {A} (body : M A) : M A :=
  _ ← ensure_directory;
  _ ← sys_;
  _ ← sys_;
  finally (_ ← sys_; finally body sys_) sys_.

Definition _discard (path : location) : M unit :=
  _ ← unlink path; fsync_directory.

Definition _quarantine (raw : bytes) : M unit :=
  _ ← replace LState (LCorrupt (hexdigest raw));
  _ ← sys_;
  fsync_directory.

Section Storage.
Context `{Iso : IsoDialect} (stack : nat).

(** ** The generation *)

Definition _load_generation_locked : M (option GenerationBundle) :=
  present ← exists_ generation_path;
  if present : bool
  then catch (raw ← read_bytes generation_path; b ← lift (decode_generation stack raw); ret (Some b))
         invalid (_ ← _discard generation_path; ret None)
  else ret None.

Definition _write_generation_locked (b : GenerationBundle) : M unit :=
  now ← clock;
  raw ← lift (encode_generation b now);
  atomic_write generation_path raw.

(** ** The state *)

Definition write_state (s : PersistentState) : M unit :=
  generation ← _load_generation_locked;
  _ ← match generation with
      | Some b => _write_generation_locked (with_state b s)
      | None => ret tt
      end;
  now ← clock;
  raw ← lift (encode_state s now);
  atomic_write LState raw.

(** The loaded state, pruned, and written back when that was asked for and changed it. *)
Definition pruned_load (persist_pruning : bool) (decoded : PersistentState) : M StateLoad :=
  now ← clock;
  pruned ← lift (prune_ledger decoded now);
  _ ← (if persist_pruning && negb (bool_decide (pruned = decoded)) then write_state pruned else ret tt);
  ret {| load_state_of := pruned; load_warning := None |}.

Definition _load_state_locked (persist_pruning : bool) : M StateLoad :=
  generation ← _load_generation_locked;
  match generation with
  | Some b => pruned_load persist_pruning (g_state b)
  | None =>
      present ← exists_ LState;
      if (present : bool)
      then
        raw ← read_bytes LState;
        catch (decoded ← lift (decode_state stack raw); pruned_load persist_pruning decoded)
          invalid (_ ← _quarantine raw;
                   ret {| load_state_of := empty_state; load_warning := Some STATE_CORRUPT |})
      else ret {| load_state_of := empty_state; load_warning := None |}
  end.

(** ** Snapshots and inventories *)

(** [load_snapshot] of [storage_cache.py], for a cache without a generation. *)
Definition load_snapshot : M (option SnapshotResponse) :=
  present ← exists_ snapshot_path;
  if (present : bool)
  then
    raw ← read_bytes snapshot_path;
    match decode_response stack raw with
    | Ok (RSnapshot s) => ret (Some s)
    | Ok _ => _ ← _discard snapshot_path; ret None
    | Err (ProtocolError _) => _ ← _discard snapshot_path; ret None
    | Err e => lift (Err e)
    end
  else ret None.

Definition load_inventory (source : ItemSource) : M (option InventoryResponse) :=
  present ← exists_ (inventory_path source);
  if (present : bool)
  then
    raw ← read_bytes (inventory_path source);
    match decode_response stack raw with
    | Ok (RInventory i) =>
        if bool_decide (inv_source (inv_payload i) = source) then ret (Some i)
        else _ ← _discard (inventory_path source); ret None
    | Ok _ => _ ← _discard (inventory_path source); ret None
    | Err (ProtocolError _) => _ ← _discard (inventory_path source); ret None
    | Err e => lift (Err e)
    end
  else ret None.

Definition with_snapshot (b : GenerationBundle) (s : SnapshotResponse) : GenerationBundle :=
  {| g_order := g_order b; g_snapshot := s; g_inventories := g_inventories b; g_state := g_state b;
     g_last_good := g_last_good b; g_last_good_keys := g_last_good_keys b |}.

Definition with_inventories (b : GenerationBundle) (l : list InventoryResponse) : GenerationBundle :=
  {| g_order := g_order b; g_snapshot := g_snapshot b; g_inventories := l; g_state := g_state b;
     g_last_good := g_last_good b; g_last_good_keys := g_last_good_keys b |}.

Definition save_cached_snapshot (response : SnapshotResponse) : M unit :=
  generation ← _load_generation_locked;
  match generation with
  | Some b => _write_generation_locked (with_snapshot b response)
  | None => raw ← lift (encode_response (RSnapshot response)); atomic_write snapshot_path raw
  end.

Definition read_cached_snapshot : M (option SnapshotResponse) :=
  generation ← _load_generation_locked;
  match generation with
  | Some b => ret (Some (g_snapshot b))
  | None => load_snapshot
  end.

Definition source_of (i : InventoryResponse) : ItemSource := inv_source (inv_payload i).

(** The inventories of a generation with that of one source replaced. *)
Definition replace_inventory (l : list InventoryResponse) (response : InventoryResponse)
    : list InventoryResponse :=
  sorted_by_key (fun i => value (source_of i))
    (List.filter (fun i => bool_decide (source_of i <> source_of response)) l ++ [response]).

Definition save_cached_inventory (response : InventoryResponse) : M unit :=
  generation ← _load_generation_locked;
  match generation with
  | Some b => _write_generation_locked (with_inventories b (replace_inventory (g_inventories b) response))
  | None =>
      raw ← lift (encode_response (RInventory response));
      atomic_write (inventory_path (source_of response)) raw
  end.

Definition read_cached_inventory (source : ItemSource) : M (option InventoryResponse) :=
  generation ← _load_generation_locked;
  match generation with
  | Some b => ret (List.find (fun i => bool_decide (source_of i = source)) (g_inventories b))
  | None => load_inventory source
  end.

(** The inventories the cache has of some sources, in the order of the sources. *)
Fixpoint load_inventories (sources : list ItemSource) : M (list InventoryResponse) :=
  match sources with
  | [] => ret []
  | source :: rest =>
      i ← load_inventory source;
      l ← load_inventories rest;
      ret (match i with Some i => i :: l | None => l end)
  end.

Definition read_current_inventories (sources : list ItemSource) : M (list InventoryResponse) :=
  generation ← _load_generation_locked;
  match generation with
  | Some b => ret (List.filter (fun i => bool_decide (source_of i ∈ sources)) (g_inventories b))
  | None => load_inventories sources
  end.

(** ** Feeds

    [validator] is the parser of the feed, an argument of each operation. *)

Definition write_last_good_feed_locked (feed : FeedName) (body : bytes) (validator : bytes -> bool) : M bool :=
  if validator body
  then _ ← atomic_write (semantic_feed_path feed) body; ret true
  else ret false.

Definition read_last_good_feed_locked (feed : FeedName) (validator : bytes -> bool) : M (option bytes) :=
  let path := semantic_feed_path feed in
  present ← exists_ path;
  if (present : bool)
  then
    raw ← read_bytes path;
    match (text ← Utf8.decode raw; decode_json stack text) with
    | Err (UnicodeDecodeError | ProtocolError _) => _ ← _discard path; ret None
    | Err e => lift (Err e)
    | Ok _ => if validator raw then ret (Some raw) else _ ← _discard path; ret None
    end
  else ret None.

(** The file is opened and at most one byte more than its bound is read. *)
Definition read_cache_validators (cache : EndpointCache) (body : bytes) : M (option CacheValidators) :=
  catch (_ ← sys_;
         metadata ← read_bytes (metadata_path cache);
         ret (parse_cache_metadata (take (Z.to_nat (_MAX_METADATA_BYTES + 1)) metadata) body))
    is_oserror (ret None).

(** ** The operations *)

Definition load_state : M StateLoad := state_lock (_load_state_locked true).

Definition save_state (s : PersistentState) : M unit :=
  _ ← lift (validate_state s);
  state_lock (_ ← _load_state_locked false; write_state s).

(** A mutation may give its caller a value besides the state, as [nonlocal] does. *)
Definition update_state {X} (mutation : PersistentState -> res (PersistentState * X)) : M (StateLoad * X) :=
  state_lock (
    loaded ← _load_state_locked false;
    updated ← lift (mutation (load_state_of loaded));
    _ ← write_state updated.1;
    ret ({| load_state_of := updated.1; load_warning := load_warning loaded |}, updated.2)).

Definition update_state_with_inventories (sources : list ItemSource)
    (mutation : PersistentState -> list InventoryResponse -> option SnapshotResponse -> res PersistentState)
    : M StateLoad :=
  state_lock (
    loaded ← _load_state_locked false;
    inventories ← read_current_inventories sources;
    snapshot ← read_cached_snapshot;
    updated ← lift (mutation (load_state_of loaded) inventories snapshot);
    _ ← write_state updated;
    ret {| load_state_of := updated; load_warning := load_warning loaded |}).

Definition write_last_good_feed (feed : FeedName) (body : bytes) (validator : bytes -> bool) : M bool :=
  state_lock (write_last_good_feed_locked feed body validator).

Definition read_last_good_feed (feed : FeedName) (validator : bytes -> bool) : M (option bytes) :=
  state_lock (read_last_good_feed_locked feed validator).

Definition read_confirmed_feed (feed : FeedName) (validator : bytes -> bool) : M (option bytes) :=
  state_lock (
    semantic ← read_last_good_feed_locked feed validator;
    match semantic with
    | None => ret None
    | Some semantic =>
        let cache := transport_endpoint_cache feed in
        transport ← catch (b ← read_bytes (body_path cache); ret (Some b)) is_oserror (ret None);
        match transport with
        | None => ret None
        | Some transport =>
            validators ← read_cache_validators cache transport;
            if negb (is_some validators) || negb (bool_decide (transport = semantic)) || negb (validator transport)
            then ret None else ret (Some semantic)
        end
    end).

Definition save_snapshot (response : SnapshotResponse) : M unit := state_lock (save_cached_snapshot response).
Definition load_snapshot_ : M (option SnapshotResponse) := state_lock read_cached_snapshot.
Definition save_inventory (response : InventoryResponse) : M unit := state_lock (save_cached_inventory response).
Definition load_inventory_ (source : ItemSource) : M (option InventoryResponse) :=
  state_lock (read_cached_inventory source).
Definition load_generation : M (option GenerationBundle) := state_lock _load_generation_locked.

Definition commit_generation (b : GenerationBundle) : M bool :=
  state_lock (
    current ← _load_generation_locked;
    if match current with Some c => g_order b <=? g_order c | None => false end
    then ret false
    else
      _ ← _write_generation_locked b;
      now ← clock;
      raw ← lift (encode_state (g_state b) now);
      _ ← atomic_write LState raw;
      ret true).
End Storage.
