(* ===== verification/StorageSpec.v ===== *)
(** * What the storage promises

    The files stand for one state and at most one generation ([state_in],
    [generation_in]); every operation, whatever system call fails or kills the process,
    leaves either what was stored before or what it was asked to store. What relies on
    finding the files that are there asks for a world that [answers]; the last lemmas show
    what a failed [stat] does. *)

From S2P Require Import Prelude PyStr Calendar Models Samples Json JsonText Utf8 Sha256 Wire Protocol StorageWatches.
From S2P Require Import StorageState StateFile StateStore ScanResolution Generation StorageIO Storage.

Open Scope Z_scope.

Abbreviation disk := (gmap location bytes).

(** [m], whatever fails, ends with [Q] of its result and the files, or raises with [R]. *)
Definition runs {A} (m : M A) (Q : A -> disk -> Prop) (R : disk -> Prop) (w : world) : Prop :=
  wp m (fun a w' => Q a (durable w')) (fun _ w' => R (durable w')) w.

Section Runs.
Context {A : Type}.
Implicit Types (m : M A) (Q : A -> disk -> Prop) (R : disk -> Prop).

Lemma runs_mono m Q R Q' R' w :
  runs m Q R w -> (forall a f, Q a f -> Q' a f) -> (forall f, R f -> R' f) -> runs m Q' R' w.
Proof. intros H HQ HR. eapply wp_mono; [exact H | |]; simpl; auto. Qed.

Lemma runs_bind {B} (m : M B) (k : B -> M A) Q R w :
  wp m (fun b => runs (k b) Q R) (fun _ w' => R (durable w')) w -> runs (m ≫= k) Q R w.
Proof. apply wp_bind. Qed.

Lemma runs_ret a Q R w : Q a (durable w) -> runs (ret a) Q R w.
Proof. done. Qed.

Lemma runs_lift r Q R w :
  (forall a, r = Ok a -> Q a (durable w)) -> R (durable w) -> runs (lift r) Q R w.
Proof. intros HQ HR. apply wp_lift; auto. Qed.

Lemma runs_bind_lift {B} (r : res B) (k : B -> M A) Q R w :
  (forall b, r = Ok b -> runs (k b) Q R w) -> R (durable w) -> runs (lift r ≫= k) Q R w.
Proof. intros HQ HR. apply runs_bind, wp_lift; auto. Qed.

Lemma runs_bind_quiet {B} (m : M B) (k : B -> M A) Q R w :
  quiet m -> (forall b w', durable w' = durable w -> w_stats w' = w_stats w -> runs (k b) Q R w') -> R (durable w) ->
  runs (m ≫= k) Q R w.
Proof.
  intros Hm HQ HR. apply runs_bind. eapply wp_mono; [apply wp_stats, Hm | |]; cbv beta.
  - intros b w' [? ?]. by apply HQ.
  - by intros e w' (_ & _ & ->).
Qed.

Lemma runs_bind_clock (k : datetime -> M A) Q R w :
  (forall c w', in_range c -> durable w' = durable w -> w_stats w' = w_stats w -> runs (k c) Q R w') ->
  runs (clock ≫= k) Q R w.
Proof. intros HQ. apply runs_bind. split; [done|]. apply HQ; [apply w_clock_range | done..]. Qed.

Lemma runs_bind_exists l (k : bool -> M A) Q R w :
  (forall b, (b = true -> is_Some (w_files w !! l)) -> (answers w -> b = false -> w_files w !! l = None) ->
             runs (k b) Q R (stated w)) ->
  runs (exists_ l ≫= k) Q R w.
Proof. intros H. by apply runs_bind, wp_exists. Qed.

Lemma runs_finally m (f : M unit) Q R w :
  quiet f -> (forall a d, Q a d -> R d) -> runs m Q R w -> runs (finally m f) Q R w.
Proof.
  intros Hf HQR Hm. apply wp_finally. eapply wp_mono; [exact Hm | |].
  - intros a w' HQ. apply wp_quiet; [done | by intros ? ? -> | intros ? ? _ ->; exact (HQR _ _ HQ)].
  - intros e w' HR. split; [done|]. apply wp_quiet; [done | by intros ? ? -> | by intros ? ? _ ->].
Qed.

Lemma runs_lock (body : M A) Q R w :
  R (durable w) -> (forall a d, Q a d -> R d) ->
  (forall w', durable w' = durable w -> w_stats w' = w_stats w -> runs body Q R w') -> runs (state_lock body) Q R w.
Proof.
  intros HR HQR Hb. unfold state_lock.
  apply runs_bind_quiet; [auto with quiet | | done]. intros [] w1 H1 S1. rewrite <-H1 in HR.
  apply runs_bind_quiet; [auto with quiet | | done]. intros [] w2 H2 S2. rewrite <-H2 in HR.
  apply runs_bind_quiet; [auto with quiet | | done]. intros [] w3 H3 S3. rewrite <-H3 in HR.
  apply runs_finally; [auto with quiet | done |].
  apply runs_bind_quiet; [auto with quiet | | done]. intros [] w4 H4 S4.
  apply runs_finally; [auto with quiet | done |]. apply Hb; congruence.
Qed.
End Runs.

Lemma same_answers w w' : w_stats w' = w_stats w -> answers w -> answers w'.
Proof. unfold answers. by intros ->. Qed.
#[export] Hint Extern 1 (answers _) => (eapply same_answers; eassumption) : opatchy.

(** Before [m] every [stat] answers; afterwards too. *)
Lemma runs_bind_answers {A B} (m : M A) (k : A -> M B) (Q0 : A -> disk -> Prop) (R0 : disk -> Prop) Q R w :
  answers w -> runs m Q0 R0 w -> (forall a w', answers w' -> Q0 a (durable w') -> runs (k a) Q R w') ->
  (forall f, R0 f -> R f) -> runs (m ≫= k) Q R w.
Proof.
  intros Hw Hm HQ HR. apply runs_bind. eapply wp_mono; [apply wp_answers; [done | exact Hm] | |]; cbv beta.
  - intros a w' [? ?]. auto.
  - intros e w' [_ ?]. auto.
Qed.

(** ** Steps on the files *)

Lemma read_bytes_spec l w :
  wp (read_bytes l) (fun b w' => durable w' = durable w /\ w_files w !! l = Some b)
    (fun e w' => os_or_kill e /\ durable w' = durable w) w.
Proof.
  unfold wp, read_bytes. pose proof (quiet_sys w) as H. unfold wp in H. destruct (sys_ w) as [w' [[]|e]]; [|done].
  destruct H. destruct (w_files w !! l) eqn:E; auto with opatchy.
Qed.

Lemma atomic_write_runs l b w :
  lasting l = true ->
  runs (atomic_write l b) (fun _ f => f = <[l := b]> (durable w))
    (fun f => f = durable w \/ f = <[l := b]> (durable w)) w.
Proof. intros Hl. eapply wp_mono; [by apply atomic_write_spec | done | naive_solver]. Qed.

(** Only the decoders and the encoders refuse a document. *)
Lemma os_not_invalid e : os_or_kill e -> invalid e = false.
Proof. by intros [-> | ->]. Qed.

Lemma discard_wp l w :
  wp (_discard l) (fun _ w' => durable w' = delete l (durable w))
    (fun e w' => os_or_kill e /\ (durable w' = durable w \/ durable w' = delete l (durable w))) w.
Proof.
  unfold _discard. apply wp_bind, wp_sys; [|by auto]. apply wp_quiet; [auto with quiet | |].
  - intros [] w' ->. apply (durable_delete (called w)).
  - intros e w' He ->. split; [done|]. right. apply (durable_delete (called w)).
Qed.

Lemma discard_runs l w :
  runs (_discard l) (fun _ f => f = delete l (durable w)) (fun f => f = durable w \/ f = delete l (durable w)) w.
Proof. eapply wp_mono; [apply discard_wp | done | by intros e w' [_ H]]. Qed.

Lemma quarantine_runs raw w :
  w_files w !! LState = Some raw ->
  let f' := <[LCorrupt (hexdigest raw) := raw]> (delete LState (durable w)) in
  runs (_quarantine raw) (fun _ f => f = f') (fun f => f = durable w \/ f = f') w.
Proof.
  intros Hs f'. unfold _quarantine. apply runs_bind. eapply wp_same; [by apply replace_there|].
  apply wp_sys; [|by auto].
  assert (durable (with_files (fun f => <[LCorrupt (hexdigest raw) := raw]> (delete LState f)) (called w)) = f') as Hf.
  { unfold f', durable. cbn. by rewrite map_filter_insert_True, map_filter_delete. }
  apply runs_bind_quiet; [auto with quiet | | rewrite Hf; auto]. intros [] w1 Hw1 _. rewrite Hf in Hw1.
  apply wp_quiet; [auto with quiet | |]; intros; [|right]; congruence.
Qed.

Section Spec.
Context `{Iso : IsoDialect} (stack : nat) (Hstack : MAX_JSON_DEPTH < Z.of_nat stack).

(** ** What the files stand for *)

Definition generation_in (f : disk) : option GenerationBundle :=
  raw ← f !! generation_path;
  match decode_generation stack raw with Ok b => Some b | Err _ => None end.

(** The state file counts only without a generation; an unreadable one stands for the
    empty state. *)
Definition state_in (f : disk) : PersistentState :=
  match generation_in f with
  | Some b => g_state b
  | None =>
      match f !! LState with
      | Some raw => match decode_state stack raw with Ok s => s | Err _ => empty_state end
      | None => empty_state
      end
  end.

(** The same state and generation. *)
Definition view_eq (f f' : disk) : Prop := generation_in f' = generation_in f /\ state_in f' = state_in f.

(** Loading a generation changes at most this: a file that is none is removed. *)
Definition settled (f f' : disk) : Prop :=
  f' = f \/ generation_in f = None /\ f' = delete generation_path f.

Lemma generation_in_delete f : generation_in (delete generation_path f) = None.
Proof. unfold generation_in. by rewrite lookup_delete_eq. Qed.

Lemma settled_view f f' : settled f f' -> view_eq f f'.
Proof.
  intros [->|[Hg ->]]; [done|]. unfold view_eq, state_in. rewrite generation_in_delete, Hg.
  by rewrite lookup_delete_ne.
Qed.

Lemma settled_lookup f f' l : settled f f' -> l <> generation_path -> f' !! l = f !! l.
Proof. intros [->|[_ ->]] Hl; [done|]. by rewrite lookup_delete_ne. Qed.

Lemma view_trans f g h : view_eq f g -> view_eq g h -> view_eq f h.
Proof. unfold view_eq. intros [? ?] [? ?]. split; congruence. Qed.

(** Whatever [stat] says, loading removes at most a file that is no generation, and gives
    what is stored or nothing; with every [stat] answered it gives what is stored. *)
Lemma load_generation_any w :
  wp (_load_generation_locked stack)
    (fun r w' => (r = generation_in (durable w) \/ r = None /\ ~ answers w) /\ settled (durable w) (durable w'))
    (fun e w' => invalid e = false /\ settled (durable w) (durable w')) w.
Proof.
  unfold _load_generation_locked. apply wp_bind, wp_exists. intros b Ht Hf. destruct b; cycle 1.
  { apply wp_ret. split; [|by left]. unfold generation_in. change (durable (stated w)) with (durable w).
    rewrite durable_lookup by done. destruct (w_files w !! generation_path) eqn:E; [|by left]. right. split; [done|].
    intros Ha. by discriminate (Hf Ha eq_refl). }
  clear Hf. apply wp_catch, wp_bind. eapply wp_mono; [apply (read_bytes_spec _ (stated w)) | |]; cbv beta.
  2:{ intros e w' [He ->]. rewrite (os_not_invalid _ He). split; [done | by left]. }
  intros raw w1 [Hw1 Hraw]. change (durable (stated w)) with (durable w) in Hw1.
  change (w_files (stated w)) with (w_files w) in Hraw. rewrite <-durable_lookup in Hraw by done. apply wp_bind, wp_lift.
  - intros b Hb. apply wp_ret. rewrite Hw1. split; [|by left]. left. unfold generation_in. rewrite Hraw. simpl. by rewrite Hb.
  - intros e He. assert (generation_in (durable w) = None) as Hn.
    { unfold generation_in. rewrite Hraw. simpl. by rewrite He. }
    destruct (invalid e) eqn:Ei; [|rewrite Hw1; split; [done | by left]].
    apply wp_bind. eapply wp_mono; [apply discard_wp | |]; cbv beta; rewrite Hw1.
    + intros [] w2 Hw2. apply wp_ret. rewrite Hw2. split; [by left | by right].
    + intros e' w2 [He' H2]. split; [by apply os_not_invalid|]. destruct H2 as [->| ->]; [by left | by right].
Qed.

Lemma load_generation_settles w :
  runs (_load_generation_locked stack) (fun _ => settled (durable w)) (settled (durable w)) w.
Proof. eapply wp_mono; [apply load_generation_any | |]; cbv beta; tauto. Qed.

Lemma load_generation_runs w :
  answers w ->
  runs (_load_generation_locked stack) (fun r f => r = generation_in (durable w) /\ settled (durable w) f)
    (settled (durable w)) w.
Proof. intros Ha. eapply wp_mono; [apply load_generation_any | |]; cbv beta; tauto. Qed.

(** ** Writing *)

Definition wrote_generation (b : GenerationBundle) (f f' : disk) : Prop :=
  exists c raw, encode_generation b c = Ok raw /\ f' = <[generation_path := raw]> f.

Definition wrote_state (s : PersistentState) (f f' : disk) : Prop :=
  exists c raw, encode_state s c = Ok raw /\ f' = <[LState := raw]> f.

Lemma write_generation_runs b w :
  runs (_write_generation_locked b) (fun _ => wrote_generation b (durable w))
    (fun f => f = durable w \/ wrote_generation b (durable w) f) w.
Proof.
  unfold _write_generation_locked. apply runs_bind_clock. intros c w1 _ <- _. apply runs_bind_lift; [|by left].
  intros raw Hraw. eapply runs_mono; [by apply atomic_write_runs | |].
  - intros _ f ->. by exists c, raw.
  - intros f [->| ->]; [by left | right]. by exists c, raw.
Qed.

Lemma write_state_file_runs s w :
  runs (now ← clock; raw ← lift (encode_state s now); atomic_write LState raw)
    (fun _ => wrote_state s (durable w)) (fun f => f = durable w \/ wrote_state s (durable w) f) w.
Proof.
  apply runs_bind_clock. intros c w1 _ <- _. apply runs_bind_lift; [|by left].
  intros raw Hraw. eapply runs_mono; [by apply atomic_write_runs | |].
  - intros _ f ->. by exists c, raw.
  - intros f [->| ->]; [by left | right]. by exists c, raw.
Qed.

(** The timestamps on disk are those of Python's [datetime]. *)
Definition sound (f : disk) : Prop :=
  Forall in_range (state_times (state_in f))
  /\ forall b, generation_in f = Some b -> Forall in_range (bundle_times b).

Lemma view_sound f f' : view_eq f f' -> sound f -> sound f'.
Proof. unfold sound. by intros [-> ->]. Qed.

Lemma wrote_generation_view b f f' :
  Forall in_range (bundle_times b) -> Forall in_range (state_times (g_state b)) -> wrote_generation b f f' ->
  exists c s', prune_ledger (g_state b) c = Ok s' /\ generation_in f' = Some (with_state b s') /\ state_in f' = s'
    /\ sound f'.
Proof using Hstack.
  intros Hb Hs (c & raw & He & ->). destruct (generation_bytes_inverse stack b c raw Hb Hs Hstack He) as (s' & Hp & Hd).
  exists c, s'. assert (generation_in (<[generation_path:=raw]> f) = Some (with_state b s')) as Hg.
  { unfold generation_in. rewrite lookup_insert_eq. simpl. by rewrite Hd. }
  assert (state_in (<[generation_path:=raw]> f) = s') as Hst by (unfold state_in; by rewrite Hg).
  split_and!; [done..|]. split; [rewrite Hst; by eapply pruned_times|]. rewrite Hg. by intros ? [= <-].
Qed.

Lemma wrote_state_generation s f f' : wrote_state s f f' -> generation_in f' = generation_in f.
Proof. intros (c & raw & _ & ->). unfold generation_in. by rewrite lookup_insert_ne. Qed.

(** The state file changes nothing under a generation. *)
Lemma wrote_copy s f f' : wrote_state s f f' -> generation_in f <> None -> view_eq f f'.
Proof.
  intros H Hg. pose proof (wrote_state_generation s f f' H) as E. split; [done|]. unfold state_in. rewrite E.
  by destruct (generation_in f).
Qed.

Lemma wrote_state_view s f f' :
  Forall in_range (state_times s) -> wrote_state s f f' -> generation_in f = None ->
  exists c, prune_ledger s c = Ok (state_in f') /\ generation_in f' = None /\ sound f'.
Proof using Hstack.
  intros Hs H Hg. pose proof (wrote_state_generation s f f' H) as E. rewrite Hg in E.
  destruct H as (c & raw & He & ->). exists c.
  destruct (state_bytes_inverse stack s c raw He Hs Hstack) as (s' & Hp & Hd & _).
  assert (state_in (<[LState:=raw]> f) = s') as -> by (unfold state_in; by rewrite E, lookup_insert_eq, Hd).
  split_and!; [done | done |]. split; [|by rewrite E].
  assert (state_in (<[LState:=raw]> f) = s') as -> by (unfold state_in; by rewrite E, lookup_insert_eq, Hd).
  by eapply pruned_times.
Qed.

(** [s] is what is stored, in the generation if there was one. *)
Definition stored_as (s : PersistentState) (f f' : disk) : Prop :=
  sound f' /\ (exists c, prune_ledger s c = Ok (state_in f'))
  /\ match generation_in f with
     | Some b => generation_in f' = Some (with_state b (state_in f'))
     | None => generation_in f' = None
     end.

Lemma stored_then_view s f g h : stored_as s f g -> view_eq g h -> stored_as s f h.
Proof.
  unfold stored_as. intros (Hs & [c Hc] & Hx) Hv. split; [by eapply view_sound|]. destruct Hv as [-> ->]. eauto.
Qed.

Lemma view_then_stored s f g h : view_eq f g -> stored_as s g h -> stored_as s f h.
Proof. unfold stored_as. by intros [-> _]. Qed.

Lemma wrote_generation_stored s b f f1 f' :
  sound f -> generation_in f = Some b -> Forall in_range (state_times s) ->
  wrote_generation (with_state b s) f1 f' -> stored_as s f f'.
Proof using Hstack.
  intros [_ Hb] Hg Hs H. specialize (Hb b Hg).
  apply wrote_generation_view in H as (c & s' & Hp & Hg' & Hs' & Hsd); [|done | done].
  split; [done|]. rewrite Hg, Hg', Hs'. eauto.
Qed.

Lemma wrote_state_stored s f f1 f' :
  generation_in f = None -> generation_in f1 = None -> Forall in_range (state_times s) ->
  wrote_state s f1 f' -> stored_as s f f'.
Proof using Hstack.
  intros Hg Hg1 Hs H. apply wrote_state_view in H as (c & Hp & Hn & Hsd); [|done | done].
  split; [done|]. rewrite Hg. eauto.
Qed.

(** Writing a state stores it, or fails with the old one or the new one stored. *)
Lemma write_state_runs s w :
  answers w -> sound (durable w) -> Forall in_range (state_times s) ->
  runs (write_state stack s) (fun _ => stored_as s (durable w))
    (fun f => view_eq (durable w) f \/ stored_as s (durable w) f) w.
Proof using Hstack.
  intros Ha Hw Hs. unfold write_state. apply runs_bind.
  eapply wp_mono; [by apply load_generation_runs | |]; cbv beta.
  2:{ intros e w' H. left. by apply settled_view. }
  intros g w1 [-> H1]. apply settled_view in H1 as Hv1.
  destruct (generation_in (durable w)) as [b|] eqn:Hg.
  - apply runs_bind. eapply wp_mono; [apply write_generation_runs | |]; cbv beta.
    + intros [] w2 H2. pose proof (wrote_generation_stored s b _ _ _ Hw Hg Hs H2) as Hst.
      assert (generation_in (durable w2) <> None) as Hn.
      { destruct Hst as (_ & _ & Hst). rewrite Hg in Hst. congruence. }
      eapply runs_mono; [apply write_state_file_runs | |].
      * intros _ f Hf%wrote_copy; [|done]. by eapply stored_then_view.
      * intros f [->|Hf%wrote_copy]; [by right | right | done]. by eapply stored_then_view.
    + intros e w2 [->|H2]; [by left | right]. by eapply wrote_generation_stored.
  - apply runs_bind, wp_ret. assert (generation_in (durable w1) = None) as Hg1 by (by rewrite (proj1 Hv1)).
    eapply runs_mono; [apply write_state_file_runs | |].
    + intros ? f Hf. by eapply wrote_state_stored.
    + intros f [->|Hf]; [by left | right]. by eapply wrote_state_stored.
Qed.

(** ** Loading *)

Lemma load_absent : prune_ledger empty_state sample_now = Ok empty_state.
Proof. reflexivity. Qed.

(** These bytes are no state that could be stored again. (With the dialect of Python's
    [fromisoformat] every state that is decoded has its timestamps in UTC.) *)
Definition no_state (raw : bytes) : Prop := forall s, decode_state stack raw = Ok s -> ~ all_utc (state_times s).

(** The corrupt file, which is no state, is kept under the name of its digest. *)
Definition quarantined (f f' : disk) : Prop :=
  generation_in f = None /\ generation_in f' = None
  /\ exists raw, f !! LState = Some raw /\ f' !! LState = None /\ f' !! LCorrupt (hexdigest raw) = Some raw
       /\ no_state raw.

(** The state can be read: from the generation, from a state file, or there is neither. *)
Definition readable_state (f : disk) : Prop :=
  generation_in f <> None
  \/ match f !! LState with Some raw => is_ok (decode_state stack raw) = true | None => True end.

Lemma settled_readable f f' : settled f f' -> readable_state f' -> readable_state f.
Proof.
  intros H. unfold readable_state. rewrite (proj1 (settled_view _ _ H)). by rewrite (settled_lookup _ _ LState H).
Qed.

Lemma quarantined_sound f f' : quarantined f f' -> sound f'.
Proof.
  intros (_ & Hg & raw & _ & Hs & _). split; [|by rewrite Hg]. unfold state_in. rewrite Hg, Hs. constructor.
Qed.

Lemma moved_quarantined raw f :
  generation_in f = None -> f !! LState = Some raw -> no_state raw ->
  quarantined f (<[LCorrupt (hexdigest raw) := raw]> (delete LState f)).
Proof.
  intros Hg Hs Hn. split; [done|]. split.
  - unfold generation_in in *. by rewrite lookup_insert_ne, lookup_delete_ne.
  - exists raw. by rewrite lookup_insert_ne, lookup_delete_eq, lookup_insert_eq.
Qed.

(** What a load that may write back leaves. *)
Definition loaded_as (s : PersistentState) (f f' : disk) : Prop :=
  (exists c, prune_ledger (state_in f) c = Ok s) /\ (view_eq f f' \/ stored_as s f f').

Lemma pruned_load_runs persist s w :
  answers w -> sound (durable w) -> s = state_in (durable w) ->
  runs (pruned_load stack persist s)
    (fun l f => load_warning l = None /\ loaded_as (load_state_of l) (durable w) f
                /\ (persist = false -> view_eq (durable w) f))
    (fun f => view_eq (durable w) f \/ persist = true /\ exists s', loaded_as s' (durable w) f) w.
Proof using Hstack.
  intros Ha Hw ->. unfold pruned_load. apply runs_bind_clock. intros c w1 _ Hw1 Hs1.
  pose proof (same_answers _ _ Hs1 Ha) as Ha1. apply runs_bind_lift; [|rewrite Hw1; by left]. intros s' Hs'. apply runs_bind. rewrite <-Hw1 in *.
  destruct (persist && _) eqn:Ep.
  - apply andb_true_iff in Ep as [-> _]. eapply wp_mono; [apply write_state_runs; [done..|] | |].
    + destruct Hw. by eapply pruned_times.
    + intros [] w2 H2. apply wp_ret. split; [done|]. split; [|done]. split; [by exists c | by right].
    + intros e w2 [H2|H2]; [by left | right]. split; [done|]. exists s'. split; [by exists c | by right].
  - apply wp_ret. apply wp_ret. split; [done|]. split; [|done]. split; [by exists c | by left].
Qed.

Lemma loaded_view s f g h : view_eq f g -> loaded_as s g h -> loaded_as s f h.
Proof.
  intros Hv [Hc H]. split; [by rewrite <-(proj2 Hv)|]. destruct H as [H|H].
  - left. by eapply view_trans.
  - right. by eapply view_then_stored.
Qed.

Lemma prune_not_invalid s c e : prune_ledger s c = Err e -> invalid e = false.
Proof.
  assert (raises (fun e => invalid e = false) (prune_ledger s c)) as H; [|apply H].
  assert (forall t a b, raises (fun e => invalid e = false) (dt_cmp t a b)) as Hc.
  { intros. unfold dt_cmp. solve_raises. }
  assert (forall cut l, raises (fun e => invalid e = false) (recent_inactive cut l)) as Hr.
  { intros cut l. induction l as [|x l IH]; simpl; solve_raises. }
  unfold prune_ledger, dt_plus. solve_raises.
Qed.

Lemma dumps_raises v : raises (fun e => e = ValueError) (dumps v).
Proof.
  induction v as [| | | | |l IH|d IH] using json_ind'; cbn [dumps]; try solve [solve_raises].
  - unfold int_text. solve_raises.
  - apply raises_bind; [|solve_raises]. clear -IH. induction IH as [|x l Hx _ IHl]; simpl; [by apply raises_Ok|].
    apply raises_bind; [done|]. intros y _. apply raises_bind; [done|]. solve_raises.
  - apply raises_bind; [|solve_raises]. clear -IH. induction IH as [|x l Hx _ IHl]; simpl; [by apply raises_Ok|].
    apply raises_bind; [apply raises_bind; [done|]; solve_raises|]. intros y _. apply raises_bind; [done|]. solve_raises.
Qed.

Lemma utf8_raises s : raises (fun e => e = UnicodeEncodeError) (Utf8.encode s).
Proof. induction s as [|c s IH]; simpl; [by apply raises_Ok|]. destruct (_ || _); [by intros e [= <-]|]. apply raises_bind; [done|]. solve_raises. Qed.

Lemma dump_line_not_invalid v e : dump_line v = Err e -> invalid e = false.
Proof.
  unfold dump_line. pose proof (dumps_raises v) as Hd. destruct (dumps v) as [t|]; cbn.
  - pose proof (utf8_raises t) as Hu. destruct (Utf8.encode t); cbn; [done|]. intros [= <-]. by rewrite (Hu _ eq_refl).
  - intros [= <-]. by rewrite (Hd _ eq_refl).
Qed.

Lemma with_ledger_utc s l : l ⊆+ st_ledger s -> all_utc (state_times s) -> all_utc (state_times (with_ledger s l)).
Proof.
  unfold state_times. simpl. intros Hl. rewrite !Forall_app, !Forall_bind_iff. intros [H ?].
  apply submseteq_Permutation in Hl as [r Hr]. rewrite Hr in H. apply Forall_app in H. tauto.
Qed.

(** A valid state with its timestamps in UTC is never refused by the encoder. *)
Lemma encode_not_invalid s c e :
  valid_state s -> all_utc (state_times s) -> encode_state s c = Err e -> invalid e = false.
Proof.
  intros Hv Hu. unfold encode_state, encode_document. rewrite (proj2 (validate_state_spec s) Hv). cbn [mbind outcome_bind].
  destruct (prune_ledger s c) as [s'|e'] eqn:Hp; [|intros [= <-]; by eapply prune_not_invalid].
  assert (all_utc (state_times s')) as Hu'.
  { apply prune_ledger_Ok in Hp as (_ & _ & ->). by apply with_ledger_utc; [apply pruned_submseteq|]. }
  unfold state_times in Hu'. rewrite Forall_app, !Forall_bind_iff in Hu'. destruct Hu' as [Hl Hs].
  destruct (mapM_exists _ledger_value (st_ledger s')) as [es Hes].
  { eapply Forall_impl; [exact Hl|]. apply ledger_value_utc. }
  destruct (mapM_exists _source_value (st_sources s')) as [ms Hms].
  { eapply Forall_impl; [exact Hs|]. apply source_value_utc. }
  cbn [mbind outcome_bind]. rewrite Hes. cbn [mbind outcome_bind]. rewrite Hms. apply dump_line_not_invalid.
Qed.

(** Only a state that could not be stored again is refused, before a file is touched. *)
Lemma write_state_invalid s w :
  generation_in (durable w) = None -> valid_state s ->
  wp (write_state stack s) (fun _ _ => True)
    (fun e w' => invalid e = true -> settled (durable w) (durable w') /\ ~ all_utc (state_times s)) w.
Proof.
  intros Hn Hv. unfold write_state. apply wp_bind. eapply wp_mono; [apply load_generation_any | |]; cbv beta.
  2:{ intros e w1 [He _] ?. congruence. }
  intros g w1 [Hg H1]. assert (g = None) as -> by (destruct Hg as [->|[-> _]]; done).
  apply wp_bind, wp_ret, wp_bind, wp_clock. intros c w2 _ Hf _.
  assert (durable w2 = durable w1) as E by (unfold durable; by rewrite Hf). rewrite <-E in H1.
  apply wp_bind, wp_lift.
  - intros raw _. eapply wp_mono; [by apply atomic_write_spec | done |]. intros e w3 [He%os_not_invalid _] Hi. congruence.
  - intros e He Hi. split; [done|]. intros Hu. pose proof (encode_not_invalid _ _ _ Hv Hu He). congruence.
Qed.

Lemma settled_trans f g h : settled f g -> settled g h -> settled f h.
Proof.
  intros [->|[Hf ->]]; [done|]. intros [->|[_ ->]]; right; [done|]. by rewrite delete_delete_eq.
Qed.

Lemma settled_quarantined f g h : settled f g -> quarantined g h -> quarantined f h.
Proof.
  intros Hs (Hg & Hh & raw & Hr & Hn & Hc). unfold quarantined. rewrite <-(proj1 (settled_view _ _ Hs)).
  rewrite (settled_lookup _ _ LState Hs) in Hr by done. eauto 6.
Qed.

Lemma decode_and_prune persist raw w :
  answers w -> sound (durable w) -> generation_in (durable w) = None -> durable w !! LState = Some raw ->
  runs (decoded ← lift (decode_state stack raw); pruned_load stack persist decoded)
    (fun l f => load_warning l = None /\ loaded_as (load_state_of l) (durable w) f
                /\ (persist = false -> view_eq (durable w) f) /\ is_ok (decode_state stack raw) = true)
    (fun f => view_eq (durable w) f \/ persist = true /\ exists s', loaded_as s' (durable w) f) w.
Proof using Hstack.
  intros Ha Hw Hg Hr. apply runs_bind_lift; [|by left]. intros s Hs.
  eapply runs_mono; [apply pruned_load_runs; [done..|] | |done].
  - unfold state_in. by rewrite Hg, Hr, Hs.
  - cbv beta. rewrite Hs. tauto.
Qed.

Lemma decode_and_prune_invalid persist raw w :
  generation_in (durable w) = None ->
  wp (decoded ← lift (decode_state stack raw); pruned_load stack persist decoded) (fun _ _ => True)
    (fun e w' => invalid e = true ->
       settled (durable w) (durable w') /\ no_state raw
       /\ (persist = false -> exists e', decode_state stack raw = Err e')) w.
Proof.
  intros Hg. apply wp_bind, wp_lift.
  2:{ intros e He _. split; [by left|]. split; [intros s; congruence | by exists e]. }
  intros s Hs. unfold pruned_load. apply wp_bind, wp_clock. intros c w1 _ Hf _.
  assert (durable w1 = durable w) as E by (unfold durable; by rewrite Hf). rewrite <-E in Hg |- *.
  apply wp_bind, wp_lift; [|intros e He%prune_not_invalid ?; congruence]. intros s' Hp. apply wp_bind.
  destruct persist; simpl; [|by apply wp_ret]. destruct (negb _); [|by apply wp_ret].
  pose proof (decode_state_valid _ _ _ Hs) as Hv.
  apply prune_ledger_Ok in Hp as (_ & _ & ->). pose proof (pruned_submseteq (cutoff_of c) (st_ledger s)) as Hsub.
  eapply wp_mono; [apply write_state_invalid; [done | by apply with_ledger_valid] | done |]. cbv beta. intros e w' H Hi.
  destruct (H Hi) as [H1 Hu]. split; [done|]. split; [|done]. intros s0 H0. rewrite Hs in H0. injection H0 as <-.
  intros Hu0. by apply Hu, with_ledger_utc.
Qed.

(** From the bytes of the state file on, what is in it being perhaps no state. *)
Lemma load_state_file persist w w2 raw :
  answers w2 -> sound (durable w2) -> generation_in (durable w) = None -> settled (durable w) (durable w2) ->
  durable w2 !! LState = Some raw ->
  runs (catch (decoded ← lift (decode_state stack raw); pruned_load stack persist decoded)
          invalid (_ ← _quarantine raw;
                   ret {| load_state_of := empty_state; load_warning := Some STATE_CORRUPT |}))
    (fun l f => match load_warning l with
                | None => loaded_as (load_state_of l) (durable w) f /\ (persist = false -> view_eq (durable w) f)
                          /\ readable_state (durable w)
                | Some _ => load_state_of l = empty_state /\ quarantined (durable w) f
                            /\ (persist = false -> view_eq (durable w) f)
                end)
    (fun f => view_eq (durable w) f
              \/ persist = true /\ (quarantined (durable w) f \/ exists s, loaded_as s (durable w) f)) w2.
Proof using Hstack.
  intros Ha2 Hw2 Hg H1 Hraw. pose proof (settled_view _ _ H1) as Hv.
  assert (generation_in (durable w2) = None) as Hg1 by (by rewrite (proj1 Hv)). apply wp_catch.
  eapply wp_mono; [apply wp_and; [by apply (decode_and_prune persist raw w2) |
                                  by apply (decode_and_prune_invalid persist raw w2)] | |]; cbv beta.
  - intros l w3 [(-> & Hl & Hpe & Hd) _]. split; [by eapply loaded_view|].
    split; [intros E; eapply view_trans; eauto|]. apply (settled_readable _ _ H1). right. by rewrite Hraw.
  - intros e w3 [Hr Hi]. destruct (invalid e).
    + destruct (Hi eq_refl) as (H3 & Hno & Hd). pose proof (settled_trans _ _ _ H1 H3) as Hs3.
      assert (durable w3 !! LState = Some raw) as Hraw3 by (by rewrite (settled_lookup _ _ _ H3)).
      assert (forall f, f = <[LCorrupt (hexdigest raw):=raw]> (delete LState (durable w3)) ->
                quarantined (durable w) f /\ (persist = false -> view_eq (durable w) f)) as Hq.
      { intros f ->.
        assert (quarantined (durable w) (<[LCorrupt (hexdigest raw):=raw]> (delete LState (durable w3)))) as Hq.
        { eapply settled_quarantined; [exact Hs3 | apply moved_quarantined; [|done..]]. by rewrite (proj1 (settled_view _ _ Hs3)). }
        split; [done|]. intros E. destruct (Hd E) as [e' He']. destruct Hq as (_ & Hg' & raw' & _ & Hn & _).
        split; [congruence|]. unfold state_in. rewrite Hg', Hn, Hg.
        rewrite <-(settled_lookup _ _ LState Hs3), Hraw3, He' by done. done. }
      rewrite durable_lookup in Hraw3 by done.
      apply wp_bind. eapply wp_mono; [by apply (quarantine_runs raw) | |]; cbv beta.
      * intros [] w4 H4. apply wp_ret. split; [done|]. by apply Hq.
      * intros e' w4 [->|H4]; [left; by apply settled_view|]. destruct (Hq _ H4) as [Hq1 Hq2].
        destruct persist; [right; auto | left; auto].
    + destruct Hr as [H|[-> [s H]]]; [left; by eapply view_trans | right]. split; [done|]. right. exists s.
      by eapply loaded_view.
Qed.

(** The three ways a load can end: the stored state, pruned; nothing stored; a file that
    is no state, moved away. *)
Lemma load_state_locked_runs persist w :
  answers w -> sound (durable w) ->
  runs (_load_state_locked stack persist)
    (fun l f => match load_warning l with
                | None => loaded_as (load_state_of l) (durable w) f /\ (persist = false -> view_eq (durable w) f)
                          /\ readable_state (durable w)
                | Some _ => load_state_of l = empty_state /\ quarantined (durable w) f
                            /\ (persist = false -> view_eq (durable w) f)
                end)
    (fun f => view_eq (durable w) f
              \/ persist = true /\ (quarantined (durable w) f \/ exists s, loaded_as s (durable w) f)) w.
Proof using Hstack.
  intros Ha Hw. unfold _load_state_locked. eapply runs_bind_answers; [done | by apply load_generation_runs | |].
  2:{ intros f H. left. by apply settled_view. }
  cbv beta. intros g w1 Ha1 [-> H1]. pose proof (settled_view _ _ H1) as Hv. pose proof (view_sound _ _ Hv Hw) as Hw1.
  destruct (generation_in (durable w)) as [b|] eqn:Hg.
  { eapply runs_mono; [apply (pruned_load_runs persist); [done..|] | |].
    - rewrite (proj2 Hv). unfold state_in. by rewrite Hg.
    - intros l f (-> & Hl & Hp). split; [by eapply loaded_view|]. split; [intros E; eapply view_trans; eauto|]. left. congruence.
    - intros f [H|[-> [s H]]]; [left; by eapply view_trans | right]. split; [done|]. right. exists s. by eapply loaded_view. }
  assert (generation_in (durable w1) = None) as Hg1 by (by rewrite (proj1 Hv)).
  apply runs_bind_exists. intros b _ Habs. destruct b; cycle 1.
  { specialize (Habs Ha1 eq_refl). rewrite <-durable_lookup in Habs by done. apply runs_ret.
    assert (durable w !! LState = None) as Hno by (by rewrite <-(settled_lookup _ _ LState H1)).
    split; [|split; [done|]].
    - split; [|by left]. exists sample_now. unfold state_in. by rewrite Hg, Hno.
    - right. by rewrite Hno. }
  clear Habs. apply runs_bind. eapply wp_mono; [apply wp_answers; [exact Ha1 | apply (read_bytes_spec _ (stated w1))] | |]; cbv beta.
  2:{ intros e w' (_ & _ & ->). by left. }
  intros raw w2 (Ha2 & Hw2 & Hraw). change (durable (stated w1)) with (durable w1) in Hw2.
  change (w_files (stated w1)) with (w_files w1) in Hraw. rewrite <-durable_lookup in Hraw by done.
  rewrite <-Hw2 in H1, Hv, Hw1, Hg1, Hraw. by apply load_state_file.
Qed.

(** ** The operations *)

(** The first half of every update: whatever is loaded is the stored state, pruned. *)
Lemma load_for_update_runs w :
  answers w -> sound (durable w) ->
  runs (_load_state_locked stack false)
    (fun l f => view_eq (durable w) f /\ exists c, prune_ledger (state_in (durable w)) c = Ok (load_state_of l))
    (view_eq (durable w)) w.
Proof using Hstack.
  intros Ha Hw. eapply runs_mono; [by apply (load_state_locked_runs false) | |].
  - intros l f. cbv beta. destruct (load_warning l); intros H.
    + destruct H as (El & Hq & Hv). specialize (Hv eq_refl). split; [done|]. exists sample_now.
      assert (state_in (durable w) = empty_state) as ->; [|by rewrite El].
      rewrite <-(proj2 Hv). destruct Hq as (_ & Hg & raw & _ & Hn & _). unfold state_in. by rewrite Hg, Hn.
    + destruct H as ([Hc _] & Hv & _). by split; [apply Hv|].
  - intros f [H|[? _]]; [done | discriminate].
Qed.

(** The same scan, or none, before and after: a generation differs in its state only. *)
Definition same_scan (f f' : disk) : Prop :=
  sound f' /\ generation_in f' = (fun b => with_state b (state_in f')) <$> generation_in f.

Lemma view_same_scan f f' : sound f -> view_eq f f' -> same_scan f f'.
Proof.
  intros Hf Hv. split; [by eapply view_sound|]. destruct Hv as [-> ->]. unfold state_in.
  destruct (generation_in f) as [[]|]; [|done]. done.
Qed.

Lemma stored_same_scan s f f' : stored_as s f f' -> same_scan f f'.
Proof. intros (Hs & _ & H). split; [done|]. by destruct (generation_in f). Qed.

Lemma loaded_same_scan s f f' : sound f -> loaded_as s f f' -> same_scan f f'.
Proof. intros Hf [_ [H|H]]; [by apply view_same_scan | by eapply stored_same_scan]. Qed.

Lemma quarantined_same_scan f f' : quarantined f f' -> same_scan f f'.
Proof. intros H. split; [by eapply quarantined_sound|]. destruct H as (-> & -> & _). done. Qed.

Lemma same_scan_trans f g h : same_scan f g -> same_scan g h -> same_scan f h.
Proof. intros [_ H] [Hs H']. split; [done|]. rewrite H', H. by destruct (generation_in f). Qed.

Lemma update_state_runs {X} (m : PersistentState -> res (PersistentState * X)) w :
  answers w -> sound (durable w) -> keeps_range m ->
  runs (Storage.update_state stack m)
    (fun r f => same_scan (durable w) f /\ committed m (state_in (durable w)) (load_state_of r.1) r.2 (state_in f))
    (fun f => same_scan (durable w) f /\ (state_in f = state_in (durable w)
              \/ exists p x, committed m (state_in (durable w)) p x (state_in f))) w.
Proof using Hstack.
  intros Ha Hw Hm. unfold Storage.update_state.
  assert (forall f, view_eq (durable w) f -> same_scan (durable w) f /\ (state_in f = state_in (durable w)
              \/ exists p x, committed m (state_in (durable w)) p x (state_in f))) as Hsame.
  { intros f Hv. split; [by apply view_same_scan | left; apply Hv]. }
  apply runs_lock; [by apply Hsame | intros r f [? ?]; eauto |].
  intros w1 Hw1 Hs1. apply (same_answers _ _ Hs1) in Ha. rewrite <-Hw1 in *. clear Hw1 Hs1 w.
  eapply runs_bind_answers; [done | by apply load_for_update_runs | | by auto]. cbv beta.
  intros l w2 Ha2 [Hv [c1 Hc]]. apply runs_bind_lift; [|by apply Hsame]. intros [p x] Hp. cbn [fst snd].
  assert (Forall in_range (state_times p)) as Hpr.
  { eapply Hm; [|exact Hp]. eapply pruned_times; [exact Hc | apply Hw]. }
  assert (forall f, stored_as p (durable w2) f ->
            same_scan (durable w1) f /\ committed m (state_in (durable w1)) p x (state_in f)) as Hdone.
  { intros f Hst. split; [eapply same_scan_trans; [by apply view_same_scan | by eapply stored_same_scan]|].
    destruct Hst as (_ & (c2 & Hc2) & _). by exists c1, c2, (load_state_of l). }
  apply runs_bind. eapply wp_mono; [apply write_state_runs; [done | by eapply view_sound | done] | |]; cbv beta.
  - intros [] w3 H3. apply runs_ret. by apply Hdone.
  - intros e w3 [H3|H3]; [apply Hsame; by eapply view_trans|]. destruct (Hdone _ H3) as [Hs3 Hc3]. eauto.
Qed.

(** C5. [Storage.update_state] on disk implements one atomic update of one state: whichever
    call that writes, reads, syncs or locks fails, whenever the process is killed, what is
    stored afterwards is the state before, or the pruned result of the mutation of the
    pruned state before; when the operation returns it is the latter, and the caller is
    given that very result. It relies on the [stat] of [Path.exists] to answer: one that
    fails is taken for an absent file, and then this is not so ([unanswered_update]). *)
Theorem update_state_refines {X} (m : PersistentState -> res (PersistentState * X)) w :
  answers w -> sound (durable w) -> keeps_range m ->
  let '(w', r) := Storage.update_state stack m w in
  sound (durable w')
  /\ match r with
     | Ok (loaded, x) => committed m (state_in (durable w)) (load_state_of loaded) x (state_in (durable w'))
     | Err _ => state_in (durable w') = state_in (durable w)
                \/ exists p x, committed m (state_in (durable w)) p x (state_in (durable w'))
     end.
Proof using Hstack.
  intros Ha Hw Hm. pose proof (update_state_runs m w Ha Hw Hm) as H. unfold runs, wp in H.
  destruct (Storage.update_state stack m w) as [w' [[l x]|e]]; (split; [apply H|apply H]).
Qed.

(** ** Commits *)

Definition newest (b : GenerationBundle) (f : disk) : Prop :=
  forall c, generation_in f = Some c -> g_order c < g_order b.

Definition published (b : GenerationBundle) (f : disk) : Prop :=
  sound f /\ exists c s, prune_ledger (g_state b) c = Ok s /\ generation_in f = Some (with_state b s) /\ state_in f = s.

Lemma published_view b f g : view_eq f g -> published b f -> published b g.
Proof.
  intros Hv [Hs H]. split; [by eapply view_sound|]. destruct Hv as [-> ->]. exact H.
Qed.

(** The copy in the state file, and then the answer. *)
Lemma commit_tail s (P Q Q' : disk -> Prop) w :
  runs (now ← clock; raw ← lift (encode_state s now); atomic_write LState raw) (fun _ => P) P w ->
  runs (now ← clock; raw ← lift (encode_state s now); _ ← atomic_write LState raw; ret true)
    (fun r f => if r : bool then P f else Q f) (fun f => Q' f \/ P f) w.
Proof.
  unfold runs, wp, mbind, M_bind, ret, clock, lift.
  destruct (encode_state _ _); [|tauto]. destruct (atomic_write LState _ _) as [w4 []]; tauto.
Qed.

Lemma commit_generation_runs b w :
  answers w -> sound (durable w) -> Forall in_range (bundle_times b) -> Forall in_range (state_times (g_state b)) ->
  runs (commit_generation stack b)
    (fun r f => if r : bool then newest b (durable w) /\ published b f
                else view_eq (durable w) f /\ exists c, generation_in (durable w) = Some c /\ g_order b <= g_order c)
    (fun f => view_eq (durable w) f \/ newest b (durable w) /\ published b f) w.
Proof using Hstack.
  intros Ha Hw Hb Hs. unfold commit_generation. apply runs_lock; [by left | intros [] f H; [right | left]; apply H |].
  intros w1 Hw1 Hs1. apply (same_answers _ _ Hs1) in Ha. rewrite <-Hw1 in *. clear Hw1 Hs1 w. apply runs_bind.
  eapply wp_mono; [by apply load_generation_runs | |]; cbv beta.
  2:{ intros e w2 H. left. by apply settled_view. }
  intros g w2 [-> Hv%settled_view].
  destruct (match generation_in (durable w1) with Some c => _ | None => _ end) eqn:Ec.
  { apply runs_ret. split; [done|]. destruct (generation_in (durable w1)) as [c|]; [|done].
    exists c. split; [done|]. by apply Z.leb_le. }
  assert (newest b (durable w1)) as Hn.
  { intros c Hc. rewrite Hc in Ec. by apply Z.leb_gt. }
  apply runs_bind. eapply wp_mono; [apply write_generation_runs | |]; cbv beta.
  - intros [] w3 H3.
    assert (published b (durable w3)) as Hp.
    { apply wrote_generation_view in H3 as (c & s & Hp & Hg & Hst & Hso); [|done..]. split; [done|]. eauto. }
    assert (generation_in (durable w3) <> None) as Hne by (destruct Hp as (_ & ? & ? & _ & -> & _); done).
    assert (runs (now ← clock; raw ← lift (encode_state (g_state b) now); atomic_write LState raw)
              (fun _ f => newest b (durable w1) /\ published b f) (fun f => newest b (durable w1) /\ published b f) w3) as Hr.
    { eapply runs_mono; [apply write_state_file_runs | |].
      - intros _ f Hf%wrote_copy; [|done]. split; [done|]. by eapply published_view.
      - intros f [->|Hf%wrote_copy]; [done | | done]. split; [done|]. by eapply published_view. }
    revert Hr. apply commit_tail.
  - intros e w3 [->|H3]; [by left | right]. split; [done|].
    apply wrote_generation_view in H3 as (c & s & Hp & Hg & Hst & Hso); [|done..]. split; [done|]. eauto.
Qed.

(** C11. Publishing a generation: it is stored only when it is newer than the stored one,
    and then it is what the next scan, snapshot and state see, whole; otherwise nothing
    changes. A failure or a kill in the middle leaves the old generation or the new one.
    It relies on [stat] to answer ([unanswered_commit]). *)
Theorem commit_newest_wins b w :
  answers w -> sound (durable w) -> Forall in_range (bundle_times b) -> Forall in_range (state_times (g_state b)) ->
  let '(w', r) := commit_generation stack b w in
  match r with
  | Ok true => newest b (durable w) /\ published b (durable w')
  | Ok false => view_eq (durable w) (durable w')
                /\ exists c, generation_in (durable w) = Some c /\ g_order b <= g_order c
  | Err _ => view_eq (durable w) (durable w') \/ newest b (durable w) /\ published b (durable w')
  end.
Proof using Hstack.
  intros Ha Hw Hb Hs. pose proof (commit_generation_runs b w Ha Hw Hb Hs) as H. unfold runs, wp in H.
  by destruct (commit_generation stack b w) as [w' [[|]|e]]; destruct H as [_ H].
Qed.

Lemma load_state_recovers_locked w :
  answers w -> sound (durable w) ->
  let '(w', r) := load_state stack w in
  match r with
  | Ok l => match load_warning l with
            | None => loaded_as (load_state_of l) (durable w) (durable w') /\ readable_state (durable w)
            | Some _ => load_state_of l = empty_state /\ quarantined (durable w) (durable w')
            end
  | Err _ => view_eq (durable w) (durable w') \/ quarantined (durable w) (durable w')
             \/ exists s, loaded_as s (durable w) (durable w')
  end.
Proof using Hstack.
  intros Ha Hw. unfold load_state.
  assert (runs (state_lock (_load_state_locked stack true))
    (fun l f => match load_warning l with
                | None => loaded_as (load_state_of l) (durable w) f /\ readable_state (durable w)
                | Some _ => load_state_of l = empty_state /\ quarantined (durable w) f
                end)
    (fun f => view_eq (durable w) f \/ quarantined (durable w) f \/ exists s, loaded_as s (durable w) f) w) as H.
  { apply runs_lock; [by left | intros l f; cbv beta; destruct (load_warning l); naive_solver |].
    intros w1 Hw1 Hs1. apply (same_answers _ _ Hs1) in Ha. rewrite <-Hw1 in *.
    eapply runs_mono; [by apply (load_state_locked_runs true) | |]; cbv beta.
    - intros l f. destruct (load_warning l); naive_solver.
    - naive_solver. }
  unfold runs, wp in H. by destruct (state_lock _ w) as [w' [l|e]]; destruct H as [_ H].
Qed.


(** ** The times of a changed generation *)

Lemma sound_generation f b :
  sound f -> generation_in f = Some b -> Forall in_range (bundle_times b) /\ Forall in_range (state_times (g_state b)).
Proof.
  intros [Hs Ht] Hb. split; [by apply Ht|]. unfold state_in in Hs. by rewrite Hb in Hs.
Qed.

Lemma snapshot_times_kept b s :
  Forall in_range (response_times (RSnapshot s)) -> Forall in_range (bundle_times b) ->
  Forall in_range (bundle_times (with_snapshot b s)).
Proof. unfold bundle_times. rewrite !Forall_app. by intros H [_ ?]. Qed.

Lemma inventory_times_kept b i :
  Forall in_range (response_times (RInventory i)) -> Forall in_range (bundle_times b) ->
  Forall in_range (bundle_times (with_inventories b (replace_inventory (g_inventories b) i))).
Proof.
  unfold bundle_times. rewrite !Forall_app, !Forall_bind_iff. intros H (Hs & Hl & Hi). split; [done|]. split; [done|].
  simpl. unfold replace_inventory, sorted_by_key. rewrite sorted_by_Permutation. apply Forall_app. split; [|by constructor].
  rewrite Forall_forall in *. intros x Hx. apply list_elem_of_In, List.filter_In in Hx as [Hx%list_elem_of_In _].
  by apply Hi.
Qed.
End Spec.

(** ** Concrete files *)

Lemma sample_later_range : in_range sample_later.
Proof. vm_compute. split; congruence. Qed.

Definition sample_world : world := {|
  w_files := ∅; w_faults := fun _ => Fine; w_calls := 0; w_clock := fun _ => sample_later;
  w_clock_range := fun _ => sample_later_range; w_readings := 0; w_temps := 0;
  w_stats := fun _ => true; w_stated := 0 |}.

Lemma sample_answers : answers sample_world.
Proof. done. Qed.

(** A state file that is no JSON. *)
Definition corrupt_world : world := with_files <[LState := lit "no state"]> sample_world.

Lemma unread_sound f :
  state_in (Iso:=fun _ => None) 101 f = empty_state -> generation_in (Iso:=fun _ => None) 101 f = None ->
  sound (Iso:=fun _ => None) 101 f.
Proof. intros Hs Hg. split; [rewrite Hs; constructor | by rewrite Hg]. Qed.

Lemma sample_sound : sound (Iso:=fun _ => None) 101 (durable sample_world).
Proof. by apply unread_sound. Qed.

Lemma update_state_refines_witness :
  match Storage.update_state (Iso:=fun _ => None) 101 (fun s => Ok (sample_state, len (st_watches s))) sample_world with
  | (w', Ok (l, x)) =>
      sound (Iso:=fun _ => None) 101 (durable w') /\
      committed (fun s => Ok (sample_state, len (st_watches s))) empty_state (load_state_of l) x
        (state_in (Iso:=fun _ => None) 101 (durable w'))
  | _ => False
  end.
Proof.
  pose proof (update_state_refines (Iso:=fun _ => None) 101 eq_refl (fun s => Ok (sample_state, len (st_watches s)))
    sample_world sample_answers sample_sound) as H.
  assert (is_ok (Storage.update_state (Iso:=fun _ => None) 101 (fun s => Ok (sample_state, len (st_watches s)))
    sample_world).2 = true) as E by (vm_compute; reflexivity).
  destruct (Storage.update_state _ _ _) as [w' [[l x]|e]]; [|discriminate E].
  apply H. intros s p x' _ [= <- _]. apply sample_state_storable.
Defined.

Lemma commit_newest_wins_witness :
  match commit_generation (Iso:=fun _ => None) 101 sample_bundle sample_world with
  | (w', Ok true) =>
      newest (Iso:=fun _ => None) 101 sample_bundle (durable sample_world)
      /\ published (Iso:=fun _ => None) 101 sample_bundle (durable w')
  | _ => False
  end.
Proof.
  pose proof (commit_newest_wins (Iso:=fun _ => None) 101 eq_refl sample_bundle sample_world sample_answers sample_sound) as H.
  assert ((commit_generation (Iso:=fun _ => None) 101 sample_bundle sample_world).2 = Ok true) as E by (vm_compute; reflexivity).
  destruct (commit_generation _ _ _) as [w' [[]|e]]; [|discriminate E|discriminate E].
  apply H; [|apply sample_state_storable].
  repeat (constructor; [vm_compute; split; congruence|]). constructor.
Defined.


(** ** When [stat] fails

    [Path.exists] then says that there is no file. *)

Definition with_stats (stats : nat -> bool) (w : world) : world := {|
  w_files := w_files w; w_faults := w_faults w; w_calls := w_calls w; w_clock := w_clock w;
  w_clock_range := w_clock_range w; w_readings := w_readings w; w_temps := w_temps w; w_stats := stats; w_stated := 0 |}.

Definition published_world : world := (commit_generation (Iso:=fun _ => None) 101 sample_bundle sample_world).1.

Definition older_bundle : GenerationBundle :=
  {| g_order := g_order sample_bundle - 1; g_snapshot := g_snapshot sample_bundle; g_inventories := g_inventories sample_bundle;
     g_state := empty_state; g_last_good := g_last_good sample_bundle; g_last_good_keys := g_last_good_keys sample_bundle |}.

(** One [stat] that fails: an older generation is stored in place of a newer one. *)
Lemma unanswered_commit :
  let w := with_stats (fun _ => false) published_world in
  let '(w', r) := commit_generation (Iso:=fun _ => None) 101 older_bundle w in
  g_order <$> generation_in (Iso:=fun _ => None) 101 (durable w) = Some (g_order sample_bundle)
  /\ r = Ok true
  /\ g_order <$> generation_in (Iso:=fun _ => None) 101 (durable w') = Some (g_order sample_bundle - 1).
Proof. vm_compute. repeat split. Qed.

(** Two that fail, of the generation and of the state file, and an update that changes
    nothing stores the empty state over every watch, and returns. *)
Lemma unanswered_update :
  let w := with_stats (fun i => bool_decide (2 <= i)%nat) published_world in
  let '(w', r) := Storage.update_state (Iso:=fun _ => None) 101 (fun s => Ok (s, tt)) w in
  st_watches (state_in (Iso:=fun _ => None) 101 (durable w)) <> []
  /\ is_ok r = true /\ st_watches (state_in (Iso:=fun _ => None) 101 (durable w')) = [].
Proof. vm_compute. repeat split. discriminate. Qed.

(** A load gives the empty state, without a warning. *)
Lemma unanswered_load :
  let w := with_stats (fun _ => false) published_world in
  let '(_, r) := load_state (Iso:=fun _ => None) 101 w in
  st_watches (state_in (Iso:=fun _ => None) 101 (durable w)) <> []
  /\ r = Ok {| load_state_of := empty_state; load_warning := None |}.
Proof. vm_compute. repeat split. discriminate. Qed.
