(* ===== verification/DiskStore.v ===== *)
(** * Storage as a store, and every sequence of its operations

    [Storage] on disk is a [StateStore], so that what holds of the clients of that
    interface holds on disk too. The second part runs any operations one after the other,
    by any number of processes that may be killed, in a world whose [stat]s are answered. *)

From S2P Require Import Prelude PyStr Calendar Models Samples Json JsonText Sha256 Wire RunnerTypes StorageWatches.
From S2P Require Import StorageState StateFile StateStore ScanResolution Generation StorageIO Storage StorageSpec.

Open Scope Z_scope.

Section Disk.
Context `{Iso : IsoDialect} (stack : nat) (Hstack : MAX_JSON_DEPTH < Z.of_nat stack).

(** [Storage.update_state], its warning left to the caller that asks for it. *)
Definition disk_update {X} (m : PersistentState -> res (PersistentState * X)) (w : world)
    : world * res (PersistentState * X) :=
  let '(w', r) := Storage.update_state stack m w in
  (w', match r with Ok (l, x) => Ok (load_state_of l, x) | Err e => Err e end).

Program Definition disk_store : StateStore world := {|
  stored w := state_in stack (durable w);
  sound_store w := sound stack (durable w) /\ answers w;
  StateStore.update_state X m w := disk_update m w;
|}.
Next Obligation.
  intros X m w [Hw Ha] Hm. unfold disk_update. pose proof (update_state_runs stack Hstack m w Ha Hw Hm) as H.
  unfold runs, wp in H. destruct (Storage.update_state stack m w) as [w' [[l x]|e]]; destruct H as [Hs H];
    (split; [split; [apply H | by apply (same_answers w)] | apply H]).
Qed.

(** ** What an operation may change

    A relation between the files before and after: nothing changed, or one change after
    another, always with sound files. *)

Abbreviation sound := (sound stack).
Abbreviation generation_in := (generation_in stack).
Abbreviation view_eq := (view_eq stack).

Class Change (R : disk -> disk -> Prop) := {
  change_view f g : sound f -> view_eq f g -> R f g;
  change_trans f g h : R f g -> R g h -> R f h;
  change_sound f g : R f g -> sound g;
}.

(** [m] changes nothing else, whether it returns, raises or is killed; when [stat] answers
    as [G] says, [answering] or [anyhow]. *)
Definition changes (G : (nat -> bool) -> Prop) (R : disk -> disk -> Prop) {A} (m : M A) : Prop := forall w,
  G (w_stats w) -> sound (durable w) -> runs m (fun _ f => R (durable w) f) (fun f => R (durable w) f) w.

Definition anyhow (stats : nat -> bool) : Prop := True.

Section Changes.
Context (G : (nat -> bool) -> Prop) (R : disk -> disk -> Prop) `{!Change R}.

Lemma change_same f g : sound f -> g = f -> R f g.
Proof. intros ? ->. by apply change_view. Qed.

Lemma changes_quiet {A} (m : M A) : quiet m -> changes G R m.
Proof. intros Hm w _ Hw. eapply wp_quiet; [done | |]; intros; simpl; by apply change_same. Qed.

Lemma changes_lift {A} (r : res A) : changes G R (lift r).
Proof. intros w _ Hw. apply runs_lift; [intros _ _|]; by apply change_same. Qed.

Lemma changes_ret {A} (a : A) : changes G R (ret a).
Proof. intros w _ Hw. by apply runs_ret, change_same. Qed.

Lemma changes_after {A} (m : M A) f w :
  changes G R m -> G (w_stats w) -> R f (durable w) -> runs m (fun _ => R f) (R f) w.
Proof. intros Hm HG H. eapply runs_mono; [apply Hm; [done | by eapply change_sound] | |]; intros; by eapply change_trans. Qed.

Lemma changes_bind {A B} (m : M A) (k : A -> M B) : changes G R m -> (forall a, changes G R (k a)) -> changes G R (m ≫= k).
Proof.
  intros Hm Hk w HG Hw. apply runs_bind. eapply wp_mono; [apply wp_stats, Hm; done | | by intros ? ? [_ ?]]. cbv beta.
  intros a w' [E H]. apply changes_after; [done | by rewrite E | done].
Qed.

Lemma changes_catch {A} (m : M A) p (h : M A) : changes G R m -> changes G R h -> changes G R (catch m p h).
Proof.
  intros Hm Hh w HG Hw. apply wp_catch. eapply wp_mono; [apply wp_stats, Hm; done | by intros ? ? [_ ?] |]. cbv beta.
  intros e w' [E H]. destruct (p e); [|done]. apply changes_after; [done | by rewrite E | done].
Qed.

Lemma changes_lock {A} (m : M A) : changes G R m -> changes G R (state_lock m).
Proof.
  intros Hm w HG Hw. apply runs_lock; [by apply change_same | done |]. intros w' Hw' Hs. rewrite <-Hw' in *.
  apply Hm; [by rewrite Hs | done].
Qed.

Lemma changes_clock : changes G R clock.
Proof. intros w _ Hw. split; [done|]. by apply change_same. Qed.

Lemma changes_bind_clock {A} (k : datetime -> M A) :
  (forall c, in_range c -> changes G R (k c)) -> changes G R (clock ≫= k).
Proof.
  intros Hk w HG Hw. apply runs_bind_clock. intros c w' Hc Hw' Hs. rewrite <-Hw' in *. apply Hk; [done | by rewrite Hs | done].
Qed.

Lemma changes_exists l : changes G R (exists_ l).
Proof. intros w _ Hw. split; [done|]. by apply change_same. Qed.

Lemma changes_read l : changes G R (read_bytes l).
Proof.
  intros w _ Hw. eapply wp_mono; [apply read_bytes_spec | |]; cbv beta; intros ? ? [? ?]; by apply change_same.
Qed.

(** In a world [m] leaves. *)
Lemma changes_run {A} (m : M A) w :
  changes G R m -> G (w_stats w) -> sound (durable w) ->
  R (durable w) (durable (m w).1) /\ w_stats (m w).1 = w_stats w.
Proof. intros Hm HG Hw. specialize (Hm w HG Hw). unfold runs, wp in Hm. destruct (m w) as [w' []]; tauto. Qed.
End Changes.

Lemma changes_sure G R {A} (m : M A) : changes anyhow R m -> changes G R m.
Proof. intros Hm w _. by apply Hm. Qed.

(** ** What no operation loses *)

(** The generation may be replaced by none but a newer one. *)
Definition kept (f f' : disk) : Prop :=
  sound f' /\ forall b, generation_in f = Some b -> exists b', generation_in f' = Some b' /\ g_order b <= g_order b'.

Lemma kept_trans f g h : kept f g -> kept g h -> kept f h.
Proof.
  intros [_ Hfg] [Hs Hgh]. split; [done|]. intros b (b1 & H1 & Hle)%Hfg. apply Hgh in H1 as (b2 & H2 & Hle2).
  exists b2. split; [done | lia].
Qed.

Lemma kept_view f f' : sound f -> view_eq f f' -> kept f f'.
Proof.
  intros Hs Hv. split; [by eapply view_sound|]. intros b Hb. exists b. split; [|done]. by rewrite (proj1 Hv).
Qed.

#[local] Instance kept_change : Change kept.
Proof. split; [apply kept_view | apply kept_trans | by intros f g [? _]]. Qed.

(** No operation of [m] loses anything. *)
Abbreviation keeps := (changes answering kept).

(** The caches and the feeds are beside the state and the generation. *)
Definition beside (l : location) : Prop := l <> generation_path /\ l <> LState.

Lemma beside_view l f g :
  beside l -> (forall k, k <> l -> g !! k = f !! k) -> view_eq f g.
Proof.
  intros [Hg Hs] H. unfold StorageSpec.view_eq. assert (generation_in g = generation_in f) as E.
  { unfold StorageSpec.generation_in. by rewrite H. }
  split; [done|]. unfold state_in. rewrite E. by rewrite H.
Qed.

(** What any change allows. *)
Section Any.
Context (G : (nat -> bool) -> Prop).

Lemma changes_atomic_write R `{!Change R} l b : beside l -> lasting l = true -> changes G R (atomic_write l b).
Proof.
  intros Hl Hlast w _ Hw. assert (view_eq (durable w) (<[l:=b]> (durable w))) as Hv.
  { apply (beside_view l); [done|]. intros k Hk. by rewrite lookup_insert_ne. }
  eapply runs_mono; [by apply atomic_write_runs | |].
  - intros _ f ->. by apply change_view.
  - intros f [->| ->]; by apply change_view.
Qed.

Lemma changes_discard R `{!Change R} l : beside l -> changes G R (_discard l).
Proof.
  intros Hl w _ Hw. assert (view_eq (durable w) (delete l (durable w))) as Hv.
  { apply (beside_view l); [done|]. intros k Hk. by rewrite lookup_delete_ne. }
  eapply runs_mono; [by apply discard_runs | |].
  - intros _ f ->. by apply change_view.
  - intros f [->| ->]; by apply change_view.
Qed.

Lemma changes_load_generation R `{!Change R} : changes G R (_load_generation_locked stack).
Proof.
  intros w _ Hw. eapply runs_mono; [apply load_generation_settles | |]; cbv beta.
  - intros g f H%settled_view. by apply change_view.
  - intros f H%settled_view. by apply change_view.
Qed.
End Any.

Lemma beside_snapshot : beside snapshot_path.
Proof. by split. Qed.
Lemma beside_inventory source : beside (inventory_path source).
Proof. by destruct source. Qed.
Lemma beside_feed feed : beside (semantic_feed_path feed).
Proof. by destruct feed. Qed.

#[local] Instance same_scan_change : Change (same_scan stack).
Proof. split; [apply view_same_scan | apply same_scan_trans | by intros f g [? _]]. Qed.

(** ** The operations *)

Lemma same_scan_load_state persist : changes answering (same_scan stack) (_load_state_locked stack persist).
Proof using Hstack.
  intros w Ha Hw. eapply runs_mono; [by apply load_state_locked_runs | |]; cbv beta.
  - intros l f. destruct (load_warning l); [intros (_ & H & _) | intros (H & _ & _)];
      [by apply quarantined_same_scan | by eapply loaded_same_scan].
  - intros f [H|[_ [H|[s H]]]]; [by apply view_same_scan | by apply quarantined_same_scan | by eapply loaded_same_scan].
Qed.

(** The same scan is not an older one. *)
Lemma same_scan_kept f f' : same_scan stack f f' -> kept f f'.
Proof. intros [Hs H]. split; [done|]. intros b Hb. rewrite H, Hb. simpl. eexists. split; [reflexivity|]. done. Qed.

Lemma keeps_write_state s : Forall in_range (state_times s) -> keeps (write_state stack s).
Proof using Hstack.
  intros Hs w Ha Hw. eapply runs_mono; [by apply write_state_runs | |]; cbv beta.
  - intros _ f H. by eapply same_scan_kept, stored_same_scan.
  - intros f [H|H]; [by apply kept_view | by eapply same_scan_kept, stored_same_scan].
Qed.

Lemma keeps_load_state persist : keeps (_load_state_locked stack persist).
Proof using Hstack.
  intros w Ha Hw. eapply runs_mono; [by apply same_scan_load_state | |]; cbv beta; intros; by apply same_scan_kept.
Qed.

(** A load, then the rest of an update, which may count on the times of what was loaded. *)
Lemma keeps_update {A} (k : StateLoad -> M A) :
  (forall l, Forall in_range (state_times (load_state_of l)) -> keeps (k l)) ->
  keeps (l ← _load_state_locked stack false; k l).
Proof using Hstack.
  intros Hk w Ha Hw. eapply runs_bind_answers; [done | by apply load_for_update_runs | |]; cbv beta.
  2:{ intros f H. by apply kept_view. }
  intros l w' Ha' [Hv [c Hc]]. apply (changes_after answering _); [|done | by apply kept_view]. apply Hk. eapply pruned_times; [exact Hc|].
  apply Hw.
Qed.

(** A generation of the same scan in place of the stored one. *)
Lemma rewrite_generation_runs b b' w :
  sound (durable w) -> generation_in (durable w) = Some b -> g_order b' = g_order b ->
  Forall in_range (bundle_times b') -> Forall in_range (state_times (g_state b')) ->
  runs (_write_generation_locked b') (fun _ => kept (durable w)) (kept (durable w)) w.
Proof using Hstack.
  intros Hw Hb Ho Ht Hs. assert (forall f, wrote_generation b' (durable w) f -> kept (durable w) f) as H.
  { intros f H. apply (wrote_generation_view stack Hstack) in H as (c & s & _ & Hg & _ & Hsd); [|done..].
    split; [done|]. rewrite Hb. intros ? [= <-]. eexists. split; [exact Hg|]. simpl. lia. }
  eapply runs_mono; [apply write_generation_runs | auto |]. cbv beta. intros f [->|Hf]; [by apply kept_view | auto].
Qed.

(** An operation that rewrites the generation if there is one, or does something else. *)
Lemma keeps_replace (change : GenerationBundle -> GenerationBundle) (other : M unit) :
  (forall b, g_order (change b) = g_order b) -> (forall b, g_state (change b) = g_state b) ->
  (forall b, Forall in_range (bundle_times b) -> Forall in_range (bundle_times (change b))) -> keeps other ->
  keeps (g ← _load_generation_locked stack;
         match g with Some b => _write_generation_locked (change b) | None => other end).
Proof using Hstack.
  intros Ho Hst Ht Hother w Ha Hw. eapply runs_bind_answers; [done | by apply load_generation_runs | |]; cbv beta.
  2:{ intros f H%settled_view. by apply kept_view. }
  intros g w' Ha' [-> H%settled_view]. pose proof (kept_view _ _ Hw H) as Hk.
  destruct (generation_in (durable w)) as [b|] eqn:Hb; [|by apply (changes_after answering _)].
  rewrite <-(proj1 H) in Hb. destruct (sound_generation stack _ _ (proj1 Hk) Hb) as [Hbt Hbs].
  eapply runs_mono; [apply (rewrite_generation_runs b); [apply Hk | done | done | by apply Ht | by rewrite Hst] | |];
    intros; by eapply kept_trans.
Qed.

End Disk.


Create HintDb keeps.
#[export] Hint Resolve changes_lift changes_ret changes_bind changes_catch changes_lock changes_clock changes_exists
  changes_read changes_atomic_write changes_discard beside_snapshot beside_inventory beside_feed
  changes_load_generation keeps_load_state kept_change : keeps.
#[export] Hint Extern 1 (changes _ _ _ sys_) => apply changes_quiet; [apply _ | apply quiet_sys] : keeps.

(** Follows the branches of an operation. *)
Ltac solve_keeps :=
  repeat match goal with
         | |- changes _ _ _ (match ?x with _ => _ end) => destruct x
         | |- changes _ _ _ (let _ := _ in _) => cbv zeta
         | |- changes _ _ _ (_ ≫= _) => apply changes_bind; [apply _| |intros ?]
         | |- changes _ _ _ (catch _ _ _) => apply changes_catch; [apply _| |]
         | |- changes _ _ _ (state_lock _) => apply changes_lock; [apply _|]
         | |- changes _ _ _ _ => solve [auto with keeps]
         end.

Section Steps.
Context `{Iso : IsoDialect} (stack : nat) (Hstack : MAX_JSON_DEPTH < Z.of_nat stack).

Abbreviation sound := (sound stack).
Abbreviation keeps := (changes stack answering (kept stack)).
#[local] Existing Instance kept_change.

Lemma keeps_lock {A} (m : M A) : keeps m -> keeps (state_lock m).
Proof. apply (changes_lock _ _ _). Qed.

Lemma keeps_bind {A B} (m : M A) (k : A -> M B) : keeps m -> (forall a, keeps (k a)) -> keeps (m ≫= k).
Proof. apply (changes_bind _ _ _). Qed.

(** ** Reading caches and feeds *)

Section Caches.
Context (G : (nat -> bool) -> Prop) (R : disk -> disk -> Prop) `{!Change stack R}.

Lemma changes_load_snapshot : changes stack G R (load_snapshot stack).
Proof. unfold load_snapshot. solve_keeps. Qed.

Lemma changes_load_inventory source : changes stack G R (load_inventory stack source).
Proof. unfold load_inventory. solve_keeps. Qed.

Lemma changes_load_inventories l : changes stack G R (load_inventories stack l).
Proof.
  induction l as [|x l IH]; simpl; [auto with keeps|]. solve_keeps; auto using changes_load_inventory with keeps.
Qed.
#[local] Hint Resolve changes_load_snapshot changes_load_inventory changes_load_inventories : keeps.

Lemma changes_read_caches sources :
  changes stack G R (read_cached_snapshot stack) /\ changes stack G R (read_current_inventories stack sources)
  /\ forall source, changes stack G R (read_cached_inventory stack source).
Proof.
  unfold read_cached_snapshot, read_current_inventories, read_cached_inventory. split_and!; intros; solve_keeps.
Qed.

Lemma changes_read_feed feed validator : changes stack G R (read_last_good_feed_locked stack feed validator).
Proof. unfold read_last_good_feed_locked. solve_keeps. Qed.
#[local] Hint Resolve changes_read_feed : keeps.

Lemma changes_feeds feed body validator :
  changes stack G R (write_last_good_feed feed body validator) /\ changes stack G R (read_last_good_feed stack feed validator)
  /\ changes stack G R (read_confirmed_feed stack feed validator).
Proof.
  unfold write_last_good_feed, write_last_good_feed_locked, read_last_good_feed, read_confirmed_feed,
    read_cache_validators. split_and!; solve_keeps.
Qed.
End Caches.

(** ** Any operations, one after the other *)

(** A mutation that is given the caches too. *)
Definition keeps_range_with
    (m : PersistentState -> list InventoryResponse -> option SnapshotResponse -> res PersistentState) : Prop :=
  forall s l c p, Forall in_range (state_times s) -> m s l c = Ok p -> Forall in_range (state_times p).

(** One operation of one process, whatever its outcome; or another writer of the cache
    directory (the runner of commands keeps the bodies of feeds there). *)
Inductive step : world -> world -> Prop :=
| step_load_state w : step w (load_state stack w).1
| step_save_state s w : Forall in_range (state_times s) -> step w (save_state stack s w).1
| step_update_state {X} (m : PersistentState -> res (PersistentState * X)) w :
    keeps_range m -> step w (Storage.update_state stack m w).1
| step_update_with_inventories sources m w :
    keeps_range_with m -> step w (update_state_with_inventories stack sources m w).1
| step_write_feed feed body validator w : step w (write_last_good_feed feed body validator w).1
| step_read_feed feed validator w : step w (read_last_good_feed stack feed validator w).1
| step_read_confirmed_feed feed validator w : step w (read_confirmed_feed stack feed validator w).1
| step_save_snapshot s w :
    Forall in_range (response_times (RSnapshot s)) -> step w (save_snapshot stack s w).1
| step_load_snapshot w : step w (load_snapshot_ stack w).1
| step_save_inventory i w :
    Forall in_range (response_times (RInventory i)) -> step w (save_inventory stack i w).1
| step_load_inventory source w : step w (load_inventory_ stack source w).1
| step_load_generation w : step w (load_generation stack w).1
| step_commit b w :
    Forall in_range (bundle_times b) -> Forall in_range (state_times (g_state b)) ->
    step w (commit_generation stack b w).1
| step_other l b w : beside l -> step w (with_files <[l := b]> w).

Lemma keeps_commit b :
  Forall in_range (bundle_times b) -> Forall in_range (state_times (g_state b)) -> keeps (commit_generation stack b).
Proof using Hstack.
  intros Hb Hs w Ha Hw.
  assert (forall f, newest stack b (durable w) /\ published stack b f -> kept stack (durable w) f) as Hn.
  { intros f [Hn (Hsd & c & s & _ & Hg & _)]. split; [done|]. intros b0 H0%Hn. eexists. split; [exact Hg|]. simpl. lia. }
  eapply runs_mono; [exact (commit_generation_runs stack Hstack b w Ha Hw Hb Hs) | |]; cbv beta.
  - intros [] f H; [auto | apply kept_view; [done | apply H]].
  - intros f [H|H]; [by apply kept_view | auto].
Qed.

Lemma durable_other l b w : durable (with_files <[l:=b]> w) = <[l:=b]> (durable w) \/ durable (with_files <[l:=b]> w) = durable w.
Proof. destruct l; [left; by apply durable_insert.. | right; by apply durable_temp]. Qed.

Lemma keeps_save_state s : Forall in_range (state_times s) -> keeps (save_state stack s).
Proof using Hstack.
  intros Hs. unfold save_state. apply keeps_bind; [auto with keeps|]. intros _. apply keeps_lock.
  apply keeps_bind; [auto with keeps|]. intros _. by apply keeps_write_state.
Qed.

Lemma keeps_update_state {X} (m : PersistentState -> res (PersistentState * X)) :
  keeps_range m -> keeps (Storage.update_state stack m).
Proof using Hstack.
  intros Hm. apply keeps_lock, keeps_update; [done|]. intros l Hl w Ha Hw.
  apply runs_bind_lift; [|by apply kept_view]. intros [p x] Hp. revert w Ha Hw.
  apply keeps_bind; [|auto with keeps]. apply keeps_write_state; [done|]. by eapply Hm.
Qed.

Lemma keeps_update_with_inventories sources m :
  keeps_range_with m -> keeps (update_state_with_inventories stack sources m).
Proof using Hstack.
  intros Hm. apply keeps_lock, keeps_update; [done|]. intros l Hl.
  apply keeps_bind; [apply (changes_read_caches _ _ sources)|]. intros inventories.
  apply keeps_bind; [apply (changes_read_caches _ _ sources)|]. intros snapshot w Ha Hw.
  apply runs_bind_lift; [|by apply kept_view]. intros p Hp. revert w Ha Hw.
  apply keeps_bind; [|auto with keeps]. apply keeps_write_state; [done|]. by eapply Hm.
Qed.

Lemma step_kept w w' :
  step w w' -> answers w -> sound (durable w) -> kept stack (durable w) (durable w') /\ w_stats w' = w_stats w.
Proof using Hstack.
  intros H Ha Hw. destruct H; try (apply (changes_run stack answering); [|done..]).
  - apply keeps_lock. auto with keeps.
  - by apply keeps_save_state.
  - by apply keeps_update_state.
  - by apply keeps_update_with_inventories.
  - by apply (changes_feeds _ _).
  - by apply (changes_feeds _ _ feed []).
  - by apply (changes_feeds _ _ feed []).
  - apply keeps_lock, keeps_replace; [done..| |solve_keeps]. intros b. by apply snapshot_times_kept.
  - apply keeps_lock, (changes_read_caches _ _ []).
  - apply keeps_lock, keeps_replace; [done..| |solve_keeps]. intros b. by apply inventory_times_kept.
  - apply keeps_lock, (changes_read_caches _ _ []).
  - apply keeps_lock. auto with keeps.
  - by apply keeps_commit.
  - split; [|done]. destruct (durable_other l b w) as [-> | ->]; [|by apply (change_same _ _)]. apply kept_view; [done|].
    apply (beside_view stack l); [done|]. intros k Hk. by rewrite lookup_insert_ne.
Qed.

(** C6. However many operations follow, whatever they write, whichever of their calls that
    write, read, sync or lock fail and wherever they are killed: what was published is
    never lost, only replaced by what is at least as new, and the files stay sound. It
    relies on [stat] to answer; with one that fails, what was published can be lost
    ([StorageSpec.unanswered_commit]). *)
Theorem generation_never_lost w w' :
  answers w -> sound (durable w) -> rtc step w w' ->
  sound (durable w')
  /\ forall b, generation_in stack (durable w) = Some b ->
     exists b', generation_in stack (durable w') = Some b' /\ g_order b <= g_order b'.
Proof using Hstack.
  intros Ha Hw H. change (kept stack (durable w) (durable w')). induction H as [w|w v w' Hs _ IH]; [by apply (change_same _ _)|].
  destruct (step_kept _ _ Hs Ha Hw) as [Hk E]. eapply kept_trans; [exact Hk|]. apply IH; [by eapply same_answers | apply Hk].
Qed.
End Steps.

(** ** A published generation, then a kill *)

(** From now on the process dies at its [n]-th system call. *)
Definition dies_after (n : nat) (w : world) : world := {|
  w_files := w_files w; w_faults i := if (i <? w_calls w + n)%nat then Fine else Crashes; w_calls := w_calls w;
  w_clock := w_clock w; w_clock_range := w_clock_range w; w_readings := w_readings w; w_temps := w_temps w;
  w_stats := w_stats w; w_stated := w_stated w |}.

Lemma durable_dies n w : durable (dies_after n w) = durable w.
Proof. done. Qed.

Lemma published_sound : sound (Iso:=fun _ => None) 101 (durable published_world).
Proof.
  refine (proj1 (proj1 (changes_run (Iso:=fun _ => None) 101 _ _ _ _
    (keeps_commit (Iso:=fun _ => None) 101 eq_refl sample_bundle _ _) sample_answers sample_sound))).
  - repeat (constructor; [vm_compute; split; congruence|]). constructor.
  - apply sample_state_storable.
Qed.

Lemma generation_never_lost_witness :
  let w' := (save_state (Iso:=fun _ => None) 101 empty_state (dies_after 25 published_world)).1 in
  exists b', generation_in (Iso:=fun _ => None) 101 (durable w') = Some b' /\ g_order sample_bundle <= g_order b'.
Proof.
  intros w'. assert (g_order <$> generation_in (Iso:=fun _ => None) 101 (durable published_world)
    = Some (g_order sample_bundle)) as Hg by (vm_compute; reflexivity).
  destruct (generation_in _ (durable published_world)) as [b|] eqn:Hb; [|discriminate Hg].
  injection Hg as Hg.
  destruct (generation_never_lost (Iso:=fun _ => None) 101 eq_refl (dies_after 25 published_world) w') as [_ H].
  - intros i. vm_compute. reflexivity.
  - rewrite durable_dies. exact published_sound.
  - eapply rtc_once, step_save_state. constructor.
  - rewrite durable_dies in H. destruct (H b Hb) as (b' & H1 & H2). exists b'. split; [exact H1|]. rewrite Hg in H2. exact H2.
Defined.
