(* ===== verification/CacheSpec.v ===== *)
(** * What the caches promise

    Snapshots and inventories are read back as they were saved, from the generation or
    from their own files; a feed is given out only after its validator accepted it, and as
    confirmed only with the body and the validators of its last transfer. *)

From S2P Require Import Prelude PyStr Calendar Models Samples Json JsonText Utf8 Sha256 Wire Protocol RunnerTypes.
From S2P Require Import CacheMetadata StorageWatches StorageState StateFile ScanResolution Generation StorageIO Storage StorageSpec.

Open Scope Z_scope.

(** ** Lists with a key for each element *)

Section Find.
Context {A K : Type} `{!EqDecision K} (key : A -> K).

Definition at_key (k : K) (x : A) : bool := bool_decide (key x = k).

Lemma find_at_key_Some l k x : NoDup (key <$> l) -> List.find (at_key k) l = Some x <-> x ∈ l /\ key x = k.
Proof.
  unfold at_key. intros Hl. induction l as [|y l IH]; simpl; [set_solver|].
  apply NoDup_cons in Hl as [Hy Hl]. case_bool_decide as Hk.
  - split; [intros [= ->]; set_solver|]. intros [[->|Hx]%elem_of_cons Hx']; [done|].
    destruct Hy. apply list_elem_of_fmap. exists x. by rewrite Hk.
  - rewrite IH by done. set_solver.
Qed.

Lemma find_at_key_perm l l' k :
  l ≡ₚ l' -> NoDup (key <$> l) -> List.find (at_key k) l = List.find (at_key k) l'.
Proof.
  intros Hp Hl. assert (NoDup (key <$> l')) as Hl' by (by rewrite <-Hp). apply option_eq. intros x.
  rewrite !find_at_key_Some by done. by rewrite Hp.
Qed.

Lemma find_at_key_other l k k' :
  k <> k' -> List.find (at_key k) (List.filter (fun x => bool_decide (key x <> k')) l) = List.find (at_key k) l.
Proof.
  intros Hk. induction l as [|x l IH]; simpl; [done|]. case_bool_decide as H; simpl; rewrite IH; [done|].
  assert (at_key k x = false) as ->; [|done]. apply bool_decide_eq_false_2.
  destruct (decide (key x = k')); [congruence | done].
Qed.

End Find.

Section Caches.
Context `{Iso : IsoDialect} (stack : nat) (Hstack : MAX_JSON_DEPTH < Z.of_nat stack).

Abbreviation sound := (sound stack).
Abbreviation generation_in := (generation_in stack).
Abbreviation state_in := (state_in stack).
Abbreviation anything := (fun _ : disk => True).

(** ** Snapshots *)

Definition snapshot_in (f : disk) : option SnapshotResponse :=
  match generation_in f with
  | Some b => Some (g_snapshot b)
  | None =>
      raw ← f !! snapshot_path;
      match decode_response stack raw with Ok (RSnapshot s) => Some s | _ => None end
  end.

Lemma settled_snapshot f f' : settled stack f f' -> snapshot_in f' = snapshot_in f.
Proof.
  intros H. unfold snapshot_in. rewrite (proj1 (settled_view _ _ _ H)). by rewrite (settled_lookup _ _ _ _ H).
Qed.

Lemma load_snapshot_runs w :
  answers w -> generation_in (durable w) = None ->
  runs (load_snapshot stack) (fun r _ => r = snapshot_in (durable w)) anything w.
Proof.
  intros Ha Hg. unfold load_snapshot, snapshot_in. rewrite Hg. apply runs_bind_exists. intros b _ Hp. destruct b; cycle 1.
  { apply runs_ret. by rewrite durable_lookup, Hp. }
  apply runs_bind. eapply wp_mono; [apply (read_bytes_spec _ (stated w)) | | done]. intros raw w1 [Hw1 Hraw].
  change (w_files (stated w)) with (w_files w) in Hraw. rewrite <-durable_lookup in Hraw by done. rewrite Hraw. simpl.
  assert (forall x : option SnapshotResponse, None = x -> runs (_ ← _discard snapshot_path; ret None) (fun r _ => r = x) anything w1) as Hd.
  { intros x <-. apply runs_bind. by eapply wp_any; [apply discard_runs|..]. }
  destruct (decode_response stack raw) as [[]|[]]; auto; done.
Qed.

Lemma read_cached_snapshot_runs w :
  answers w -> runs (read_cached_snapshot stack) (fun r _ => r = snapshot_in (durable w)) anything w.
Proof.
  intros Ha. unfold read_cached_snapshot. eapply runs_bind_answers; [done | by apply load_generation_runs | | done]. cbv beta.
  intros g w1 Ha1 [-> H]. destruct (generation_in (durable w)) as [b|] eqn:Hg.
  - apply runs_ret. unfold snapshot_in. by rewrite Hg.
  - rewrite <-(settled_snapshot _ _ H). apply load_snapshot_runs; [done|]. by rewrite (proj1 (settled_view _ _ _ H)).
Qed.

Lemma wrote_generation_in b f f' :
  Forall in_range (bundle_times b) -> Forall in_range (state_times (g_state b)) -> wrote_generation b f f' ->
  valid_bundle b /\ exists c s, prune_ledger (g_state b) c = Ok s /\ generation_in f' = Some (with_state b s) /\ state_in f' = s.
Proof using Hstack.
  intros Hb Hs H. split.
  - destruct H as (c & raw & He & _). unfold encode_generation in He. apply bind_Ok in He as ([] & He & _).
    by apply validate_bundle_spec.
  - apply (wrote_generation_view stack Hstack) in H as (c & s & ? & ? & ? & _); [|done..]. eauto.
Qed.

(** The state is that of [f], pruned perhaps. *)
Definition same_state (f f' : disk) : Prop :=
  state_in f' = state_in f \/ exists c, prune_ledger (state_in f) c = Ok (state_in f').

Lemma save_cached_snapshot_runs s w :
  answers w -> sound (durable w) -> Forall in_range (response_times (RSnapshot s)) ->
  runs (save_cached_snapshot stack s)
    (fun _ f => snapshot_in f = Some s /\ same_state (durable w) f) anything w.
Proof using Hstack.
  intros Ha Hw Hs. unfold save_cached_snapshot. apply runs_bind.
  eapply wp_mono; [by apply load_generation_runs | | done]. cbv beta. intros g w1 [-> H%settled_view].
  destruct (generation_in (durable w)) as [b|] eqn:Hg.
  - destruct (sound_generation stack _ _ Hw Hg) as [Hbt Hbs].
    eapply runs_mono; [apply write_generation_runs | | done]. cbv beta. intros _ f Hf.
    apply wrote_generation_in in Hf as (_ & c & s' & Hp & Hf & Hst); [|by apply snapshot_times_kept | done].
    unfold snapshot_in. rewrite Hf. split; [done|]. right. exists c. rewrite Hst. unfold StorageSpec.state_in. by rewrite Hg.
  - apply runs_bind_lift; [|done]. intros raw Hraw.
    eapply runs_mono; [by apply atomic_write_runs | | done]. cbv beta. intros _ f ->.
    assert (generation_in (<[snapshot_path:=raw]> (durable w1)) = None) as Hn.
    { unfold StorageSpec.generation_in. rewrite lookup_insert_ne by done. destruct H as [H _]. by rewrite Hg in H. }
    split.
    + unfold snapshot_in. rewrite Hn, lookup_insert_eq. simpl. by rewrite (response_bytes_inverse stack _ _ Hs Hstack Hraw).
    + left. destruct H as [H1 H2]. rewrite <-H2. unfold StorageSpec.state_in. rewrite Hn, H1, Hg. by rewrite lookup_insert_ne.
Qed.

(** A snapshot that was saved is the one that is loaded next, whatever was cached before;
    the state stays as it was. *)
Lemma save_snapshot_runs s w :
  answers w -> sound (durable w) -> Forall in_range (response_times (RSnapshot s)) ->
  runs (save_snapshot stack s) (fun _ f => snapshot_in f = Some s /\ same_state (durable w) f) anything w.
Proof using Hstack.
  intros Ha Hw Hs. apply runs_lock; [done | done |]. intros w' Hw' E. apply (same_answers _ _ E) in Ha.
  rewrite <-Hw' in *. by apply save_cached_snapshot_runs.
Qed.

Lemma runs_result {A} (m : M A) Q R w w' a : runs m Q R w -> m w = (w', Ok a) -> Q a (durable w').
Proof. intros H E. by destruct (wp_result _ _ _ _ _ _ H E). Qed.

(** A snapshot that was saved is the one that is loaded next, whatever was cached
    before; the state is left as it was. *)
Theorem saved_snapshot_loads s w w1 w2 r :
  answers w -> sound (durable w) -> Forall in_range (response_times (RSnapshot s)) ->
  save_snapshot stack s w = (w1, Ok tt) -> load_snapshot_ stack w1 = (w2, Ok r) ->
  r = Some s /\ same_state (durable w) (durable w1).
Proof using Hstack.
  intros Ha Hw Hs H1 H2. destruct (wp_result _ _ _ _ _ _ (save_snapshot_runs s w Ha Hw Hs) H1) as [Es [E Hst]].
  apply (same_answers _ _ Es) in Ha. split; [|done]. rewrite <-E.
  refine (runs_result _ (fun r _ => r = snapshot_in (durable w1)) anything _ _ _ _ H2).
  apply runs_lock; [done | done |]. intros w' <- Es'. apply read_cached_snapshot_runs. by eapply same_answers.
Qed.

(** ** Inventories *)

Definition inventory_in (f : disk) (source : ItemSource) : option InventoryResponse :=
  match generation_in f with
  | Some b => List.find (at_key source_of source) (g_inventories b)
  | None =>
      raw ← f !! inventory_path source;
      match decode_response stack raw with
      | Ok (RInventory i) => if bool_decide (source_of i = source) then Some i else None
      | _ => None
      end
  end.

Lemma settled_inventory f f' source : settled stack f f' -> inventory_in f' source = inventory_in f source.
Proof.
  intros H. unfold inventory_in. rewrite (proj1 (settled_view _ _ _ H)).
  rewrite (settled_lookup _ _ _ (inventory_path source) H); [done|]. by destruct source.
Qed.

Lemma load_inventory_runs source w :
  answers w -> generation_in (durable w) = None ->
  runs (load_inventory stack source) (fun r _ => r = inventory_in (durable w) source) anything w.
Proof.
  intros Ha Hg. unfold load_inventory, inventory_in. rewrite Hg. apply runs_bind_exists. intros b _ Hp. destruct b; cycle 1.
  { apply runs_ret. by rewrite durable_lookup, Hp. }
  apply runs_bind. eapply wp_mono; [apply (read_bytes_spec _ (stated w)) | | done]. intros raw w1 [Hw1 Hraw].
  change (w_files (stated w)) with (w_files w) in Hraw. rewrite <-durable_lookup in Hraw by done. rewrite Hraw. simpl.
  assert (forall x : option InventoryResponse, None = x ->
            runs (_ ← _discard (inventory_path source); ret None) (fun r _ => r = x) anything w1) as Hd.
  { intros x <-. apply runs_bind. by eapply wp_any; [apply discard_runs|..]. }
  destruct (decode_response stack raw) as [[|i| |]|[]]; auto; try done.
  change (inv_source (inv_payload i)) with (source_of i). case_bool_decide; [done | auto].
Qed.

Lemma read_cached_inventory_runs source w :
  answers w -> runs (read_cached_inventory stack source) (fun r _ => r = inventory_in (durable w) source) anything w.
Proof.
  intros Ha. unfold read_cached_inventory. eapply runs_bind_answers; [done | by apply load_generation_runs | | done]. cbv beta.
  intros g w1 Ha1 [-> H]. destruct (generation_in (durable w)) as [b|] eqn:Hg.
  - apply runs_ret. unfold inventory_in. by rewrite Hg.
  - rewrite <-(settled_inventory _ _ _ H). apply load_inventory_runs; [done|]. by rewrite (proj1 (settled_view _ _ _ H)).
Qed.

(** The sources of the inventories of a bundle are distinct, so that their order is of no
    interest to who looks one up. *)
Lemma find_replaced l i source :
  NoDup (source_of <$> replace_inventory l i) ->
  List.find (at_key source_of source) (replace_inventory l i)
  = if bool_decide (source_of i = source) then Some i else List.find (at_key source_of source) l.
Proof.
  intros Hl. pose proof (sorted_by_Permutation (fun x y => str_leb (value (source_of x)) (value (source_of y)))
    (List.filter (fun x => bool_decide (source_of x <> source_of i)) l ++ [i])) as Hp.
  change (replace_inventory l i ≡ₚ List.filter (fun x => bool_decide (source_of x <> source_of i)) l ++ [i]) in Hp.
  rewrite (find_at_key_perm source_of _ _ source Hp Hl). case_bool_decide as Hi.
  - apply find_at_key_Some; [by rewrite <-Hp|]. set_solver.
  - rewrite find_app, find_at_key_other by done. destruct (List.find _ l); [done|]. simpl.
    unfold at_key. by rewrite bool_decide_eq_false_2.
Qed.

Lemma save_cached_inventory_runs i w :
  answers w -> sound (durable w) -> Forall in_range (response_times (RInventory i)) ->
  runs (save_cached_inventory stack i)
    (fun _ f => (forall source, inventory_in f source
                   = if bool_decide (source_of i = source) then Some i else inventory_in (durable w) source)
                /\ same_state (durable w) f) anything w.
Proof using Hstack.
  intros Ha Hw Hi. unfold save_cached_inventory. apply runs_bind.
  eapply wp_mono; [by apply load_generation_runs | | done]. cbv beta. intros g w1 [-> Hset].
  pose proof (settled_view _ _ _ Hset) as H.
  destruct (generation_in (durable w)) as [b|] eqn:Hg.
  - destruct (sound_generation stack _ _ Hw Hg) as [Hbt Hbs].
    eapply runs_mono; [apply write_generation_runs | | done]. cbv beta. intros _ f Hf.
    apply wrote_generation_in in Hf as (Hb & c & s' & Hp & Hf & Hst); [|by apply inventory_times_kept | done].
    split.
    + intros source. unfold inventory_in. rewrite Hf, Hg. by apply find_replaced, (vb_distinct _ Hb).
    + right. exists c. rewrite Hst. unfold StorageSpec.state_in. by rewrite Hg.
  - apply runs_bind_lift; [|done]. intros raw Hraw.
    eapply runs_mono; [by apply atomic_write_runs | | done]. cbv beta. intros _ f ->.
    assert (generation_in (<[inventory_path (source_of i):=raw]> (durable w1)) = None) as Hn.
    { unfold StorageSpec.generation_in. rewrite lookup_insert_ne by (by destruct (source_of i)).
      destruct H as [H _]. by rewrite Hg in H. }
    split.
    + intros source. rewrite <-(settled_inventory _ _ source Hset). unfold inventory_in. rewrite Hn.
      rewrite (proj1 H), Hg. case_bool_decide as Hs.
      * rewrite Hs, lookup_insert_eq. simpl. rewrite (response_bytes_inverse stack _ _ Hi Hstack Hraw).
        by rewrite bool_decide_eq_true_2.
      * rewrite lookup_insert_ne; [done|]. intros E. apply Hs. by destruct (source_of i), source.
    + left. destruct H as [H1 H2]. rewrite <-H2. unfold StorageSpec.state_in. rewrite Hn, H1, Hg.
      rewrite lookup_insert_ne; [done|]. by destruct (source_of i).
Qed.

(** An inventory that was saved is the one that is loaded next for its source; what is
    loaded for the other sources, and the state, are left as they were. *)
Theorem saved_inventory_loads i source w w1 w2 r :
  answers w -> sound (durable w) -> Forall in_range (response_times (RInventory i)) ->
  save_inventory stack i w = (w1, Ok tt) -> load_inventory_ stack source w1 = (w2, Ok r) ->
  r = (if bool_decide (source_of i = source) then Some i else inventory_in (durable w) source)
  /\ same_state (durable w) (durable w1).
Proof using Hstack.
  intros Ha Hw Hi H1 H2.
  assert (runs (save_inventory stack i)
    (fun _ f => (forall source, inventory_in f source
                   = if bool_decide (source_of i = source) then Some i else inventory_in (durable w) source)
                /\ same_state (durable w) f) anything w) as Hr.
  { apply runs_lock; [done | done |]. intros w' Hw' E. apply (same_answers _ _ E) in Ha.
    rewrite <-Hw' in *. by apply save_cached_inventory_runs. }
  destruct (wp_result _ _ _ _ _ _ Hr H1) as [Es [E Hst]]. apply (same_answers _ _ Es) in Ha. split; [|done]. rewrite <-E.
  refine (runs_result _ (fun r _ => r = inventory_in (durable w1) source) anything _ _ _ _ H2).
  apply runs_lock; [done | done |]. intros w' <- Es'. apply read_cached_inventory_runs. by eapply same_answers.
Qed.
(** ** Feeds *)

(** The bytes of a feed that are JSON and that its validator accepts. *)
Definition is_feed (validator : bytes -> bool) (raw : bytes) : bool :=
  is_ok (text ← Utf8.decode raw; decode_json stack text) && validator raw.

Definition feed_in (f : disk) (feed : FeedName) (validator : bytes -> bool) : option bytes :=
  raw ← f !! semantic_feed_path feed; if is_feed validator raw then Some raw else None.

(** A file that is no feed may be removed, nothing else changes. *)
Definition feed_settled (feed : FeedName) (validator : bytes -> bool) (f f' : disk) : Prop :=
  f' = f \/ feed_in f feed validator = None /\ f' = delete (semantic_feed_path feed) f.

Lemma read_feed_runs feed validator w :
  runs (read_last_good_feed_locked stack feed validator)
    (fun r f => (r = feed_in (durable w) feed validator \/ r = None /\ ~ answers w)
                /\ feed_settled feed validator (durable w) f)
    (feed_settled feed validator (durable w)) w.
Proof.
  unfold read_last_good_feed_locked. cbv zeta. apply runs_bind_exists. intros b _ Hp. destruct b; cycle 1.
  { apply runs_ret. split; [|by left]. unfold feed_in. rewrite durable_lookup by (by destruct feed).
    destruct (w_files w !! semantic_feed_path feed) eqn:E; [|by left]. right. split; [done|].
    intros Ha. by discriminate (Hp Ha eq_refl). }
  clear Hp. apply runs_bind. eapply wp_mono; [apply (read_bytes_spec _ (stated w)) | |]; cbv beta.
  2:{ intros e w1 [_ ->]. by left. }
  intros raw w1 [Hw1 Hraw]. change (durable (stated w)) with (durable w) in Hw1.
  change (w_files (stated w)) with (w_files w) in Hraw. rewrite <-durable_lookup in Hraw by (by destruct feed).
  assert (is_feed validator raw = false ->
          runs (_ ← _discard (semantic_feed_path feed); ret None)
            (fun r f => (r = feed_in (durable w) feed validator \/ r = None /\ ~ answers w)
                        /\ feed_settled feed validator (durable w) f)
            (feed_settled feed validator (durable w)) w1) as Hd.
  { intros Hn. assert (feed_in (durable w) feed validator = None) as E.
    { unfold feed_in. rewrite Hraw. simpl. by rewrite Hn. }
    apply runs_bind. eapply wp_mono; [apply discard_runs | |]; cbv beta; rewrite Hw1.
    - intros [] w2 H2. apply runs_ret. rewrite H2, E. split; [by left | by right].
    - intros e w2 [-> | ->]; [by left | by right]. }
  unfold is_feed in Hd. destruct (text ← Utf8.decode raw; decode_json stack text) as [v|e] eqn:Ej.
  - destruct (validator raw) eqn:Ev; [|by apply Hd]. apply runs_ret. split; [left|rewrite Hw1; by left].
    unfold feed_in, is_feed. rewrite Hraw. simpl. by rewrite Ej, Ev.
  - destruct e; try (by apply Hd); (apply runs_lift; [by intros | rewrite Hw1; by left]).
Qed.

(** A metadata file longer than its bound is read up to one byte past it, and refused. *)
Lemma parse_bounded_metadata m body v :
  parse_cache_metadata (take (Z.to_nat (_MAX_METADATA_BYTES + 1)) m) body = Some v -> parse_cache_metadata m body = Some v.
Proof.
  intros H. destruct (decide (length m <= Z.to_nat (_MAX_METADATA_BYTES + 1))%nat) as [Hm|Hm]; [by rewrite take_ge in H|].
  exfalso. unfold parse_cache_metadata in H.
  assert ((_MAX_METADATA_BYTES <? len (take (Z.to_nat (_MAX_METADATA_BYTES + 1)) m)) = true) as E.
  { apply Z.ltb_lt. unfold len, _MAX_METADATA_BYTES in *. rewrite length_take. lia. }
  by rewrite E in H.
Qed.

(** The body of the last transfer and the validators that came with it are there. *)
Definition confirmed (f : disk) (feed : FeedName) (raw : bytes) : Prop :=
  let cache := transport_endpoint_cache feed in
  f !! body_path cache = Some raw
  /\ exists metadata validators, f !! metadata_path cache = Some metadata
       /\ parse_cache_metadata metadata raw = Some validators.

Lemma read_validators_runs cache body w :
  lasting (metadata_path cache) = true ->
  wp (read_cache_validators cache body)
    (fun r w' => durable w' = durable w /\ forall v, r = Some v ->
       exists metadata, durable w !! metadata_path cache = Some metadata /\ parse_cache_metadata metadata body = Some v)
    (fun e w' => os_or_kill e /\ durable w' = durable w) w.
Proof.
  intros Hl. unfold read_cache_validators. apply wp_catch, wp_bind, wp_quiet; [apply quiet_sys | |].
  - intros [] w1 Hw1. apply wp_bind. eapply wp_mono; [apply read_bytes_spec | |]; cbv beta.
    + intros m w2 [Hw2 Hm]. apply wp_ret. split; [congruence|]. intros v Hv%parse_bounded_metadata.
      exists m. split; [|done]. by rewrite <-Hw1, durable_lookup.
    + intros e w2 [He Hw2]. destruct (is_oserror e); [|split; [done | congruence]]. apply wp_ret. by split; [congruence|].
  - intros e w1 He Hw1. destruct (is_oserror e); [|by split]. apply wp_ret. by split.
Qed.

Lemma read_confirmed_runs feed validator w :
  runs (read_confirmed_feed stack feed validator)
    (fun r f => forall raw, r = Some raw ->
       feed_in (durable w) feed validator = Some raw /\ confirmed (durable w) feed raw /\ f = durable w)
    anything w.
Proof.
  apply runs_lock; [done | done |]. intros w0 Hw0 _. rewrite <-Hw0. clear Hw0 w. apply runs_bind.
  eapply wp_mono; [apply read_feed_runs | | done]. cbv beta. intros r w1 [[->|[-> _]] H1]; [|by apply runs_ret].
  destruct (feed_in (durable w0) feed validator) as [semantic|] eqn:Hf; [|by apply runs_ret].
  assert (durable w1 = durable w0) as Hw1 by (destruct H1 as [|[? _]]; congruence).
  cbv zeta. apply runs_bind, wp_catch, wp_bind. eapply wp_mono; [apply read_bytes_spec | |]; cbv beta.
  2:{ intros e w2 _. destruct (is_oserror e); [|done]. by apply wp_ret, runs_ret. }
  intros transport w2 [Hw2 Ht]. apply wp_ret. rewrite <-durable_lookup in Ht by (by destruct feed).
  apply runs_bind. eapply wp_mono; [by apply read_validators_runs | | done]. cbv beta. intros validators w3 [Hw3 Hv].
  destruct validators as [v|]; [|by apply runs_ret]. cbn [is_some negb orb].
  case_bool_decide as E; [|by apply runs_ret]. destruct (validator transport); [|by apply runs_ret].
  apply runs_ret. intros raw [= ->]. subst transport. rewrite Hw1 in Ht, Hw2. rewrite Hw2 in Hw3, Hv.
  split_and!; [done | | done]. split; [done|]. destruct (Hv v eq_refl) as (m & Hm & Hp). by exists m, v.
Qed.

(** A feed is called confirmed only if its bytes are JSON its validator accepts, equal
    byte for byte to the body of the last transfer, and that body is the one the stored
    validators were written for; reading it changes no file. *)
Theorem confirmed_feed_sound feed validator w w' raw :
  read_confirmed_feed stack feed validator w = (w', Ok (Some raw)) ->
  is_feed validator raw = true
  /\ durable w !! semantic_feed_path feed = Some raw
  /\ confirmed (durable w) feed raw /\ durable w' = durable w.
Proof.
  intros H. destruct (runs_result _ _ _ _ _ _ (read_confirmed_runs feed validator w) H raw eq_refl) as (Hf & Hc & Hw).
  unfold feed_in in Hf. destruct (durable w !! semantic_feed_path feed) as [raw'|]; [|done]. simpl in Hf.
  destruct (is_feed validator raw') eqn:E; [|done]. by injection Hf as ->.
Qed.

Lemma write_feed_runs feed body validator w :
  runs (write_last_good_feed feed body validator)
    (fun r f => r = validator body /\ f = if validator body then <[semantic_feed_path feed := body]> (durable w) else durable w)
    (fun f => f = durable w \/ validator body = true /\ f = <[semantic_feed_path feed := body]> (durable w)) w.
Proof.
  apply runs_lock; [by left | intros r f [_ ->]; destruct (validator body); auto |]. intros w1 <- _.
  unfold write_last_good_feed_locked. destruct (validator body) eqn:Ev; [|by apply runs_ret].
  apply runs_bind. eapply wp_mono; [apply atomic_write_runs; by destruct feed | |]; cbv beta.
  - intros [] w2 H2. by apply runs_ret.
  - intros e w2 [H|H]; auto.
Qed.

(** The last good bytes of a feed are replaced only by bytes its validator accepts,
    whole, whatever fails; a refused body changes nothing; and what is read next, if
    [stat] answers, is what was written. *)
Theorem feed_write_guarded feed body validator w :
  let path := semantic_feed_path feed in
  let '(w', r) := write_last_good_feed feed body validator w in
  durable w' = (if bool_decide (durable w' !! path = durable w !! path) then durable w
                else <[path := body]> (durable w))
  /\ (durable w' !! path <> durable w !! path -> validator body = true)
  /\ (forall stored, r = Ok stored ->
        stored = validator body
        /\ (stored = true -> is_feed validator body = true ->
            forall w2 read, answers w -> read_last_good_feed stack feed validator w' = (w2, Ok read) -> read = Some body)).
Proof.
  cbv zeta. pose proof (write_feed_runs feed body validator w) as H. unfold runs, wp in H.
  destruct (write_last_good_feed feed body validator w) as [w' r]. set (path := semantic_feed_path feed) in *.
  assert (durable w' = durable w \/ validator body = true /\ durable w' = <[path:=body]> (durable w)) as Hd.
  { destruct r as [b|e]; [|apply H]. destruct H as [_ [-> ->]]. destruct (validator body); auto. }
  split_and!.
  - destruct Hd as [->|[_ ->]]; [by rewrite bool_decide_eq_true_2|]. case_bool_decide as E; [|done].
    rewrite lookup_insert_eq in E. by apply insert_id.
  - intros Hne. destruct Hd as [Hd|[Hv _]]; [|done]. by rewrite Hd in Hne.
  - intros b ->. destruct H as [Es [-> Hw]]. split; [done|]. intros Hv Hf w2 read Ha Hr. rewrite Hv in Hw.
    assert (runs (read_last_good_feed stack feed validator)
              (fun r _ => r = feed_in (durable w') feed validator) anything w') as Hrun.
    { apply runs_lock; [done | done |]. intros w1 <- Es'. eapply runs_mono; [apply read_feed_runs | | done].
      intros ? ? [[->|[_ []]] _]; [done|]. unfold answers. by rewrite Es', Es. }
    pose proof (runs_result _ _ _ _ _ _ Hrun Hr) as ->. unfold feed_in. fold path.
    rewrite Hw, lookup_insert_eq. simpl. by rewrite Hf.
Qed.
End Caches.

(** ** Concrete caches *)

Lemma sample_snapshot_times : Forall in_range (response_times (RSnapshot sample_snapshot)).
Proof. repeat (constructor; [vm_compute; split; congruence|]). constructor. Qed.

Lemma saved_snapshot_loads_witness :
  let w1 := (save_snapshot (Iso:=fun _ => None) 101 sample_snapshot sample_world).1 in
  exists r, (load_snapshot_ (Iso:=fun _ => None) 101 w1).2 = Ok r /\ r = Some sample_snapshot.
Proof.
  intros w1. assert (is_ok (save_snapshot (Iso:=fun _ => None) 101 sample_snapshot sample_world).2 = true
    /\ is_ok (load_snapshot_ (Iso:=fun _ => None) 101 w1).2 = true) as [E1 E2] by (split; vm_compute; reflexivity).
  subst w1. destruct (save_snapshot _ _ _) as [w1 [[]|]] eqn:H1; [|discriminate E1]. cbn [fst] in *.
  destruct (load_snapshot_ _ w1) as [w2 [r|]] eqn:H2; [|discriminate E2].
  exists r. split; [reflexivity|].
  exact (proj1 (saved_snapshot_loads (Iso:=fun _ => None) 101 eq_refl _ _ _ _ _ sample_answers sample_sound sample_snapshot_times H1 H2)).
Defined.

Lemma saved_inventory_loads_witness :
  let w1 := (save_inventory (Iso:=fun _ => None) 101 sample_inventory sample_world).1 in
  exists r, (load_inventory_ (Iso:=fun _ => None) 101 (source_of sample_inventory) w1).2 = Ok r
    /\ r = Some sample_inventory.
Proof.
  intros w1. assert (is_ok (save_inventory (Iso:=fun _ => None) 101 sample_inventory sample_world).2 = true
    /\ is_ok (load_inventory_ (Iso:=fun _ => None) 101 (source_of sample_inventory) w1).2 = true) as [E1 E2]
    by (split; vm_compute; reflexivity).
  subst w1. destruct (save_inventory _ _ _) as [w1 [[]|]] eqn:H1; [|discriminate E1]. cbn [fst] in *.
  destruct (load_inventory_ _ _ w1) as [w2 [r|]] eqn:H2; [|discriminate E2].
  exists r. split; [reflexivity|].
  refine (proj1 (saved_inventory_loads (Iso:=fun _ => None) 101 eq_refl _ _ _ _ _ _ sample_answers sample_sound _ H1 H2)).
  repeat (constructor; [vm_compute; split; congruence|]). constructor.
Defined.

(** A feed, the body of its transfer and the metadata written for it. *)
Definition feed_world : world :=
  let cache := transport_endpoint_cache FEED_CISA_KEV in
  with_files (fun f =>
    <[semantic_feed_path FEED_CISA_KEV := lit "{}"]> (<[body_path cache := lit "{}"]>
      (<[metadata_path cache := match serialize_cache_metadata (lit "{}") (Some (lit "v1")) None with
                                | Ok m => m | Err _ => [] end]> f))) sample_world.

Lemma confirmed_feed_sound_witness :
  exists w', read_confirmed_feed 101 FEED_CISA_KEV (fun _ => true) feed_world = (w', Ok (Some (lit "{}")))
    /\ confirmed (durable feed_world) FEED_CISA_KEV (lit "{}").
Proof.
  assert ((read_confirmed_feed 101 FEED_CISA_KEV (fun _ => true) feed_world).2
    = Ok (Some (lit "{}"))) as E by (vm_compute; reflexivity).
  destruct (read_confirmed_feed _ _ _ _) as [w' r] eqn:H. cbn [snd] in E. subst r. exists w'. split; [reflexivity|].
  apply (confirmed_feed_sound 101 _ _ _ _ _ H).
Defined.
