(* ===== verification/ConditionalSecurity.v ===== *)
(** * Security conditions of watches

    [conditional_security_policy.py]: a temporary watch may carry the advisory it waits
    for; once a live scan offers a version that [vercmp] puts at or after the fixed one,
    the watch is worth a notification. *)

From S2P Require Import Prelude PyStr Calendar Models Json Utf8 Sha256 RunnerTypes Arch StorageWatches Stars.

Open Scope Z_scope.

Definition _TITLE : str := lit "Security fix update available".
Definition _MAX_TEXT : nat := 256.

Record ConditionalSecurityCandidate := { cs_candidate : NotificationCandidate; cs_finding_id : str }.

Definition _matching_finding (snapshot : SnapshotResponse) (w : WatchRecord) (c : SecurityFixCondition)
    : option SecurityFinding :=
  List.find (fun f => bool_decide (finding_item_id f = w_item_id w)
                      && bool_decide (advisory_id f = cond_advisory_id c)
                      && bool_decide (fixed_version f = Some (cond_fixed_version c))
                      && bool_decide (list_to_set (cve_ids f) =@{gset str} list_to_set (cond_cve_ids c)))
    (List.filter (fun g => bool_decide (group_item_id g = w_item_id w)) (findings (snap_payload snapshot))
       ≫= group_findings).

Definition conditional_security_owned_findings (s : PersistentState) (snapshot : SnapshotResponse) : gset str :=
  list_to_set (omap (fun w => c ← w_condition w; finding_id <$> _matching_finding snapshot w c)
                 (List.filter (fun w => bool_decide (w_mode w = TEMPORARY)) (st_watches s))).

Definition _live (p : Provenance) : bool :=
  match p with LIVE => true | CACHE | FALLBACK | LAST_GOOD => false end.

(** [observed_at <= now <= fresh_until] *)
Definition _fresh_status (h : SourceHealth) (now : datetime) : res bool :=
  match sh_status h with
  | SS_OK =>
      observed ← dt_cmp Z.leb (sh_observed_at h) now;
      if observed : bool then dt_cmp Z.leb now (sh_fresh_until h) else Ok false
  | SS_NOT_APPLICABLE | SS_MISSING_DEPENDENCY | SS_OFFLINE | SS_TIMEOUT | SS_ERROR | SS_INVALID | SS_STALE =>
      Ok false
  end.

Definition health_of (snapshot : SnapshotResponse) (source : SourceName) : option SourceHealth :=
  List.find (fun h => bool_decide (sh_source h = source)) (sources (snap_payload snapshot)).

Definition _fresh_source (snapshot : SnapshotResponse) (source : SourceName) (now : datetime) : res bool :=
  match health_of snapshot source with
  | None => Ok false
  | Some h => if _live (sh_provenance h) then _fresh_status h now else Ok false
  end.

Definition _notifiable (s minimum : Severity) : bool :=
  match s with
  | SEV_CRITICAL => true
  | SEV_HIGH => bool_decide (minimum <> SEV_CRITICAL)
  | SEV_UNKNOWN | SEV_LOW | SEV_MEDIUM => false
  end.

Definition _change (ledger : list LedgerEntry) (fingerprint reference : str) : NotificationChange :=
  match List.find (fun e => bool_decide (e_fingerprint e = fingerprint)) ledger with
  | Some _ => UNCHANGED
  | None => if existsb (fun e => startswith (e_fingerprint e) reference) ledger then NEW else FIRST
  end.

Definition _digest (values : list str) : res str :=
  raw ← Utf8.encode (join [0%N] values); Ok (hexdigest raw).

(** The text is cut after it was escaped. *)
Definition _text (v : str) : str := take _MAX_TEXT (escape_html false v).

Definition _notification (ledger : list LedgerEntry) (w : WatchRecord) (c : SecurityFixCondition) (candidate : str)
    : res NotificationCandidate :=
  let reference := lit "security-condition-v1:" ++ w_item_id w ++ lit ":" ++ cond_advisory_id c ++ lit ":" in
  digest ← _digest (cond_fixed_version c :: candidate :: cond_cve_ids c);
  let fingerprint := reference ++ digest in
  Ok {| c_fingerprint := fingerprint; c_reference := reference; c_kind := NK_SECURITY_CONDITION;
        c_change := _change ledger fingerprint reference; c_title := _TITLE;
        c_body := lit "Security condition for " ++ _text (w_item_id w) ++ lit ": " ++ _text (cond_advisory_id c)
                  ++ lit " (" ++ _text (join (lit ", ") (cond_cve_ids c)) ++ lit "); installable candidate "
                  ++ _text candidate ++ lit "; fixed version " ++ _text (cond_fixed_version c) ++ lit "." |}.

(** The live update of a watched Arch package. *)
Definition live_item (snapshot : SnapshotResponse) (w : WatchRecord) : option NormalizedItem :=
  List.find (fun i => bool_decide (item_id i = w_item_id w) && bool_decide (item_source i = IS_ARCH)
                      && is_some (candidate i) && _live (item_provenance i))
    (items (snap_payload snapshot)).

Definition _candidate (s : PersistentState) (snapshot : SnapshotResponse) (w : WatchRecord) (c : SecurityFixCondition)
    (settings : NotificationSettings) (run : CommandRunner) : res (option ConditionalSecurityCandidate) :=
  if bool_decide (w_mode w <> TEMPORARY) then Ok None
  else
    match i ← live_item snapshot w; candidate i with
    | None => Ok None
    | Some v =>
        match _matching_finding snapshot w c with
        | None => Ok None
        | Some f =>
            if bool_decide (finding_status f <> AS_FIXED) || negb (_live (finding_provenance f))
               || negb (_notifiable (severity f) (security_minimum_severity settings))
            then Ok None
            else
              match compare_versions run v (cond_fixed_version c) with
              | Ok sign =>
                  if 0 <=? sign
                  then n ← _notification (st_ledger s) w c v;
                       Ok (Some {| cs_candidate := n; cs_finding_id := finding_id f |})
                  else Ok None
              | Err _ => Ok None
              end
        end
    end.

(** The candidate of a watch that has a condition. *)
Definition watch_condition (s : PersistentState) (snapshot : SnapshotResponse) (settings : NotificationSettings)
    (run : CommandRunner) (w : WatchRecord) : res (option ConditionalSecurityCandidate) :=
  match w_condition w with
  | None => Ok None
  | Some c => _candidate s snapshot w c settings run
  end.

Definition conditional_security_candidates (s : PersistentState) (snapshot : SnapshotResponse) (now : datetime)
    (settings : NotificationSettings) (run : CommandRunner) : res (list ConditionalSecurityCandidate) :=
  if negb (notify_security settings) then Ok []
  else
    arch ← _fresh_source snapshot SN_ARCH now;
    fresh ← (if arch : bool then _fresh_source snapshot SN_SECURITY now else Ok false);
    if fresh : bool then filter_mapM (watch_condition s snapshot settings run) (st_watches s) else Ok [].
