(* ===== verification/NotificationPolicy.v ===== *)
(** * Which notifications a scan is worth

    [notification_policy.py]: watched items with an update, fixed vulnerabilities of
    installed packages, and the conditions of [ConditionalSecurity]. A candidate is
    identified by its fingerprint, whose prefix, the reference, stands for what it is about. *)

From S2P Require Import Prelude PyStr Regex Calendar Models Samples Json Validation Utf8 Sha256 RunnerTypes Arch StorageWatches StorageState.
From S2P Require Import Stars StateStore NotificationBatch ConditionalSecurity.

Open Scope Z_scope.

Definition _MAX_TEXT : nat := 256.
Definition _WATCH_TITLE : str := lit "Watched update available".
Definition _SECURITY_TITLE : str := lit "Security update available".

Definition _entry (s : PersistentState) (fingerprint : str) : option LedgerEntry :=
  List.find (fun e => bool_decide (e_fingerprint e = fingerprint)) (st_ledger s).

Definition _change (s : PersistentState) (fingerprint reference : str) : NotificationChange :=
  match _entry s fingerprint with
  | Some _ => UNCHANGED
  | None => if existsb (fun e => startswith (e_fingerprint e) reference) (st_ledger s) then NEW else FIRST
  end.

Definition _digest (parts : list str) : res str :=
  raw ← Utf8.encode (join [0%N] parts); Ok (hexdigest raw).

(** The text is cut before it is escaped. *)
Definition _text (v : str) : str :=
  escape_html true (take _MAX_TEXT ((fun c => if (c =? 0)%N then 63%N else c) <$> v)).

Definition _current_provenance (p : Provenance) : bool :=
  match p with LIVE | CACHE | FALLBACK => true | LAST_GOOD => false end.

Definition _source_name (source : ItemSource) : SourceName :=
  match source with
  | IS_OMARCHY => SN_OMARCHY
  | IS_ARCH => SN_ARCH
  | IS_AUR => SN_AUR
  | IS_FLATPAK => SN_FLATPAK
  | IS_MISE => SN_MISE
  end.

(** [observed_at <= now <= fresh_until] *)
Definition _fresh_status (h : SourceHealth) (now : datetime) : res bool :=
  match sh_status h with
  | SS_OK =>
      observed ← dt_cmp Z.leb (sh_observed_at h) now;
      if observed : bool then dt_cmp Z.leb now (sh_fresh_until h) else Ok false
  | SS_NOT_APPLICABLE | SS_MISSING_DEPENDENCY | SS_OFFLINE | SS_TIMEOUT | SS_ERROR | SS_INVALID | SS_STALE =>
      Ok false
  end.

Definition _fresh_source (snapshot : SnapshotResponse) (source : SourceName) (now : datetime) : res bool :=
  match health_of snapshot source with
  | None => Ok false
  | Some h => if _current_provenance (sh_provenance h) then _fresh_status h now else Ok false
  end.

Definition _fresh_item (snapshot : SnapshotResponse) (source : ItemSource) (p : Provenance) (now : datetime) : res bool :=
  if _current_provenance p then _fresh_source snapshot (_source_name source) now else Ok false.

Definition _fixed (status : ArchStatus) : bool :=
  match status with AS_FIXED => true | AS_UNKNOWN | AS_VULNERABLE | AS_TESTING | AS_NOT_AFFECTED => false end.

Definition _notifiable_severity (s minimum : Severity) : bool :=
  match s with
  | SEV_CRITICAL => true
  | SEV_HIGH => bool_decide (minimum <> SEV_CRITICAL)
  | SEV_UNKNOWN | SEV_LOW | SEV_MEDIUM => false
  end.

Definition _eligible_security (f : SecurityFinding) (minimum : Severity) : bool :=
  startswith (finding_item_id f) (lit "arch:") && _current_provenance (finding_provenance f)
  && _fixed (finding_status f) && _notifiable_severity (severity f) minimum.

(** ** Candidates *)

(** What is said of a watched item that has an update. *)
Definition watch_candidate (s : PersistentState) (i : NormalizedItem) (v installed_fp candidate_fp : str)
    : NotificationCandidate :=
  let fingerprint := watch_notification_reference (item_id i) candidate_fp (Some installed_fp) in
  let reference := lit "watch-v1:" ++ item_id i ++ lit ":" in
  {| c_fingerprint := fingerprint; c_reference := reference; c_kind := NK_WATCH;
     c_change := _change s fingerprint reference; c_title := _WATCH_TITLE;
     c_body := lit "Watched item " ++ _text (label i) ++ lit " has update " ++ _text v ++ lit " available." |}.

Definition permanent_ids (s : PersistentState) : gset str :=
  list_to_set (w_item_id <$> List.filter (fun w => bool_decide (w_mode w = PERMANENT)) (st_watches s)).

(** The candidate of one item, if it is worth one. *)
Definition item_candidate (s : PersistentState) (snapshot : SnapshotResponse) (now : datetime) (i : NormalizedItem)
    : res (option NotificationCandidate) :=
  if bool_decide (item_id i ∉ permanent_ids s) then Ok None
  else
    match candidate i, installed_fingerprint i, candidate_fingerprint i with
    | Some v, Some inst, Some cand =>
        fresh ← _fresh_item snapshot (item_source i) (item_provenance i) now;
        Ok (if fresh : bool then Some (watch_candidate s i v inst cand) else None)
    | _, _, _ => Ok None
    end.

Definition _watch_candidates (s : PersistentState) (snapshot : SnapshotResponse) (now : datetime)
    (settings : NotificationSettings) : res (list NotificationCandidate) :=
  if negb (notify_permanent settings) then Ok []
  else filter_mapM (item_candidate s snapshot now) (items (snap_payload snapshot)).

(** What is said of a fixed vulnerability; [h] and [d] are the digests of what it is about
    and of what is new. *)
Definition security_candidate (s : PersistentState) (f : SecurityFinding) (fixed h d : str) : NotificationCandidate :=
  let reference := lit "security-v1:" ++ h ++ lit ":" in
  let fingerprint := reference ++ d in
  {| c_fingerprint := fingerprint; c_reference := reference; c_kind := NK_SECURITY;
     c_change := _change s fingerprint reference; c_title := _SECURITY_TITLE;
     c_body := lit "Security update for " ++ _text (finding_item_id f) ++ lit ": " ++ _text (advisory_id f)
               ++ lit " is fixed in " ++ _text fixed ++ lit " (" ++ value (severity f) ++ lit ")." |}.

Definition finding_candidate (s : PersistentState) (settings : NotificationSettings) (owned : gset str)
    (f : SecurityFinding) : res (option NotificationCandidate) :=
  match fixed_version f with
  | Some fixed =>
      if bool_decide (finding_id f ∈ owned) || negb (_eligible_security f (security_minimum_severity settings))
      then Ok None
      else
        reference_hash ← _digest [lit "security"; finding_item_id f; advisory_id f];
        digest ← _digest (fixed :: value (severity f) :: sorted_by_key (fun x => x) (cve_ids f));
        Ok (Some (security_candidate s f fixed reference_hash digest))
  | None => Ok None
  end.

Definition _security_candidates (s : PersistentState) (snapshot : SnapshotResponse) (now : datetime)
    (settings : NotificationSettings) (owned : gset str) : res (list NotificationCandidate) :=
  if negb (notify_security settings) then Ok []
  else
    fresh ← _fresh_source snapshot SN_SECURITY now;
    if fresh : bool
    then filter_mapM (finding_candidate s settings owned) (findings (snap_payload snapshot) ≫= group_findings)
    else Ok [].

Definition notification_candidates (s : PersistentState) (snapshot : SnapshotResponse) (now : datetime)
    (settings : NotificationSettings) (run : CommandRunner) : res (list NotificationCandidate) :=
  conditional ← conditional_security_candidates s snapshot now settings run;
  let owned := conditional_security_owned_findings s snapshot in
  watched ← _watch_candidates s snapshot now settings;
  security ← _security_candidates s snapshot now settings owned;
  Ok (sorted_by_tuple (fun c => [value (c_kind c); c_fingerprint c])
        (watched ++ security ++ (cs_candidate <$> conditional))).

(** ** What is worth a notification *)

Section Worthy.
Context (s : PersistentState) (snapshot : SnapshotResponse) (now : datetime) (settings : NotificationSettings)
  (run : CommandRunner).

(** The source is well and was observed within the period it is good for. *)
Definition fresh (p : Provenance -> bool) (source : SourceName) : Prop :=
  exists h, health_of snapshot source = Some h /\ p (sh_provenance h) = true /\ sh_status h = SS_OK
    /\ dt_utc (sh_observed_at h) = dt_utc now /\ dt_us (sh_observed_at h) <= dt_us now
    /\ dt_utc (sh_fresh_until h) = dt_utc now /\ dt_us now <= dt_us (sh_fresh_until h).

(** Only high and critical findings are, the high ones not if critical ones are asked for. *)
Definition severe (x : Severity) : Prop :=
  x = SEV_CRITICAL \/ x = SEV_HIGH /\ security_minimum_severity settings <> SEV_CRITICAL.

Inductive worthy : NotificationCandidate -> Prop :=
| worthy_watch i v inst cand :
    notify_permanent settings = true -> i ∈ items (snap_payload snapshot) ->
    (exists w, w ∈ st_watches s /\ w_mode w = PERMANENT /\ w_item_id w = item_id i) ->
    candidate i = Some v -> installed_fingerprint i = Some inst -> candidate_fingerprint i = Some cand ->
    item_provenance i <> LAST_GOOD -> fresh _current_provenance (_source_name (item_source i)) ->
    worthy (watch_candidate s i v inst cand)
| worthy_finding g f fixed h d :
    notify_security settings = true -> fresh _current_provenance SN_SECURITY ->
    g ∈ findings (snap_payload snapshot) -> f ∈ group_findings g ->
    finding_id f ∉ conditional_security_owned_findings s snapshot ->
    fixed_version f = Some fixed -> finding_status f = AS_FIXED -> finding_provenance f <> LAST_GOOD ->
    startswith (finding_item_id f) (lit "arch:") = true -> severe (severity f) ->
    _digest [lit "security"; finding_item_id f; advisory_id f] = Ok h ->
    _digest (fixed :: value (severity f) :: sorted_by_key (fun x => x) (cve_ids f)) = Ok d ->
    worthy (security_candidate s f fixed h d)
| worthy_condition w c i v f sign n :
    notify_security settings = true -> fresh _live SN_ARCH -> fresh _live SN_SECURITY ->
    w ∈ st_watches s -> w_mode w = TEMPORARY -> w_condition w = Some c ->
    live_item snapshot w = Some i -> candidate i = Some v ->
    _matching_finding snapshot w c = Some f -> finding_status f = AS_FIXED -> finding_provenance f = LIVE ->
    severe (severity f) -> compare_versions run v (cond_fixed_version c) = Ok sign -> 0 <= sign ->
    _notification (st_ledger s) w c v = Ok n -> worthy n.

Lemma fresh_status_spec h :
  _fresh_status h now = Ok true <->
  sh_status h = SS_OK /\ dt_utc (sh_observed_at h) = dt_utc now /\ dt_us (sh_observed_at h) <= dt_us now
  /\ dt_utc (sh_fresh_until h) = dt_utc now /\ dt_us now <= dt_us (sh_fresh_until h).
Proof.
  unfold _fresh_status, dt_cmp. destruct (sh_status h); try (split; [done | by intros [? _]]).
  destruct (Bool.eqb_spec (dt_utc (sh_observed_at h)) (dt_utc now)) as [E1|E1]; simpl; [|split; [done | naive_solver]].
  destruct (Z.leb_spec (dt_us (sh_observed_at h)) (dt_us now)) as [Ho|Ho].
  2:{ split; [done | intros (_ & _ & ? & _); lia]. }
  destruct (Bool.eqb_spec (dt_utc now) (dt_utc (sh_fresh_until h))) as [E2|E2]; [|split; [done | naive_solver]].
  split.
  - intros [= Hu%Z.leb_le]. by split_and!.
  - intros (_ & _ & _ & _ & Hu). f_equal. by apply Z.leb_le.
Qed.

Lemma fresh_spec (p : Provenance -> bool) source :
  (match health_of snapshot source with
   | None => Ok false
   | Some h => if p (sh_provenance h) then _fresh_status h now else Ok false
   end : res bool) = Ok true <-> fresh p source.
Proof.
  unfold fresh. destruct (health_of snapshot source) as [h|]; [|split; [done | by intros (h & [=] & _)]].
  destruct (p (sh_provenance h)) eqn:E; [rewrite fresh_status_spec; split|split; [done|]].
  - intros H. by exists h.
  - intros (h' & [= <-] & _ & H). done.
  - intros (h' & [= <-] & H & _). congruence.
Qed.

Lemma fresh_live_spec source : ConditionalSecurity._fresh_source snapshot source now = Ok true <-> fresh _live source.
Proof. apply (fresh_spec _live). Qed.

Lemma fresh_current_spec source : _fresh_source snapshot source now = Ok true <-> fresh _current_provenance source.
Proof. apply (fresh_spec _current_provenance). Qed.

Lemma severe_spec x : _notifiable_severity x (security_minimum_severity settings) = true <-> severe x.
Proof. unfold severe. destruct x; simpl; rewrite ?bool_decide_eq_true; naive_solver. Qed.

Lemma current_spec p : _current_provenance p = true <-> p <> LAST_GOOD.
Proof. by destruct p. Qed.

Lemma permanent_ids_spec id :
  id ∈ permanent_ids s <-> exists w, w ∈ st_watches s /\ w_mode w = PERMANENT /\ w_item_id w = id.
Proof.
  unfold permanent_ids. rewrite elem_of_list_to_set, list_elem_of_fmap. setoid_rewrite elem_of_filter_bool.
  setoid_rewrite bool_decide_eq_true. naive_solver.
Qed.

Lemma guarded_Ok {A} (m : res bool) (k : res (list A)) l :
  ((b ← m; if b : bool then k else Ok []) = Ok l) <-> m = Ok true /\ k = Ok l \/ m = Ok false /\ l = [].
Proof. destruct m as [[]|]; simpl; naive_solver. Qed.

Lemma watch_candidates_spec l c :
  _watch_candidates s snapshot now settings = Ok l -> c ∈ l <->
  exists i v inst cand, c = watch_candidate s i v inst cand /\
    notify_permanent settings = true /\ i ∈ items (snap_payload snapshot) /\
    (exists w, w ∈ st_watches s /\ w_mode w = PERMANENT /\ w_item_id w = item_id i) /\
    candidate i = Some v /\ installed_fingerprint i = Some inst /\ candidate_fingerprint i = Some cand /\
    item_provenance i <> LAST_GOOD /\ fresh _current_provenance (_source_name (item_source i)).
Proof.
  unfold _watch_candidates. destruct (notify_permanent settings); simpl.
  2:{ intros [= <-]. split; [set_solver | by intros (? & ? & ? & ? & _ & ? & _)]. }
  intros H. rewrite (elem_of_filter_mapM _ _ _ c H). unfold item_candidate, _fresh_item.
  setoid_rewrite <-permanent_ids_spec. setoid_rewrite <-fresh_current_spec. setoid_rewrite <-current_spec. split.
  - intros (i & Hi & E). case_bool_decide as Hw; [done|].
    destruct (candidate i) as [v|] eqn:Ev; [|done]. destruct (installed_fingerprint i) as [inst|] eqn:Einst; [|done].
    destruct (candidate_fingerprint i) as [cand|] eqn:Ec; [|done].
    destruct (_current_provenance _) eqn:Ep; [|done].
    apply bind_Ok in E as ([] & Ef & [= <-]). exists i, v, inst, cand. by split_and!.
  - intros (i & v & inst & cand & -> & _ & Hi & Hw & Ev & Einst & Ec & Ep & Ef). exists i. split; [done|].
    rewrite bool_decide_eq_false_2 by (by intros ?). by rewrite Ev, Einst, Ec, Ep, Ef.
Qed.

Lemma security_candidates_spec l c :
  _security_candidates s snapshot now settings (conditional_security_owned_findings s snapshot) = Ok l -> c ∈ l <->
  exists g f fixed h d, c = security_candidate s f fixed h d /\
    notify_security settings = true /\ fresh _current_provenance SN_SECURITY /\
    g ∈ findings (snap_payload snapshot) /\ f ∈ group_findings g /\
    (finding_id f ∉ conditional_security_owned_findings s snapshot) /\
    fixed_version f = Some fixed /\ finding_status f = AS_FIXED /\ finding_provenance f <> LAST_GOOD /\
    startswith (finding_item_id f) (lit "arch:") = true /\ severe (severity f) /\
    _digest [lit "security"; finding_item_id f; advisory_id f] = Ok h /\
    _digest (fixed :: value (severity f) :: sorted_by_key (fun x => x) (cve_ids f)) = Ok d.
Proof.
  unfold _security_candidates. destruct (notify_security settings); cbn [negb].
  2:{ intros [= <-]. split; [set_solver | by intros (? & ? & ? & ? & ? & _ & ? & _)]. }
  rewrite guarded_Ok. setoid_rewrite <-fresh_current_spec. intros [[Hf H]|[Hf ->]].
  2:{ split; [set_solver | rewrite Hf; by intros (? & ? & ? & ? & ? & _ & _ & [=] & _)]. }
  rewrite (elem_of_filter_mapM _ _ _ c H). unfold finding_candidate, _eligible_security.
  setoid_rewrite <-current_spec. setoid_rewrite <-severe_spec. split.
  - intros (f & (g & Hfg & Hg)%list_elem_of_bind & E). destruct (fixed_version f) as [fixed|] eqn:Ev; [|done].
    case_bool_decide as Ho; [done|]. destruct (startswith _ _) eqn:E1; [|done].
    destruct (_current_provenance _) eqn:E2; [|done]. destruct (_fixed _) eqn:E3; [|done].
    destruct (_notifiable_severity _ _) eqn:E4; [|done]. cbn [andb negb orb] in E.
    apply bind_Ok in E as (h & Hh & (d & Hd & [= <-])%bind_Ok).
    exists g, f, fixed, h, d. split_and!; auto. by destruct (finding_status f).
  - intros (g & f & fixed & h & d & -> & _ & _ & Hg & Hfg & Ho & Ev & E3 & E2 & E1 & E4 & Hh & Hd). exists f.
    split; [apply list_elem_of_bind; eauto|]. rewrite Ev, E1, E2, E3, E4, bool_decide_eq_false_2 by done.
    cbn [_fixed andb negb orb].
    rewrite Hh. cbn [mbind outcome_bind]. by rewrite Hd.
Qed.

Lemma condition_candidates_spec l c :
  conditional_security_candidates s snapshot now settings run = Ok l -> c ∈ cs_candidate <$> l <->
  exists w cnd i v f sign,
    notify_security settings = true /\ fresh _live SN_ARCH /\ fresh _live SN_SECURITY /\
    w ∈ st_watches s /\ w_mode w = TEMPORARY /\ w_condition w = Some cnd /\
    live_item snapshot w = Some i /\ candidate i = Some v /\
    _matching_finding snapshot w cnd = Some f /\ finding_status f = AS_FIXED /\ finding_provenance f = LIVE /\
    severe (severity f) /\ compare_versions run v (cond_fixed_version cnd) = Ok sign /\ 0 <= sign /\
    _notification (st_ledger s) w cnd v = Ok c.
Proof.
  unfold conditional_security_candidates. destruct (notify_security settings); cbn [negb].
  2:{ intros [= <-]. split; [set_solver | by intros (? & ? & ? & ? & ? & ? & ? & _)]. }
  intros (arch & Ha & H)%bind_Ok. apply guarded_Ok in H. setoid_rewrite <-fresh_live_spec.
  destruct arch; [|destruct H as [[? _]|[_ ->]]; [done|]].
  2:{ split; [set_solver | rewrite Ha; by intros (? & ? & ? & ? & ? & ? & _ & [=] & _)]. }
  destruct H as [[Hf H]|[Hf ->]].
  2:{ split; [set_solver | rewrite Hf; by intros (? & ? & ? & ? & ? & ? & _ & _ & [=] & _)]. }
  rewrite list_elem_of_fmap. setoid_rewrite (elem_of_filter_mapM _ _ _ _ H). unfold watch_condition, _candidate.
  setoid_rewrite <-severe_spec. split.
  - intros (n & -> & w & Hw & E). destruct (w_condition w) as [cnd|] eqn:Ecnd; [|done].
    case_bool_decide as Em; [done|].
    destruct (live_item snapshot w) as [i|] eqn:Ei; [|done]. cbn [mbind option_bind] in E.
    destruct (candidate i) as [v|] eqn:Ev; [|done]. destruct (_matching_finding _ _ _) as [f|] eqn:Ef; [|done].
    case_bool_decide as Es; [done|]. destruct (_live _) eqn:El; [|done].
    destruct (_notifiable _ _) eqn:En; [|done]. cbn [negb orb] in E.
    destruct (compare_versions _ _ _) as [sign|] eqn:Ecmp; [|done]. destruct (Z.leb_spec 0 sign); [|done].
    apply bind_Ok in E as (n' & Hn & [= <-]). exists w, cnd, i, v, f, sign. split_and!; auto. by destruct (finding_provenance f).
  - intros (w & cnd & i & v & f & sign & _ & _ & _ & Hw & Em & Ecnd & Ei & Ev & Ef & Es & El & Esev & Ecmp & Hs & Hn).
    exists {| cs_candidate := c; cs_finding_id := finding_id f |}. split; [done|]. exists w. split; [done|].
    rewrite Ecnd, Em, Ei. simpl. rewrite Ev, Ef, Es, El. cbn [_live negb orb]. rewrite bool_decide_eq_false_2 by (by intros ?).
    change (_notifiable (severity f)) with (_notifiable_severity (severity f)).
    rewrite Esev. cbn [negb orb]. rewrite Ecmp. destruct (Z.leb_spec 0 sign); [|lia]. by rewrite Hn.
Qed.

Lemma elem_of_candidates l c :
  notification_candidates s snapshot now settings run = Ok l -> c ∈ l <-> worthy c.
Proof.
  unfold notification_candidates. intros (cs & Hc & (ws & Hw & (fs & Hf & [= <-])%bind_Ok)%bind_Ok)%bind_Ok.
  unfold sorted_by_tuple. rewrite elem_of_sorted_by, !elem_of_app.
  rewrite (watch_candidates_spec _ _ Hw), (security_candidates_spec _ _ Hf), (condition_candidates_spec _ _ Hc). split.
  - intros [(i & v & inst & cand & -> & H)|[(g & f & fixed & h & d & -> & H)|(w & cnd & i & v & f & sign & H)]];
      destruct_and! H; [by econstructor | by eapply worthy_finding | by eapply worthy_condition].
  - destruct 1 as [i v inst cand|g f fixed h d|w cnd i v f sign n]; [left | right; left | right; right].
    + exists i, v, inst, cand. by split_and!.
    + exists g, f, fixed, h, d. by split_and!.
    + exists w, cnd, i, v, f, sign. by split_and!.
Qed.

(** C20. The candidates are exactly what is worth a notification: the updates of permanent
    watches from sources that are well and fresh; the fixes of severe vulnerabilities, but
    for those a condition waits for; and the conditions that are met by a live scan. They
    are in the order of their kinds and fingerprints. *)
Theorem candidates_exact l :
  notification_candidates s snapshot now settings run = Ok l ->
  (forall c, c ∈ l <-> worthy c)
  /\ StronglySorted (fun a b => tuple_leb [value (c_kind a); c_fingerprint a] [value (c_kind b); c_fingerprint b] = true) l.
Proof.
  intros H. split; [intros c; by apply elem_of_candidates|].
  apply bind_Ok in H as (cs & _ & (ws & _ & (fs & _ & [= <-])%bind_Ok)%bind_Ok). apply sorted_by_tuple_sorted.
Qed.
End Worthy.

(** ** What the notifications say *)

(** No character that ends an argument, none that opens or closes markup. *)
Definition clean (v : str) : bool := forallb (fun c => negb ((c =? 0) || (c =? 60) || (c =? 62))%N) v.

Lemma clean_app u v : clean (u ++ v) = clean u && clean v.
Proof. apply forallb_app. Qed.

Lemma clean_spec v : clean v = true <-> (forall c, c ∈ v -> c <> 0 /\ c <> 60 /\ c <> 62)%N.
Proof.
  unfold clean. rewrite forallb_forall. split; intros H c Hc.
  - apply list_elem_of_In in Hc. specialize (H c Hc).
    destruct (N.eqb_spec c 0), (N.eqb_spec c 60), (N.eqb_spec c 62); try done.
  - apply list_elem_of_In in Hc. destruct (H c Hc) as (? & ? & ?).
    destruct (N.eqb_spec c 0), (N.eqb_spec c 60), (N.eqb_spec c 62); done.
Qed.

Lemma clean_escape quote v : 0%N ∉ v -> clean (escape_html quote v) = true.
Proof.
  intros Hv. apply clean_spec. intros c [(Hc & H1 & H2)|Hc]%escape_html_elem.
  - split_and!; [|done|done]. by intros ->.
  - assert (clean (lit "&amp;&lt;&gt;&quot;&#x27;") = true) as Hl by reflexivity. rewrite clean_spec in Hl. by apply Hl.
Qed.

Lemma clean_no_nul v : clean v = true -> existsb (N.eqb 0) v = false.
Proof.
  intros H. apply not_true_is_false. intros (c & Hc & E)%existsb_exists. apply N.eqb_eq in E as <-.
  rewrite clean_spec in H. destruct (H 0%N) as [? _]; [by apply list_elem_of_In | done].
Qed.

Lemma clean_take n v : clean v = true -> clean (take n v) = true.
Proof. rewrite <-(take_drop n v) at 1. rewrite clean_app. by intros [? _]%andb_true_iff. Qed.

Lemma text_clean v : clean (_text v) = true.
Proof.
  apply clean_escape. intros (i & Hi & _)%elem_of_take. apply list_elem_of_lookup_2, list_elem_of_fmap in Hi as (c & E & _).
  by destruct (N.eqb_spec c 0).
Qed.

Lemma text_length v : len (_text v) <= 6 * len v /\ len (_text v) <= 1536.
Proof.
  unfold _text, len. pose proof (escape_html_length true (take _MAX_TEXT ((fun c => if (c =? 0)%N then 63%N else c) <$> v))) as H.
  rewrite length_take, length_fmap in H. unfold _MAX_TEXT in *. lia.
Qed.

Lemma condition_text_clean v : 0%N ∉ v -> clean (ConditionalSecurity._text v) = true.
Proof. intros. by apply clean_take, clean_escape. Qed.

Lemma condition_text_length v : len (ConditionalSecurity._text v) <= 256.
Proof. unfold ConditionalSecurity._text, len. rewrite length_take. unfold ConditionalSecurity._MAX_TEXT. lia. Qed.

(** The text of a condition is cut after it is escaped, that of other notices before: the
    first may end in the middle of an entity. *)
Lemma text_cut_in_entity :
  ConditionalSecurity._text (replicate 52 38%N) = mjoin (replicate 51 (lit "&amp;")) ++ lit "&"
  /\ _text (replicate 52 38%N) = mjoin (replicate 52 (lit "&amp;")).
Proof. split; vm_compute; reflexivity. Qed.

Lemma severity_text (x : Severity) : clean (value x) = true /\ len (value x) <= 8.
Proof. by destruct x. Qed.

(** The length of a concatenation with literals in it. *)
Ltac lengths :=
  unfold len in *; rewrite ?length_app;
  repeat match goal with
         | |- context [length (lit ?x)] =>
             let n := eval vm_compute in (length (lit x)) in change (length (lit x)) with n
         end;
  lia.

(** A title and a body [notify-send] is given as they are. *)
Definition printable_notice (c : NotificationCandidate) : Prop :=
  clean (c_title c) = true /\ len (c_title c) <= 64 /\ clean (c_body c) = true /\ len (c_body c) <= 3900.

Lemma watch_printable s i v inst cand : printable_notice (watch_candidate s i v inst cand).
Proof.
  split_and!; try done; cbn [c_body watch_candidate].
  - by rewrite !clean_app, !text_clean.
  - pose proof (text_length (label i)). pose proof (text_length v). lengths.
Qed.

Lemma security_printable s f fixed h d :
  len (advisory_id f) <= 128 -> printable_notice (security_candidate s f fixed h d).
Proof.
  intros Ha. split_and!; try done; cbn [c_body security_candidate].
  - by rewrite !clean_app, !text_clean, (proj1 (severity_text _)).
  - pose proof (text_length (finding_item_id f)). pose proof (text_length (advisory_id f)).
    pose proof (text_length fixed). pose proof (proj2 (severity_text (severity f))). lengths.
Qed.

Lemma item_id_clean id : matches _ARCH_ITEM_ID id -> 0%N ∉ id.
Proof. apply avoids_spec. vm_compute. reflexivity. Qed.

Lemma advisory_clean id : matches _ADVISORY_ID id -> 0%N ∉ id.
Proof. apply avoids_spec. vm_compute. reflexivity. Qed.

Lemma cves_clean l : Forall (matches _CVE_ID) l -> 0%N ∉ join (lit ", ") l.
Proof.
  intros H. assert (forall x, matches _CVE_ID x -> 0%N ∉ x) as Hx.
  { intros x. apply avoids_spec. vm_compute. reflexivity. }
  induction H as [|x l H1 Hl IH]; [set_solver|]. specialize (Hx x H1). destruct l as [|y l]; [done|].
  change (0%N ∉ x ++ lit ", " ++ join (lit ", ") (y :: l)). rewrite !elem_of_app.
  intros [?|[Hc|?]]; [by apply Hx | vm_compute in Hc; set_solver | by apply IH].
Qed.

Lemma version_clean v : ascii_printable v = true -> 0%N ∉ v.
Proof. unfold ascii_printable. rewrite forallb_forall. intros H Hc%list_elem_of_In%H. discriminate Hc. Qed.

(** The command runner starts no [vercmp] with arguments its policy forbids. *)
Definition refuses (run : CommandRunner) : Prop :=
  forall l, arguments_allowed VERSION_PAIR l = false -> exists diagnostic, run VERCMP l = CommandRejected diagnostic.

Lemma compared_clean run v w sign : refuses run -> compare_versions run v w = Ok sign -> 0%N ∉ v.
Proof.
  unfold compare_versions. intros Hr H. destruct (arguments_allowed VERSION_PAIR [v; w]) eqn:E.
  - simpl in E. destruct (existsb (N.eqb 0) v) eqn:Ev; [discriminate E|]. intros Hv.
    apply not_true_iff_false in Ev. apply Ev, existsb_exists. exists 0%N. split; [by apply list_elem_of_In | done].
  - destruct (Hr _ E) as [d Hd]. by rewrite Hd in H.
Qed.

Lemma condition_printable ledger w c v n :
  valid_watch w -> w_condition w = Some c -> 0%N ∉ v -> _notification ledger w c v = Ok n -> printable_notice n.
Proof.
  intros Hw Hc Hv (d & _ & <-%Ok_inj)%bind_Ok. inversion Hw as [|? ? ? ? Hcond]; subst; [done|]. simpl in Hc. subst.
  destruct (Hcond c eq_refl) as [Hid [Ha _ _ Hcs _ Hp]].
  split_and!; try done; cbn [c_body w_item_id].
  - by rewrite !clean_app, !condition_text_clean by auto using item_id_clean, advisory_clean, cves_clean, version_clean.
  - pose proof (condition_text_length id). pose proof (condition_text_length (cond_advisory_id c)).
    pose proof (condition_text_length (join (lit ", ") (cond_cve_ids c))). pose proof (condition_text_length v).
    pose proof (condition_text_length (cond_fixed_version c)). lengths.
Qed.

Section Candidates.
Context (s : PersistentState) (snapshot : SnapshotResponse) (now : datetime) (settings : NotificationSettings)
  (run : CommandRunner).

(** Whatever the scan reported, the title and the body of a candidate can be given to
    [notify-send] as they are: no zero byte, no character that opens or closes markup, and
    short enough for the policy of the command. *)
Lemma candidates_printable l :
  valid_snapshot (snap_payload snapshot) -> Forall valid_watch (st_watches s) -> refuses run ->
  notification_candidates s snapshot now settings run = Ok l ->
  Forall (fun c => printable_notice c /\ arguments_allowed NOTIFICATION_TEXT [c_title c; c_body c] = true) l.
Proof.
  intros Hs Hw Hr H. rewrite Forall_forall. intros c Hc.
  assert (printable_notice c) as Hn; [|split; [done|]].
  - apply (elem_of_candidates _ _ _ _ _ _ _ H) in Hc.
    destruct Hc as [i v inst cand|g f fixed h d _ _ Hg Hf|w cnd i v f sign n _ _ _ Hin _ Hcnd _ _ _ _ _ _ Hcmp _ Hn].
    + apply watch_printable.
    + apply security_printable. pose proof (vp_findings _ Hs) as Hv. rewrite Forall_forall in Hv.
      pose proof (vg_findings _ _ (Hv g Hg)) as Hv'. rewrite Forall_forall in Hv'. destruct (Hv' f Hf) as [_ <- [[_ Hl] _] _ _ _].
      exact Hl.
    + rewrite Forall_forall in Hw. eapply condition_printable; [by apply Hw | done | | exact Hn].
      by eapply compared_clean.
  - destruct Hn as (H1 & H2 & H3 & H4). simpl. rewrite !clean_no_nul by done.
    destruct (Z.leb_spec (len (c_title c)) 4096), (Z.leb_spec (len (c_body c)) 4096); try done; lia.
Qed.

(** What the ledger knows of a candidate. *)
Definition classified (c : NotificationCandidate) : Prop :=
  match c_change c with
  | UNCHANGED => exists e, e ∈ st_ledger s /\ e_fingerprint e = c_fingerprint c
  | NEW => (forall e, e ∈ st_ledger s -> e_fingerprint e <> c_fingerprint c)
           /\ exists e, e ∈ st_ledger s /\ startswith (e_fingerprint e) (c_reference c) = true
  | FIRST => forall e, e ∈ st_ledger s -> startswith (e_fingerprint e) (c_reference c) = false
  end.

Lemma change_classified fp reference k t b :
  startswith fp reference = true ->
  classified {| c_fingerprint := fp; c_reference := reference; c_kind := k; c_change := _change s fp reference;
                c_title := t; c_body := b |}.
Proof.
  intros Hp. unfold classified. cbn [c_change c_fingerprint c_reference]. unfold _change, _entry.
  destruct (List.find _ _) as [e|] eqn:Ef.
  { apply find_Some in Ef as [He E%bool_decide_eq_true]. by exists e. }
  assert (forall e, e ∈ st_ledger s -> e_fingerprint e <> fp) as Hn.
  { intros e He%list_elem_of_In E. pose proof (List.find_none _ _ Ef e He) as Hx. cbv beta in Hx. by rewrite bool_decide_eq_true_2 in Hx. }
  destruct (existsb _ _) eqn:Ex.
  - split; [done|]. apply existsb_exists in Ex as (e & He%list_elem_of_In & E). eauto.
  - intros e He%list_elem_of_In. apply not_true_is_false. intros E. apply not_true_iff_false in Ex. apply Ex, existsb_exists. eauto.
Qed.

(** The owner entries begin with an [n], no candidate does. *)
Lemma proper_reference (p q : str) r k t b : (110 =? List.hd 0 p)%N = false -> p <> [] ->
  proper_candidate {| c_fingerprint := p ++ q; c_reference := p; c_kind := r; c_change := k; c_title := t; c_body := b |}.
Proof.
  destruct p as [|c p]; [done|]. cbn [List.hd]. intros Hc _. split; intros kind; cbn [c_fingerprint c_reference].
  - intros E. assert (List.hd 0%N ((c :: p) ++ q) = 110%N) as Eh by (by rewrite E). cbn in Eh. subst. discriminate Hc.
  - change (_owner_fingerprint kind) with (110%N :: tail (_owner_fingerprint kind)). cbn [startswith].
    rewrite N.eqb_sym in Hc. by rewrite Hc.
Qed.

(** C21. A candidate has an identity of its own: its fingerprint begins with its reference,
    neither is that of the entry that owns the deliveries of a kind (so that leases on
    candidates and on kinds are never confused), and its change says what the ledger
    knows of it. *)
Theorem candidates_identified l :
  notification_candidates s snapshot now settings run = Ok l ->
  Forall (fun c => proper_candidate c /\ startswith (c_fingerprint c) (c_reference c) = true /\ classified c) l.
Proof.
  intros H. rewrite Forall_forall. intros c Hc%(elem_of_candidates _ _ _ _ _ _ _ H).
  destruct Hc as [i v inst cand|g f fixed h d|w cnd i v f sign n _ _ _ _ _ _ _ _ _ _ _ _ _ _ (d & _ & <-%Ok_inj)%bind_Ok].
  - assert (c_fingerprint (watch_candidate s i v inst cand)
      = (lit "watch-v1:" ++ item_id i ++ lit ":") ++ inst ++ lit ":" ++ cand) as E.
    { cbn [c_fingerprint watch_candidate watch_notification_reference]. by rewrite <-!app_assoc. }
    split_and!; [| |apply change_classified]; unfold watch_candidate in *; cbn [c_fingerprint c_reference] in *.
    + rewrite E. by apply proper_reference.
    + rewrite E. apply startswith_app.
    + rewrite E. apply startswith_app.
  - split_and!; [by apply proper_reference | apply startswith_app | apply change_classified, startswith_app].
  - split_and!; [by apply proper_reference | apply startswith_app | apply change_classified, startswith_app].
Qed.
End Candidates.

(** ** Concrete candidates *)

(** A permanent watch of [sample_item], which has an update and a fix. *)
Definition permanent_state : PersistentState := {|
  st_watches := [{| w_item_id := lit "arch:openssl"; w_mode := PERMANENT; w_installed_fingerprint := None;
                    w_candidate_fingerprint := None; w_armed := false; w_condition := None |}];
  st_ledger := []; st_sources := [];
|}.

(** A temporary one that waits for the fix. *)
Definition waiting_state : PersistentState := {|
  st_watches := [{| w_item_id := lit "arch:openssl"; w_mode := TEMPORARY;
                    w_installed_fingerprint := Some (lit "arch:3.0.1-1"); w_candidate_fingerprint := None;
                    w_armed := false;
                    w_condition := Some {| cond_advisory_id := lit "AVG-2765"; cond_cve_ids := [lit "CVE-2022-0778"];
                                           cond_fixed_version := lit "3.0.2-1" |} |}];
  st_ledger := []; st_sources := [];
|}.

(** A [vercmp] that says "not before" to any two versions it is given. *)
Definition sample_vercmp : CommandRunner := fun _ l =>
  if arguments_allowed VERSION_PAIR l then CommandSucceeded (lit "0" ++ [10%N]) [] else CommandRejected [].

Lemma candidates_exact_witness :
  exists l, notification_candidates permanent_state sample_snapshot sample_now default_notification_settings sample_vercmp = Ok l
    /\ length l = 2%nat
    /\ forall c, c ∈ l <-> worthy permanent_state sample_snapshot sample_now default_notification_settings sample_vercmp c.
Proof.
  destruct (notification_candidates permanent_state sample_snapshot sample_now default_notification_settings sample_vercmp)
    as [l|e] eqn:E; [|vm_compute in E; discriminate E].
  exists l. split; [reflexivity|]. split.
  - assert (length <$> notification_candidates permanent_state sample_snapshot sample_now default_notification_settings
      sample_vercmp = Ok 2%nat) as El by (vm_compute; reflexivity). rewrite E in El. by injection El.
  - apply (candidates_exact _ _ _ _ _ _ E).
Defined.

Lemma sample_snapshot_valid : valid_snapshot (snap_payload sample_snapshot).
Proof. refine (proj2 (proj2 (proj1 (validate_response_spec (RSnapshot sample_snapshot)) _))). reflexivity. Qed.

Lemma waiting_state_valid : Forall valid_watch (st_watches waiting_state).
Proof. constructor; [by apply validate_watch_spec | constructor]. Qed.

Lemma sample_vercmp_refuses : refuses sample_vercmp.
Proof. intros a Ha. unfold sample_vercmp. rewrite Ha. by exists []. Qed.

Lemma candidates_identified_witness :
  exists c, notification_candidates waiting_state sample_snapshot sample_now default_notification_settings sample_vercmp = Ok [c]
    /\ proper_candidate c /\ c_change c = FIRST.
Proof.
  destruct (notification_candidates waiting_state sample_snapshot sample_now default_notification_settings sample_vercmp)
    as [l|e] eqn:E; [|vm_compute in E; discriminate E].
  assert ((fun l : list NotificationCandidate => c_change <$> l) <$> notification_candidates waiting_state sample_snapshot sample_now
    default_notification_settings sample_vercmp = Ok [FIRST]) as El by (vm_compute; reflexivity).
  rewrite E in El. destruct l as [|c [|]]; [discriminate El| |discriminate El]. exists c. split; [reflexivity|].
  split; [|by injection El].
  pose proof (candidates_identified _ _ _ _ _ _ E) as H. inversion H as [|? ? [Hc _] _]. exact Hc.
Defined.
