(* ===== verification/Notifications.v ===== *)
(** * Dispatching notifications

    [notifications.py]: the candidates of a scan are claimed kind by kind, one notification
    is shown for each claimed batch, and its outcome is recorded. The tokens of the leases
    ([uuid4().hex]) are an argument, one for each kind. *)

From S2P Require Import Prelude PyStr Decimals Calendar Models Samples Json Validation Wire RunnerTypes Arch StorageWatches StorageState StateStore.
From S2P Require Import NotificationBatch ConditionalSecurity NotificationPolicy ScanAssembly CliRequests StorageIO Storage StorageSpec DiskStore.

Open Scope Z_scope.

(** The body of the first candidate, and how many more there are. *)
Definition _body (b : NotificationBatch) : res str :=
  first ← py_index (b_candidates b) 0;
  let additional := len (b_candidates b) - 1 in
  let what := if bool_decide (b_kind b = NK_WATCH) then lit "watched" else lit "security" in
  Ok (if additional =? 0 then c_body first
      else c_body first ++ lit " " ++ str_of_Z additional ++ lit " additional " ++ what ++ lit " update(s).").

(** What [notify-send] is given. *)
Definition notify_arguments (b : NotificationBatch) : res (list str) :=
  candidate ← py_index (b_candidates b) 0;
  body ← _body b;
  Ok [c_title candidate; body].

Section Dispatch.
Context `{Iso : IsoDialect} (stack : nat) (Hstack : MAX_JSON_DEPTH < Z.of_nat stack).
Context (run : CommandRunner) (settings : NotificationSettings) (token : NotificationKind -> str).

#[local] Existing Instance disk_store.

Definition claim (kind : NotificationKind) (candidates : list NotificationCandidate) (now : datetime)
    : M (option NotificationBatch) :=
  claim_batch (H:=disk_store stack Hstack) kind candidates now (token kind).

Definition complete (b : NotificationBatch) (result : CommandResult) : M (list NotificationOutcome) :=
  complete_batch (H:=disk_store stack Hstack) b result.

Definition _dispatch (b : NotificationBatch) : M (list NotificationOutcome) :=
  arguments ← lift (notify_arguments b);
  complete b (run NOTIFY arguments).

Fixpoint dispatch_kinds (candidates : list NotificationCandidate) (kinds : list NotificationKind)
    : M (list NotificationOutcome) :=
  match kinds with
  | [] => ret []
  | kind :: rest =>
      now ← clock;
      batch ← claim kind (List.filter (fun c => bool_decide (c_kind c = kind)) candidates) now;
      outcomes ← match batch with
                 | None => ret []
                 | Some b => _dispatch b
                 end;
      more ← dispatch_kinds candidates rest;
      ret (outcomes ++ more)
  end.

Definition dispatch (snapshot : SnapshotResponse) : M (list NotificationOutcome) :=
  now ← clock;
  loaded ← load_state stack;
  candidates ← lift (notification_candidates (load_state_of loaded) snapshot now settings run);
  dispatch_kinds candidates members.

(** ** What dispatching changes

    Nothing but the ledger: the watches and what is known of the sources stay, and so does
    the published scan. *)

Definition spares (f f' : disk) : Prop :=
  same_scan stack f f' /\ st_watches (state_in stack f') = st_watches (state_in stack f)
  /\ st_sources (state_in stack f') = st_sources (state_in stack f).

#[local] Instance same_scan_is_change : Change stack (same_scan stack) := same_scan_change stack.

#[local] Instance spares_change : Change stack spares.
Proof.
  split.
  - intros f g Hf Hv. split; [by apply view_same_scan|]. by rewrite (proj2 Hv).
  - intros f g h (H1 & H2 & H3) (H4 & H5 & H6). split; [by eapply same_scan_trans|]. split; congruence.
  - intros f g [[? _] _]. done.
Qed.

Definition only_ledger {X} (m : PersistentState -> res (PersistentState * X)) : Prop :=
  forall s p x, m s = Ok (p, x) -> st_watches p = st_watches s /\ st_sources p = st_sources s.

Lemma pruned_only_ledger s c s' : prune_ledger s c = Ok s' -> st_watches s' = st_watches s /\ st_sources s' = st_sources s.
Proof. by intros (_ & _ & ->)%prune_ledger_Ok. Qed.

Lemma committed_only_ledger {X} (m : PersistentState -> res (PersistentState * X)) s p x s' :
  only_ledger m -> committed m s p x s' -> st_watches s' = st_watches s /\ st_sources s' = st_sources s.
Proof.
  intros Hm (c1 & c2 & l & [? ?]%pruned_only_ledger & [? ?]%Hm & [? ?]%pruned_only_ledger). split; congruence.
Qed.

Lemma spares_update {X Y} (m : PersistentState -> res (PersistentState * X)) (k : res (PersistentState * X) -> res Y) :
  keeps_range m -> only_ledger m ->
  changes stack answering spares (fun w => let '(w', r) := disk_update stack m w in (w', k r)).
Proof using Hstack.
  intros Hr Hm w Ha Hw. pose proof (update_state_runs stack Hstack m w Ha Hw Hr) as H.
  assert (forall f p x, same_scan stack (durable w) f -> committed m (state_in stack (durable w)) p x (state_in stack f) ->
    spares (durable w) f) as Hc.
  { intros f p x Hk Hx. split; [done|]. by eapply committed_only_ledger. }
  assert (w_stats (disk_update stack m w).1 = w_stats w /\ spares (durable w) (durable (disk_update stack m w).1)) as Hs.
  { unfold disk_update. unfold runs, wp in H. destruct (Storage.update_state stack m w) as [w' [[l x]|e]]; cbv beta in H.
    - destruct H as (E & Hk & Hx). split; [done|]. by eapply Hc.
    - destruct H as (E & Hk & [Hx|(p & x & Hx)]); (split; [done|]); [|by eapply Hc]. split; [done|]. simpl. by rewrite Hx. }
  unfold runs, wp. destruct (disk_update stack m w) as [w' r]. simpl in Hs. by destruct (k r).
Qed.

Lemma reserve_only_ledger kind cs now t :
  only_ledger (fun s => s' ← _reserve_batch s kind cs now t; Ok (s', tt)).
Proof. intros s p x H. apply bind_Ok in H as (p' & Hp & [= -> _]). apply reserve_batch_reserved in Hp. by destruct Hp. Qed.

Lemma complete_only_ledger b result : only_ledger (fun s => Ok (_complete_batch s b result)).
Proof. intros s p x [= H]. apply (f_equal fst) in H. simpl in H. subst p. unfold _complete_batch. by destruct (negb _). Qed.

Lemma claim_spares kind cs now : in_range now -> changes stack answering spares (claim kind cs now).
Proof. intros Hn. apply spares_update; [by apply reserve_keeps_range | apply reserve_only_ledger]. Qed.

Lemma complete_spares b result : changes stack answering spares (complete b result).
Proof. apply spares_update; [apply complete_keeps_range | apply complete_only_ledger]. Qed.

Lemma dispatch_kinds_spares cs kinds : changes stack answering spares (dispatch_kinds cs kinds).
Proof.
  induction kinds as [|kind kinds IH]; [by apply (changes_ret _ _ _)|]. cbn [dispatch_kinds].
  apply (changes_bind_clock _ _ _). intros now Hn. apply (changes_bind _ _ _); [by apply claim_spares|]. intros batch.
  apply (changes_bind _ _ _); [|intros o; apply (changes_bind _ _ _); [done|]; intros; by apply (changes_ret _ _ _)].
  destruct batch; [|by apply (changes_ret _ _ _)]. apply (changes_bind _ _ _); [by apply (changes_lift _ _ _)|].
  intros. apply complete_spares.
Qed.

(** What is claimed are candidates that were offered, at least one. *)
Lemma claimed_batch kind cs now w w' b :
  claim kind cs now w = (w', Ok (Some b)) ->
  b_candidates b <> [] /\ (forall c, c ∈ b_candidates b -> c ∈ cs) /\ (length (b_candidates b) <= length cs)%nat.
Proof.
  unfold claim, claim_batch. destruct (StateStore.update_state _ w) as [w1 r]. intros H.
  apply (f_equal snd), bind_Ok in H as ([s []] & _ & E%Ok_inj).
  destruct (List.filter _ cs) as [|c0 l] eqn:El; [done|]. destruct (_owns_owner s kind (token kind)); [|done].
  injection E as <-. cbn [b_candidates]. split; [done|]. rewrite <-El. split.
  - intros c Hc. by apply elem_of_filter_bool in Hc as [? _].
  - apply List.filter_length_le.
Qed.

Lemma loaded_only_ledger l f f' :
  loaded_as stack l f f' -> st_watches (state_in stack f') = st_watches l /\ st_sources (state_in stack f') = st_sources l.
Proof.
  intros [[c [Hw Hs]%pruned_only_ledger] [[_ ->]|(_ & [c' [Hw' Hs']%pruned_only_ledger] & _)]]; split; congruence.
Qed.

Lemma load_state_watches w w1 l :
  answers w -> sound stack (durable w) -> load_state stack w = (w1, Ok l) ->
  answers w1 /\ st_watches (state_in stack (durable w1)) = st_watches (load_state_of l)
  /\ st_sources (state_in stack (durable w1)) = st_sources (load_state_of l).
Proof using Hstack.
  intros Ha Hw H.
  assert (runs (load_state stack) (fun l f => st_watches (state_in stack f) = st_watches (load_state_of l)
            /\ st_sources (state_in stack f) = st_sources (load_state_of l)) (fun _ => True) w) as Hr.
  { apply runs_lock; [done | done |]. intros w0 E Es. rewrite <-E in Hw. apply (same_answers _ _ Es) in Ha.
    eapply runs_mono; [by apply load_state_locked_runs | | done]. cbv beta. intros l0 f.
    destruct (load_warning l0); [intros (E0 & (_ & Hg & raw & _ & Hn & _) & _) | intros (Hl & _ & _)].
    - unfold state_in. by rewrite Hg, Hn, E0.
    - by eapply loaded_only_ledger. }
  destruct (wp_result _ _ _ _ _ _ Hr H) as [Es HQ]. split; [by eapply same_answers | exact HQ].
Qed.

Lemma load_same_scan : changes stack answering (same_scan stack) (load_state stack).
Proof using Hstack. apply (changes_lock _ _ _), same_scan_load_state, Hstack. Qed.

(** C22. Dispatching the notifications of a scan touches nothing but the ledger: whatever
    is claimed, shown or refused, and wherever a write, a read or a lock fails or the
    process is killed, the published scan stays, and so do the watches and what is known
    of the sources, as they were loaded. It relies on [stat] to answer. *)
Theorem dispatch_spares_watches snapshot w :
  answers w -> sound stack (durable w) ->
  let '(w1, loaded) := load_state stack (clock w).1 in
  let w' := (dispatch snapshot w).1 in
  same_scan stack (durable w) (durable w')
  /\ match loaded with
     | Ok l => st_watches (state_in stack (durable w')) = st_watches (load_state_of l)
               /\ st_sources (state_in stack (durable w')) = st_sources (load_state_of l)
     | Err e => (dispatch snapshot w) = (w1, Err e)
     end.
Proof using Hstack.
  intros Ha Hw. assert (sound stack (durable (clock w).1)) as Hc by done. assert (answers (clock w).1) as Hca by done.
  destruct (changes_run stack _ _ _ _ load_same_scan Hca Hc) as [Hk _]. unfold dispatch.
  destruct (load_state stack (clock w).1) as [w1 [l|e]] eqn:El.
  - destruct (load_state_watches _ _ _ Hca Hc El) as (Ha1 & E1 & E2).
    assert (spares (durable w1) (durable ((candidates ← lift (notification_candidates (load_state_of l) snapshot
              (w_clock w (w_readings w)) settings run); dispatch_kinds candidates members) w1).1)) as (H1 & H2 & H3).
    { apply (changes_run stack answering spares); [|exact Ha1 | apply Hk]. apply (changes_bind _ _ _); [by apply (changes_lift _ _ _)|].
      intros cs. apply dispatch_kinds_spares. }
    unfold mbind, M_bind in *. simpl in El |- *. rewrite El. cbv zeta. split; [by eapply same_scan_trans|].
    rewrite <-E1, <-E2. by split.
  - unfold mbind, M_bind. simpl in El |- *. rewrite El. by split.
Qed.
End Dispatch.

(** ** What is shown *)

Lemma plural_length z (what : str) :
  0 <= z < 10 ^ 9 -> len what <= 8 ->
  len (lit " " ++ str_of_Z z ++ lit " additional " ++ what ++ lit " update(s).") <= 48.
Proof. intros Hz Hw. pose proof (numeral_length z 8 Hz ltac:(lia)). lengths. Qed.

Lemma clean_numeral z : 0 <= z -> clean (str_of_Z z) = true.
Proof.
  intros Hz. assert (str_of_Z z = uint_str (N.to_uint (Z.to_N z))) as -> by (destruct z; [done|done|lia]).
  pose proof (uint_str_digits (N.to_uint (Z.to_N z))) as H. apply clean_spec. intros c Hc%list_elem_of_In.
  rewrite forallb_forall in H. specialize (H c Hc). unfold is_digit in H. apply andb_true_iff in H as [H1%N.leb_le H2%N.leb_le]. lia.
Qed.

(** A batch of candidates that can be shown makes one notification that can. *)
Lemma batch_accepted b :
  b_candidates b <> [] -> Forall printable_notice (b_candidates b) -> len (b_candidates b) <= 10 ^ 9 ->
  exists arguments, notify_arguments b = Ok arguments /\ arguments_allowed NOTIFICATION_TEXT arguments = true.
Proof.
  unfold notify_arguments, _body. destruct (b_candidates b) as [|c cs]; [done|]. intros _ Hp Hl.
  apply Forall_cons in Hp as [(Ht & Htl & Hb & Hbl) _]. cbn. eexists. split; [reflexivity|].
  set (what := if bool_decide (b_kind b = NK_WATCH) then lit "watched" else lit "security").
  assert (clean what = true /\ len what <= 8) as [Hw Hwl] by (subst what; by case_bool_decide).
  set (body := if _ =? 0 then _ else _). assert (clean body = true /\ len body <= 4096) as [Hc Hcl].
  { subst body. destruct (_ =? 0); [split; [done | lia]|].
    assert (0 <= len (c :: cs) - 1 < 10 ^ 9) as Hz by (unfold len in *; simpl in *; lia).
    split; [by rewrite !clean_app, Hb, clean_numeral, Hw by apply Hz|].
    pose proof (plural_length _ what Hz Hwl). unfold len in *. rewrite length_app. lia. }
  simpl. rewrite !clean_no_nul by done.
  destruct (Z.leb_spec (len (c_title c)) 4096), (Z.leb_spec (len body) 4096); try done; lia.
Qed.

Section Shown.
Context `{Iso : IsoDialect} (stack : nat) (Hstack : MAX_JSON_DEPTH < Z.of_nat stack).

(** C23. What is claimed is shown: the text made of a claimed batch of the candidates of a
    valid snapshot is never refused by the policy of [notify-send], whatever the labels,
    versions and identifiers hold, so that no delivery fails for its text. *)
Theorem notification_accepted run settings token s snapshot now l kind claimed_at w w' b :
  valid_snapshot (snap_payload snapshot) -> Forall valid_watch (st_watches s) -> refuses run ->
  notification_candidates s snapshot now settings run = Ok l -> len l <= 10 ^ 9 ->
  claim stack Hstack token kind (List.filter (fun c => bool_decide (c_kind c = kind)) l) claimed_at w = (w', Ok (Some b)) ->
  exists arguments, notify_arguments b = Ok arguments /\ arguments_allowed NOTIFICATION_TEXT arguments = true.
Proof.
  intros Hs Hw Hr Hl Hlen Hb. apply claimed_batch in Hb as (Hne & Hin & Hle). apply batch_accepted; [done | |].
  - pose proof (candidates_printable _ _ _ _ _ _ Hs Hw Hr Hl) as Hp. rewrite Forall_forall in *. intros c Hc%Hin.
    apply elem_of_filter_bool in Hc as [Hc _]. by apply Hp.
  - pose proof (List.filter_length_le (fun c => bool_decide (c_kind c = kind)) l). unfold len in *. lia.
Qed.
End Shown.

(** ** One notification, from the scan to the ledger *)

Definition waiting_world : world := (save_state (Iso:=fun _ => None) 101 waiting_state sample_world).1.

Lemma waiting_sound : sound (Iso:=fun _ => None) 101 (durable waiting_world).
Proof.
  assert (Forall in_range (state_times waiting_state)) as Ht by constructor.
  exact (proj1 (proj1 (changes_run (Iso:=fun _ => None) 101 _ _ _ _
    (keeps_save_state (Iso:=fun _ => None) 101 eq_refl waiting_state Ht) sample_answers sample_sound))).
Qed.

Lemma waiting_answers : answers waiting_world.
Proof. intros i. vm_compute. reflexivity. Qed.

(** The condition of [waiting_state] is met, shown and recorded as delivered; the watch
    stays. *)
Lemma dispatch_spares_watches_witness :
  let r := dispatch (Iso:=fun _ => None) 101 eq_refl sample_vercmp default_notification_settings value sample_snapshot waiting_world in
  (fun l : list NotificationOutcome => outcome_status <$> l) <$> r.2 = Ok [DELIVERED]
  /\ st_watches (state_in (Iso:=fun _ => None) 101 (durable r.1)) = st_watches waiting_state.
Proof.
  intros r. split; [vm_compute; reflexivity|].
  pose proof (dispatch_spares_watches (Iso:=fun _ => None) 101 eq_refl sample_vercmp default_notification_settings value
    sample_snapshot waiting_world waiting_answers waiting_sound) as H.
  assert ((fun l => st_watches (load_state_of l)) <$> (load_state (Iso:=fun _ => None) 101 (clock waiting_world).1).2
    = Ok (st_watches waiting_state)) as E by (vm_compute; reflexivity).
  destruct (load_state _ _) as [w1 [l|e]]; [|discriminate E]. injection E as E. destruct H as [_ [H _]].
  change (st_watches (state_in (Iso:=fun _ => None) 101 (durable r.1)) = st_watches (load_state_of l)) in H.
  rewrite H. exact E.
Defined.

Lemma notification_accepted_witness :
  exists b arguments,
    (claim (Iso:=fun _ => None) 101 eq_refl value NK_SECURITY_CONDITION
      match notification_candidates waiting_state sample_snapshot sample_now default_notification_settings sample_vercmp with
      | Ok l => List.filter (fun c => bool_decide (c_kind c = NK_SECURITY_CONDITION)) l | Err _ => [] end
      sample_now sample_world).2 = Ok (Some b)
    /\ notify_arguments b = Ok arguments /\ arguments_allowed NOTIFICATION_TEXT arguments = true.
Proof.
  destruct (notification_candidates waiting_state sample_snapshot sample_now default_notification_settings sample_vercmp)
    as [l|e] eqn:E; [|vm_compute in E; discriminate E].
  assert (length <$> notification_candidates waiting_state sample_snapshot sample_now default_notification_settings sample_vercmp
    = Ok 1%nat) as Hl by (vm_compute; reflexivity).
  assert (match notification_candidates waiting_state sample_snapshot sample_now default_notification_settings sample_vercmp with
          | Ok l => is_some <$> (claim (Iso:=fun _ => None) 101 eq_refl value NK_SECURITY_CONDITION
             (List.filter (fun c => bool_decide (c_kind c = NK_SECURITY_CONDITION)) l) sample_now sample_world).2
          | Err e => Err e end = Ok true) as Hc by (vm_compute; reflexivity).
  rewrite E in Hl, Hc. injection Hl as Hl.
  destruct (claim _ _ _ _ _ _ sample_world) as [w' [[b|]|e]] eqn:Eb; [|discriminate Hc|discriminate Hc].
  exists b. assert (len l <= 10 ^ 9) as Hlen by (unfold len; rewrite Hl; vm_compute; discriminate).
  destruct (notification_accepted (Iso:=fun _ => None) 101 eq_refl sample_vercmp default_notification_settings value waiting_state
    sample_snapshot sample_now l NK_SECURITY_CONDITION sample_now sample_world w' b sample_snapshot_valid waiting_state_valid
    sample_vercmp_refuses E Hlen Eb) as (arguments & H1 & H2).
  exists arguments. split; [reflexivity | split; assumption].
Defined.
