(* ===== verification/ScanNormalize.v ===== *)
(** * Results of the other adapters, and their outcomes

    The result types of [adapters/omarchy.py], [adapters/flatpak.py], [adapters/mise.py]
    and [adapters/security.py], and what [scan_normalize.py] and [scan_command_outcomes.py]
    make of them. How those adapters come to their results is in [Omarchy], [Flatpak],
    [Mise] and [Security]. *)

From S2P Require Import Prelude PyStr Models Validation RunnerTypes Arch Aur StorageWatches StorageState ScanOutcomes.
From S2P Require Import ScanResolution ScanAssembly ScanGeneration ScanInvariant.

Open Scope Z_scope.

(** ** Results *)

Record OmarchyAvailability := {
  oa_status : SourceStatus;
  oa_items : list NormalizedItem;
  oa_diagnostic : option str;
}.

Inductive FlatpakScope := FS_USER | FS_SYSTEM.

#[global] Instance FlatpakScope_eq_dec : EqDecision FlatpakScope.
Proof. solve_decision. Defined.

#[global] Program Instance FlatpakScope_enum : StrEnum FlatpakScope := {|
  members := [FS_USER; FS_SYSTEM];
  value a := lit match a with FS_USER => "user" | FS_SYSTEM => "system" end%string;
|}.
Next Obligation. solve_complete. Qed.
Next Obligation. solve_distinct. Qed.

Inductive FlatpakScopeStatus :=
| FSS_OK
| FSS_NOT_APPLICABLE
| FSS_MISSING_DEPENDENCY
| FSS_TIMEOUT
| FSS_OUTPUT_EXCEEDED
| FSS_ERROR
| FSS_INVALID.

Inductive FlatpakKind := FK_APP | FK_RUNTIME.

Record FlatpakRecord := {
  fr_scope : FlatpakScope;
  fr_ref : str;
  fr_kind : FlatpakKind;
  fr_application_id : str;
  fr_arch : str;
  fr_branch : str;
  fr_origin : str;
  fr_candidate_ref : option str;
  fr_candidate_origin : option str;
  fr_item : NormalizedItem;
}.

Record FlatpakScopeResult := {
  fp_scope : FlatpakScope;
  fp_status : FlatpakScopeStatus;
  fp_records : list FlatpakRecord;
  fp_diagnostic : option str;
}.

Record FlatpakResult := { fp_scopes : FlatpakScopeResult * FlatpakScopeResult }.

Record MiseRecord := { mr_item : NormalizedItem; mr_requested : str; mr_current : str; mr_latest : str }.

Inductive MiseResult :=
| MiseCollected (records : list MiseRecord)
| MiseNotApplicable
| MiseInvalid (diagnostic : str)
| MiseTimedOut
| MiseOutputExceeded (stream : str)
| MiseCommandFailed (returncode : Z)
| MiseCommandRejected (diagnostic : str).

Inductive KevResult :=
| KevCatalog (cves : gset str) (provenance : Provenance)
| KevDisabled
| KevUnavailable (diagnostic : str).

Inductive SecurityResult :=
| SecurityCollected (groups : list SecurityFindingGroup) (arch_provenance : Provenance) (kev : KevResult)
| SecurityArchUnavailable (diagnostic : str).

(** ** Outcomes *)

Definition omarchy_outcome (r : OmarchyAvailability) : SourceOutcome :=
  from_status SN_OMARCHY (oa_status r) (oa_items r) [] (oa_diagnostic r).

(** [SourceScope(scope.value)] *)
Definition mapped_scope (s : FlatpakScope) : res SourceScope :=
  match enum_of (value s) with Some x => Ok x | None => Err ValueError end.

(** [scope.diagnostic or text] *)
Definition diagnostic_or (d : option str) (text : string) : str := str_or (default [] d) (lit text).

Definition _flatpak_scope (s : FlatpakScopeResult) : res SourceOutcome :=
  scope ← mapped_scope (fp_scope s);
  let its := fr_item <$> fp_records s in
  let failed status text permanent :=
    failure SN_FLATPAK status (diagnostic_or (fp_diagnostic s) text) permanent true (Some scope) its in
  Ok match fp_status s with
     | FSS_OK => current SN_FLATPAK its LIVE [] (Some scope)
     | FSS_NOT_APPLICABLE => not_applicable SN_FLATPAK (Some scope)
     | FSS_MISSING_DEPENDENCY => failed SS_MISSING_DEPENDENCY "Flatpak is unavailable"%string true
     | FSS_TIMEOUT => failed SS_TIMEOUT "Flatpak timed out"%string false
     | FSS_OUTPUT_EXCEEDED | FSS_ERROR => failed SS_ERROR "Flatpak failed"%string false
     | FSS_INVALID => failed SS_INVALID "Flatpak evidence is invalid"%string true
     end.

Definition flatpak_outcomes (r : FlatpakResult) : res (SourceOutcome * SourceOutcome) :=
  user ← _flatpak_scope (fp_scopes r).1;
  system ← _flatpak_scope (fp_scopes r).2;
  Ok (user, system).

Definition security_outcomes (r : SecurityResult) : SourceOutcome * SourceOutcome :=
  match r with
  | SecurityCollected groups provenance kev =>
      let security := {| so_source := SN_SECURITY; so_scope := None; so_status := SS_OK; so_provenance := provenance;
                         so_items := []; so_findings := groups; so_cause := None; so_permanent := false;
                         so_applicable := true |} in
      match kev with
      | KevCatalog _ kev_provenance => (security, current SN_CISA_KEV [] kev_provenance [] None)
      | KevDisabled => (security, not_applicable SN_CISA_KEV None)
      | KevUnavailable diagnostic => (security, simple_failure SN_CISA_KEV SS_ERROR diagnostic false true)
      end
  | SecurityArchUnavailable diagnostic =>
      (simple_failure SN_SECURITY SS_ERROR diagnostic false true,
       simple_failure SN_CISA_KEV SS_ERROR (lit "security evidence is unavailable") false false)
  end.

Definition mise_outcome (r : MiseResult) : SourceOutcome :=
  match r with
  | MiseCollected records => current SN_MISE (mr_item <$> records) LIVE [] None
  | MiseNotApplicable => not_applicable SN_MISE None
  | MiseInvalid diagnostic => simple_failure SN_MISE SS_INVALID diagnostic true true
  | MiseTimedOut => simple_failure SN_MISE SS_TIMEOUT (lit "mise timed out") false true
  | MiseOutputExceeded stream =>
      simple_failure SN_MISE SS_ERROR (lit "mise " ++ stream ++ lit " output exceeded") false true
  | MiseCommandFailed code => simple_failure SN_MISE SS_ERROR (lit "mise exited " ++ str_of_Z code) false true
  | MiseCommandRejected diagnostic => simple_failure SN_MISE SS_ERROR diagnostic true true
  end.

(** ** What the adapters promise *)

Definition good_omarchy (r : OmarchyAvailability) : Prop := Forall scan_item (oa_items r).
Definition good_scope (s : FlatpakScope) (r : FlatpakScopeResult) : Prop :=
  fp_scope r = s /\ Forall (fun x => scan_item (fr_item x)) (fp_records r).
Definition good_flatpak (r : FlatpakResult) : Prop :=
  good_scope FS_USER (fp_scopes r).1 /\ good_scope FS_SYSTEM (fp_scopes r).2.
Definition good_mise (r : MiseResult) : Prop :=
  match r with MiseCollected records => Forall (fun x => scan_item (mr_item x)) records | _ => True end.
Definition good_security (r : SecurityResult) : Prop :=
  match r with SecurityCollected groups _ _ => scan_groups groups | _ => True end.
Definition good_arch (r : arch_result (list NormalizedItem)) : Prop :=
  match r with Ok its => Forall scan_item its | Err _ => True end.
Definition good_aur (r : AurResult) : Prop :=
  match r with AurCollected _ its => Forall scan_item its | _ => True end.

Lemma matched_Some o source scope :
  so_source o = source -> so_scope o = scope -> well_formed o -> matched (Some o) (source, scope).
Proof. intros ? ? ? x [= <-]. auto. Qed.

Lemma matched_None id : matched None id.
Proof. intros x [=]. Qed.
#[export] Hint Resolve matched_Some matched_None : opatchy.

Lemma omarchy_matched r : good_omarchy r -> matched (Some (omarchy_outcome r)) (SN_OMARCHY, None).
Proof.
  intros H. unfold omarchy_outcome, from_status.
  destruct (oa_status r); apply matched_Some; auto with opatchy.
Qed.

Lemma arch_matched r : good_arch r -> matched (Some (arch_outcome r)) (SN_ARCH, None).
Proof.
  intros H. destruct r as [its|[k d]]; simpl; [apply matched_Some; auto with opatchy|].
  apply matched_Some; [by destruct k | by destruct k | apply arch_failure_well_formed].
Qed.

Lemma aur_matched r : good_aur r -> matched (Some (aur_outcome r)) (SN_AUR, None).
Proof.
  intros H. destruct r as [| | | | | | | |k d]; simpl; try (apply matched_Some; auto with opatchy; done).
  apply matched_Some; [by destruct k | by destruct k | apply arch_failure_well_formed].
Qed.

Lemma mise_matched r : good_mise r -> matched (Some (mise_outcome r)) (SN_MISE, None).
Proof.
  intros H. destruct r; simpl; apply matched_Some; auto with opatchy. apply current_well_formed. by apply Forall_fmap.
Qed.

(** The two scopes of Flatpak always have a name. *)
Lemma flatpak_scope_matched s r :
  good_scope s r -> exists o scope, _flatpak_scope r = Ok o /\ enum_of (value s) = Some scope
                                    /\ matched (Some o) (SN_FLATPAK, Some scope).
Proof.
  intros [Hs Hr]. assert (exists scope : SourceScope, enum_of (value s) = Some scope) as [scope E]
    by (destruct s; eexists; reflexivity).
  assert (Forall scan_item (fr_item <$> fp_records r)) as Hi by (by apply Forall_fmap).
  unfold _flatpak_scope, mapped_scope. rewrite Hs, E. eexists _, scope. split; [reflexivity|]. split; [done|].
  destruct (fp_status r); apply matched_Some; auto with opatchy.
Qed.

Lemma flatpak_matched r :
  good_flatpak r -> exists u s, flatpak_outcomes r = Ok (u, s)
    /\ matched (Some u) (SN_FLATPAK, Some USER) /\ matched (Some s) (SN_FLATPAK, Some SYSTEM).
Proof.
  intros [(u & x & Eu & Ex & Hu)%flatpak_scope_matched (s & y & Es & Ey & Hs)%flatpak_scope_matched].
  unfold flatpak_outcomes. rewrite Eu. simpl. rewrite Es. vm_compute in Ex, Ey. injection Ex as <-. injection Ey as <-. eauto.
Qed.

Lemma security_matched r :
  good_security r -> matched (Some (security_outcomes r).1) (SN_SECURITY, None)
                     /\ matched (Some (security_outcomes r).2) (SN_CISA_KEV, None).
Proof.
  intros H. destruct r as [groups p kev|d]; simpl; [|split; apply matched_Some; auto with opatchy].
  assert (well_formed {| so_source := SN_SECURITY; so_scope := None; so_status := SS_OK; so_provenance := p;
    so_items := []; so_findings := groups; so_cause := None; so_permanent := false; so_applicable := true |}) as Hw
    by (constructor; simpl; auto).
  destruct kev; cbn [fst snd]; split; apply matched_Some; auto with opatchy.
Qed.
