(* ===== verification/SecurityFeeds.v ===== *)
(** * Arch advisories

    [security_arch.py]: the JSON of arch-audit and of the Arch Security Tracker becomes
    advisories, or is refused whole. [str.isprintable] and [str.lower] beyond ASCII are
    arguments. *)

From S2P Require Import Prelude PyStr Regex Calendar Models Samples Json JsonText Utf8 Validation StorageWatches.

Open Scope Z_scope.

(** The tables of Unicode. *)
Class UnicodeTables := {
  printable_char : N -> bool;
  lower : str -> str;
  printable_ascii c : (c <= 127)%N -> printable_char c = (32 <=? c)%N && (c <=? 126)%N;
  lower_ascii s : isascii s = true ->
    lower s = (fun c => if (65 <=? c)%N && (c <=? 90)%N then (c + 32)%N else c) <$> s;
}.

(** A parsed feed, or why it is refused. *)
Abbreviation feed := (outcome str).
Definition refused {A} (diagnostic : string) : feed A := Err (lit diagnostic).

(** [d[k]] for a key that is there. *)
Definition at_ (d : dict) (k : string) : json := default JNull (dict_get d (lit k)).

(** [required.issubset(d)] *)
Definition has_fields (d : dict) (required : list str) : bool := forallb (dict_mem d) required.

(** [tuple(f(entry) for entry in l)], [None] if one of them is. *)
Definition all_some {A B} (f : A -> option B) (l : list A) : option (list B) := mapM f l.

Section Feeds.
Context `{Iso : IsoDialect} `{Tables : UnicodeTables} (stack : nat).

Definition isprintable (s : str) : bool := forallb printable_char s.

(** [raw.decode] and [decode_json], whose errors are reported as such; an integer that is
    too long is not. *)
Definition decoded {A} (not_utf8 not_json : string) (raw : bytes) (parse : json -> feed A) : res (feed A) :=
  match Utf8.decode raw with
  | Err _ => Ok (refused not_utf8)
  | Ok text =>
      match decode_json stack text with
      | Ok v => Ok (parse v)
      | Err (ProtocolError _) => Ok (refused not_json)
      | Err e => Err e
      end
  end.

(** ** Arch advisories *)

Record ArchAdvisory := {
  adv_name : str;
  adv_packages : list str;
  adv_status : ArchStatus;
  adv_type : str;
  adv_severity : Severity;
  adv_fixed : option str;
  adv_issues : list str;
}.

Definition _MAX_RECORDS : Z := 4096.
Definition _MAX_PACKAGES : Z := 128.
Definition _MAX_ISSUES : Z := 128.
Definition _MAX_IDENTIFIER : Z := 60.
Definition _MAX_STRING : Z := 128.
Definition _AVG : regex := RCat (rlit (lit "AVG-")) (rplus rdigit).
Definition _ASA : regex := RCat (rlit (lit "ASA-")) (rtimes 6 rdigit (RCat (rlit (lit "-")) (rplus rdigit))).
Definition _PRIMARY_REQUIRED : list str :=
  names ["name"; "packages"; "status"; "type"; "severity"; "fixed"; "issues"].
Definition _TRACKER_REQUIRED : list str := _PRIMARY_REQUIRED ++ names ["affected"; "ticket"; "advisories"].

(** A printable string of at most [n] characters with no address in it. *)
Definition bounded_text_value (n : Z) (v : json) : option str :=
  match v with
  | JStr s => if (0 <? len s) && (len s <=? n) && isprintable s && negb (contains s (lit "://")) then Some s else None
  | _ => None
  end.

Definition _string : json -> option str := bounded_text_value _MAX_STRING.
Definition _identifier : json -> option str := bounded_text_value _MAX_IDENTIFIER.

Definition _avg_identifier (v : json) : option str :=
  match _identifier v with
  | Some s => if fullmatch _AVG s then Some s else None
  | None => None
  end.

Definition _optional_string (v : json) : feed (option str) :=
  match v with
  | JNull => Ok None
  | _ => match _string v with Some s => Ok (Some s) | None => refused "string field is invalid" end
  end.

Definition _identifiers (v : json) (maximum : Z) : option (list str) :=
  match v with
  | JList l =>
      if maximum <? len l then None
      else match all_some _identifier l with
           | Some ids => if unique ids then Some ids else None
           | None => None
           end
  | _ => None
  end.

Definition _asa_identifiers (v : json) (maximum : Z) : option (list str) :=
  match _identifiers v maximum with
  | Some ids => if existsb (fun i => negb (fullmatch _ASA i)) ids then None else Some ids
  | None => None
  end.

Definition _status (v : json) (tracker : bool) : option ArchStatus :=
  match v with
  | JStr s =>
      match enum_of s with
      | Some AS_NOT_AFFECTED => if tracker then Some AS_NOT_AFFECTED else None
      | status => status
      end
  | _ => None
  end.

Definition _severity (v : json) : option Severity :=
  match v with JStr s => enum_of (lower s) | _ => None end.

Definition _tracker_fields (d : dict) : bool :=
  let affected := _identifier (at_ d "affected") in
  let advisories := _asa_identifiers (at_ d "advisories") _MAX_ISSUES in
  match _optional_string (at_ d "ticket") with
  | Err _ => false
  | Ok _ => is_some affected && is_some advisories
  end.

Definition _parse_record (v : json) (required : list str) (tracker : bool) : feed ArchAdvisory :=
  match v with
  | JObj d =>
      if negb (has_fields d required) then refused "feed record omits a required field"
      else
        match _avg_identifier (at_ d "name"), _identifiers (at_ d "packages") _MAX_PACKAGES, _string (at_ d "type"),
              _identifiers (at_ d "issues") _MAX_ISSUES with
        | Some name, Some packages, Some advisory_type, Some issues =>
            fixed ← _optional_string (at_ d "fixed");
            match _status (at_ d "status") tracker, _severity (at_ d "severity") with
            | Some status, Some severity =>
                if tracker && negb (_tracker_fields d) then refused "Tracker record has an invalid field type"
                else Ok {| adv_name := name; adv_packages := packages; adv_status := status; adv_type := advisory_type;
                           adv_severity := severity; adv_fixed := fixed; adv_issues := issues |}
            | _, _ => refused "feed record has an unsupported status or severity"
            end
        | _, _, _, _ => refused "feed record has an invalid field type"
        end
  | _ => refused "feed record omits a required field"
  end.

Fixpoint parse_entries (l : list json) (required : list str) (tracker : bool) (seen : list str)
    : feed (list ArchAdvisory) :=
  match l with
  | [] => Ok []
  | v :: rest =>
      record ← _parse_record v required tracker;
      if bool_decide (adv_name record ∈ seen) then refused "feed contains duplicate advisory names"
      else records ← parse_entries rest required tracker (adv_name record :: seen); Ok (record :: records)
  end.

Definition _parse_records (required : list str) (tracker : bool) (v : json) : feed (list ArchAdvisory) :=
  match v with
  | JList l => if _MAX_RECORDS <? len l then refused "feed root is not a bounded array"
               else parse_entries l required tracker []
  | _ => refused "feed root is not a bounded array"
  end.

Definition _decode {A} : bytes -> (json -> feed A) -> res (feed A) :=
  decoded "feed is not UTF-8" "feed is not valid JSON".

Definition parse_arch_audit (raw : bytes) : res (feed (list ArchAdvisory)) :=
  _decode raw (_parse_records _PRIMARY_REQUIRED false).

Definition parse_tracker (raw : bytes) : res (feed (list ArchAdvisory)) :=
  _decode raw (_parse_records _TRACKER_REQUIRED true).

End Feeds.

(** ** What a parsed feed holds *)

Section FeedFacts.
Context `{Iso : IsoDialect} `{Tables : UnicodeTables} (stack : nat).

(** A field of at most [n] characters, none of them a control character, no address. *)
Definition plain (n : Z) (s : str) : Prop :=
  bounded_text n s /\ isprintable s = true /\ contains s (lit "://") = false.

Record valid_advisory (a : ArchAdvisory) : Prop := {
  va_name : plain 60 (adv_name a) /\ avg_text (adv_name a);
  va_packages : NoDup (adv_packages a) /\ Forall (plain 60) (adv_packages a) /\ len (adv_packages a) <= 128;
  va_type : plain 128 (adv_type a);
  va_fixed : forall v, adv_fixed a = Some v -> plain 128 v;
  va_issues : NoDup (adv_issues a) /\ Forall (plain 60) (adv_issues a) /\ len (adv_issues a) <= 128;
}.

Lemma bounded_text_value_spec n v s : (bounded_text_value n v = Some s) <-> (v = JStr s /\ plain n s).
Proof.
  unfold bounded_text_value, plain, bounded_text. split.
  - destruct v as [| | | |t| |]; try done. destruct (_ && _) eqn:E; [|done]. intros [= ->].
    rewrite !andb_true_iff, negb_true_iff, Z.ltb_lt, Z.leb_le in E. split; [done|].
    destruct E as [[[? ?] ?] ?]. repeat split; (done || lia).
  - intros (-> & ([H1 H2] & Hp & Hc)). rewrite Hp, Hc. assert ((0 <? len s) = true) as -> by (apply Z.ltb_lt; lia).
    by rewrite (proj2 (Z.leb_le _ _) H2).
Qed.

Lemma all_some_spec {A B} (f : A -> option B) l k :
  (all_some f l = Some k) <-> (Forall2 (fun x y => f x = Some y) l k).
Proof. unfold all_some. apply mapM_Some. Qed.

Lemma identifiers_spec v n ids :
  (_identifiers v n = Some ids) <-> (exists l, v = JList (JStr <$> l) /\ ids = l /\ len l <= n /\ NoDup l /\ Forall (plain 60) l).
Proof.
  unfold _identifiers. split.
  - destruct v as [| | | | |l|]; try done. destruct (Z.ltb_spec n (len l)); [done|].
    destruct (all_some _ l) as [k|] eqn:E; [|done]. destruct (unique k) eqn:Eu; [|done]. intros [= <-].
    apply unique_spec in Eu. apply all_some_spec in E. exists k.
    assert (l = JStr <$> k /\ Forall (plain 60) k) as [-> Hk].
    { clear -E. induction E as [|x y l k H _ [IH1 IH2]]; [done|]. unfold _identifier in H. apply bounded_text_value_spec in H as [-> Hp].
      split; [by rewrite IH1 | by constructor]. }
    unfold len in *. rewrite length_fmap in *. done.
  - intros (l & -> & -> & Hl & Hn & Hp). unfold len in *. rewrite length_fmap.
    destruct (Z.ltb_spec n (Z.of_nat (length l))); [lia|].
    assert (all_some _identifier (JStr <$> l) = Some l) as ->.
    { apply all_some_spec. clear Hl Hn H. induction Hp as [|x l Hx _ IH]; constructor; [|done].
      by apply bounded_text_value_spec. }
    by rewrite (proj2 (unique_spec l) Hn).
Qed.

Lemma optional_string_Ok v o : _optional_string v = Ok o -> forall s, o = Some s -> plain 128 s.
Proof.
  unfold _optional_string. intros H s ->. destruct v; try done;
    match type of H with match ?x with _ => _ end = _ => destruct x eqn:E end; try done; injection H as ->;
    unfold _string in E; by apply bounded_text_value_spec in E as [_ ?].
Qed.

Lemma parse_record_valid v required tracker a : _parse_record v required tracker = Ok a -> valid_advisory a.
Proof.
  unfold _parse_record. destruct v as [| | | | | |d]; try done. destruct (negb _); [done|].
  destruct (_avg_identifier _) as [name|] eqn:En; [|done]. destruct (_identifiers _ _MAX_PACKAGES) as [packages|] eqn:Ep; [|done].
  destruct (_string _) as [advisory_type|] eqn:Et; [|done]. destruct (_identifiers _ _MAX_ISSUES) as [issues|] eqn:Ei; [|done].
  intros (fixed & Hf & H)%bind_Ok. destruct (_status _ _) as [status|]; [|done]. destruct (_severity _) as [severity|]; [|done].
  destruct (tracker && _); [done|]. apply Ok_inj in H as <-.
  apply identifiers_spec in Ep as (? & _ & -> & ? & ? & ?). apply identifiers_spec in Ei as (? & _ & -> & ? & ? & ?).
  unfold _string in Et; apply bounded_text_value_spec in Et as [_ Et]. constructor; cbn; try done.
  - unfold _avg_identifier in En. destruct (_identifier _) as [s|] eqn:Es; [|done].
    destruct (fullmatch _AVG s) eqn:Ea; [|done]. injection En as ->.
    unfold _identifier in Es. apply bounded_text_value_spec in Es as [_ ?]. split; [done|]. by apply AVG_spec.
  - by eapply optional_string_Ok.
Qed.

Definition valid_feed (l : list ArchAdvisory) : Prop := NoDup (adv_name <$> l) /\ Forall valid_advisory l.

Lemma parse_entries_valid l required tracker seen advisories :
  parse_entries l required tracker seen = Ok advisories ->
  valid_feed advisories /\ Forall (fun a => adv_name a ∉ seen) advisories /\ length advisories = length l.
Proof.
  revert seen advisories. induction l as [|v l IH]; intros seen advisories; cbn [parse_entries].
  - intros <-%Ok_inj. split; [split; constructor | by split; [constructor|]].
  - intros (a & Ha%parse_record_valid & H)%bind_Ok. case_bool_decide as Hs; [done|].
    apply bind_Ok in H as (rest & Hr & <-%Ok_inj). apply IH in Hr as ([Hn Hv] & Hseen & Hl). split; [split|split].
    + rewrite fmap_cons. apply NoDup_cons. split; [|done]. intros (b & E & Hb)%list_elem_of_fmap.
      rewrite Forall_forall in Hseen. apply (Hseen b Hb). rewrite <-E. by left.
    + by constructor.
    + constructor; [done|]. eapply Forall_impl; [exact Hseen|]. intros b. set_solver.
    + simpl. by f_equal.
Qed.

Lemma parse_records_valid required tracker v l : _parse_records required tracker v = Ok l -> valid_feed l.
Proof.
  unfold _parse_records. destruct v; try done. destruct (_ <? _); [done|]. intros H. by eapply parse_entries_valid.
Qed.

Lemma decoded_Ok {A} m1 m2 raw (parse : json -> feed A) a : decoded stack m1 m2 raw parse = Ok (Ok a) -> exists v, parse v = Ok a.
Proof.
  unfold decoded. destruct (Utf8.decode raw) as [text|]; [|done]. destruct (decode_json stack text) as [v|e]; [|by destruct e].
  intros H. apply Ok_inj in H. eauto.
Qed.

Lemma parse_arch_audit_valid raw l : parse_arch_audit stack raw = Ok (Ok l) -> valid_feed l.
Proof. intros [v H]%decoded_Ok. by eapply parse_records_valid. Qed.

Lemma parse_tracker_valid raw l : parse_tracker stack raw = Ok (Ok l) -> valid_feed l.
Proof. intros [v H]%decoded_Ok. by eapply parse_records_valid. Qed.
End FeedFacts.

(** Tables of Unicode that know ASCII only. *)
#[export] Program Instance ascii_tables : UnicodeTables := {|
  printable_char c := (32 <=? c)%N && (c <=? 126)%N;
  lower s := (fun c => if (65 <=? c)%N && (c <=? 90)%N then (c + 32)%N else c) <$> s;
|}.
Next Obligation. done. Qed.
Next Obligation. done. Qed.
