(* ===== verification/Mise.v ===== *)
(** * The mise adapter

    [adapters/mise.py]: the JSON object that [mise outdated --json] prints becomes one
    record per tool, or is refused whole. *)

From S2P Require Import Prelude PyStr Models Json JsonText Utf8 RunnerTypes Arch ScanOutcomes ScanNormalize.

Open Scope Z_scope.

Definition _RECORD_FIELDS : list str := names ["requested"; "current"; "latest"].
Definition _CURRENT_RECORD_FIELDS : list str :=
  names ["name"; "requested"; "current"; "bump"; "latest"; "source"].
Definition _CURRENT_SOURCE_FIELDS : list str := names ["type"; "path"].

(** [frozenset(d) == fields] *)
Definition fields_are (d : dict) (l : list str) : bool :=
  bool_decide (list_to_set (keys d) =@{gset str} list_to_set l).

(** [d[k]] for a key that is there. *)
Definition field_of (d : dict) (k : string) : json := default JNull (dict_get d (lit k)).

(** [str(error)] of a [ProtocolError] *)
Definition error_text (e : ErrorInfo) : str := value (code e) ++ lit ": " ++ message e.

Definition mise_item (key current latest : str) : NormalizedItem :=
  {| item_id := lit "mise:" ++ key; item_source := IS_MISE; label := key; installed := Some current;
     candidate := Some latest; watch_mode := OFF; watchable := true; item_provenance := LIVE;
     installed_fingerprint := None; candidate_fingerprint := None; watch_armed := false |}.

Definition mise_record (key requested current latest : str) : MiseRecord :=
  {| mr_item := mise_item key current latest; mr_requested := requested; mr_current := current;
     mr_latest := latest |}.

(** Why a record of the longer form is refused. *)
Definition _current_fields (key : str) (d : dict) : outcome str unit :=
  let refuse text := Err (lit "mise." ++ key ++ lit text) in
  _ ← match field_of d "name" with
      | JStr name => if bool_decide (name = key) then Ok tt else refuse ".name must match the record key"%string
      | _ => refuse ".name must match the record key"%string
      end;
  _ ← match field_of d "bump" with JNull => Ok tt | _ => refuse ".bump must be null"%string end;
  match field_of d "source" with
  | JObj source =>
      if fields_are source _CURRENT_SOURCE_FIELDS then
        match field_of source "type", field_of source "path" with
        | JStr _, JStr _ => Ok tt
        | _, _ => refuse ".source fields must be strings"%string
        end
      else refuse ".source must be a complete object"%string
  | _ => refuse ".source must be a complete object"%string
  end.

(** An [Err] is the diagnostic of [MiseInvalid]. *)
Definition _parse_record (key : str) (v : json) : outcome str MiseRecord :=
  let refuse text := Err (lit "mise." ++ key ++ lit text) in
  match v with
  | JObj d =>
      if negb (fields_are d _RECORD_FIELDS || fields_are d _CURRENT_RECORD_FIELDS)
      then refuse " must contain requested, current, and latest"%string
      else
        _ ← (if fields_are d _CURRENT_RECORD_FIELDS then _current_fields key d else Ok tt);
        match field_of d "requested" with
        | JStr requested =>
            match field_of d "current" with
            | JStr current =>
                match field_of d "latest" with
                | JStr latest => Ok (mise_record key requested current latest)
                | _ => refuse ".latest must be a string"%string
                end
            | _ => refuse ".current must be a string"%string
            end
        | _ => refuse ".requested must be a string"%string
        end
  | _ => refuse " must be an object"%string
  end.

Section Mise.
Context (stack : nat) (run : CommandRunner).

(** An integer that is too long raises past the handler. *)
Definition _parse_output (stdout : bytes) : res MiseResult :=
  match Utf8.decode stdout with
  | Err _ => Ok (MiseInvalid (lit "mise output is not UTF-8"))
  | Ok text =>
      match decode_json stack text with
      | Err (ProtocolError e) => Ok (MiseInvalid (error_text e))
      | Err e => Err e
      | Ok (JObj []) => Ok MiseNotApplicable
      | Ok (JObj d) =>
          Ok match mapM (fun kv => _parse_record kv.1 kv.2) d with
             | Ok records => MiseCollected records
             | Err diagnostic => MiseInvalid diagnostic
             end
      | Ok _ => Ok (MiseInvalid (lit "mise output must be an object"))
      end
  end.

Definition collect_mise_updates : res MiseResult :=
  match run MISE_OUTDATED [] with
  | CommandSucceeded stdout _ => _parse_output stdout
  | CommandMissing _ => Ok MiseNotApplicable
  | CommandTimedOut _ _ => Ok MiseTimedOut
  | CommandOutputExceeded stream _ _ => Ok (MiseOutputExceeded stream)
  | CommandExited code _ _ => Ok (MiseCommandFailed code)
  | CommandRejected diagnostic => Ok (MiseCommandRejected diagnostic)
  end.
End Mise.

(** ** What is accepted *)

(** The fields of an object are these. *)
Definition has_fields (d : dict) (l : list string) : Prop := list_to_set (keys d) =@{gset str} list_to_set (names l).

Definition string_field (d : dict) (k : string) (s : str) : Prop := dict_get d (lit k) = Some (JStr s).

(** What the longer form says besides the three strings: the name of the tool, no bump,
    and a source with the strings [type] and [path]. *)
Definition complete_form (key : str) (d : dict) : Prop :=
  string_field d "name" key
  /\ dict_get d (lit "bump") = Some JNull
  /\ exists source ty path,
       dict_get d (lit "source") = Some (JObj source)
       /\ has_fields source ["type"; "path"]%string
       /\ string_field source "type" ty /\ string_field source "path" path.

(** The fields a tool is reported with: three strings, or these and three more. *)
Definition record_dict (d : dict) (key requested current latest : str) : Prop :=
  string_field d "requested" requested /\ string_field d "current" current /\ string_field d "latest" latest
  /\ (has_fields d ["requested"; "current"; "latest"]%string
      \/ has_fields d ["name"; "requested"; "current"; "bump"; "latest"; "source"]%string /\ complete_form key d).

Lemma field_of_str d k s : field_of d k = JStr s <-> dict_get d (lit k) = Some (JStr s).
Proof. unfold field_of. destruct (dict_get d (lit k)); simpl; split; congruence. Qed.

Lemma field_of_obj d k o : field_of d k = JObj o <-> dict_get d (lit k) = Some (JObj o).
Proof. unfold field_of. destruct (dict_get d (lit k)); simpl; split; congruence. Qed.

Lemma field_there d l k : has_fields d l -> lit k ∈ names l -> is_Some (dict_get d (lit k)).
Proof.
  intros H Hk. apply (elem_of_list_to_set (C:=gset str)) in Hk. rewrite <-H, elem_of_list_to_set in Hk.
  by apply dict_get_keys.
Qed.

Lemma field_of_null d l k :
  has_fields d l -> lit k ∈ names l -> field_of d k = JNull <-> dict_get d (lit k) = Some JNull.
Proof. intros H Hk. destruct (field_there d l k H Hk) as [v E]. unfold field_of. rewrite E. simpl. naive_solver. Qed.

Lemma fields_are_spec d l : fields_are d l = true <-> list_to_set (keys d) =@{gset str} list_to_set l.
Proof. apply bool_decide_eq_true. Qed.

(** No object has the fields of both forms. *)
Lemma record_not_current d : fields_are d _RECORD_FIELDS = true -> fields_are d _CURRENT_RECORD_FIELDS = false.
Proof.
  intros H%fields_are_spec. apply bool_decide_eq_false. rewrite H. apply (bool_decide_unpack _). vm_compute. exact I.
Qed.

Lemma current_fields_spec key d :
  has_fields d ["name"; "requested"; "current"; "bump"; "latest"; "source"]%string ->
  _current_fields key d = Ok tt <-> complete_form key d.
Proof.
  intros Hd. assert (lit "bump" ∈ names ["name"; "requested"; "current"; "bump"; "latest"; "source"]%string) as Hb
    by (apply (bool_decide_unpack _); vm_compute; exact I).
  unfold _current_fields, complete_form, string_field. rewrite <-(field_of_null d _ _ Hd Hb), <-field_of_str. split.
  - intros H. destruct (field_of d "name") as [| | | |name| |]; try done. case_bool_decide; [subst name|done].
    cbn [mbind outcome_bind] in H. destruct (field_of d "bump"); try done. cbn [mbind outcome_bind] in H.
    destruct (field_of d "source") as [| | | | | |source] eqn:Es; try done. apply field_of_obj in Es.
    destruct (fields_are source _CURRENT_SOURCE_FIELDS) eqn:Ef; [|done]. apply fields_are_spec in Ef.
    destruct (field_of source "type") as [| | | |ty| |] eqn:E1; try done. apply field_of_str in E1.
    destruct (field_of source "path") as [| | | |path| |] eqn:E2; try done. apply field_of_str in E2.
    split; [done|]. split; [done|]. by exists source, ty, path.
  - intros (-> & -> & source & ty & path & E%field_of_obj & Hs%fields_are_spec & E1%field_of_str & E2%field_of_str).
    rewrite (bool_decide_true (key = key)) by done. cbn [mbind outcome_bind]. change (names ["type"; "path"]%string)
      with _CURRENT_SOURCE_FIELDS in Hs. by rewrite E, Hs, E1, E2.
Qed.

Lemma parse_record_spec key v r :
  _parse_record key v = Ok r <-> exists d requested current latest,
    v = JObj d /\ record_dict d key requested current latest /\ r = mise_record key requested current latest.
Proof.
  unfold _parse_record, record_dict. split.
  - destruct v as [| | | | | |d]; try done. destruct (_ || _) eqn:Ef; [|done]. cbn [negb]. intros (u & Hc & H)%bind_Ok.
    destruct (field_of d "requested") eqn:E1; try done. destruct (field_of d "current") eqn:E2; try done.
    destruct (field_of d "latest") eqn:E3; try done. apply Ok_inj in H as <-.
    eexists d, _, _, _. split; [done|]. split; [|done]. repeat (split; [by apply field_of_str|]).
    apply orb_true_iff in Ef as [Ef|Ef]; [left; by apply fields_are_spec in Ef|]. right. rewrite Ef in Hc. destruct u.
    apply fields_are_spec in Ef. split; [exact Ef | by apply current_fields_spec].
  - intros (d & requested & current & latest & -> & (E1 & E2 & E3 & Hf) & ->).
    apply field_of_str in E1, E2, E3. rewrite E1, E2, E3. destruct Hf as [Hf|[Hf Hc%current_fields_spec]]; [| |done].
    + apply fields_are_spec in Hf. change (fields_are d _RECORD_FIELDS = true) in Hf. by rewrite Hf, (record_not_current _ Hf).
    + apply fields_are_spec in Hf. change (fields_are d _CURRENT_RECORD_FIELDS = true) in Hf. by rewrite Hf, orb_true_r, Hc.
Qed.

(** A record of a tool: its fields, and the item made of them. *)
Definition tool_record (kv : str * json) (r : MiseRecord) : Prop := exists d requested current latest,
  kv.2 = JObj d /\ record_dict d kv.1 requested current latest
  /\ r = {| mr_item := {| item_id := lit "mise:" ++ kv.1; item_source := IS_MISE; label := kv.1;
                          installed := Some current; candidate := Some latest; watch_mode := OFF; watchable := true;
                          item_provenance := LIVE; installed_fingerprint := None; candidate_fingerprint := None;
                          watch_armed := false |};
            mr_requested := requested; mr_current := current; mr_latest := latest |}.

Lemma collect_mise_spec stack run records :
  (collect_mise_updates stack run = Ok (MiseCollected records)) <->
  (exists out err text d, run MISE_OUTDATED [] = CommandSucceeded out err /\ Utf8.decode out = Ok text
     /\ decode_json stack text = Ok (JObj d) /\ d <> [] /\ Forall2 tool_record d records).
Proof.
  assert (forall d, mapM (fun kv => _parse_record kv.1 kv.2) d = Ok records <-> Forall2 tool_record d records) as Hm.
  { intros d. rewrite mapM_Ok. split; intros H; (eapply Forall2_impl; [exact H|]); intros kv r; apply parse_record_spec. }
  unfold collect_mise_updates, _parse_output. split.
  - destruct (run MISE_OUTDATED []) as [out err| | | | |]; try done. destruct (Utf8.decode out) as [text|] eqn:Et; [|done].
    destruct (decode_json stack text) as [[| | | | | |[|kv d]]|[]] eqn:Ed; try done. intros H%Ok_inj.
    exists out, err, text, (kv :: d). repeat (split; [done|]). apply Hm. destruct (mapM _ _); congruence.
  - intros (out & err & text & d & -> & -> & -> & Hd & Hr%Hm). destruct d as [|kv d]; [done|]. by rewrite Hr.
Qed.

Lemma tool_record_item kv r : tool_record kv r ->
  exists current latest, mr_item r = mise_item kv.1 current latest.
Proof. intros (d & requested & current & latest & _ & _ & ->). by eexists _, _. Qed.

(** The items are of mise, named after the tools. *)
Lemma collected_items stack run records :
  collect_mise_updates stack run = Ok (MiseCollected records) ->
  Forall (fun r => exists key current latest, mr_item r = mise_item key current latest) records.
Proof.
  intros (out & err & text & d & _ & _ & _ & _ & H)%collect_mise_spec. clear -H.
  induction H as [|kv r d records (current & latest & E)%tool_record_item _ IH]; constructor; eauto.
Qed.

(** C28. mise updates are collected exactly when mise succeeded and printed, in UTF-8, a
    JSON object that is not empty and whose every value is an object of one of two forms:
    the strings [requested], [current] and [latest] and nothing else, or these with
    [name], the key of the record, [bump], null, and [source], an object of the strings
    [type] and [path]. There is one record per tool, in the order of the text, with the
    versions of that tool, and no two of the items have the same identifier. *)
Theorem mise_collected_exact stack run records :
  (collect_mise_updates stack run = Ok (MiseCollected records)) <->
  (exists out err text d, run MISE_OUTDATED [] = CommandSucceeded out err /\ Utf8.decode out = Ok text
     /\ decode_json stack text = Ok (JObj d) /\ d <> [] /\ Forall2 tool_record d records
     /\ NoDup (item_id <$> (mr_item <$> records))).
Proof.
  rewrite collect_mise_spec. split; intros (out & err & text & d & Hr & Ht & Hd & Hne & H); exists out, err, text, d;
    repeat (split; [done|]); [|by destruct H].
  apply decode_json_Ok in Hd as (_ & _ & Hd). simpl in Hd. apply andb_true_iff in Hd as [Hd%unique_spec _].
  assert (item_id <$> (mr_item <$> records) = (fun k => lit "mise:" ++ k) <$> keys d) as ->.
  { clear -H. unfold keys. induction H as [|kv r d records (current & latest & E)%tool_record_item _ IH]; [done|].
    by rewrite !fmap_cons, E, IH. }
  apply NoDup_fmap_2; [intros x y; apply app_inv_head | done].
Qed.

(** ** Two tools, one of each form *)

Definition two_tools : json :=
  let text (s : string) := JStr (lit s) in
  JObj [(lit "node", JObj [(lit "requested", text "22"); (lit "current", text "22.1"); (lit "latest", text "22.2")]);
        (lit "go", JObj [(lit "name", text "go"); (lit "requested", text "1"); (lit "current", text "1.22");
                         (lit "bump", JNull); (lit "latest", text "1.23");
                         (lit "source", JObj [(lit "type", text "mise.toml"); (lit "path", text "/h")])])].

Definition prints (v : json) : CommandRunner := fun _ _ => match dumps v with Ok text => CommandSucceeded text [] | Err _ => CommandMissing [] end.

Lemma mise_collected_exact_witness :
  exists records, collect_mise_updates 101 (prints two_tools) = Ok (MiseCollected records)
    /\ (fun r => (item_id (mr_item r), mr_current r, mr_latest r)) <$> records
       = [(lit "mise:go", lit "1.22", lit "1.23"); (lit "mise:node", lit "22.1", lit "22.2")]
    /\ NoDup (item_id <$> (mr_item <$> records)).
Proof.
  destruct (collect_mise_updates 101 (prints two_tools)) as [[records| | | | | |]|] eqn:E; try (vm_compute in E; discriminate E).
  exists records. split; [reflexivity|]. split.
  - vm_compute in E. injection E as <-. reflexivity.
  - destruct (proj1 (mise_collected_exact 101 (prints two_tools) records) E) as (out & err & text & d & _ & _ & _ & _ & _ & H).
    exact H.
Defined.
