(* ===== verification/Flatpak.v ===== *)
(** * The Flatpak adapter

    [adapters/flatpak_parser.py] and [adapters/flatpak.py]: for each scope the installed
    applications and runtimes are listed, then the updates, each of which must be of a
    listed ref. A scope that fails keeps what was listed. *)

From S2P Require Import Prelude PyStr Models Json Utf8 PyRows RunnerTypes Arch ScanOutcomes ScanNormalize SecurityFeeds.

Open Scope Z_scope.

#[global] Instance FlatpakKind_eq_dec : EqDecision FlatpakKind.
Proof. solve_decision. Defined.

#[global] Program Instance FlatpakKind_enum : StrEnum FlatpakKind := {|
  members := [FK_APP; FK_RUNTIME];
  value a := lit match a with FK_APP => "app" | FK_RUNTIME => "runtime" end%string;
|}.
Next Obligation. solve_complete. Qed.
Next Obligation. solve_distinct. Qed.

(** ** [flatpak_parser.py] *)

Record FlatpakInventoryRow := {
  row_ref : str;
  row_kind : FlatpakKind;
  row_application_id : str;
  row_arch : str;
  row_branch : str;
  row_installed : option str;
  row_origin : str;
}.

Record FlatpakUpdate := { fu_ref : str; fu_version : option str; fu_origin : str; fu_row_number : Z }.

(** A tuple of rows, or the diagnostic of a [FlatpakParseFailure]. *)
Abbreviation parsed := (outcome str).

(** [text or None] *)
Definition or_none (s : str) : option str := match s with [] => None | _ => Some s end.

Definition slash : str := lit "/".
Definition tab : str := [9%N].

Section Parser.
Context `{Tables : UnicodeTables}.

Definition _valid_component (s : str) : bool :=
  match s with [] => false | _ => isprintable s && negb (contains s slash) end.

Definition _valid_ref (ref : str) : bool :=
  match split ref slash with
  | [kind; app; arch; branch] =>
      bool_decide (is_Some (enum_of kind :> option FlatpakKind))
      && forallb _valid_component [kind; app; arch; branch]
  | _ => false
  end.

Definition inventory_refusal {A} (n : Z) (text : string) : parsed A :=
  Err (lit "Flatpak inventory row " ++ str_of_Z n ++ lit text).

(** The loop of [parse_inventory] from row [n] on. *)
Fixpoint inventory_rows (kind : FlatpakKind) (rows : list str) (n : Z) (seen : list str)
    : parsed (list FlatpakInventoryRow) :=
  match rows with
  | [] => Ok []
  | row :: rest =>
      let columns := split row tab in
      match columns with
      | [application_id; arch; branch; installed; origin] =>
          if negb (forallb _valid_component [application_id; arch; branch])
          then inventory_refusal n " has an invalid component"
          else
            let ref := join slash [value kind; application_id; arch; branch] in
            if bool_decide (ref ∈ seen)
            then Err (lit "Flatpak inventory contains duplicate ref at row " ++ str_of_Z n)
            else
              inventory ← inventory_rows kind rest (n + 1) (ref :: seen);
              Ok ({| row_ref := ref; row_kind := kind; row_application_id := application_id; row_arch := arch;
                     row_branch := branch; row_installed := or_none installed; row_origin := origin |} :: inventory)
      | _ => Err (lit "Flatpak inventory row " ++ str_of_Z n ++ lit " has " ++ str_of_Z (len columns)
                  ++ lit " columns; expected 5")
      end
  end.

Definition parse_inventory (stdout : bytes) (kind : FlatpakKind) : parsed (list FlatpakInventoryRow) :=
  match Utf8.decode stdout with
  | Err _ => Err (lit "Flatpak inventory output is not valid UTF-8")
  | Ok text => inventory_rows kind (splitlines text) 1 []
  end.

Fixpoint update_rows (rows : list str) (n : Z) (seen : list str) : parsed (list FlatpakUpdate) :=
  match rows with
  | [] => Ok []
  | row :: rest =>
      let columns := split row tab in
      match columns with
      | [ref; version; origin] =>
          if negb (_valid_ref ref)
          then Err (lit "Flatpak updates row " ++ str_of_Z n ++ lit " has an invalid ref")
          else if bool_decide (ref ∈ seen)
          then Err (lit "Flatpak updates contains duplicate ref at row " ++ str_of_Z n)
          else
            updates ← update_rows rest (n + 1) (ref :: seen);
            Ok ({| fu_ref := ref; fu_version := or_none version; fu_origin := origin; fu_row_number := n |} :: updates)
      | _ => Err (lit "Flatpak updates row " ++ str_of_Z n ++ lit " has " ++ str_of_Z (len columns)
                  ++ lit " columns; expected 3")
      end
  end.

Definition parse_updates (stdout : bytes) : parsed (list FlatpakUpdate) :=
  match Utf8.decode stdout with
  | Err _ => Err (lit "Flatpak updates output is not valid UTF-8")
  | Ok text => update_rows (splitlines text) 1 []
  end.

(** ** [flatpak.py] *)

Record _ScopeCommands := {
  commands_scope : FlatpakScope;
  commands_apps : CommandName;
  commands_runtimes : CommandName;
  commands_updates : CommandName;
}.

Definition _SCOPES : _ScopeCommands * _ScopeCommands :=
  ({| commands_scope := FS_USER; commands_apps := FLATPAK_USER_APP_LIST;
      commands_runtimes := FLATPAK_USER_RUNTIME_LIST; commands_updates := FLATPAK_USER_UPDATES |},
   {| commands_scope := FS_SYSTEM; commands_apps := FLATPAK_SYSTEM_APP_LIST;
      commands_runtimes := FLATPAK_SYSTEM_RUNTIME_LIST; commands_updates := FLATPAK_SYSTEM_UPDATES |}).

Definition _DIAGNOSTIC_LIMIT : nat := 512.

(** [_CommandFailure] *)
Record CommandFailure := { failed_status : FlatpakScopeStatus; failed_diagnostic : str }.

(** [_CommandText | _CommandFailure] and [_InventorySuccess | _CommandFailure] *)
Abbreviation command_outcome := (outcome CommandFailure).
Definition failed {A} (status : FlatpakScopeStatus) (diagnostic : str) : command_outcome A :=
  Err {| failed_status := status; failed_diagnostic := diagnostic |}.

Definition _command_outcome (result : CommandResult) : command_outcome bytes :=
  match result with
  | CommandSucceeded stdout _ => Ok stdout
  | CommandMissing diagnostic => failed FSS_MISSING_DEPENDENCY (take _DIAGNOSTIC_LIMIT diagnostic)
  | CommandTimedOut _ _ => failed FSS_TIMEOUT (lit "Flatpak command timed out")
  | CommandOutputExceeded stream _ _ =>
      failed FSS_OUTPUT_EXCEEDED (lit "Flatpak " ++ stream ++ lit " output exceeded its configured limit")
  | CommandExited code _ _ => failed FSS_ERROR (lit "Flatpak command exited with status " ++ str_of_Z code)
  | CommandRejected diagnostic => failed FSS_ERROR (take _DIAGNOSTIC_LIMIT diagnostic)
  end.

Definition _inventory_outcome (result : CommandResult) (kind : FlatpakKind)
    : command_outcome (list FlatpakInventoryRow) :=
  stdout ← _command_outcome result;
  match parse_inventory stdout kind with
  | Ok rows => Ok rows
  | Err diagnostic => failed FSS_INVALID diagnostic
  end.

Definition _record (scope : FlatpakScope) (row : FlatpakInventoryRow) : FlatpakRecord :=
  {| fr_scope := scope; fr_ref := row_ref row; fr_kind := row_kind row; fr_application_id := row_application_id row;
     fr_arch := row_arch row; fr_branch := row_branch row; fr_origin := row_origin row;
     fr_candidate_ref := None; fr_candidate_origin := None;
     fr_item := {| item_id := lit "flatpak:" ++ value scope ++ lit ":" ++ row_ref row; item_source := IS_FLATPAK;
                   label := row_application_id row; installed := row_installed row; candidate := None;
                   watch_mode := OFF; watchable := true; item_provenance := LIVE;
                   installed_fingerprint := None; candidate_fingerprint := None; watch_armed := false |} |}.

Definition _records (scope : FlatpakScope) (rows : list FlatpakInventoryRow) : list FlatpakRecord :=
  _record scope <$> rows.

Definition scope_result (scope : FlatpakScope) (status : FlatpakScopeStatus) (records : list FlatpakRecord)
    (diagnostic : option str) : FlatpakScopeResult :=
  {| fp_scope := scope; fp_status := status; fp_records := records; fp_diagnostic := diagnostic |}.

Definition _inventory_failure (scope : FlatpakScope) (failure : CommandFailure)
    (other : command_outcome (list FlatpakInventoryRow)) : FlatpakScopeResult :=
  match other with
  | Err _ => scope_result scope (failed_status failure) [] (Some (failed_diagnostic failure))
  | Ok rows => scope_result scope (failed_status failure) (_records scope rows) (Some (failed_diagnostic failure))
  end.

Definition with_item_candidate (i : NormalizedItem) (version : option str) : NormalizedItem :=
  {| item_id := item_id i; item_source := item_source i; label := label i; installed := installed i;
     candidate := version; watch_mode := watch_mode i; watchable := watchable i;
     item_provenance := item_provenance i; installed_fingerprint := installed_fingerprint i;
     candidate_fingerprint := candidate_fingerprint i; watch_armed := watch_armed i |}.

Definition _with_candidate (r : FlatpakRecord) (update : option FlatpakUpdate) : FlatpakRecord :=
  match update with
  | None => r
  | Some u =>
      {| fr_scope := fr_scope r; fr_ref := fr_ref r; fr_kind := fr_kind r; fr_application_id := fr_application_id r;
         fr_arch := fr_arch r; fr_branch := fr_branch r; fr_origin := fr_origin r;
         fr_candidate_ref := Some (fu_ref u); fr_candidate_origin := Some (fu_origin u);
         fr_item := with_item_candidate (fr_item r) (fu_version u) |}
  end.

(** [{update.ref: update for update in updates}] *)
Definition updates_by_ref (updates : list FlatpakUpdate) : gmap str FlatpakUpdate :=
  foldl (fun m u => <[fu_ref u := u]> m) ∅ updates.

Definition _reconcile_updates (scope : FlatpakScope) (records : list FlatpakRecord) (updates : list FlatpakUpdate)
    : FlatpakScopeResult :=
  match List.find (fun u => bool_decide (fu_ref u ∉ fr_ref <$> records)) updates with
  | Some u =>
      scope_result scope FSS_INVALID records
        (Some (lit "Flatpak updates contains unmatched ref at row " ++ str_of_Z (fu_row_number u)))
  | None =>
      scope_result scope FSS_OK ((fun r => _with_candidate r (updates_by_ref updates !! fr_ref r)) <$> records) None
  end.

Section Collect.
Context (run : CommandName -> CommandResult).

Definition _collect_updates (commands : _ScopeCommands) (records : list FlatpakRecord) : FlatpakScopeResult :=
  let scope := commands_scope commands in
  match _command_outcome (run (commands_updates commands)) with
  | Err failure => scope_result scope (failed_status failure) records (Some (failed_diagnostic failure))
  | Ok stdout =>
      match parse_updates stdout with
      | Err diagnostic => scope_result scope FSS_INVALID records (Some diagnostic)
      | Ok updates => _reconcile_updates scope records updates
      end
  end.

Definition _collect_scope (commands : _ScopeCommands) : FlatpakScopeResult :=
  let scope := commands_scope commands in
  let apps := _inventory_outcome (run (commands_apps commands)) FK_APP in
  let runtimes := _inventory_outcome (run (commands_runtimes commands)) FK_RUNTIME in
  match apps with
  | Err failure => _inventory_failure scope failure runtimes
  | Ok app_rows =>
      match runtimes with
      | Err failure => _inventory_failure scope failure apps
      | Ok runtime_rows =>
          match _records scope (app_rows ++ runtime_rows) with
          | [] => scope_result scope FSS_NOT_APPLICABLE [] None
          | records => _collect_updates commands records
          end
      end
  end.

Definition collect_flatpak : FlatpakResult :=
  {| fp_scopes := (_collect_scope _SCOPES.1, _collect_scope _SCOPES.2) |}.
End Collect.
End Parser.

(** ** Tables that are printed are read *)

Section Tables.
Context `{Tables : UnicodeTables}.

Definition ref_of (kind : FlatpakKind) (app arch branch : str) : str := join slash [value kind; app; arch; branch].

(** A column: without tabulator or line break. *)
Definition column (s : str) : Prop := (9%N ∉ s) /\ no_break s.
#[global] Instance column_dec s : Decision (column s).
Proof. unfold column, no_break. apply _. Defined.

Definition inventory_columns (r : FlatpakInventoryRow) : list str :=
  [row_application_id r; row_arch r; row_branch r; default [] (row_installed r); row_origin r].
Definition inventory_text (r : FlatpakInventoryRow) : str := join tab (inventory_columns r).

Definition update_columns (u : FlatpakUpdate) : list str := [fu_ref u; default [] (fu_version u); fu_origin u].
Definition update_text (u : FlatpakUpdate) : str := join tab (update_columns u).

Record proper_row (kind : FlatpakKind) (r : FlatpakInventoryRow) : Prop := {
  pr_kind : row_kind r = kind;
  pr_ref : row_ref r = ref_of kind (row_application_id r) (row_arch r) (row_branch r);
  pr_components : forallb _valid_component [row_application_id r; row_arch r; row_branch r] = true;
  pr_columns : Forall column (inventory_columns r);
  pr_installed : row_installed r <> Some [];
}.

Record proper_update (u : FlatpakUpdate) : Prop := {
  pu_ref : _valid_ref (fu_ref u) = true;
  pu_columns : Forall column (update_columns u);
  pu_version : fu_version u <> Some [];
}.

Lemma or_none_default o : o <> Some [] -> or_none (default [] o) = o.
Proof. by destruct o as [[|c s]|]. Qed.

Lemma join_no_break l : Forall column l -> no_break (join tab l).
Proof.
  intros H. induction H as [|s l [_ Hs] H IH]; [constructor|]. destruct l as [|t l]; [done|].
  change (join tab (s :: t :: l)) with (s ++ tab ++ join tab (t :: l)). apply Forall_app_2; [done|].
  apply Forall_app_2; [|done]. by repeat constructor.
Qed.

Lemma split_columns l : l <> [] -> Forall column l -> split (join tab l) tab = l.
Proof. intros Hne H. apply split_join; [done|]. eapply Forall_impl; [exact H|]. by intros s []. Qed.

Lemma inventory_rows_inverse kind rows n seen :
  Forall (proper_row kind) rows -> NoDup (row_ref <$> rows) -> Forall (fun r => row_ref r ∉ seen) rows ->
  inventory_rows kind (inventory_text <$> rows) n seen = Ok rows.
Proof.
  intros H. revert n seen. induction H as [|r rows [Hk Hr Hc Hcol Hi] _ IH]; intros n seen; [done|].
  rewrite fmap_cons, NoDup_cons. intros [Hn Hnd] [Hs Hseen]%Forall_cons.
  cbn [fmap list_fmap inventory_rows]. unfold inventory_text at 1. rewrite split_columns by done.
  unfold inventory_columns. rewrite Hc. cbn [negb]. fold (ref_of kind (row_application_id r) (row_arch r) (row_branch r)).
  rewrite <-Hr. rewrite bool_decide_false by done. rewrite IH; [|done|].
  - cbn [mbind outcome_bind]. rewrite or_none_default by done. rewrite <-Hk. by destruct r.
  - apply Forall_forall. intros q Hq. rewrite Forall_forall in Hseen. rewrite not_elem_of_cons. split; [|auto].
    intros E. apply Hn. rewrite <-E. by apply list_elem_of_fmap_2.
Qed.

Lemma flatpak_rows_inverse updates n seen :
  Forall proper_update updates -> NoDup (fu_ref <$> updates) -> Forall (fun u => fu_ref u ∉ seen) updates ->
  fu_row_number <$> updates = seqZ n (len updates) ->
  update_rows (update_text <$> updates) n seen = Ok updates.
Proof.
  intros H. revert n seen. induction H as [|u updates [Hr Hcol Hv] _ IH]; intros n seen; [done|].
  rewrite fmap_cons, NoDup_cons. intros [Hn Hnd] [Hs Hseen]%Forall_cons. unfold len. rewrite seqZ_cons by (cbn [length]; lia).
  intros [= Hnum Hrest]. cbn [fmap list_fmap update_rows]. unfold update_text at 1. rewrite split_columns by done.
  unfold update_columns. rewrite Hr. cbn [negb]. rewrite bool_decide_false by done. rewrite IH; [|done| |].
  - cbn [mbind outcome_bind]. rewrite or_none_default by done. rewrite <-Hnum. by destruct u.
  - apply Forall_forall. intros q Hq. rewrite Forall_forall in Hseen. rewrite not_elem_of_cons. split; [|auto].
    intros E. apply Hn. rewrite <-E. by apply list_elem_of_fmap_2.
  - etrans; [exact Hrest|]. unfold len. f_equal; cbn [length]; lia.
Qed.

(** The output of a command that prints these rows. *)
Definition prints (rows : list str) (result : CommandResult) : Prop :=
  exists out err, Utf8.encode (lines_text rows) = Ok out /\ result = CommandSucceeded out err.

Lemma inventory_read kind rows result :
  Forall (proper_row kind) rows -> NoDup (row_ref <$> rows) -> prints (inventory_text <$> rows) result ->
  _inventory_outcome result kind = Ok rows.
Proof.
  intros Hp Hn (out & err & E%encode_decode & ->). unfold _inventory_outcome, parse_inventory. cbn. rewrite E.
  rewrite splitlines_text; [|apply Forall_fmap; eapply Forall_impl; [exact Hp|]; intros r []; by apply join_no_break].
  rewrite inventory_rows_inverse; [done | done | done |]. by apply Forall_true; intros ? ?%elem_of_nil.
Qed.

Lemma updates_read updates out :
  Forall proper_update updates -> NoDup (fu_ref <$> updates) -> fu_row_number <$> updates = seqZ 1 (len updates) ->
  Utf8.encode (lines_text (update_text <$> updates)) = Ok out -> parse_updates out = Ok updates.
Proof.
  intros Hp Hn Hnum E%encode_decode. unfold parse_updates. rewrite E.
  rewrite splitlines_text; [|apply Forall_fmap; eapply Forall_impl; [exact Hp|]; intros r []; by apply join_no_break].
  apply flatpak_rows_inverse; try done. by apply Forall_true; intros ? ?%elem_of_nil.
Qed.

(** The update of a ref. *)
Definition update_of (updates : list FlatpakUpdate) (ref : str) : option FlatpakUpdate :=
  List.find (fun u => bool_decide (fu_ref u = ref)) updates.

Lemma updates_by_ref_lookup updates ref :
  NoDup (fu_ref <$> updates) -> updates_by_ref updates !! ref = update_of updates ref.
Proof.
  unfold updates_by_ref, update_of. intros Hn.
  assert (forall m : gmap str FlatpakUpdate, foldl (fun m u => <[fu_ref u := u]> m) m updates !! ref
    = match List.find (fun u => bool_decide (fu_ref u = ref)) updates with Some u => Some u | None => m !! ref end) as H;
    [|rewrite H; by case_match].
  induction updates as [|u updates IH]; intros m; [done|]. rewrite fmap_cons, NoDup_cons in Hn. destruct Hn as [Hu Hn].
  cbn [foldl List.find]. rewrite IH by done. case_bool_decide as E.
  - subst. by rewrite (find_not_in fu_ref), lookup_insert_eq.
  - by rewrite lookup_insert_ne.
Qed.

(** The record of a row with the update there is for it. *)
Definition joined_record (scope : FlatpakScope) (updates : list FlatpakUpdate) (r : FlatpakInventoryRow) : FlatpakRecord :=
  _with_candidate (_record scope r) (update_of updates (row_ref r)).

Lemma reconcile_updates_spec scope rows updates :
  NoDup (fu_ref <$> updates) -> Forall (fun u => fu_ref u ∈ row_ref <$> rows) updates ->
  _reconcile_updates scope (_records scope rows) updates
  = scope_result scope FSS_OK (joined_record scope updates <$> rows) None.
Proof.
  intros Hn Hu. unfold _reconcile_updates. assert (fr_ref <$> _records scope rows = row_ref <$> rows) as Hr.
  { unfold _records. by rewrite <-list_fmap_compose. }
  destruct (List.find _ updates) as [u|] eqn:E.
  - apply find_Some in E as [Hin Hb%bool_decide_eq_true]. rewrite Forall_forall in Hu. rewrite Hr in Hb.
    by destruct (Hb (Hu u Hin)).
  - unfold _records. rewrite <-list_fmap_compose. f_equal. apply list_fmap_ext. intros ? r _. cbn.
    unfold joined_record. by rewrite updates_by_ref_lookup.
Qed.

(** C27. When flatpak prints its tables of applications, runtimes and updates, the scope
    is reported with one record per row, applications first, in the order printed, each
    with the version and origin of the update of its ref and no other. *)
Theorem flatpak_scope_complete commands run apps runtimes updates :
  Forall (proper_row FK_APP) apps -> NoDup (row_ref <$> apps) ->
  Forall (proper_row FK_RUNTIME) runtimes -> NoDup (row_ref <$> runtimes) -> apps ++ runtimes <> [] ->
  Forall proper_update updates -> NoDup (fu_ref <$> updates) -> fu_row_number <$> updates = seqZ 1 (len updates) ->
  Forall (fun u => fu_ref u ∈ row_ref <$> (apps ++ runtimes)) updates ->
  prints (inventory_text <$> apps) (run (commands_apps commands)) ->
  prints (inventory_text <$> runtimes) (run (commands_runtimes commands)) ->
  prints (update_text <$> updates) (run (commands_updates commands)) ->
  let scope := commands_scope commands in
  _collect_scope run commands = scope_result scope FSS_OK (joined_record scope updates <$> (apps ++ runtimes)) None.
Proof.
  intros Ha Han Hr Hrn Hne Hu Hun Hnum Hin Pa Pr (out & err & E & Eu) scope. unfold _collect_scope.
  rewrite (inventory_read FK_APP apps), (inventory_read FK_RUNTIME runtimes) by done.
  assert (_records scope (apps ++ runtimes) <> []) as Hne'.
  { unfold _records. intros ?%fmap_nil_inv. done. }
  fold scope. rewrite <-(reconcile_updates_spec scope (apps ++ runtimes) updates) by done.
  destruct (_records scope (apps ++ runtimes)) as [|x l] eqn:El; [done|].
  unfold _collect_updates. rewrite Eu. cbn [_command_outcome]. by rewrite (updates_read updates out).
Qed.

(** ** Whatever is printed *)

Lemma inventory_rows_sound kind rows n seen l :
  inventory_rows kind rows n seen = Ok l ->
  NoDup (row_ref <$> l)
  /\ Forall (fun r => row_kind r = kind /\ row_ref r = ref_of kind (row_application_id r) (row_arch r) (row_branch r)
                      /\ (row_ref r ∉ seen) /\ row_application_id r <> []) l.
Proof.
  revert n seen l. induction rows as [|row rows IH]; intros n seen l; cbn [inventory_rows]; [intros <-%Ok_inj; repeat constructor|].
  destruct (split row tab) as [|app [|arch [|branch [|inst [|origin [|? ?]]]]]]; try done.
  destruct (forallb _ _) eqn:Ec; [|done]. cbn [negb]. case_bool_decide as Hs; [done|].
  intros (rest & [Hn Hf]%IH & <-%Ok_inj)%bind_Ok. split.
  - rewrite fmap_cons. apply NoDup_cons. split; [|done]. intros (r & E & Hr)%list_elem_of_fmap.
    rewrite Forall_forall in Hf. destruct (Hf r Hr) as (_ & _ & H & _). apply H. rewrite <-E. by left.
  - constructor; [|eapply Forall_impl; [exact Hf|]; intros r (? & ? & H & ?); rewrite not_elem_of_cons in H; naive_solver].
    repeat split; try done. cbn. by destruct app.
Qed.

(** A record of this scope, with or without a candidate. *)
Definition scope_record (scope : FlatpakScope) (r : FlatpakRecord) : Prop :=
  fr_scope r = scope /\ fr_ref r = ref_of (fr_kind r) (fr_application_id r) (fr_arch r) (fr_branch r)
  /\ item_id (fr_item r) = lit "flatpak:" ++ value scope ++ lit ":" ++ fr_ref r
  /\ item_source (fr_item r) = IS_FLATPAK /\ label (fr_item r) = fr_application_id r
  /\ fr_application_id r <> [] /\ watch_armed (fr_item r) = false.

Definition scope_records (scope : FlatpakScope) (l : list FlatpakRecord) : Prop :=
  NoDup (fr_ref <$> l) /\ Forall (scope_record scope) l.

Lemma inventory_outcome_sound scope kind result rows :
  _inventory_outcome result kind = Ok rows ->
  scope_records scope (_records scope rows) /\ Forall (fun r => row_kind r = kind) rows.
Proof.
  unfold _inventory_outcome. intros (out & _ & H)%bind_Ok. unfold parse_inventory in H.
  destruct (Utf8.decode out); [|done]. destruct (inventory_rows _ _ _ _) as [l|] eqn:E; [|done]. apply Ok_inj in H as <-.
  apply inventory_rows_sound in E as [Hn Hf]. unfold _records, scope_records. rewrite <-list_fmap_compose, Forall_fmap.
  split; [split; [done|]|]; (eapply Forall_impl; [exact Hf|]); intros r (Hk & Hr & _ & Ha); [|done].
  repeat split; try done. cbn. by rewrite Hk.
Qed.

Lemma kinds_disjoint scope apps runtimes :
  scope_records scope (_records scope apps) -> Forall (fun r => row_kind r = FK_APP) apps ->
  scope_records scope (_records scope runtimes) -> Forall (fun r => row_kind r = FK_RUNTIME) runtimes ->
  scope_records scope (_records scope (apps ++ runtimes)).
Proof.
  unfold scope_records, _records. intros [Ha Fa] Ka [Hr Fr] Kr. rewrite !fmap_app. split; [|by apply Forall_app].
  apply NoDup_app. split; [done|]. split; [|done].
  intros ref (r & -> & (a & -> & Hin)%list_elem_of_fmap)%list_elem_of_fmap (r' & E & (b & -> & Hin')%list_elem_of_fmap)%list_elem_of_fmap.
  rewrite Forall_fmap, Forall_forall in Fa, Fr. rewrite Forall_forall in Ka, Kr.
  destruct (Fa a Hin) as (_ & Ea & _), (Fr b Hin') as (_ & Eb & _). rewrite Ea, Eb in E.
  cbn in E. rewrite (Ka a Hin), (Kr b Hin') in E. unfold ref_of in E. by lits.
Qed.

Lemma reconcile_sound scope records updates :
  scope_records scope records -> scope_records scope (fp_records (_reconcile_updates scope records updates)).
Proof.
  unfold scope_records, _reconcile_updates. intros [Hn Hf]. destruct (List.find _ _); [done|]. cbn.
  rewrite <-list_fmap_compose, Forall_fmap. split.
  - erewrite list_fmap_ext; [exact Hn|]. intros ? r _. cbn. by destruct (updates_by_ref _ !! _).
  - eapply Forall_impl; [exact Hf|]. intros r Hr. cbn. by destruct (updates_by_ref _ !! _).
Qed.

(** Whatever flatpak prints and however it fails, a scope is reported under its own name,
    with records of its own, no two of the same ref. *)
Lemma collect_scope_sound run commands :
  fp_scope (_collect_scope run commands) = commands_scope commands
  /\ scope_records (commands_scope commands) (fp_records (_collect_scope run commands)).
Proof.
  assert (scope_records (commands_scope commands) []) as Hnil by (split; constructor). unfold _collect_scope.
  destruct (_inventory_outcome (run (commands_apps commands)) FK_APP) as [apps|f] eqn:Ea;
  destruct (_inventory_outcome (run (commands_runtimes commands)) FK_RUNTIME) as [runtimes|f'] eqn:Er;
    try (apply (inventory_outcome_sound (commands_scope commands)) in Ea as [Ha Ka]);
    try (apply (inventory_outcome_sound (commands_scope commands)) in Er as [Hr Kr]); try done.
  pose proof (kinds_disjoint _ _ _ Ha Ka Hr Kr) as Hrec.
  destruct (_records _ (apps ++ runtimes)) as [|r l]; [done|]. unfold _collect_updates.
  destruct (_command_outcome _) as [out|]; [|done]. destruct (parse_updates out); [|done].
  split; [unfold _reconcile_updates; by case_match | by apply reconcile_sound].
Qed.
End Tables.

(** ** Witness: a machine with one application, one runtime, and an update of the latter. *)

Definition sample_app : FlatpakInventoryRow :=
  {| row_ref := lit "app/org.gimp.GIMP/x86_64/stable"; row_kind := FK_APP; row_application_id := lit "org.gimp.GIMP";
     row_arch := lit "x86_64"; row_branch := lit "stable"; row_installed := Some (lit "2.10"); row_origin := lit "flathub" |}.
Definition sample_runtime : FlatpakInventoryRow :=
  {| row_ref := lit "runtime/org.gnome.Platform/x86_64/45"; row_kind := FK_RUNTIME;
     row_application_id := lit "org.gnome.Platform"; row_arch := lit "x86_64"; row_branch := lit "45";
     row_installed := None; row_origin := lit "flathub" |}.
Definition sample_update : FlatpakUpdate :=
  {| fu_ref := lit "runtime/org.gnome.Platform/x86_64/45"; fu_version := Some (lit "45.2"); fu_origin := lit "flathub";
     fu_row_number := 1 |}.

Definition sample_flatpak : CommandName -> CommandResult := fun name =>
  match name with
  | FLATPAK_USER_APP_LIST => CommandSucceeded (lines_text [inventory_text sample_app]) []
  | FLATPAK_USER_RUNTIME_LIST => CommandSucceeded (lines_text [inventory_text sample_runtime]) []
  | FLATPAK_USER_UPDATES => CommandSucceeded (lines_text [update_text sample_update]) []
  | _ => CommandMissing (lit "executable not found")
  end.

Lemma flatpak_scope_complete_witness :
  _collect_scope sample_flatpak _SCOPES.1
  = scope_result FS_USER FSS_OK (joined_record FS_USER [sample_update] <$> [sample_app; sample_runtime]) None
  /\ candidate (fr_item (joined_record FS_USER [sample_update] sample_runtime)) = Some (lit "45.2").
Proof.
  split; [|vm_compute; reflexivity].
  apply (flatpak_scope_complete _SCOPES.1 sample_flatpak [sample_app] [sample_runtime] [sample_update]);
    try (eexists _, _; split; vm_compute; reflexivity); try done.
  - constructor; [|constructor]. constructor; try done. apply (bool_decide_unpack _). vm_compute. exact I.
  - apply NoDup_singleton.
  - constructor; [|constructor]. constructor; try done. apply (bool_decide_unpack _). vm_compute. exact I.
  - apply NoDup_singleton.
  - constructor; [|constructor]. constructor; try done. apply (bool_decide_unpack _). vm_compute. exact I.
  - apply NoDup_singleton.
  - constructor; [|constructor]. right. left.
Defined.
