(* ===== verification/Omarchy.v ===== *)
(** * The Omarchy adapter

    [adapters/omarchy.py]: the rows of [omarchy-update-available], for the package and for
    a development checkout, with whatever is unexpected kept, redacted, as a diagnostic. *)

From S2P Require Import Prelude PyStr Models Json JsonText Utf8 Regex RunnerTypes Redaction Arch ScanOutcomes ScanNormalize SecurityFeeds.

Open Scope Z_scope.

(** Up to the end of the line. *)
Definition _UP_TO_DATE : bytes := lit "Omarchy is up to date" ++ [10%N].
Definition _DIAGNOSTIC_BYTES : nat := 512.

Definition graphic (c : N) : bool := ((33 <=? c) && (c <=? 126))%N.
Definition rgraphics : regex := rplus (RSet graphic).

(** omarchy or omarchy-dev, the version installed, an arrow, the version offered *)
Definition _PACKAGE_ROW : regex :=
  RCat (RCat (rlit (lit "omarchy")) (RAlt REps (rlit (lit "-dev"))))
    (RCat (rlit (lit " ")) (RCat rgraphics (RCat (rlit (lit " -> ")) rgraphics))).

(** A count without leading zero. *)
Definition count : regex := RCat (RSet (fun c => (49 <=? c) && (c <=? 57))%N) (RStar rdigit).

Definition _DEVELOPMENT_ROW : regex :=
  RCat (rlit (lit "omarchy-dev-checkout ")) (RCat count (RCat (rlit (lit " new "))
    (RCat (RAlt (rlit (lit "commit")) (rlit (lit "commits"))) (RCat (rlit (lit " on ")) rgraphics)))).

Definition omarchy_item (id label_ : str) (inst cand : option str) (can_watch : bool) : NormalizedItem :=
  {| item_id := id; item_source := IS_OMARCHY; label := label_; installed := inst; candidate := cand;
     watch_mode := OFF; watchable := can_watch; item_provenance := LIVE; installed_fingerprint := None;
     candidate_fingerprint := None; watch_armed := false |}.

Definition package_item (package inst cand : str) : NormalizedItem :=
  omarchy_item (lit "omarchy:" ++ package) package (Some inst) (Some cand) true.
Definition checkout_item (behind : Z) (commit_word upstream : str) : NormalizedItem :=
  omarchy_item (lit "omarchy:dev-checkout") (lit "Omarchy development checkout") None
    (Some (str_of_Z behind ++ lit " new " ++ commit_word ++ lit " on " ++ upstream)) false.

Definition space : str := lit " ".

(** The groups of a match: no group has a space in it, so that they are the words of the
    row. *)
Definition package_match (row : str) : option (str * str * str) :=
  if fullmatch _PACKAGE_ROW row
  then match split row space with [package; inst; _; cand] => Some (package, inst, cand) | _ => None end
  else None.
Definition development_match (row : str) : option (str * str * str) :=
  if fullmatch _DEVELOPMENT_ROW row
  then match split row space with
       | [_; behind; _; commit_word; _; upstream] => Some (behind, commit_word, upstream)
       | _ => None
       end
  else None.

(** [int] raises for a count of too many digits. *)
Definition _parse_row (row : str) : res (option NormalizedItem) :=
  match package_match row with
  | Some (package, inst, cand) => Ok (Some (package_item package inst cand))
  | None =>
      match development_match row with
      | None => Ok None
      | Some (digits, commit_word, upstream) =>
          behind ← int_of false digits;
          Ok (if Bool.eqb (behind =? 1) (bool_decide (commit_word = lit "commit"))
              then Some (checkout_item behind commit_word upstream) else None)
      end
  end.

Section Omarchy.
Context `{Tables : UnicodeTables} (_HOME : str) (runner : CommandRunner).

Definition _snippet (v : bytes) : str :=
  let printable := (fun c => if printable_char c then c else 32%N) <$> decode_replace (take _DIAGNOSTIC_BYTES v) in
  join space (fields printable).

Definition _diagnostic (msg : str) (outputs : list bytes) : str :=
  redact_diagnostic _HOME
    (join (lit " | ") (msg :: List.filter (fun s => match s with [] => false | _ => true end) (_snippet <$> outputs))).

Definition availability (status : SourceStatus) (its : list NormalizedItem) (diagnostic : option str)
    : OmarchyAvailability := {| oa_status := status; oa_items := its; oa_diagnostic := diagnostic |}.

Definition _invalid (msg : string) (stdout stderr : bytes) : OmarchyAvailability :=
  availability SS_INVALID [] (Some (_diagnostic (lit msg) [stdout; stderr])).
Definition _error (msg : str) (stdout stderr : bytes) : OmarchyAvailability :=
  availability SS_ERROR [] (Some (_diagnostic msg [stdout; stderr])).

(** The loop over the rows: the items, or the message of the row that is refused. *)
Fixpoint available_rows (rows : list str) (seen : list str) : res (outcome string (list NormalizedItem)) :=
  match rows with
  | [] => Ok (Ok [])
  | row :: rest =>
      item ← _parse_row row;
      match item with
      | None => Ok (Err "unrecognized Omarchy availability row"%string)
      | Some i =>
          if bool_decide (item_id i ∈ seen) then Ok (Err "duplicate Omarchy availability row"%string)
          else items ← available_rows rest (item_id i :: seen); Ok (fmap (M:=outcome string) (cons i) items)
      end
  end.

Definition _parse_available_rows (stdout stderr : bytes) : res OmarchyAvailability :=
  items ← available_rows (splitlines (decode_replace stdout)) [];
  Ok match items with
     | Err msg => _invalid msg stdout stderr
     | Ok [] => _invalid "successful Omarchy command returned no rows" stdout stderr
     | Ok its => availability SS_OK its None
     end.

(** [diagnostic.encode()] raises for a surrogate. *)
Definition collect_omarchy_availability : res OmarchyAvailability :=
  match runner OMARCHY_UPDATE_AVAILABLE [] with
  | CommandSucceeded stdout stderr => _parse_available_rows stdout stderr
  | CommandExited code stdout stderr =>
      if (code =? 1) && bool_decide (stderr = []) && bool_decide (stdout = _UP_TO_DATE)
      then Ok (availability SS_OK [] None)
      else Ok (_error (lit "unexpected command exit " ++ str_of_Z code) stdout stderr)
  | CommandMissing diagnostic =>
      raw ← Utf8.encode diagnostic;
      Ok (availability SS_MISSING_DEPENDENCY []
            (Some (_diagnostic (lit "Omarchy command is unavailable") [raw; []])))
  | CommandTimedOut stdout stderr =>
      Ok (availability SS_TIMEOUT [] (Some (_diagnostic (lit "Omarchy command timed out") [stdout; stderr])))
  | CommandOutputExceeded stream stdout stderr =>
      Ok (_error (lit "Omarchy command output exceeded " ++ stream ++ lit " limit") stdout stderr)
  | CommandRejected diagnostic =>
      raw ← Utf8.encode diagnostic;
      Ok (availability SS_ERROR [] (Some (_diagnostic (lit "Omarchy command was rejected") [raw; []])))
  end.
End Omarchy.

(** ** What a row says *)

Definition word_text (s : str) : Prop := s <> [] /\ forallb graphic s = true.

Inductive row_item : str -> NormalizedItem -> Prop :=
| row_package package inst cand :
    package ∈ OMARCHY_DUPLICATE_FILTER -> word_text inst -> word_text cand ->
    row_item (package ++ lit " " ++ inst ++ lit " -> " ++ cand) (package_item package inst cand)
| row_checkout digits behind commit_word upstream :
    fullmatch count digits = true -> int_of false digits = Ok behind -> word_text upstream ->
    commit_word = (if behind =? 1 then lit "commit" else lit "commits") ->
    row_item (lit "omarchy-dev-checkout " ++ digits ++ lit " new " ++ commit_word ++ lit " on " ++ upstream)
      (checkout_item behind commit_word upstream).

Lemma graphics_text s : matches rgraphics s <-> word_text s.
Proof. apply matches_plus_set. Qed.

Lemma word_no_space s : word_text s -> 32%N ∉ s.
Proof.
  intros [_ H] Hin. rewrite forallb_forall in H. specialize (H 32%N (proj1 (list_elem_of_In _ _) Hin)). discriminate H.
Qed.

Lemma omarchy_words package : package ∈ OMARCHY_DUPLICATE_FILTER <->
  matches (RCat (rlit (lit "omarchy")) (RAlt REps (rlit (lit "-dev")))) package.
Proof.
  rewrite matches_cat. setoid_rewrite matches_alt. setoid_rewrite matches_rlit. setoid_rewrite matches_eps.
  unfold OMARCHY_DUPLICATE_FILTER, names. split.
  - intros H. apply list_elem_of_fmap in H as (s & -> & H). repeat (apply elem_of_cons in H as [->|H]);
      [exists (lit "omarchy"), [] | exists (lit "omarchy"), (lit "-dev") | by apply elem_of_nil in H];
      (split; [reflexivity|]; split; [done|]; auto).
  - intros (s1 & s2 & -> & -> & [->| ->]); [left | right; left].
Qed.

Lemma package_row_split package inst cand :
  package ∈ OMARCHY_DUPLICATE_FILTER -> word_text inst -> word_text cand ->
  split (package ++ lit " " ++ inst ++ lit " -> " ++ cand) space = [package; inst; lit "->"; cand].
Proof.
  intros Hp Hi Hc. change (package ++ lit " " ++ inst ++ lit " -> " ++ cand)
    with (package ++ [32%N] ++ inst ++ [32%N] ++ lit "->" ++ [32%N] ++ cand).
  apply (split_join 32 [package; inst; lit "->"; cand]); [done|].
  repeat constructor; try (by apply word_no_space).
  - unfold OMARCHY_DUPLICATE_FILTER, names in Hp. apply list_elem_of_fmap in Hp as (s & -> & H).
    repeat (apply elem_of_cons in H as [->|H]); [..|by apply elem_of_nil in H]; apply (bool_decide_unpack _); vm_compute; exact I.
Qed.

Lemma package_match_spec row package inst cand :
  package_match row = Some (package, inst, cand) <->
  row = package ++ lit " " ++ inst ++ lit " -> " ++ cand /\ package ∈ OMARCHY_DUPLICATE_FILTER
  /\ word_text inst /\ word_text cand.
Proof.
  assert (matches _PACKAGE_ROW row <-> exists p i c, row = p ++ lit " " ++ i ++ lit " -> " ++ c
            /\ p ∈ OMARCHY_DUPLICATE_FILTER /\ word_text i /\ word_text c) as Hm.
  { unfold _PACKAGE_ROW. setoid_rewrite omarchy_words. setoid_rewrite <-graphics_text. split.
    - intros (p & r1 & -> & Hp & (x & r2 & -> & ->%matches_rlit & (i & r3 & -> & Hi & (y & c & -> & ->%matches_rlit & Hc)%matches_cat)
        %matches_cat)%matches_cat)%matches_cat. by exists p, i, c.
    - intros (p & i & c & -> & Hp & Hi & Hc). repeat (constructor; [done || by apply matches_rlit|]). done. }
  unfold package_match. rewrite <-fullmatch_matches in Hm. split.
  - destruct (fullmatch _PACKAGE_ROW row); [|done]. destruct (proj1 Hm eq_refl) as (p & i & c & -> & Hp & Hi & Hc).
    rewrite package_row_split by done. by intros [= -> -> ->].
  - intros (-> & Hp & Hi & Hc). rewrite (proj2 Hm) by eauto 10. by rewrite package_row_split.
Qed.

Lemma count_no_space digits : matches count digits -> 32%N ∉ digits.
Proof. intros H. by apply (avoids_spec 32 count). Qed.

Lemma development_row_split digits commit_word upstream :
  matches count digits -> commit_word = lit "commit" \/ commit_word = lit "commits" -> word_text upstream ->
  split (lit "omarchy-dev-checkout " ++ digits ++ lit " new " ++ commit_word ++ lit " on " ++ upstream) space
  = [lit "omarchy-dev-checkout"; digits; lit "new"; commit_word; lit "on"; upstream].
Proof.
  intros Hd Hw Hu. change (lit "omarchy-dev-checkout " ++ digits ++ lit " new " ++ commit_word ++ lit " on " ++ upstream)
    with (lit "omarchy-dev-checkout" ++ [32%N] ++ digits ++ [32%N] ++ lit "new" ++ [32%N] ++ commit_word ++ [32%N] ++ lit "on" ++ [32%N] ++ upstream).
  apply (split_join 32 [lit "omarchy-dev-checkout"; digits; lit "new"; commit_word; lit "on"; upstream]); [done|].
  constructor; [apply (bool_decide_unpack _); vm_compute; exact I|]. constructor; [by apply count_no_space|].
  constructor; [apply (bool_decide_unpack _); vm_compute; exact I|].
  constructor; [destruct Hw as [-> | ->]; apply (bool_decide_unpack _); vm_compute; exact I|].
  constructor; [apply (bool_decide_unpack _); vm_compute; exact I|]. constructor; [by apply word_no_space | constructor].
Qed.

Lemma development_match_spec row digits commit_word upstream :
  development_match row = Some (digits, commit_word, upstream) <->
  row = lit "omarchy-dev-checkout " ++ digits ++ lit " new " ++ commit_word ++ lit " on " ++ upstream
  /\ matches count digits /\ (commit_word = lit "commit" \/ commit_word = lit "commits") /\ word_text upstream.
Proof.
  assert (matches _DEVELOPMENT_ROW row <-> exists d w u,
            row = lit "omarchy-dev-checkout " ++ d ++ lit " new " ++ w ++ lit " on " ++ u
            /\ matches count d /\ (w = lit "commit" \/ w = lit "commits") /\ word_text u) as Hm.
  { unfold _DEVELOPMENT_ROW. setoid_rewrite <-graphics_text. split.
    - intros (x & r1 & -> & ->%matches_rlit & (d & r2 & -> & Hd & (y & r3 & -> & ->%matches_rlit & (w & r4 & -> & Hw &
        (z & u & -> & ->%matches_rlit & Hu)%matches_cat)%matches_cat)%matches_cat)%matches_cat)%matches_cat.
      exists d, w, u. apply matches_alt in Hw. by rewrite !matches_rlit in Hw.
    - intros (d & w & u & -> & Hd & Hw & Hu). constructor; [by apply matches_rlit|]. constructor; [done|].
      constructor; [by apply matches_rlit|]. constructor; [|constructor; [by apply matches_rlit | done]].
      apply matches_alt. by rewrite !matches_rlit. }
  unfold development_match. rewrite <-fullmatch_matches in Hm. split.
  - destruct (fullmatch _DEVELOPMENT_ROW row); [|done]. destruct (proj1 Hm eq_refl) as (d & w & u & -> & Hd & Hw & Hu).
    rewrite development_row_split by done. by intros [= -> -> ->].
  - intros (-> & Hd & Hw & Hu). rewrite (proj2 Hm) by eauto 10. by rewrite development_row_split.
Qed.

Lemma parse_row_spec row i : _parse_row row = Ok (Some i) <-> row_item row i.
Proof.
  unfold _parse_row. split.
  - destruct (package_match row) as [[[package inst] cand]|] eqn:Ep.
    { apply package_match_spec in Ep as (-> & Hp & Hi & Hc). intros [= <-]. by constructor. }
    destruct (development_match row) as [[[digits commit_word] upstream]|] eqn:Ed; [|done].
    apply development_match_spec in Ed as (-> & Hd & Hw & Hu). intros (behind & Hb & H)%bind_Ok.
    destruct (Bool.eqb _ _) eqn:E; [|done]. injection H as <-. constructor; [by apply fullmatch_matches | done | done |].
    apply Bool.eqb_prop in E. rewrite E. case_bool_decide; [done|]. by destruct Hw.
  - intros [package inst cand Hp Hi Hc|digits behind commit_word upstream Hd Hb Hu Hw].
    { by rewrite (proj2 (package_match_spec _ package inst cand)). }
    apply fullmatch_matches in Hd.
    assert (commit_word = lit "commit" \/ commit_word = lit "commits") as Hw' by (rewrite Hw; destruct (behind =? 1); auto).
    destruct (package_match _) as [[[package inst] cand]|] eqn:Ep.
    + apply package_match_spec in Ep as (E & Hp & Hi & Hc). apply (f_equal (fun s => split s space)) in E.
      rewrite development_row_split, package_row_split in E by done. discriminate E.
    + rewrite (proj2 (development_match_spec _ digits commit_word upstream)) by done. rewrite Hb. simpl. rewrite Hw.
      by destruct (behind =? 1).
Qed.

Lemma available_rows_spec rows seen its :
  available_rows rows seen = Ok (Ok its) <->
  Forall2 row_item rows its /\ NoDup (item_id <$> its) /\ Forall (fun i => item_id i ∉ seen) its.
Proof.
  revert seen its. induction rows as [|row rows IH]; intros seen its; cbn [available_rows].
  - split; [intros [= <-]; repeat constructor | intros (H & _); by inversion H].
  - split.
    + intros ([i|] & Hi & H)%bind_Ok; [|done]. apply parse_row_spec in Hi. case_bool_decide as Hs; [done|].
      apply bind_Ok in H as ([l|] & Hl & [= <-]). apply IH in Hl as (Hf & Hn & Hseen). split; [by constructor|].
      rewrite fmap_cons, NoDup_cons. split.
      * split; [|done]. intros (j & E & Hj)%list_elem_of_fmap. rewrite Forall_forall in Hseen. apply (Hseen j Hj). rewrite <-E. by left.
      * constructor; [done|]. eapply Forall_impl; [exact Hseen|]. intros j. rewrite not_elem_of_cons. tauto.
    + intros (Hf & Hn & Hs). inversion Hf as [|? i ? l Hi Hl]; subst. rewrite fmap_cons, NoDup_cons in Hn. destruct Hn as [Hx Hn].
      apply Forall_cons in Hs as [Hi' Hs]. rewrite (proj2 (parse_row_spec row i) Hi). cbn [mbind outcome_bind].
      rewrite bool_decide_false by done. rewrite (proj2 (IH _ l)); [done|]. split; [done|]. split; [done|].
      apply Forall_forall. intros j Hj. rewrite Forall_forall in Hs. rewrite not_elem_of_cons. split; [|auto].
      intros E. apply Hx. rewrite <-E. by apply list_elem_of_fmap_2.
Qed.

Section Facts.
Context `{Tables : UnicodeTables} (_HOME : str) (runner : CommandRunner).

(** The two answers that are taken for good. *)
Definition reports (its : list NormalizedItem) : Prop :=
  its = [] /\ runner OMARCHY_UPDATE_AVAILABLE [] = CommandExited 1 _UP_TO_DATE []
  \/ its <> [] /\ NoDup (item_id <$> its) /\ exists out err,
       runner OMARCHY_UPDATE_AVAILABLE [] = CommandSucceeded out err
       /\ Forall2 row_item (splitlines (decode_replace out)) its.

Lemma parse_available_ok stdout stderr a :
  _parse_available_rows _HOME stdout stderr = Ok a -> oa_status a = SS_OK ->
  available_rows (splitlines (decode_replace stdout)) [] = Ok (Ok (oa_items a)) /\ oa_items a <> [] /\ oa_diagnostic a = None.
Proof.
  unfold _parse_available_rows. intros (items & Hi & H)%bind_Ok Hs. rewrite Hi. destruct items as [[|i l]|m]; injection H as <-; done.
Qed.

Lemma omarchy_spec its :
  (exists a, collect_omarchy_availability _HOME runner = Ok a /\ oa_status a = SS_OK /\ oa_items a = its) <-> reports its.
Proof.
  unfold collect_omarchy_availability, reports. split.
  - intros (a & H & Hs & <-). destruct (runner _ _) as [out err|code out err| | |d|d].
    + right. destruct (parse_available_ok _ _ _ H Hs) as ((Hf & Hn & _)%available_rows_spec & Hne & _). eauto 10.
    + left. destruct (Z.eqb_spec code 1) as [->|]; [|by injection H as <-].
      do 2 (case_bool_decide; [|by injection H as <-]; subst). by injection H as <-.
    + by injection H as <-.
    + by injection H as <-.
    + by apply bind_Ok in H as (raw & _ & [= <-]).
    + by apply bind_Ok in H as (raw & _ & [= <-]).
  - intros [[-> ->]|(Hne & Hn & out & err & -> & Hf)]; [by eexists|].
    assert (available_rows (splitlines (decode_replace out)) [] = Ok (Ok its)) as E.
    { apply available_rows_spec. split; [done|]. split; [done|]. by apply Forall_true; intros ? ?%elem_of_nil. }
    unfold _parse_available_rows. rewrite E. cbn [mbind outcome_bind]. destruct its as [|i l]; [done|]. by eexists.
Qed.

(** C28. Omarchy is reported as read exactly when its command said that it is up to date,
    in the one way it has to say so, or listed at least one update in rows of the two
    known forms, no two of the same item; the items reported are those rows. No other
    answer, an empty one of a successful command included, passes for having no updates. *)
Theorem omarchy_reports_exact its :
  (exists a, collect_omarchy_availability _HOME runner = Ok a /\ oa_status a = SS_OK /\ oa_items a = its) <-> reports its.
Proof. apply omarchy_spec. Qed.

(** Items are reported only when all is well. *)
Lemma omarchy_items a :
  collect_omarchy_availability _HOME runner = Ok a ->
  Forall (fun i => exists row, row_item row i) (oa_items a).
Proof.
  assert (forall b, oa_items b = [] -> Forall (fun i => exists row, row_item row i) (oa_items b)) as Hnil.
  { intros b ->. constructor. }
  unfold collect_omarchy_availability. destruct (runner _ _) as [out err|code out err| | |d|d].
  - unfold _parse_available_rows. intros (items & Hi & H)%bind_Ok. destruct items as [[|i l]|m]; injection H as <-; try by apply Hnil.
    apply available_rows_spec in Hi as (Hf & _). cbn. revert Hf. generalize (splitlines (decode_replace out)) (i :: l).
    intros rows its Hf. induction Hf; constructor; eauto.
  - destruct (_ && _); intros [= <-]; by apply Hnil.
  - intros [= <-]. by apply Hnil.
  - intros [= <-]. by apply Hnil.
  - intros (raw & _ & [= <-])%bind_Ok. by apply Hnil.
  - intros (raw & _ & [= <-])%bind_Ok. by apply Hnil.
Qed.
End Facts.
