(* ===== verification/SecurityKev.v ===== *)
(** * The catalogue of CISA

    [security_kev.py]: the known exploited vulnerabilities become a set of CVE identifiers,
    or the catalogue is refused whole. *)

From S2P Require Import Prelude PyStr Regex Calendar Models Samples Json JsonText Utf8 Validation StorageWatches SecurityFeeds.

Open Scope Z_scope.

(** Whether [datetime.fromisoformat] reads a string outside the forms of [Calendar] as a
    time with an offset. *)
Class IsoOffsets := iso_offset : str -> bool.

Section Kev.
Context `{Offsets : IsoOffsets} `{Tables : UnicodeTables} (stack : nat).

Definition _MAX_RECORDS : Z := 20000.
Definition _MAX_STRING : Z := 2048.
Definition _CVE : regex := RCat (rlit (lit "CVE-")) (rtimes 4 rdigit (RCat (rlit (lit "-")) (rrange 4 19 rdigit))).
Definition _CWE : regex := RCat (rlit (lit "CWE-")) (rplus rdigit).
Definition _REQUIRED : list str :=
  names ["cveID"; "vendorProject"; "product"; "vulnerabilityName"; "dateAdded"; "shortDescription"; "requiredAction"; "dueDate"].
Definition _OPTIONAL_STRINGS : list str := names ["knownRansomwareCampaignUse"; "notes"].

Definition _schema_string (v : json) : option str :=
  match v with
  | JStr s => if (0 <? len s) && (len s <=? _MAX_STRING) && isprintable s then Some s else None
  | _ => None
  end.

Definition _retained_identifier (v : json) : option str :=
  match _schema_string v with
  | Some s => if contains s (lit "://") then None else Some s
  | None => None
  end.

Definition _cwes (v : json) : option (list str) :=
  match v with
  | JList l =>
      if _MAX_RECORDS <? len l then None
      else match all_some (fun e => match _schema_string e with
                                    | Some s => if fullmatch _CWE s then Some s else None
                                    | None => None
                                    end) l with
           | Some cwes => if unique cwes then Some cwes else None
           | None => None
           end
  | _ => None
  end.

(** [date.fromisoformat] on [YYYY-MM-DD]. *)
Definition _date (v : json) : option str :=
  match _schema_string v with
  | Some s =>
      if fullmatch (rtimes 4 rdigit (RCat (rlit (lit "-")) (rtimes 2 rdigit (RCat (rlit (lit "-")) (rtimes 2 rdigit REps))))) s
         && valid_date (digits_value (take 4 s)) (digits_value (take 2 (drop 5 s))) (digits_value (drop 8 s))
      then Some s else None
  | None => None
  end.

Definition _datetime (v : json) : option str :=
  match _schema_string v with
  | Some s =>
      if negb (contains s (lit "T")) then None
      else match fromisoformat (H:=fun t => if iso_offset t then Some (Datetime 0 true) else None)
                   (replace s (lit "Z") (lit "+00:00")) with
           | Some parsed => if dt_utc parsed then Some s else None
           | None => None
           end
  | None => None
  end.

Definition _record_cve (v : json) : option str :=
  match v with
  | JObj d =>
      if negb (has_fields d _REQUIRED) then None
      else if existsb (fun k => bool_decide (k <> lit "dateAdded") && bool_decide (k <> lit "dueDate")
                                && negb (is_some (_schema_string (default JNull (dict_get d k))))) _REQUIRED then None
      else if negb (is_some (_date (at_ d "dateAdded"))) || negb (is_some (_date (at_ d "dueDate"))) then None
      else if existsb (fun k => match dict_get d k with
                                | Some x => negb (is_some (_schema_string x))
                                | None => false
                                end) _OPTIONAL_STRINGS then None
      else if match dict_get d (lit "cwes") with Some x => negb (is_some (_cwes x)) | None => false end then None
      else match _retained_identifier (at_ d "cveID") with
           | Some cve => if fullmatch _CVE cve then Some cve else None
           | None => None
           end
  | _ => None
  end.

Fixpoint record_cves (l : list json) (seen : gset str) : feed (gset str) :=
  match l with
  | [] => Ok seen
  | v :: rest =>
      match _record_cve v with
      | Some cve => if bool_decide (cve ∈ seen) then refused "KEV vulnerability has an invalid schema"
                    else record_cves rest ({[cve]} ∪ seen)
      | None => refused "KEV vulnerability has an invalid schema"
      end
  end.

Definition kev_catalog (provenance : Provenance) (v : json) : feed (gset str * Provenance) :=
  match v with
  | JObj d =>
      if negb (has_fields d (names ["catalogVersion"; "dateReleased"; "count"; "vulnerabilities"]))
      then refused "KEV root omits a required field"
      else if negb (is_some (_schema_string (at_ d "catalogVersion"))) || negb (is_some (_datetime (at_ d "dateReleased")))
      then refused "KEV metadata has an invalid type"
      else match at_ d "count", at_ d "vulnerabilities" with
           | JInt count, JList vulnerabilities =>
               if negb (count =? len vulnerabilities) || (_MAX_RECORDS <? count) then refused "KEV count is invalid"
               else cves ← record_cves vulnerabilities ∅; Ok (cves, provenance)
           | _, _ => refused "KEV count or vulnerabilities has an invalid type"
           end
  | _ => refused "KEV root is not an object"
  end.

Definition parse_kev (raw : bytes) (provenance : Provenance) : res (feed (gset str * Provenance)) :=
  decoded stack "KEV feed is not UTF-8" "KEV feed is not valid JSON" raw (kev_catalog provenance).

End Kev.

(** ** What a catalogue holds *)

Section KevFacts.
Context `{Offsets : IsoOffsets} `{Tables : UnicodeTables} (stack : nat).

Lemma record_cve_matches v cve : _record_cve v = Some cve -> matches _CVE cve.
Proof.
  unfold _record_cve. destruct v; try done. repeat (match goal with |- context [if ?b then None else _] => destruct b; [done|] end).
  destruct (_retained_identifier _) as [s|]; [|done]. destruct (fullmatch _CVE s) eqn:E; [|done].
  intros [= <-]. by apply fullmatch_matches.
Qed.

Lemma record_cves_size l seen cves :
  record_cves l seen = Ok cves -> size cves = (length l + size seen)%nat /\ seen ⊆ cves
    /\ forall c, c ∈ cves -> c ∈ seen \/ matches _CVE c.
Proof.
  revert seen. induction l as [|v l IH]; intros seen; cbn [record_cves].
  - intros <-%Ok_inj. split; [done|]. split; [done | by left].
  - destruct (_record_cve v) as [cve|] eqn:E; [|done]. case_bool_decide as Hs; [done|]. intros H.
    apply IH in H as (H1 & H2 & H3). rewrite size_union, size_singleton in H1 by set_solver. split; [simpl; lia|].
    split; [set_solver|]. intros c [[->%elem_of_singleton|Hc]%elem_of_union|Hc]%H3; [|by left | by right].
    right. by eapply record_cve_matches.
Qed.

(** A catalogue that is accepted has as many identifiers as it says, each a CVE identifier;
    one bad record, or one that is there twice, and all of it is refused. *)
Lemma kev_catalog_whole p v cves p' :
  kev_catalog p v = Ok (cves, p') ->
  p' = p /\ Z.of_nat (size cves) <= 20000
  /\ (forall c, c ∈ cves -> matches _CVE c)
  /\ exists d l, v = JObj d /\ at_ d "vulnerabilities" = JList l /\ at_ d "count" = JInt (len l) /\ size cves = length l.
Proof.
  unfold kev_catalog. destruct v as [| | | | | |d]; try done. destruct (negb _); [done|]. destruct (_ || _); [done|].
  destruct (at_ d "count") as [| |count| | | |] eqn:Ec; try done. destruct (at_ d "vulnerabilities") as [| | | | |l|] eqn:Ev; try done.
  destruct (_ || _) eqn:E; [done|]. apply orb_false_iff in E as [E1%negb_false_iff%Z.eqb_eq E2%Z.ltb_ge].
  intros (s & Hs & H)%bind_Ok. apply Ok_inj in H. injection H as -> <-.
  apply record_cves_size in Hs as (H1 & _ & H3). rewrite size_empty, Nat.add_0_r in H1. unfold _MAX_RECORDS, len in *.
  split; [done|]. split; [lia|]. split; [intros c [?%elem_of_empty|?]%H3; done|]. exists d, l. subst count. done.
Qed.
End KevFacts.
