(* ===== verification/SecurityCorrelation.v ===== *)
(** * Advisories and installed packages

    [security_correlation.py]: the advisories that concern an installed package become its
    findings, and the CISA catalogue says which of them are exploited. *)

From S2P Require Import Prelude PyStr Regex Calendar Models Samples Json Validation StorageWatches RunnerTypes Arch.
From S2P Require Import ScanOutcomes ScanNormalize SecurityFeeds.

Open Scope Z_scope.

Record ArchCorrelationFailure := { cf_failure : ArchFailure; cf_diagnostic : str }.

Definition _CVE : regex := RCat (rlit (lit "CVE-")) (rtimes 4 rdigit (RCat (rlit (lit "-")) (rrange 4 19 rdigit))).

Fixpoint retained (issues : list str) (acc : list str) : list str :=
  match issues with
  | [] => acc
  | issue :: rest =>
      retained rest (if fullmatch _CVE issue && bool_decide (issue ∉ acc) then acc ++ [issue] else acc)
  end.

Definition _cve_ids (issues : list str) : list str := retained issues [].

Definition arch_id (package : str) : str := lit "arch:" ++ package.

(** The finding of an advisory about an installed package. *)
Definition advisory_finding (a : ArchAdvisory) (r : PackageRecord) (provenance : Provenance) : SecurityFinding :=
  {| finding_id := adv_name a; finding_item_id := arch_id (pkg_name r); advisory_id := adv_name a;
     cve_ids := _cve_ids (adv_issues a); severity := adv_severity a; fixed_version := adv_fixed a;
     known_exploited := false; finding_provenance := provenance; finding_status := adv_status a;
     advisory_type := adv_type a; installed_version := Some (pkg_installed r); kev_status := KEV_UNAVAILABLE;
     kev_provenance := None |}.

(** [None] stands for [_Unaffected]. *)
Definition _finding (a : ArchAdvisory) (r : PackageRecord) (run : CommandRunner) (provenance : Provenance)
    : outcome ArchCorrelationFailure (option SecurityFinding) :=
  match adv_fixed a with
  | None => Ok (Some (advisory_finding a r provenance))
  | Some fixed =>
      match compare_versions run (pkg_installed r) fixed with
      | Ok sign => if sign =? -1 then Ok (Some (advisory_finding a r provenance)) else Ok None
      | Err d => Err {| cf_failure := degraded_failure d; cf_diagnostic := degraded_detail d |}
      end
  end.

Definition official (inventory : list PackageRecord) : gmap str PackageRecord :=
  list_to_map (reverse ((fun r => (pkg_name r, r)) <$> inventory)).

Abbreviation grouping := (gmap str (list SecurityFinding)).

(** [grouped.setdefault(package, []).append(finding)] *)
Definition appended (package : str) (f : SecurityFinding) (grouped : grouping) : grouping :=
  <[package := default [] (grouped !! package) ++ [f]]> grouped.

Section Correlate.
Context (run : CommandRunner) (provenance : Provenance).

Fixpoint correlate_packages (records : gmap str PackageRecord) (a : ArchAdvisory) (packages : list str)
    (grouped : grouping) : outcome ArchCorrelationFailure grouping :=
  match packages with
  | [] => Ok grouped
  | package :: rest =>
      match records !! package with
      | None => correlate_packages records a rest grouped
      | Some r =>
          finding ← _finding a r run provenance;
          correlate_packages records a rest
            (match finding with Some f => appended package f grouped | None => grouped end)
      end
  end.

Fixpoint correlate_advisories (records : gmap str PackageRecord) (advisories : list ArchAdvisory) (grouped : grouping)
    : outcome ArchCorrelationFailure grouping :=
  match advisories with
  | [] => Ok grouped
  | a :: rest =>
      match adv_status a with
      | AS_NOT_AFFECTED => correlate_advisories records rest grouped
      | AS_UNKNOWN | AS_VULNERABLE | AS_TESTING | AS_FIXED =>
          grouped ← correlate_packages records a (adv_packages a) grouped;
          correlate_advisories records rest grouped
      end
  end.

Definition correlate_arch (advisories : feed (list ArchAdvisory)) (inventory : list PackageRecord)
    : outcome ArchCorrelationFailure (list SecurityFindingGroup) :=
  match advisories with
  | Err diagnostic => Err {| cf_failure := MALFORMED_ROW; cf_diagnostic := diagnostic |}
  | Ok advisories =>
      grouped ← correlate_advisories (official inventory) advisories ∅;
      Ok ((fun package => {| group_item_id := arch_id package; group_findings := default [] (grouped !! package) |})
            <$> sorted_by_key id (map_to_list grouped).*1)
  end.
End Correlate.

Definition _with_kev (f : SecurityFinding) (listed : bool) (provenance : Provenance) : SecurityFinding :=
  {| finding_id := finding_id f; finding_item_id := finding_item_id f; advisory_id := advisory_id f;
     cve_ids := cve_ids f; severity := severity f; fixed_version := fixed_version f; known_exploited := listed;
     finding_provenance := finding_provenance f; finding_status := finding_status f;
     advisory_type := advisory_type f; installed_version := installed_version f;
     kev_status := if listed then LISTED else NOT_LISTED; kev_provenance := Some provenance |}.

Definition enrich_kev (groups : list SecurityFindingGroup) (kev : KevResult) : list SecurityFindingGroup :=
  match kev with
  | KevCatalog cves provenance =>
      (fun g => {| group_item_id := group_item_id g;
                   group_findings := (fun f => _with_kev f (existsb (fun cve => bool_decide (cve ∈ cves)) (cve_ids f)) provenance)
                                       <$> group_findings g |}) <$> groups
  | KevDisabled | KevUnavailable _ => groups
  end.

(** ** Exactly the advisories that concern a package *)

Section Exact.
Context (run : CommandRunner) (provenance : Provenance) (records : gmap str PackageRecord).

(** What one advisory says of one package. *)
Definition said (p : str) (a : ArchAdvisory) : option SecurityFinding :=
  if bool_decide (adv_status a = AS_NOT_AFFECTED) || bool_decide (p ∉ adv_packages a) then None
  else r ← records !! p;
       match _finding a r run provenance with Ok f => f | Err _ => None end.

Definition findings_of (advisories : list ArchAdvisory) (p : str) : list SecurityFinding := omap (said p) advisories.

Definition represents (g : grouping) (f : str -> list SecurityFinding) : Prop :=
  forall p, g !! p = match f p with [] => None | l => Some l end.

Lemma represents_default g f p : represents g f -> default [] (g !! p) = f p.
Proof. intros H. rewrite H. by destruct (f p). Qed.

Lemma represents_ext g f f' : (forall p, f p = f' p) -> represents g f -> represents g f'.
Proof. intros E H p. by rewrite H, E. Qed.

Lemma represents_appended g f p x :
  represents g f -> represents (appended p x g) (fun q => if bool_decide (q = p) then f q ++ [x] else f q).
Proof.
  intros H q. unfold appended. case_bool_decide as E.
  - subst q. rewrite lookup_insert_eq, (represents_default g f) by done. by destruct (f p).
  - rewrite lookup_insert_ne by done. apply H.
Qed.

Lemma correlate_packages_spec a packages g g' f :
  adv_status a <> AS_NOT_AFFECTED -> NoDup packages -> (forall p, p ∈ packages -> p ∈ adv_packages a) ->
  correlate_packages run provenance records a packages g = Ok g' -> represents g f ->
  represents g' (fun p => f p ++ if bool_decide (p ∈ packages) then option_list (said p a) else []).
Proof.
  intros Hst Hn. revert g f. induction Hn as [|p packages Hp Hn IH]; intros g f Hin; cbn [correlate_packages].
  { intros <-%Ok_inj H. eapply represents_ext; [|exact H]. intros q. simpl. by rewrite app_nil_r. }
  assert (said p a = r ← records !! p; match _finding a r run provenance with Ok f => f | Err _ => None end) as Ec.
  { unfold said. rewrite !bool_decide_false; [done | | done]. intros H. apply H, Hin. by left. }
  assert (forall q, q ∈ packages -> q ∈ adv_packages a) as Hin' by (intros; apply Hin; by right).
  assert (forall (o : option SecurityFinding) g1, said p a = o ->
    represents g1 (fun q => if bool_decide (q = p) then f q ++ option_list o else f q) ->
    correlate_packages run provenance records a packages g1 = Ok g' ->
    represents g' (fun q => f q ++ if bool_decide (q ∈ p :: packages) then option_list (said q a) else [])) as Hstep.
  { intros o g1 Eo H1 H. eapply represents_ext; [|exact (IH _ _ Hin' H H1)]. intros q. cbv beta.
    destruct (decide (q = p)) as [->|Hne].
    - rewrite (bool_decide_true (p = p)), (bool_decide_false (p ∈ packages)), (bool_decide_true (p ∈ _ :: _)) by (done || by left).
      by rewrite Eo, app_nil_r.
    - rewrite (bool_decide_false (q = p)) by done. f_equal.
      rewrite (bool_decide_ext (q ∈ p :: packages) (q ∈ packages)); [done | set_solver]. }
  assert (forall g1, represents g1 f -> represents g1 (fun q => if bool_decide (q = p) then f q ++ option_list None else f q)) as Hnone.
  { intros g1 H. eapply represents_ext; [|exact H]. intros q. case_bool_decide; [|done]. simpl. by rewrite app_nil_r. }
  destruct (records !! p) as [r|]; simpl in Ec; [|intros H Hg; eapply Hstep; eauto].
  intros (o & Ho & H)%bind_Ok Hg. rewrite Ho in Ec. eapply Hstep; [exact Ec | | exact H].
  destruct o as [x|]; [by apply represents_appended | by apply Hnone].
Qed.

Lemma correlate_advisories_spec advisories g g' f :
  Forall (fun a => NoDup (adv_packages a)) advisories ->
  correlate_advisories run provenance records advisories g = Ok g' -> represents g f ->
  represents g' (fun p => f p ++ findings_of advisories p).
Proof.
  intros Hn. revert g f. induction Hn as [|a advisories Ha Hn IH]; intros g f; cbn [correlate_advisories].
  { intros <-%Ok_inj H. eapply represents_ext; [|exact H]. intros p. simpl. by rewrite app_nil_r. }
  assert (forall p, findings_of (a :: advisories) p = option_list (said p a) ++ findings_of advisories p) as Ef.
  { intros p. unfold findings_of. simpl. by destruct (said p a). }
  assert (adv_status a <> AS_NOT_AFFECTED ->
    (g1 ← correlate_packages run provenance records a (adv_packages a) g;
     correlate_advisories run provenance records advisories g1) = Ok g' -> represents g f ->
    represents g' (fun p => f p ++ findings_of (a :: advisories) p)) as Hstep.
  { intros Hst (g1 & H1 & H)%bind_Ok Hg. eapply represents_ext; [|eapply IH; [exact H|];
      eapply correlate_packages_spec; [exact Hst | exact Ha | done | exact H1 | exact Hg]].
    intros p. cbv beta. rewrite Ef, <-app_assoc. f_equal. case_bool_decide as Hp; [done|].
    assert (said p a = None) as ->; [|done]. unfold said. rewrite (bool_decide_true (p ∉ _)) by done. by rewrite orb_true_r. }
  destruct (adv_status a) eqn:Est; try (apply Hstep; done).
  intros H Hg. eapply represents_ext; [|exact (IH _ _ H Hg)]. intros p. cbv beta. rewrite Ef. unfold said. by rewrite Est.
Qed.
End Exact.

Section Sound.
Context (run : CommandRunner) (provenance : Provenance).

Definition group_of (records : gmap str PackageRecord) (advisories : list ArchAdvisory) (p : str) : SecurityFindingGroup :=
  {| group_item_id := arch_id p; group_findings := findings_of run provenance records advisories p |}.

Lemma correlate_arch_groups advisories inventory groups :
  Forall (fun a => NoDup (adv_packages a)) advisories ->
  correlate_arch run provenance (Ok advisories) inventory = Ok groups ->
  exists packages, groups = group_of (official inventory) advisories <$> packages
    /\ NoDup packages /\ StronglySorted (fun p q => str_leb p q = true) packages
    /\ forall p, p ∈ packages <-> findings_of run provenance (official inventory) advisories p <> [].
Proof.
  intros Hn. unfold correlate_arch. intros (g & H & <-%Ok_inj)%bind_Ok.
  assert (represents g (findings_of run provenance (official inventory) advisories)) as Hg.
  { eapply represents_ext; [|eapply correlate_advisories_spec; [exact Hn | exact H | instantiate (1 := fun _ => [])]].
    - intros p. done.
    - intros p. by rewrite lookup_empty. }
  assert (sorted_by_key id (map_to_list g).*1 ≡ₚ (map_to_list g).*1) as Hp by (unfold sorted_by_key; apply sorted_by_Permutation).
  exists (sorted_by_key id (map_to_list g).*1). split_and!.
  - apply list_fmap_ext. intros _ p _. unfold group_of. f_equal. by apply represents_default.
  - rewrite Hp. apply NoDup_fst_map_to_list.
  - apply (sorted_by_key_sorted id).
  - intros p. rewrite Hp, list_elem_of_fmap. rewrite <-(represents_default g _ p Hg). specialize (Hg p). split.
    + intros ([q l] & -> & Hl%elem_of_map_to_list). simpl in *. rewrite Hl. simpl. rewrite Hl in Hg.
      destruct (findings_of _ _ _ _ q); [done|]. by injection Hg as ->.
    + destruct (g !! p) as [l|] eqn:El; [|done]. intros _. exists (p, l). split; [done|]. by apply elem_of_map_to_list.
Qed.

(** ** What an advisory says, in words *)

(** [vercmp] answered with one of its three signs, white space aside. *)
Definition answered (v w out : str) : Prop :=
  exists raw err text, run VERCMP [v; w] = CommandSucceeded raw err /\ Utf8.decode raw = Ok text /\ strip text = out
    /\ out ∈ names ["-1"; "0"; "1"].

(** An advisory is about an installed package that it names, unless it says that it is not
    affected. *)
Definition names_package (a : ArchAdvisory) (r : PackageRecord) : Prop :=
  adv_status a <> AS_NOT_AFFECTED /\ pkg_name r ∈ adv_packages a.

(** It concerns the package when no version is fixed yet, or the installed one is older. *)
Definition concerns (a : ArchAdvisory) (r : PackageRecord) : Prop :=
  names_package a r
  /\ match adv_fixed a with None => True | Some fixed => answered (pkg_installed r) fixed (lit "-1") end.

(** The last record of that name: names repeat in no inventory that pacman prints. *)
Definition installs (inventory : list PackageRecord) (r : PackageRecord) : Prop :=
  exists before rest, inventory = before ++ r :: rest /\ pkg_name r ∉ pkg_name <$> rest.

Definition cve_text (s : str) : Prop :=
  exists year number, s = lit "CVE-" ++ year ++ lit "-" ++ number
    /\ forallb is_digit year = true /\ length year = 4%nat
    /\ forallb is_digit number = true /\ (4 <= length number <= 19)%nat.

(** What the finding of an advisory about an installed package says. *)
Record describes (r : PackageRecord) (a : ArchAdvisory) (f : SecurityFinding) : Prop := {
  d_ids : finding_id f = adv_name a /\ advisory_id f = adv_name a /\ finding_item_id f = lit "arch:" ++ pkg_name r;
  d_cves : NoDup (cve_ids f) /\ cve_ids f `sublist_of` adv_issues a
    /\ forall c, c ∈ cve_ids f <-> c ∈ adv_issues a /\ cve_text c;
  d_advisory : severity f = adv_severity a /\ finding_status f = adv_status a /\ advisory_type f = adv_type a;
  d_versions : installed_version f = Some (pkg_installed r) /\ fixed_version f = adv_fixed a;
  d_provenance : finding_provenance f = provenance;
  d_exploited : known_exploited f = false /\ kev_status f = KEV_UNAVAILABLE /\ kev_provenance f = None;
}.

Lemma cve_spec s : fullmatch _CVE s = true <-> cve_text s.
Proof.
  rewrite fullmatch_matches. unfold _CVE, rrange, rdigit, cve_text. rewrite matches_cat. setoid_rewrite matches_rlit.
  setoid_rewrite matches_rtimes_set. setoid_rewrite matches_cat. setoid_rewrite matches_rlit.
  setoid_rewrite matches_rtimes_set. setoid_rewrite matches_ropt_set. split.
  - intros (? & ? & -> & -> & y & ? & -> & Hy & Hd & ? & ? & -> & -> & n & m & -> & Hn & Hnd & Hm & Hl).
    exists y, (n ++ m). split; [done|]. rewrite forallb_app, length_app, Hnd, Hm. split_and!; done || lia.
  - intros (y & n & -> & Hy & Hl & Hn & H4 & H19). eexists _, _. split; [done|]. split; [done|].
    eexists y, _. split; [done|]. split; [done|]. split; [done|]. eexists _, n. split; [done|]. split; [done|].
    rewrite <-(take_drop 4 n) in Hn. rewrite forallb_app in Hn. apply andb_true_iff in Hn as [? ?].
    exists (take 4 n), (drop 4 n). rewrite take_drop, length_take, length_drop. split_and!; done || lia.
Qed.

Lemma retained_spec issues acc :
  NoDup acc ->
  exists new, retained issues acc = acc ++ new /\ NoDup (acc ++ new) /\ new `sublist_of` issues
    /\ forall c, c ∈ acc ++ new <-> c ∈ acc \/ c ∈ issues /\ cve_text c.
Proof.
  revert acc. induction issues as [|i issues IH]; intros acc Ha; cbn [retained].
  { exists []. rewrite app_nil_r. split_and!; [done | done | constructor | set_solver]. }
  destruct (fullmatch _CVE i && bool_decide (i ∉ acc)) eqn:E.
  - apply andb_true_iff in E as [Hi%cve_spec Hn%bool_decide_eq_true].
    destruct (IH (acc ++ [i])) as (new & -> & Hd & Hs & Hc).
    { apply NoDup_app. split_and!; [done | set_solver | apply NoDup_singleton]. }
    exists (i :: new). rewrite <-app_assoc in *. split_and!; [done | done | by constructor|].
    intros c. rewrite Hc, elem_of_app, list_elem_of_singleton, elem_of_cons. naive_solver.
  - destruct (IH acc Ha) as (new & -> & Hd & Hs & Hc). exists new. split_and!; [done | done | by constructor|].
    intros c. rewrite Hc, elem_of_cons. split; [naive_solver|]. intros [?|[[->|?] Hi]]; [by left | | by right].
    apply cve_spec in Hi. rewrite Hi in E. apply bool_decide_eq_false, dec_stable in E. by left.
Qed.

Lemma finding_describes a r : describes r a (advisory_finding a r provenance).
Proof.
  destruct (retained_spec (adv_issues a) []) as (new & E & Hd & Hs & Hc); [constructor|].
  constructor; try done. simpl. unfold _cve_ids. rewrite E. simpl in *. split_and!; [done | done|]. intros c. rewrite Hc. set_solver.
Qed.

(** *** One comparison *)

Lemma compare_spec v w :
  match compare_versions run v w with
  | Ok sign => exists out, answered v w out /\ (sign = -1 <-> out = lit "-1")
  | Err _ => forall out, ~ answered v w out
  end.
Proof.
  unfold compare_versions, answered. destruct (run VERCMP [v; w]) as [raw err| | | | |] eqn:Er;
    try (cbn; by intros out (raw' & err' & text' & [=] & _)).
  destruct (Utf8.decode raw) as [text|] eqn:Et;
    [|cbn; intros out (raw' & err' & text' & [= <- <-] & Hx & _); congruence].
  assert (forall s sign, strip text = lit s -> bool_decide (lit s ∈ names ["-1"; "0"; "1"]) = true ->
    (sign = -1 <-> lit s = lit "-1") ->
    exists out, (exists raw0 err0 text0, CommandSucceeded raw err = CommandSucceeded raw0 err0 /\ Utf8.decode raw0 = Ok text0
      /\ strip text0 = out /\ out ∈ names ["-1"; "0"; "1"]) /\ (sign = -1 <-> out = lit "-1")) as Hin.
  { intros s sign Es Hs%bool_decide_eq_true Hi. exists (lit s). split; [by exists raw, err, text | done]. }
  case_bool_decide as H1; [by apply (Hin "-1"%string)|]. case_bool_decide as H2; [by apply (Hin "0"%string)|].
  case_bool_decide as H3; [by apply (Hin "1"%string)|].
  cbn -[names]. intros out (raw' & err' & text' & [= <- <-] & Hx & <- & Ho). assert (text' = text) as -> by congruence.
  revert Ho. unfold names. cbn. set_solver.
Qed.

Lemma finding_decided a r :
  match _finding a r run provenance with
  | Ok o => (forall fixed, adv_fixed a = Some fixed -> exists out, answered (pkg_installed r) fixed out)
      /\ (names_package a r -> concerns a r <-> o = Some (advisory_finding a r provenance))
      /\ (o = None \/ o = Some (advisory_finding a r provenance))
  | Err _ => exists fixed, adv_fixed a = Some fixed /\ forall out, ~ answered (pkg_installed r) fixed out
  end.
Proof.
  unfold _finding, concerns. destruct (adv_fixed a) as [fixed|]; [|split_and!; naive_solver].
  pose proof (compare_spec (pkg_installed r) fixed) as H. destruct (compare_versions run (pkg_installed r) fixed) as [sign|];
    cbn in H |- *; [|by exists fixed].
  destruct H as (out & Ho & Hs). assert (forall out', answered (pkg_installed r) fixed out' -> out' = out) as Hu.
  { intros out' (? & ? & ? & E & Ed & <- & _). destruct Ho as (? & ? & ? & E' & Ed' & <- & _). congruence. }
  destruct (Z.eqb_spec sign (-1)) as [E|E].
  - split; [intros ? [= <-]; by exists out|]. split; [|by right]. intros Hn. split; [done|]. intros _. split; [done|].
    apply Hs in E. by subst out.
  - split; [intros ? [= <-]; by exists out|]. split; [|by left]. intros Hn. split; [|done].
    intros [_ Hc%Hu]. by destruct E; apply Hs.
Qed.

(** *** All of them *)

#[global] Instance answered_dec v w out : Decision (answered v w out).
Proof.
  unfold answered. destruct (run VERCMP [v; w]) as [raw err| | | | |]; try (right; by intros (? & ? & ? & [=] & _)).
  destruct (Utf8.decode raw) as [text|] eqn:Et; [|right; intros (? & ? & ? & [= <- <-] & ? & _); congruence].
  destruct (decide (strip text = out /\ out ∈ names ["-1"; "0"; "1"])) as [[? ?]|Hn]; [left; by exists raw, err, text|].
  right. intros (? & ? & t & [= <- <-] & Ed & Es & Ho). apply Hn. assert (t = text) as -> by congruence. done.
Defined.

#[global] Instance concerns_dec a r : Decision (concerns a r).
Proof.
  unfold concerns, names_package. apply and_dec; [apply and_dec; apply _|]. destruct (adv_fixed a); apply _.
Defined.

Lemma official_spec inventory p r : official inventory !! p = Some r <-> installs inventory r /\ pkg_name r = p.
Proof.
  unfold official, installs. induction inventory as [|x l IH] using rev_ind.
  { simpl. rewrite lookup_empty. split; [done|]. intros [(before & ? & E & _) _]. by destruct before. }
  rewrite fmap_app, reverse_app. simpl. destruct (decide (pkg_name x = p)) as [<-|Hne].
  - rewrite lookup_insert_eq. split.
    + intros [= ->]. split; [|done]. exists l, []. split; [done | set_solver].
    + intros [(before & rest & E & Hr) En]. destruct rest as [|y rest _] using rev_ind.
      * apply app_inj_2 in E as [_ [= ->]]; done.
      * rewrite app_comm_cons, app_assoc in E. apply app_inj_2 in E as [_ [= ->]]; [|done].
        rewrite fmap_app, elem_of_app in Hr. destruct Hr. right. rewrite En. by left.
  - rewrite lookup_insert_ne by done. rewrite IH. split; intros [(before & rest & E & Hr) En]; (split; [|done]).
    + exists before, (rest ++ [x]). rewrite E, <-app_assoc. split; [done|]. rewrite fmap_app. set_solver.
    + destruct rest as [|y rest _] using rev_ind.
      * apply app_inj_2 in E as [_ [= ->]]; done.
      * rewrite app_comm_cons, app_assoc in E. apply app_inj_2 in E as [-> [= ->]]; [|done].
        exists before, rest. split; [done|]. rewrite fmap_app in Hr. set_solver.
Qed.

Lemma packages_answer records a packages g :
  match correlate_packages run provenance records a packages g with
  | Ok _ => forall p r, p ∈ packages -> records !! p = Some r -> exists o, _finding a r run provenance = Ok o
  | Err _ => exists p r e, p ∈ packages /\ records !! p = Some r /\ _finding a r run provenance = Err e
  end.
Proof.
  revert g. induction packages as [|p packages IH]; intros g; cbn [correlate_packages]; [set_solver|].
  destruct (records !! p) as [r|] eqn:Er.
  - destruct (_finding a r run provenance) as [o|e] eqn:Ef; cbn [mbind outcome_bind]; [|exists p, r, e; set_solver].
    specialize (IH (match o with Some f => appended p f g | None => g end)).
    destruct (correlate_packages _ _ _ _ _ _); [|destruct IH as (q & r' & e' & ? & ?); exists q, r', e'; set_solver].
    intros q r' [->|Hq]%elem_of_cons Hr; [|by eapply IH]. rewrite Er in Hr. injection Hr as <-. by exists o.
  - specialize (IH g). destruct (correlate_packages _ _ _ _ _ _).
    + intros q r' [->|Hq]%elem_of_cons Hr; [congruence | by eapply IH].
    + destruct IH as (q & r' & e' & ? & ?). exists q, r', e'. set_solver.
Qed.

Lemma advisories_answer records advisories g :
  match correlate_advisories run provenance records advisories g with
  | Ok _ => forall a r, a ∈ advisories -> names_package a r -> records !! pkg_name r = Some r ->
      exists o, _finding a r run provenance = Ok o
  | Err _ => exists a p r e, a ∈ advisories /\ adv_status a <> AS_NOT_AFFECTED /\ p ∈ adv_packages a
      /\ records !! p = Some r /\ _finding a r run provenance = Err e
  end.
Proof.
  revert g. induction advisories as [|a advisories IH]; intros g; cbn [correlate_advisories]; [set_solver|].
  assert (adv_status a <> AS_NOT_AFFECTED -> match (g1 ← correlate_packages run provenance records a (adv_packages a) g;
      correlate_advisories run provenance records advisories g1) with
    | Ok _ => forall b r, b ∈ a :: advisories -> names_package b r -> records !! pkg_name r = Some r ->
        exists o, _finding b r run provenance = Ok o
    | Err _ => exists b p r e, b ∈ a :: advisories /\ adv_status b <> AS_NOT_AFFECTED /\ p ∈ adv_packages b
        /\ records !! p = Some r /\ _finding b r run provenance = Err e
    end) as Hstep.
  { intros Hst. pose proof (packages_answer records a (adv_packages a) g) as Hp.
    destruct (correlate_packages _ _ _ _ _ _) as [g1|e]; cbn [mbind outcome_bind].
    - specialize (IH g1). destruct (correlate_advisories _ _ _ _ g1).
      + intros b r [->|Hb]%elem_of_cons [Hs Hin] Hr; [by eapply Hp | by apply (IH b r)].
      + destruct IH as (b & p & r & e' & ? & ?). exists b, p, r, e'. set_solver.
    - destruct Hp as (p & r & e' & ? & ? & ?). exists a, p, r, e'. set_solver. }
  destruct (adv_status a) eqn:Est; try by apply Hstep.
  specialize (IH g). destruct (correlate_advisories _ _ _ _ g).
  - intros b r [->|Hb]%elem_of_cons Hn Hr; [by destruct Hn | by apply (IH b r)].
  - destruct IH as (b & p & r & e' & ? & ?). exists b, p, r, e'. set_solver.
Qed.

Lemma findings_filter inventory advisories r :
  installs inventory r ->
  (forall a, a ∈ advisories -> names_package a r -> exists o, _finding a r run provenance = Ok o) ->
  findings_of run provenance (official inventory) advisories (pkg_name r)
  = (fun a => advisory_finding a r provenance) <$> filter (fun a => concerns a r) advisories.
Proof.
  intros Hr Ha. unfold findings_of. induction advisories as [|a advisories IH]; [done|].
  rewrite filter_cons. cbn [omap list_omap]. rewrite IH by (intros; apply Ha; [by right | done]).
  assert (said run provenance (official inventory) (pkg_name r) a
          = if decide (concerns a r) then Some (advisory_finding a r provenance) else None) as ->.
  2:{ by destruct (decide (concerns a r)). }
  unfold said. rewrite (proj2 (official_spec inventory (pkg_name r) r)) by done. cbn [mbind option_bind].
  destruct (decide (names_package a r)) as [Hn|Hn].
  - destruct (Ha a ltac:(by left) Hn) as [o Eo]. pose proof (finding_decided a r) as Hf. rewrite Eo in *.
    destruct Hf as (_ & Hc & Ho). specialize (Hc Hn). destruct Hn as [Hs Hp].
    rewrite (bool_decide_false (adv_status a = _)), (bool_decide_false (_ ∉ _)) by (done || naive_solver). simpl.
    destruct (decide (concerns a r)); naive_solver.
  - rewrite decide_False by (intros [? _]; done). unfold names_package in Hn.
    destruct (decide (adv_status a = AS_NOT_AFFECTED)) as [E|E]; [by rewrite bool_decide_true|].
    rewrite (bool_decide_true (_ ∉ _)), orb_true_r by naive_solver. done.
Qed.

(** The groups of installed packages, as the theorem describes them. *)
Lemma described_groups inventory advisories packages :
  (forall p, p ∈ packages -> exists r, installs inventory r /\ pkg_name r = p
    /\ group_of (official inventory) advisories p = {| group_item_id := lit "arch:" ++ pkg_name r;
         group_findings := (fun a => advisory_finding a r provenance) <$> filter (fun a => concerns a r) advisories |}) ->
  exists reported, pkg_name <$> reported = packages /\ Forall (installs inventory) reported
    /\ Forall2 (fun r g => group_item_id g = lit "arch:" ++ pkg_name r
         /\ Forall2 (describes r) (filter (fun a => concerns a r) advisories) (group_findings g))
         reported (group_of (official inventory) advisories <$> packages).
Proof.
  induction packages as [|p packages IH]; intros Hg; [by exists []|].
  destruct (Hg p ltac:(by left)) as (r & Hi & <- & Er). destruct IH as (reported & <- & Hr & H2); [intros; apply Hg; by right|].
  exists (r :: reported). split; [done|]. split; [by constructor|]. rewrite !fmap_cons. constructor; [|done].
  rewrite Er. cbn [group_item_id group_findings]. split; [done|]. apply Forall2_fmap_r, Forall_Forall2_diag, Forall_forall.
  intros a _. apply finding_describes.
Qed.

Lemma named_reported inventory reported r :
  Forall (installs inventory) reported -> installs inventory r ->
  r ∈ reported <-> pkg_name r ∈ pkg_name <$> reported.
Proof.
  intros Hi H. split; [apply list_elem_of_fmap_2|]. intros (r' & En & Hr')%list_elem_of_fmap.
  rewrite Forall_forall in Hi. assert (Some r = Some r') as [= ->]; [|done].
  rewrite <-(proj2 (official_spec inventory (pkg_name r) r)) by done. apply official_spec. split; [by apply Hi | done].
Qed.

Lemma concerned_some advisories r :
  (fun a => advisory_finding a r provenance) <$> filter (fun a => concerns a r) advisories <> []
  <-> exists a, a ∈ advisories /\ concerns a r.
Proof.
  split.
  - destruct (filter (fun a => concerns a r) advisories) as [|a l] eqn:El; [done|]. intros _. exists a.
    assert (a ∈ filter (fun a => concerns a r) advisories) as [? ?]%list_elem_of_filter by (rewrite El; by left). done.
  - intros (a & Ha1 & Ha2) El%fmap_nil_inv. apply (not_elem_of_nil a). rewrite <-El. by apply list_elem_of_filter.
Qed.

(** C26. Security findings are exactly what the advisories say of the installed packages.
    An advisory concerns an installed package when it names it, does not say that it is
    not affected, and has no fixed version or one that [vercmp] puts after the installed
    one ([-1]). There is a group for each package that some advisory concerns, in the
    order of the names, and in it one finding for each such advisory, in the order of the
    feed, with the advisory's name, severity, status and type, the two versions, and the
    distinct issues that are CVE identifiers. Every comparison that was needed had an
    answer; without one the correlation fails, and it fails for no other reason. *)
Theorem correlation_exact advisories inventory :
  Forall (fun a => NoDup (adv_packages a)) advisories ->
  match correlate_arch run provenance (Ok advisories) inventory with
  | Ok groups =>
      (forall a r fixed, a ∈ advisories -> installs inventory r -> names_package a r -> adv_fixed a = Some fixed ->
        exists out, answered (pkg_installed r) fixed out)
      /\ exists reported,
           NoDup (pkg_name <$> reported)
           /\ StronglySorted (fun p q => str_leb p q = true) (pkg_name <$> reported)
           /\ (forall r, r ∈ reported <-> installs inventory r /\ exists a, a ∈ advisories /\ concerns a r)
           /\ Forall2 (fun r g => group_item_id g = lit "arch:" ++ pkg_name r
                                  /\ Forall2 (describes r) (filter (fun a => concerns a r) advisories) (group_findings g))
                reported groups
  | Err _ => exists a r fixed, (a ∈ advisories) /\ installs inventory r /\ names_package a r /\ adv_fixed a = Some fixed
               /\ forall out, ~ answered (pkg_installed r) fixed out
  end.
Proof.
  intros Hn. destruct (correlate_arch run provenance (Ok advisories) inventory) as [groups|e] eqn:E.
  - pose proof (correlate_arch_groups _ _ _ Hn E) as (packages & -> & Hd & Hs & Hp).
    unfold correlate_arch in E. apply bind_Ok in E as (g & Eg & _).
    pose proof (advisories_answer (official inventory) advisories ∅) as Ha. rewrite Eg in Ha.
    assert (forall a r, a ∈ advisories -> installs inventory r -> names_package a r ->
      exists o, _finding a r run provenance = Ok o) as Ha' by (intros; apply Ha; [done | done | by apply official_spec]).
    split.
    { intros a r fixed H1 H2 H3 H4. destruct (Ha' a r H1 H2 H3) as [o Eo]. pose proof (finding_decided a r) as Hf.
      rewrite Eo in Hf. by apply Hf. }
    assert (forall p, p ∈ packages -> exists r, installs inventory r /\ pkg_name r = p
      /\ group_of (official inventory) advisories p = {| group_item_id := lit "arch:" ++ pkg_name r;
           group_findings := (fun a => advisory_finding a r provenance) <$> filter (fun a => concerns a r) advisories |}) as Hg.
    { intros p Hin%Hp. destruct (official inventory !! p) as [r|] eqn:Er.
      - apply official_spec in Er as [Hi <-]. exists r. split; [done|]. split; [done|]. unfold group_of.
        by rewrite (findings_filter inventory advisories r Hi) by eauto.
      - destruct Hin. unfold findings_of. clear -Er. induction advisories as [|a advisories IH]; [done|]. cbn.
        unfold said at 1. rewrite Er. by destruct (_ || _). }
    destruct (described_groups inventory advisories packages Hg) as (reported & <- & Hi & H2).
    exists reported. split; [done|]. split; [done|]. split; [|done]. intros r.
    pose proof (named_reported inventory reported r Hi) as Hr. assert (installs inventory r ->
      pkg_name r ∈ pkg_name <$> reported <-> exists a, a ∈ advisories /\ concerns a r) as Hc.
    { intros H. rewrite (Hp (pkg_name r)), (findings_filter inventory advisories r H) by eauto. apply concerned_some. }
    rewrite Forall_forall in Hi. split.
    + intros H. split; [by apply Hi|]. apply Hc; [by apply Hi|]. by apply list_elem_of_fmap_2.
    + intros [H1 H]. by apply Hr, Hc.
  - unfold correlate_arch in E. pose proof (advisories_answer (official inventory) advisories ∅) as Ha.
    destruct (correlate_advisories run provenance (official inventory) advisories ∅) as [g|e']; [done|].
    destruct Ha as (a & p & r & e1 & Hin & Hst & Hp & Hr & Hf). apply official_spec in Hr as [Hi <-].
    pose proof (finding_decided a r) as H. rewrite Hf in H. destruct H as (fixed & ? & ?). by exists a, r, fixed.
Qed.

Context `{Tables : UnicodeTables}.

Definition short_versions (inventory : list PackageRecord) : Prop :=
  Forall (fun r => short_text (pkg_installed r)) inventory.

Lemma official_lookup inventory p r : official inventory !! p = Some r -> r ∈ inventory /\ pkg_name r = p.
Proof.
  intros H%elem_of_list_to_map_2. rewrite elem_of_reverse, list_elem_of_fmap in H. by destruct H as (x & [= -> ->] & ?).
Qed.

Lemma said_valid inventory a p f :
  valid_advisory a -> short_versions inventory -> said run provenance (official inventory) p a = Some f ->
  finding_id f = adv_name a /\ valid_finding (arch_id p) f.
Proof.
  intros Ha Hi H. unfold said in H. destruct (_ || _); [done|].
  destruct (official inventory !! p) as [r|] eqn:Er; [|done]. simpl in H. apply official_lookup in Er as [Hin <-].
  assert (f = advisory_finding a r provenance) as ->.
  { unfold _finding in H. destruct (adv_fixed a); [|by simplify_eq]. destruct (compare_versions _ _ _); [|done].
    by destruct (_ =? _); simplify_eq. }
  destruct (va_name _ Ha) as [[[? ?] _] ?]. destruct (va_type _ Ha) as [[? ?] _].
  unfold short_versions in Hi. rewrite Forall_forall in Hi. specialize (Hi r Hin).
  split; [done|]. constructor; simpl; try done.
  split; [split; unfold MAX_IDENTIFIER_LENGTH; lia | done].
Qed.

Lemma omap_sublist {A B C} (f : A -> option B) (g : B -> C) (h : A -> C) l :
  Forall (fun x => forall y, f x = Some y -> g y = h x) l -> g <$> omap f l `sublist_of` h <$> l.
Proof.
  induction 1 as [|x l Hx _ IH]; simpl; [constructor|]. destruct (f x) as [y|] eqn:E; [|by constructor].
  rewrite fmap_cons, (Hx y) by done. by constructor.
Qed.

Lemma correlated_groups advisories inventory groups :
  valid_feed advisories -> short_versions inventory ->
  correlate_arch run provenance (Ok advisories) inventory = Ok groups -> scan_groups groups.
Proof.
  intros [Hn Hv] Hi H. apply correlate_arch_groups in H as (packages & -> & Hp & _ & Hin).
  2:{ eapply Forall_impl; [exact Hv|]. intros a Ha. apply (va_packages _ Ha). }
  split.
  - rewrite <-list_fmap_compose. apply NoDup_fmap; [|done]. intros p q E. simpl in E. unfold arch_id in E. by simplify_list_eq.
  - apply Forall_fmap, Forall_forall. intros p Hp'%Hin. rewrite Forall_forall in Hv. constructor; simpl.
    + by exists p.
    + done.
    + eapply sublist_NoDup; [exact Hn|]. apply omap_sublist, Forall_forall. intros a Ha f Hf.
      by eapply said_valid; [apply Hv | |].
    + apply Forall_forall. intros f (a & Ha & Hf)%list_elem_of_omap. by eapply said_valid; [apply Hv | |].
Qed.
End Sound.

Lemma enriched_groups groups kev : scan_groups groups -> scan_groups (enrich_kev groups kev).
Proof.
  intros [Hn Hg]. destruct kev as [cves p| |d]; [|done|done]. split.
  - simpl. by rewrite <-list_fmap_compose.
  - apply Forall_fmap. eapply Forall_impl; [exact Hg|]. intros g []. constructor; simpl.
    + done.
    + by destruct (group_findings g).
    + by rewrite <-list_fmap_compose.
    + apply Forall_fmap. eapply Forall_impl; [exact sg_findings|]. intros f []. constructor; simpl; try done.
      unfold kev_consistent. simpl. by destruct (existsb _ _).
Qed.

(** ** Two advisories about one package *)

Definition sample_advisory (name : string) (status : ArchStatus) (fixed : option str) : ArchAdvisory := {|
  adv_name := lit name; adv_packages := names ["linux"; "linux-lts"]; adv_status := status; adv_type := lit "multiple issues";
  adv_severity := SEV_HIGH; adv_fixed := fixed; adv_issues := names ["CVE-2022-0778"] |}.

Definition sample_advisories : list ArchAdvisory :=
  [sample_advisory "AVG-2" AS_FIXED (Some (lit "6.9.2-1")); sample_advisory "AVG-1" AS_VULNERABLE None;
   sample_advisory "AVG-3" AS_NOT_AFFECTED None].

Definition older : CommandRunner := fun _ _ => CommandSucceeded (lit "-1") [].

Lemma correlation_exact_witness :
  exists groups, correlate_arch older LIVE (Ok sample_advisories) sample_inventory = Ok groups
    /\ (fun g => (group_item_id g, finding_id <$> group_findings g)) <$> groups = [(lit "arch:linux", names ["AVG-2"; "AVG-1"])]
    /\ exists reported, Forall2 (fun r g => group_item_id g = lit "arch:" ++ pkg_name r
         /\ Forall2 (describes LIVE r) (filter (fun a => concerns older a r) sample_advisories) (group_findings g)) reported groups.
Proof.
  pose proof (correlation_exact older LIVE sample_advisories sample_inventory ltac:(
    repeat (apply List.Forall_cons; [apply (bool_decide_unpack _); vm_compute; exact I|]); apply List.Forall_nil)) as H.
  destruct (correlate_arch older LIVE (Ok sample_advisories) sample_inventory) as [groups|e] eqn:E;
    [|vm_compute in E; discriminate E].
  exists groups. split; [reflexivity|]. split.
  - vm_compute in E. injection E as <-. vm_compute. reflexivity.
  - destruct H as (_ & reported & _ & _ & _ & H). exists reported. exact H.
Defined.
