(* ===== verification/ScanTimes.v ===== *)
(** * The timestamps of a generation

    A scan writes no timestamp outside the years of [datetime] if it read none: what it
    stores can be read back. *)

From S2P Require Import Prelude PyStr Calendar Models Validation Wire Codec StorageWatches StorageState ScanOutcomes.
From S2P Require Import ScanResolution ScanAssembly ScanGeneration Generation.

Open Scope Z_scope.

Definition health_times (h : Health) : list datetime :=
  match h with HSource h => source_times h | HScope h => scope_times h end.

Section Times.
Context (previous : option GenerationBundle) (now : datetime) (Hnow : in_range now)
  (Hprevious : forall p, previous = Some p -> Forall in_range (bundle_times p)).

Lemma make_health_times o status p observed fresh cause :
  in_range observed -> in_range fresh -> Forall in_range (health_times (make_health o status p observed fresh cause)).
Proof.
  intros Ho Hf. unfold make_health. destruct (so_scope o);
    (constructor; [exact Ho|]; constructor; [exact Hf | constructor]).
Qed.

Lemma health_ends h : Forall in_range (health_times h) -> in_range (health_observed_at h) /\ in_range (health_fresh_until h).
Proof.
  destruct h as [h|h]; simpl; [unfold source_times | unfold scope_times]; rewrite !Forall_cons; by intros (? & ? & _).
Qed.

Lemma previous_health_times snapshot source scope h :
  Forall in_range (response_times (RSnapshot snapshot)) -> _previous_health snapshot source scope now = Ok h ->
  Forall in_range (health_times h).
Proof using Hnow.
  unfold response_times, _previous_health. rewrite Forall_cons. intros [_ Hs].
  destruct (List.find _ _) as [x|] eqn:Ef; [|done]. intros H%Ok_inj. apply find_Some in Ef as [Hx _].
  simpl in Hs. rewrite Forall_bind_iff, Forall_forall in Hs. specialize (Hs x Hx). subst h.
  destruct scope as [s|]; [|done]. simpl.
  destruct (List.find _ (sh_scopes x)) as [y|] eqn:Ey;
    [|constructor; [exact Hnow|]; constructor; [exact Hnow | constructor]].
  apply find_Some in Ey as [Hy _]. unfold source_times in Hs. rewrite !Forall_cons, Forall_bind_iff, Forall_forall in Hs.
  by apply Hs.
Qed.

Lemma bundle_snapshots p :
  previous = Some p ->
  Forall in_range (response_times (RSnapshot (g_snapshot p))) /\ Forall in_range (response_times (RSnapshot (g_last_good p))).
Proof using Hprevious. intros H%Hprevious. unfold bundle_times in H. rewrite !Forall_app in H. by destruct H as (? & ? & _). Qed.

Lemma resolve_times o source scope r :
  resolve o source scope previous now = Ok r -> Forall in_range (health_times (ro_health r)).
Proof using Hnow Hprevious.
  assert (forall o, Forall in_range (health_times (_failed_health o now))) as Hfailed.
  { intros x. by apply make_health_times. }
  pose proof bundle_snapshots as Hb. unfold resolve, _cached. destruct o as [o|].
  - destruct (successful o).
    + unfold _fresh_health. intros (h & (fresh & [_ Hf]%dt_plus_Ok & <-%Ok_inj)%bind_Ok & <-%Ok_inj)%bind_Ok.
      by apply make_health_times.
    + destruct previous as [p|] eqn:Ep; [|intros <-%Ok_inj; apply Hfailed]. case_bool_decide; [|intros <-%Ok_inj; apply Hfailed].
      intros (h & Hh & <-%Ok_inj)%bind_Ok. apply previous_health_times in Hh; [|by apply Hb].
      apply health_ends in Hh as [? ?]. by apply make_health_times.
  - destruct previous as [p|] eqn:Ep; [|intros <-%Ok_inj; apply Hfailed]. intros (h & Hh & <-%Ok_inj)%bind_Ok.
    eapply previous_health_times; [|exact Hh]. by apply Hb.
Qed.

Lemma resolve_all_times os rs :
  resolve_all os previous now = Ok rs -> Forall (fun r => Forall in_range (health_times (ro_health r))) rs.
Proof using Hnow Hprevious.
  unfold resolve_all. generalize identities. intros ids. revert os rs.
  induction ids as [|[source scope] ids IH]; intros [|o os] rs; cbn [resolve_zip]; [by intros <-%Ok_inj | done.. |].
  intros (r & Hr & (rs' & Hrs & <-%Ok_inj)%bind_Ok)%bind_Ok. constructor; [by eapply resolve_times | by eapply IH].
Qed.

Lemma source_healths_times rs srcs :
  Forall (fun r => Forall in_range (health_times (ro_health r))) rs -> source_healths rs now = Ok srcs ->
  Forall (fun h => Forall in_range (source_times h)) srcs.
Proof using Hnow.
  intros Hrs. unfold source_healths. intros (basic & Hb & H)%bind_Ok.
  pose proof (Forall_filter_bool _ is_flatpak rs Hrs) as Hf.
  destruct (List.filter is_flatpak rs) as [|u [|s [|]]]; [done | done | | done].
  apply Forall_cons in Hf as [Hu [Hs _]%Forall_cons].
  apply bind_Ok in H as (user & Eu & H). apply bind_Ok in H as (system & Es & H). apply bind_Ok in H as (status & _ & H).
  apply bind_Ok in H as (fresh & Ef & <-%Ok_inj).
  assert (forall r x, Forall in_range (health_times (ro_health r)) -> _scope_health r = Ok x -> Forall in_range (scope_times x))
    as Hscope.
  { intros r x Hr. unfold _scope_health. destruct (ro_health r) as [|h]; [done|]. intros <-%Ok_inj. by case_bool_decide. }
  apply Hscope in Eu as Hu'; [|done]. apply Hscope in Es as Hs'; [|done].
  unfold sorted_by_key. rewrite sorted_by_Permutation. apply Forall_app. split; [|constructor; [|constructor]].
  - apply mapM_Ok in Hb. pose proof (Forall_filter_bool _ (fun r => negb (is_flatpak r)) rs Hrs) as Hn.
    revert Hn. induction Hb as [|r x l k Hr _ IH]; [done|]. intros [H1 H2]%Forall_cons. constructor; [|by apply IH].
    unfold _source_health in Hr. destruct (ro_health r); [|done]. by apply Ok_inj in Hr as <-.
  - unfold source_times. cbn [sh_observed_at sh_fresh_until sh_scopes]. constructor; [done|]. constructor.
    + unfold scope_times in Hu', Hs'. rewrite !Forall_cons in Hu', Hs'. unfold dt_min in Ef.
      apply bind_Ok in Ef as ([|] & _ & <-%Ok_inj); [apply Hs' | apply Hu'].
    + apply Forall_bind_iff. constructor; [done|]. constructor; [done | constructor].
Qed.

Lemma next_metadata_times source os p m :
  (forall x, p = Some x -> Forall in_range (metadata_times x)) -> _next_metadata source os p now = Ok m ->
  Forall in_range (metadata_times m).
Proof using Hnow.
  intros Hp. unfold _next_metadata. cbv zeta. set (old := default _ p). assert (Forall in_range (metadata_times old)) as Hold.
  { subst old. destruct p as [x|]; [by apply Hp | constructor]. }
  destruct (omap id os); [by intros <-%Ok_inj|]. destruct (List.find _ _) as [f|]; [|intros <-%Ok_inj; constructor; [exact Hnow | constructor]].
  assert (forall t c perm, in_range t -> Forall in_range (metadata_times {| md_source := source;
    md_last_success := md_last_success old; md_backoff_until := Some t; md_failure_count := c; md_permanent_failure := perm |})) as Hm.
  { intros t c perm Hu. unfold metadata_times in *. cbn. apply Forall_app in Hold as [Hl _].
    apply Forall_app. split; [done|]. constructor; [exact Hu | constructor]. }
  destruct (so_permanent f); intros (d & _ & (t & [_ Hu]%dt_plus_Ok & <-%Ok_inj)%bind_Ok)%bind_Ok; by apply Hm.
Qed.
End Times.

(** Everything a built generation writes is in range when everything read was. *)
Lemma build_generation_times generation order inputs previous state now g :
  in_range now -> (forall p, previous = Some p -> Forall in_range (bundle_times p)) ->
  Forall in_range (state_times state) ->
  build_generation generation order inputs previous state now = Ok g ->
  Forall in_range (bundle_times g) /\ Forall in_range (state_times (g_state g)).
Proof.
  intros Hn Hp Hs H. unfold build_generation in H. apply bind_Ok in H as (rs & Hrs & H).
  apply bind_Ok in H as (srcs & Hsrcs & H). apply bind_Ok in H as (its & _ & H).
  apply bind_Ok in H as (ms & Hms & <-%Ok_inj).
  pose proof (resolve_all_times previous now Hn Hp _ _ Hrs) as Hr.
  pose proof (source_healths_times now Hn _ _ Hr Hsrcs) as Hh. split.
  - assert (forall m its groups su nots st, in_range (generated_at m) -> Forall in_range (response_times (RSnapshot {| snap_meta := m;
      snap_payload := {| scan_state_of := st; sources := srcs; summary_of := su; items := its; findings := groups;
                         notifications := nots |} |}))) as Hsnap.
    { intros m its' groups su nots st Hm. constructor; [exact Hm|]. simpl. by apply Forall_bind_iff. }
    unfold bundle_times. cbn [g_snapshot g_last_good g_inventories]. rewrite !Forall_app.
    split; [by apply Hsnap|]. split; [by apply Hsnap|]. apply Forall_bind_iff. unfold inventories. apply Forall_fmap.
    apply Forall_forall. intros source _. constructor; [exact Hn | constructor].
  - cbn [g_state]. unfold state_times in *. apply Forall_app in Hs as [Hl Hm]. apply Forall_app. split; [done|].
    cbn [st_sources]. rewrite Forall_bind_iff in *. unfold metadata in Hms. apply mapM_Ok in Hms.
    induction Hms as [|grp m groups ms' Hm' _ IH]; [constructor|]. constructor; [|done].
    eapply next_metadata_times; [exact Hn | | exact Hm'].
    intros x Hx. apply find_Some in Hx as [Hx _]. rewrite Forall_forall in Hm. by apply Hm.
Qed.
