(* ===== verification/Scan.v ===== *)
(** * A scan

    [scan.py]: the sources that are due are collected, a generation is built and
    published if it is the newest, and then, and only then, notifications are
    dispatched. The collector is an argument; each of its methods may use the file system. *)

From S2P Require Import Prelude PyStr Calendar Models Samples Json Validation Wire RunnerTypes Arch Aur StorageWatches StorageState.
From S2P Require Import StateFile StateStore ScanOutcomes ScanResolution ScanAssembly ScanGeneration ScanInvariant ScanNormalize ScanTimes.
From S2P Require Import Generation StorageIO Storage StorageSpec DiskStore NotificationBatch Notifications.

Open Scope Z_scope.

Record ScanRequest := {
  rq_generation_id : str;
  rq_generation_order : Z;
  rq_force : bool;
  rq_notification_settings : NotificationSettings;
  rq_enable_cisa_kev : bool;
}.

Record ScanResult := { sr_committed : bool; sr_snapshot : SnapshotResponse }.

Record ScanCollector := {
  collect_omarchy : M OmarchyAvailability;
  collect_arch : M (arch_result (list NormalizedItem));
  collect_aur : M AurResult;
  collect_flatpak : M FlatpakResult;
  collect_mise : M MiseResult;
  collect_security : bool -> M SecurityResult;
}.

Definition _due (source : SourceName) (ms : list SourceMetadata) (now : datetime) (force : bool) : res bool :=
  due (List.find (fun m => bool_decide (md_source m = source)) ms) now force.

(** [outcome(collect()) if due else None] *)
Definition collected {A} (is_due : bool) (collect : M A) (outcome : A -> SourceOutcome) : M (option SourceOutcome) :=
  if is_due then r ← collect; ret (Some (outcome r)) else ret None.

Definition _flatpak (c : ScanCollector) (is_due : bool) : M (option SourceOutcome * option SourceOutcome) :=
  if is_due
  then r ← collect_flatpak c; o ← lift (flatpak_outcomes r); ret (Some o.1, Some o.2)
  else ret (None, None).

Definition _security (c : ScanCollector) (security_due cisa_due enable_cisa_kev : bool)
    : M (option SourceOutcome * option SourceOutcome) :=
  if negb enable_cisa_kev
  then
    if negb security_due then ret (None, Some (not_applicable SN_CISA_KEV None))
    else r ← collect_security c false;
         ret (Some (security_outcomes r).1, Some (not_applicable SN_CISA_KEV None))
  else if negb security_due && negb cisa_due then ret (None, None)
  else r ← collect_security c true; ret (Some (security_outcomes r).1, Some (security_outcomes r).2).

Definition with_notifications (s : SnapshotResponse) (l : list NotificationOutcome) : SnapshotResponse :=
  let p := snap_payload s in
  {| snap_meta := snap_meta s;
     snap_payload := {| scan_state_of := scan_state_of p; sources := sources p; summary_of := summary_of p;
                        items := items p; findings := findings p; notifications := l |} |}.

Section Coordinator.
Context `{Iso : IsoDialect} (stack : nat) (Hstack : MAX_JSON_DEPTH < Z.of_nat stack).
Context (notify : CommandRunner) (token : NotificationKind -> str) (collector : ScanCollector).

(** What the sources that are due have to say. *)
Definition collect_inputs (ms : list SourceMetadata) (now : datetime) (force enable_cisa_kev : bool) : M ScanInputs :=
  omarchy_due ← lift (_due SN_OMARCHY ms now force);
  arch_due ← lift (_due SN_ARCH ms now force);
  aur_due ← lift (_due SN_AUR ms now force);
  flatpak_due ← lift (_due SN_FLATPAK ms now force);
  mise_due ← lift (_due SN_MISE ms now force);
  security_due ← lift (_due SN_SECURITY ms now force);
  cisa_due ← lift (_due SN_CISA_KEV ms now force);
  omarchy ← collected omarchy_due (collect_omarchy collector) omarchy_outcome;
  arch ← collected arch_due (collect_arch collector) arch_outcome;
  aur ← collected aur_due (collect_aur collector) aur_outcome;
  flatpak ← _flatpak collector flatpak_due;
  mise ← collected mise_due (collect_mise collector) mise_outcome;
  security ← _security collector security_due cisa_due enable_cisa_kev;
  ret {| in_omarchy := omarchy; in_arch := arch; in_aur := aur; in_flatpak_user := flatpak.1;
         in_flatpak_system := flatpak.2; in_mise := mise; in_security := security.1; in_cisa_kev := security.2 |}.

(** [ScanCoordinator.run] *)
Definition run (request : ScanRequest) : M ScanResult :=
  now ← clock;
  previous ← load_generation stack;
  loaded ← load_state stack;
  let state := load_state_of loaded in
  inputs ← collect_inputs (st_sources state) now (rq_force request) (rq_enable_cisa_kev request);
  generation ← lift (build_generation (rq_generation_id request) (rq_generation_order request) inputs previous state now);
  committed ← commit_generation stack generation;
  if committed : bool
  then
    outcomes ← dispatch stack Hstack notify (rq_notification_settings request) token (g_snapshot generation);
    ret {| sr_committed := true; sr_snapshot := with_notifications (g_snapshot generation) outcomes |}
  else ret {| sr_committed := false; sr_snapshot := g_snapshot generation |}.
End Coordinator.

(** ** What a scan publishes *)

Section Published.
Context `{Iso : IsoDialect} (stack : nat) (Hstack : MAX_JSON_DEPTH < Z.of_nat stack).

Abbreviation sound := (sound stack).
Abbreviation generation_in := (generation_in stack).
Abbreviation state_in := (state_in stack).
Abbreviation kept := (kept stack).
#[local] Existing Instance kept_change.

Lemma empty_state_valid : valid_state empty_state.
Proof. apply validate_state_spec. vm_compute. reflexivity. Qed.

(** What is stored was checked when it was read. *)
Lemma state_in_valid f : valid_state (state_in f).
Proof.
  unfold StorageSpec.state_in, StorageSpec.generation_in. destruct (f !! generation_path) as [raw|]; simpl.
  - pose proof (decode_generation_checked stack raw) as H. destruct (decode_generation stack raw) as [b|]; [apply H|].
    destruct (f !! LState) as [r|]; [|apply empty_state_valid]. destruct (decode_state stack r) eqn:E;
      [by eapply decode_state_valid | apply empty_state_valid].
  - destruct (f !! LState) as [r|]; [|apply empty_state_valid]. destruct (decode_state stack r) eqn:E;
      [by eapply decode_state_valid | apply empty_state_valid].
Qed.

Lemma pruned_valid s c s' : prune_ledger s c = Ok s' -> valid_state s -> valid_state s'.
Proof. intros (_ & _ & ->)%prune_ledger_Ok Hs. by apply with_ledger_valid, pruned_submseteq. Qed.

(** [m] may use the files, or let others use them, and returns what [P] says. *)
Definition collects {A} (m : M A) (P : A -> Prop) : Prop := forall w,
  sound (durable w) -> runs m (fun a f => kept (durable w) f /\ P a) (kept (durable w)) w.

(** What a scan relies on its collector for. *)
Class GoodCollector (c : ScanCollector) := {
  good_collect_omarchy : collects (collect_omarchy c) good_omarchy;
  good_collect_arch : collects (collect_arch c) good_arch;
  good_collect_aur : collects (collect_aur c) good_aur;
  good_collect_flatpak : collects (collect_flatpak c) good_flatpak;
  good_collect_mise : collects (collect_mise c) good_mise;
  good_collect_security b : collects (collect_security c b) good_security;
}.

Lemma collects_ret {A} (a : A) (P : A -> Prop) : P a -> collects (ret a) P.
Proof. intros Ha w Hw. apply runs_ret. split; [by apply (change_same stack kept) | done]. Qed.

Lemma collects_lift {A} (r : res A) (P : A -> Prop) : (forall a, r = Ok a -> P a) -> collects (lift r) P.
Proof. intros Hr w Hw. apply runs_lift; [intros a Ha; split; [|by apply Hr]|]; by apply (change_same stack kept). Qed.

Lemma collects_bind {A B} (m : M A) (k : A -> M B) (P : A -> Prop) (Q : B -> Prop) :
  collects m P -> (forall a, P a -> collects (k a) Q) -> collects (m ≫= k) Q.
Proof.
  intros Hm Hk w Hw. apply runs_bind. eapply wp_mono; [by apply Hm | | auto]. cbv beta. intros a w' [Hkw Ha].
  eapply runs_mono; [apply Hk; [exact Ha | apply Hkw] | |]; cbv beta.
  - intros b f [Hf Hb]. split; [by eapply kept_trans | done].
  - intros f Hf. by eapply kept_trans.
Qed.

Lemma collects_weaken {A} (m : M A) (P Q : A -> Prop) : collects m P -> (forall a, P a -> Q a) -> collects m Q.
Proof. intros Hm HPQ w Hw. eapply runs_mono; [by apply Hm | | auto]. intros a f [? ?]. auto. Qed.

Lemma collects_due {A} (m : M A) (P : A -> Prop) (outcome : A -> SourceOutcome) is_due id :
  collects m P -> (forall a, P a -> matched (Some (outcome a)) id) ->
  collects (collected is_due m outcome) (fun o => matched o id).
Proof.
  intros Hm Ho. unfold collected. destruct is_due; [|apply collects_ret, matched_None].
  eapply collects_bind; [exact Hm|]. intros a Ha. by apply collects_ret, Ho.
Qed.

Context (c : ScanCollector) `{!GoodCollector c}.

Lemma collects_flatpak is_due :
  collects (_flatpak c is_due) (fun o => matched o.1 (SN_FLATPAK, Some USER) /\ matched o.2 (SN_FLATPAK, Some SYSTEM)).
Proof.
  unfold _flatpak. destruct is_due; [|apply collects_ret; split; apply matched_None].
  eapply collects_bind; [apply good_collect_flatpak|]. intros r (u & s & E & Hu & Hs)%flatpak_matched.
  apply (collects_bind _ _ (fun o => o = (u, s))); [apply collects_lift; intros ? H; congruence|].
  intros o ->. by apply collects_ret.
Qed.

Lemma collects_security is_due cisa_due enabled :
  collects (_security c is_due cisa_due enabled)
    (fun o => matched o.1 (SN_SECURITY, None) /\ matched o.2 (SN_CISA_KEV, None)).
Proof.
  assert (matched (Some (not_applicable SN_CISA_KEV None)) (SN_CISA_KEV, None)) as Hna by auto with opatchy.
  pose proof matched_None as Hnone. unfold _security. destruct (negb enabled).
  - destruct (negb is_due); [by apply collects_ret|]. eapply collects_bind; [apply good_collect_security|].
    intros r [Hr _]%security_matched. by apply collects_ret.
  - destruct (negb is_due && negb cisa_due); [by apply collects_ret|].
    eapply collects_bind; [apply good_collect_security|]. intros r Hr%security_matched. by apply collects_ret.
Qed.

Lemma collects_inputs ms now force enabled :
  collects (collect_inputs c ms now force enabled) (fun i => Forall2 matched (outcomes i) identities).
Proof.
  unfold collect_inputs. do 7 (eapply (collects_bind _ _ (fun _ => True)); [by apply collects_lift | intros ? _]).
  eapply collects_bind; [apply (collects_due _ good_omarchy _ _ (SN_OMARCHY, None));
    [apply good_collect_omarchy | apply omarchy_matched] | intros omarchy H1].
  eapply collects_bind; [apply (collects_due _ good_arch _ _ (SN_ARCH, None));
    [apply good_collect_arch | apply arch_matched] | intros arch H2].
  eapply collects_bind; [apply (collects_due _ good_aur _ _ (SN_AUR, None));
    [apply good_collect_aur | apply aur_matched] | intros aur H3].
  eapply collects_bind; [apply collects_flatpak | intros flatpak [H4 H5]].
  eapply collects_bind; [apply (collects_due _ good_mise _ _ (SN_MISE, None));
    [apply good_collect_mise | apply mise_matched] | intros mise H6].
  eapply collects_bind; [apply collects_security | intros security [H7 H8]].
  apply collects_ret. repeat (constructor; [assumption|]). constructor.
Qed.

(** The state a scan begins with: the stored one, pruned, or none when its file is no state. *)
Definition state_read (f : disk) (s : PersistentState) : Prop :=
  (exists c, prune_ledger (state_in f) c = Ok s) \/ generation_in f = None /\ s = empty_state.

(** The bundle of a scan that began with this generation and that state. *)
Definition scanned (request : ScanRequest) (f : disk) (b : GenerationBundle) : Prop :=
  exists inputs state now, Forall2 matched (outcomes inputs) identities /\ state_read f state
    /\ build_generation (rq_generation_id request) (rq_generation_order request) inputs (generation_in f) state now = Ok b.

Lemma state_read_holds f s :
  sound f -> state_read f s -> valid_state s /\ Forall in_range (state_times s).
Proof.
  intros [Ht _] [[t Hs]|[_ ->]]; [|by split; [apply empty_state_valid | constructor]].
  split; [eapply pruned_valid; [exact Hs | apply state_in_valid] | by eapply pruned_times].
Qed.

Lemma load_state_reads w :
  answers w -> sound (durable w) ->
  runs (load_state stack) (fun l f => kept (durable w) f /\ state_read (durable w) (load_state_of l)) (kept (durable w)) w.
Proof using Hstack.
  intros Ha Hw. apply runs_lock; [by apply (change_same stack kept) | by intros l f [? _] |]. intros w1 E Es.
  apply (same_answers _ _ Es) in Ha. rewrite <-E in Hw |- *. eapply runs_mono; [by apply load_state_locked_runs | |]; cbv beta.
  - intros l f. destruct (load_warning l); intros H.
    + destruct H as (El & Hq & _). split; [by apply same_scan_kept, quarantined_same_scan|]. right.
      by split; [apply Hq|].
    + destruct H as (Hl & _ & _). split; [by eapply same_scan_kept, loaded_same_scan|]. left. apply Hl.
  - intros f [H|[_ [H|[s H]]]]; [by apply kept_view | by apply same_scan_kept, quarantined_same_scan|].
    by eapply same_scan_kept, loaded_same_scan.
Qed.

Lemma load_generation_reads w :
  answers w -> sound (durable w) ->
  runs (load_generation stack) (fun g f => g = generation_in (durable w) /\ view_eq stack (durable w) f)
    (kept (durable w)) w.
Proof.
  intros Ha Hw. apply runs_lock; [by apply (change_same stack kept) | intros g f [_ H]; by apply kept_view |]. intros w1 E Es.
  apply (same_answers _ _ Es) in Ha. rewrite <-E in Hw |- *. eapply runs_mono; [by apply load_generation_runs | |]; cbv beta.
  - intros g f [-> H%settled_view]. done.
  - intros f H%settled_view. by apply kept_view.
Qed.

Lemma state_read_view f g s : view_eq stack f g -> state_read g s -> state_read f s.
Proof. unfold state_read. by intros [-> ->]. Qed.

(** A scan makes what can be published, and what the next scan can rely on. *)
Lemma scanned_good request f b :
  sound f -> (forall g, generation_in f = Some g -> good_generation g) -> short_text (rq_generation_id request) ->
  scanned request f b -> g_order b = rq_generation_order request /\ good_generation b /\ valid_state (g_state b).
Proof.
  intros Hf Hg Hid (inputs & state & now & Hin & Hs & Hb). destruct (state_read_holds f state Hf Hs) as [Hv _].
  destruct (build_generation_good _ _ _ _ _ _ _ Hid Hin Hg Hv Hb) as (_ & _ & Hst & Hgood).
  split; [|split; [exact Hgood | by apply validate_state_spec]].
  unfold build_generation in Hb. inv_ok. done.
Qed.

Context (notify : CommandRunner) (token : NotificationKind -> str).

Lemma same_scan_dispatch settings snapshot :
  changes stack answering (same_scan stack) (dispatch stack Hstack notify settings token snapshot).
Proof using Hstack.
  pose proof (same_scan_change stack) as Hc. unfold dispatch. apply (changes_bind_clock _ _ _). intros now _.
  apply (changes_bind _ _ _); [apply load_same_scan, Hstack|]. intros l. apply (changes_bind _ _ _); [by apply (changes_lift _ _ _)|].
  intros cs w Ha Hw. eapply runs_mono; [by apply dispatch_kinds_spares | |]; cbv beta; [intros _ f [H _] | intros f [H _]]; exact H.
Qed.

Lemma kept_newest f g b : kept f g -> newest stack b g -> newest stack b f.
Proof. intros [_ Hk] Hn x (y & Hy & ?)%Hk. apply Hn in Hy. lia. Qed.

(** What [run] has done from [w] when it returns: from the time it read, the stored
    generation and the state it loaded, the collector was asked once, and from what it gave
    in this very run a generation was built and handed to [commit_generation]. If that
    committed, the notifications were dispatched for the snapshot of the generation, from
    the world the commit left, and the caller is shown the snapshot with the outcomes of
    that dispatch; if not, that was all, to the last system call: nothing was claimed,
    shown or written afterwards. *)
Definition scan_done (request : ScanRequest) (w : world) (r : ScanResult) (w' : world) : Prop :=
  exists w1 loaded w2 inputs w3 b w4,
    let now := StorageIO.w_clock w (w_readings w) in
    let dispatched := dispatch stack Hstack notify (rq_notification_settings request) token (g_snapshot b) w4 in
    load_generation stack (clock w).1 = (w1, Ok (generation_in (durable w)))
    /\ load_state stack w1 = (w2, Ok loaded) /\ state_read (durable w) (load_state_of loaded)
    /\ collect_inputs c (st_sources (load_state_of loaded)) now (rq_force request) (rq_enable_cisa_kev request) w2
       = (w3, Ok inputs)
    /\ build_generation (rq_generation_id request) (rq_generation_order request) inputs (generation_in (durable w))
         (load_state_of loaded) now = Ok b
    /\ commit_generation stack b w3 = (w4, Ok (sr_committed r))
    /\ if sr_committed r
       then newest stack b (durable w) /\ published stack b (durable w4)
            /\ generation_in (durable w') = Some (with_state b (state_in (durable w')))
            /\ exists shown, dispatched = (w', Ok shown) /\ sr_snapshot r = with_notifications (g_snapshot b) shown
       else w' = w4 /\ sr_snapshot r = g_snapshot b /\ notifications (snap_payload (sr_snapshot r)) = []
            /\ exists newer, generation_in (durable w') = Some newer /\ rq_generation_order request <= g_order newer.

Lemma built_fields id order inputs previous state now b :
  build_generation id order inputs previous state now = Ok b ->
  g_order b = order /\ notifications (snap_payload (g_snapshot b)) = [].
Proof. unfold build_generation. intros H. inv_ok. done. Qed.

(** A bundle that is committed, and what is shown then. *)
Lemma commit_and_dispatch settings f b w :
  answers w -> sound (durable w) -> kept f (durable w) ->
  Forall in_range (bundle_times b) -> Forall in_range (state_times (g_state b)) ->
  wp (committed ← commit_generation stack b;
      if committed : bool
      then
        outcomes ← dispatch stack Hstack notify settings token (g_snapshot b);
        ret {| sr_committed := true; sr_snapshot := with_notifications (g_snapshot b) outcomes |}
      else ret {| sr_committed := false; sr_snapshot := g_snapshot b |})
    (fun r w' => kept f (durable w') /\ exists w4, commit_generation stack b w = (w4, Ok (sr_committed r)) /\
       if sr_committed r
       then newest stack b f /\ published stack b (durable w4)
            /\ generation_in (durable w') = Some (with_state b (state_in (durable w')))
            /\ exists shown, dispatch stack Hstack notify settings token (g_snapshot b) w4 = (w', Ok shown)
                 /\ sr_snapshot r = with_notifications (g_snapshot b) shown
       else w' = w4 /\ sr_snapshot r = g_snapshot b
            /\ exists newer, generation_in (durable w') = Some newer /\ g_order b <= g_order newer)
    (fun _ w' => kept f (durable w')) w.
Proof using Hstack.
  intros Ha Hw Hk Ht Hs. assert (forall f', kept (durable w) f' -> kept f f') as Htr by (intros f'; by apply kept_trans).
  apply wp_bind. eapply wp_mono.
  { apply wp_here, wp_and; [by apply commit_generation_runs | by apply (keeps_commit stack Hstack b Ht Hs)]. }
  2:{ cbv beta. intros e w' (_ & _ & _ & H). by apply Htr. }
  cbv beta. intros [] w1 (E1 & S1 & Hc & Hk1%Htr); cycle 1.
  { apply wp_ret. split; [done|]. exists w1. split; [done|]. destruct Hc as [[Hg _] (x & Hx & Hle)]. split; [done|].
    split; [done|]. exists x. by rewrite Hg. }
  destruct Hc as [Hn Hp]. pose proof Hp as (Hw1 & t & s & _ & Hg & Hst). apply (same_answers _ _ S1) in Ha. apply wp_bind.
  eapply wp_mono; [apply wp_here, same_scan_dispatch; [exact Ha | exact Hw1] | |]; cbv beta.
  - intros shown w2 (E2 & _ & Hsame). apply wp_ret. split; [eapply kept_trans; [exact Hk1 | by apply same_scan_kept]|].
    exists w1. split; [done|]. split; [exact (kept_newest _ _ _ Hk Hn)|]. split; [done|]. split; [|by exists shown].
    destruct Hsame as [_ ->]. by rewrite Hg.
  - intros e w2 (_ & _ & Hsame). eapply kept_trans; [exact Hk1 | by apply same_scan_kept].
Qed.

Lemma run_runs request w :
  answers w -> sound (durable w) ->
  wp (run stack Hstack notify token c request)
    (fun r w' => kept (durable w) (durable w') /\ scan_done request w r w'
       /\ exists b, scanned request (durable w) b
            /\ (sr_committed r = true -> generation_in (durable w') = Some (with_state b (state_in (durable w')))))
    (fun _ w' => kept (durable w) (durable w')) w.
Proof using Hstack GoodCollector0.
  intros Ha Hw. unfold run. apply wp_bind. split; [done|]. pose proof (w_clock_range w (w_readings w)) as Hnow.
  assert (durable (clock w).1 = durable w /\ answers (clock w).1) as [E0 Ha0] by done. rewrite <-E0 in Hw.
  apply wp_bind. eapply wp_mono; [apply wp_here, load_generation_reads; [exact Ha0 | exact Hw] | |]; cbv beta;
    rewrite ?E0 in *; [|by intros e w' (_ & _ & ?)].
  intros previous w1 (E1 & S1 & -> & Hv). apply (same_answers _ _ S1) in Ha0.
  pose proof (kept_view stack _ _ Hw Hv) as Hk1. pose proof (view_sound stack _ _ Hv Hw) as Hw1.
  apply wp_bind. eapply wp_mono; [apply wp_here, load_state_reads; [exact Ha0 | exact Hw1] | |]; cbv beta.
  2:{ intros e w' (_ & _ & ?). by eapply kept_trans. }
  intros l w2 (E2 & S2 & Hk2 & Hl). apply (same_answers _ _ S2) in Ha0.
  apply (state_read_view _ _ _ Hv) in Hl. apply (kept_trans stack _ _ _ Hk1) in Hk2.
  destruct (state_read_holds _ _ Hw Hl) as [_ Hlt]. apply wp_bind.
  eapply wp_mono; [apply wp_here, collects_inputs, Hk2 | |]; cbv beta; [|intros e w' (_ & _ & ?); by eapply kept_trans].
  intros inputs w3 (E3 & S3 & Hk3 & Hin). apply (same_answers _ _ S3) in Ha0. apply (kept_trans stack _ _ _ Hk2) in Hk3.
  apply wp_bind, wp_lift; [|done]. intros b Hb.
  destruct (build_generation_times _ _ _ _ _ _ _ Hnow (proj2 Hw) Hlt Hb) as [Ht Hs]. destruct (built_fields _ _ _ _ _ _ _ Hb) as [Ho Hno].
  eapply wp_mono; [apply commit_and_dispatch; [exact Ha0 | apply Hk3 | exact Hk3 | exact Ht | exact Hs] | | done]; cbv beta.
  intros r w' (Hk & w4 & Hc & Hr). split; [done|]. split; cycle 1.
  { exists b. split; [by exists inputs, (load_state_of l), (StorageIO.w_clock w (w_readings w))|]. intros E. rewrite E in Hr. apply Hr. }
  exists w1, l, w2, inputs, w3, b, w4. cbv zeta.
  do 6 (split; [done|]). destruct (sr_committed r); [done|]. destruct Hr as (-> & Hsnap & Hx).
  split; [done|]. split; [done|]. split; [by rewrite Hsnap|]. by rewrite <-Ho.
Qed.

(** A scan is the two steps [step_load] and [step_commit] of the coordinators on disk: it
    loads the stored state, pruned, and what it commits has the watches and the ledger of
    that state in the place of the stored ones. *)
Lemma load_is_step w :
  answers w -> sound (durable w) ->
  let '(w', r) := load_state stack w in
  sound (durable w') /\ forall l, r = Ok l ->
    (exists t, prune_ledger (state_in (durable w)) t = Ok (load_state_of l))
    /\ (state_in (durable w') = state_in (durable w)
        \/ exists t, prune_ledger (load_state_of l) t = Ok (state_in (durable w')))
    \/ load_state_of l = empty_state /\ state_in (durable w') = empty_state.
Proof using Hstack.
  intros Ha Hw. pose proof (load_state_recovers_locked stack Hstack w Ha Hw) as H.
  destruct (changes_run stack _ _ _ w (load_same_scan stack Hstack) Ha Hw) as [[Hs _] _].
  destruct (load_state stack w) as [w' [l|e]]; (split; [exact Hs|]); [|done]. intros l' [= <-].
  destruct (load_warning l).
  - destruct H as [E (_ & Hg & raw & _ & Hn & _)]. right. split; [done|]. unfold StorageSpec.state_in. by rewrite Hg, Hn.
  - left. destruct H as [[Hc H] _]. split; [done|]. destruct H as [[_ H]|(_ & H & _)]; auto.
Qed.

Lemma commit_is_step request inputs previous state now b w :
  build_generation (rq_generation_id request) (rq_generation_order request) inputs previous state now = Ok b ->
  answers w -> sound (durable w) -> Forall in_range (bundle_times b) -> Forall in_range (state_times (g_state b)) ->
  let '(w', _) := commit_generation stack b w in
  sound (durable w')
  /\ (state_in (durable w') = state_in (durable w)
      \/ exists srcs t, prune_ledger (published_state state srcs) t = Ok (state_in (durable w'))).
Proof using Hstack.
  intros Hb Ha Hw Ht Hs. assert (exists srcs, g_state b = published_state state srcs) as [srcs Est].
  { unfold build_generation in Hb. inv_ok. by eexists. }
  pose proof (commit_generation_runs stack Hstack b w Ha Hw Ht Hs) as H. unfold runs, wp in H.
  assert (forall f, view_eq stack (durable w) f \/ newest stack b (durable w) /\ published stack b f ->
    sound f /\ (state_in f = state_in (durable w) \/ exists srcs t, prune_ledger (published_state state srcs) t = Ok (state_in f))) as Hf.
  { intros f [Hv|[_ (Hsd & t & s & Hp & _ & E)]].
    - split; [by eapply view_sound | left; apply Hv].
    - split; [done|]. right. exists srcs, t. by rewrite <-Est, E. }
  destruct (commit_generation stack b w) as [w' [[]|e]]; apply Hf; destruct H as [_ H]; [by right | left; apply H | done].
Qed.

(** C2. A scan, from its first source to its last notification. It publishes only if it is
    newer than everything published before or meanwhile, and then what is stored is what
    it built from what its collector gave in this run, whole, a generation the next scan
    can rely on, and what the caller is shown is that very snapshot with the outcomes of
    the notifications dispatched for it. If it was overtaken, nothing happens after the
    commit is refused: no notification is claimed or shown, the snapshot has none, and
    what is stored is at least as new. However its sources, its notifications or the calls
    that write, read, sync and lock fail, nothing published is lost; it relies on [stat]
    to answer ([StorageSpec.unanswered_commit]). *)
Theorem scan_publishes request w :
  answers w -> sound (durable w) -> (forall b, generation_in (durable w) = Some b -> good_generation b) ->
  short_text (rq_generation_id request) ->
  let '(w', r) := run stack Hstack notify token c request w in
  kept (durable w) (durable w')
  /\ match r with
     | Ok result => scan_done request w result w'
                    /\ forall b, sr_committed result = true -> generation_in (durable w') = Some b ->
                       good_generation b /\ g_order b = rq_generation_order request
     | Err _ => True
     end.
Proof using Hstack GoodCollector0.
  intros Ha Hw Hg Hid. pose proof (run_runs request w Ha Hw) as H. unfold wp in H.
  destruct (run stack Hstack notify token c request w) as [w' [r|e]]; destruct H as [_ H]; [|done].
  destruct H as (Hk & Hd & b0 & Hs & Hb0). split; [done|]. split; [done|]. intros b Hc Hb.
  specialize (Hb0 Hc). rewrite Hb in Hb0. injection Hb0 as ->.
  destruct (scanned_good request _ _ Hw Hg Hid Hs) as (Ho & Hgood & _). by split.
Qed.
End Published.

(** ** A first scan, overtaken by nobody *)

Definition sample_collector : ScanCollector := {|
  collect_omarchy := ret {| oa_status := SS_NOT_APPLICABLE; oa_items := []; oa_diagnostic := None |};
  collect_arch := ret (collect_official_updates sample_run);
  collect_aur := ret AurNotApplicable;
  collect_flatpak := ret {| fp_scopes :=
    ({| fp_scope := FS_USER; fp_status := FSS_OK; fp_records := []; fp_diagnostic := None |},
     {| fp_scope := FS_SYSTEM; fp_status := FSS_TIMEOUT; fp_records := []; fp_diagnostic := None |}) |};
  collect_mise := ret MiseNotApplicable;
  collect_security _ := ret (SecurityArchUnavailable (lit "no feed"));
|}.

Definition sample_request (order : Z) : ScanRequest := {|
  rq_generation_id := lit "scan-1"; rq_generation_order := order; rq_force := false;
  rq_notification_settings := default_notification_settings; rq_enable_cisa_kev := true |}.

Lemma sample_collector_good : GoodCollector (Iso:=fun _ => None) 101 sample_collector.
Proof.
  split; [..|intros b]; apply collects_ret; try exact I; try (by constructor).
Qed.

Lemma scan_publishes_witness :
  match run (Iso:=fun _ => None) 101 eq_refl sample_run value sample_collector (sample_request 4) sample_world with
  | (w', Ok r) =>
      sr_committed r = true
      /\ scan_done (Iso:=fun _ => None) 101 eq_refl sample_collector sample_run value (sample_request 4) sample_world r w'
  | _ => False
  end.
Proof.
  pose proof (scan_publishes (Iso:=fun _ => None) 101 eq_refl sample_collector (GoodCollector0:=sample_collector_good)
    sample_run value (sample_request 4) sample_world sample_answers sample_sound) as H.
  assert (sr_committed <$> (run (Iso:=fun _ => None) 101 eq_refl sample_run value sample_collector (sample_request 4)
    sample_world).2 = Ok true) as E by (vm_compute; reflexivity).
  destruct (run _ _ _ _ _ _ _) as [w' [r|e]]; [|discriminate E]. injection E as E.
  destruct H as [_ [Hd _]]; [intros b [=] | vm_compute; split; congruence |]. split; [exact E | exact Hd].
Defined.

(** The same scan again is overtaken by itself: nothing is dispatched. *)
Lemma overtaken_scan :
  let w := (run (Iso:=fun _ => None) 101 eq_refl sample_run value sample_collector (sample_request 4) sample_world).1 in
  sr_committed <$> (run (Iso:=fun _ => None) 101 eq_refl sample_run value sample_collector (sample_request 4) w).2 = Ok false.
Proof. vm_compute. reflexivity. Qed.

(** While the sources are asked, another process stores its watches and a lease. *)
Definition busy_collector : ScanCollector := {|
  collect_omarchy := collect_omarchy sample_collector;
  collect_arch := (_ ← Storage.update_state (Iso:=fun _ => None) 101 (fun _ => Ok (sample_state, tt));
                   collect_arch sample_collector);
  collect_aur := collect_aur sample_collector; collect_flatpak := collect_flatpak sample_collector;
  collect_mise := collect_mise sample_collector; collect_security := collect_security sample_collector |}.

(** The scan publishes the state it loaded before, and both are lost. *)
Lemma scan_forgets_updates :
  let run c := run (Iso:=fun _ => None) 101 eq_refl sample_run value c (sample_request 4) sample_world in
  let state := state_in (Iso:=fun _ => None) 101 in
  st_watches sample_state <> [] /\ st_ledger sample_state <> []
  /\ sr_committed <$> (run busy_collector).2 = Ok true
  /\ st_watches (state (durable (run busy_collector).1)) = [] /\ st_ledger (state (durable (run busy_collector).1)) = [].
Proof. vm_compute. split_and!; try reflexivity; discriminate. Qed.
