(* ===== verification/Urls.v ===== *)
(** * Addresses

    What the helper uses of [urllib.parse]: [urlsplit] and the parts of a network
    location. The checks of a host in brackets and of characters that a normal form of
    Unicode would turn into delimiters are arguments. *)

From S2P Require Import Prelude PyStr Models JsonText SecurityFeeds.

Open Scope N_scope.

(** [s.partition(c)]: what is before the first [c] and, if there is one, what is after. *)
Fixpoint partition (c : N) (s : str) : str * option str :=
  match s with
  | [] => ([], None)
  | x :: s' => if x =? c then ([], Some s') else let p := partition c s' in (x :: p.1, p.2)
  end.

(** [s.rpartition(c)]: what is before the last [c], if there is one, and what is after. *)
Definition rpartition (c : N) (s : str) : option str * str :=
  let p := partition c (reverse s) in (reverse <$> p.2, reverse p.1).

Lemma partition_spec c s :
  match partition c s with
  | (b, Some a) => s = b ++ c :: a /\ c ∉ b
  | (b, None) => s = b /\ c ∉ b
  end.
Proof.
  induction s as [|x s IH]; simpl; [split; [done | apply not_elem_of_nil]|].
  destruct (N.eqb_spec x c) as [->|Hx]; [split; [done | apply not_elem_of_nil]|].
  destruct (partition c s) as [b [a|]]; simpl; destruct IH as [-> Hb]; (split; [done|]); rewrite not_elem_of_cons; auto.
Qed.

Lemma rpartition_none c s t : rpartition c s = (None, t) -> t = s /\ c ∉ s.
Proof.
  unfold rpartition. pose proof (partition_spec c (reverse s)) as H. destruct (partition c (reverse s)) as [b [a|]]; [done|].
  destruct H as [<- Hn]. simpl. rewrite reverse_involutive. intros [= <-]. split; [done|]. by rewrite elem_of_reverse in Hn.
Qed.

(** The characters that end a network location. *)
Definition delimiter (c : N) : bool := existsb (N.eqb c) (lit "/?#").

(** [_splitnetloc], past the two slashes. *)
Fixpoint _splitnetloc (s : str) : str * str :=
  match s with
  | [] => ([], [])
  | c :: s' => if delimiter c then ([], s) else let p := _splitnetloc s' in (c :: p.1, p.2)
  end.

Lemma splitnetloc_app s : s = (_splitnetloc s).1 ++ (_splitnetloc s).2.
Proof. induction s as [|c s IH]; [done|]. simpl. destruct (delimiter c); simpl; [done | by rewrite <-IH]. Qed.

Definition is_alpha (c : N) : bool := (65 <=? c) && (c <=? 90) || (97 <=? c) && (c <=? 122).
Definition scheme_char (c : N) : bool := is_alpha c || is_digit c || existsb (N.eqb c) (lit "+-.").
Definition ascii_lower (s : str) : str := (fun c => if (65 <=? c) && (c <=? 90) then c + 32 else c) <$> s.

(** Leading control characters and spaces go, and tabulators and line ends anywhere. *)
Fixpoint lstrip_controls (s : str) : str :=
  match s with
  | [] => []
  | c :: s' => if c <=? 32 then lstrip_controls s' else s
  end.
Definition cleaned (url : str) : str :=
  List.filter (fun c => negb (existsb (N.eqb c) [9; 10; 13])) (lstrip_controls url).

(** The scheme, if the text before the first colon can be one, and the rest. *)
Definition scheme_and_rest (url : str) : str * str :=
  match partition 58 url with
  | (b, Some rest) =>
      match b with
      | c :: _ => if is_alpha c && forallb scheme_char b then (ascii_lower b, rest) else ([], url)
      | [] => ([], url)
      end
  | _ => ([], url)
  end.

Record SplitResult := { scheme : str; netloc : str; path : str; query : str; fragment : str }.

(** The tables behind two checks of [urlsplit]. *)
Class UrlTables := {
  bracketed_host : str -> bool;
  nfkc : str -> str;
}.

Section Split.
Context `{Tables : UnicodeTables} `{Url : UrlTables}.

(** [_check_bracketed_netloc] *)
Definition bracketed_netloc (n : str) : bool :=
  let hostport := (rpartition 64 n).2 in
  match partition 91 hostport with
  | (before, Some bracketed) =>
      let p := partition 93 bracketed in
      bool_decide (before = []) && match p.2 with Some (c :: _) => c =? 58 | _ => true end && bracketed_host p.1
  | (_, None) => bracketed_host (partition 58 hostport).1
  end.

(** [_checknetloc] *)
Definition normal_netloc (n : str) : bool :=
  isascii n
  || (let plain := List.filter (fun c => negb (existsb (N.eqb c) (lit "@:#?"))) n in
      bool_decide (nfkc plain = plain) || negb (existsb (fun c => existsb (N.eqb c) (nfkc plain)) (lit "/?#@:"))).

Definition urlsplit (url : str) : res SplitResult :=
  let '(scheme, rest) := scheme_and_rest (cleaned url) in
  let '(netloc, rest) := if startswith rest (lit "//") then _splitnetloc (drop 2 rest) else ([], rest) in
  let opened := existsb (N.eqb 91) netloc in
  let closed := existsb (N.eqb 93) netloc in
  _ ← raise_if (xorb opened closed) ValueError;
  _ ← raise_if (opened && closed && negb (bracketed_netloc netloc)) ValueError;
  let f := partition 35 rest in
  let q := partition 63 f.1 in
  _ ← raise_if (negb (normal_netloc netloc)) ValueError;
  Ok {| scheme := scheme; netloc := netloc; path := q.1; query := default [] q.2; fragment := default [] f.2 |}.

(** ** The parts of a network location *)

(** Whether there is a user before the host: the username or the password is not [None]. *)
Definition has_userinfo (p : SplitResult) : bool := bool_decide (is_Some (rpartition 64 (netloc p)).1).

Definition _hostinfo (p : SplitResult) : str * option str :=
  let hostinfo := (rpartition 64 (netloc p)).2 in
  let '(host, port) :=
    match partition 91 hostinfo with
    | (_, Some bracketed) =>
        let b := partition 93 bracketed in (b.1, default [] (partition 58 (default [] b.2)).2)
    | (_, None) => let b := partition 58 hostinfo in (b.1, default [] b.2)
    end in
  (host, match port with [] => None | _ => Some port end).

(** A zone after a percent sign keeps its case. *)
Definition hostname (p : SplitResult) : option str :=
  match (_hostinfo p).1 with
  | [] => None
  | host =>
      let z := partition 37 host in
      Some (lower z.1 ++ match z.2 with Some zone => 37 :: zone | None => [] end)
  end.

Definition port (p : SplitResult) : res (option Z) :=
  match (_hostinfo p).2 with
  | None => Ok None
  | Some text =>
      _ ← raise_if (negb (forallb is_digit text)) ValueError;
      n ← int_of false text;
      _ ← raise_if (negb ((0 <=? n) && (n <=? 65535))%Z) ValueError;
      Ok (Some n)
  end.

(** ** What a split address was *)

Definition tail_text (s : str) : Prop := s = [] \/ exists c t, s = c :: t /\ (c = 63 \/ c = 35).

Lemma path_app rest :
  exists tail, rest = (partition 63 (partition 35 rest).1).1 ++ tail /\ tail_text tail.
Proof.
  assert (forall c s, c = 63 \/ c = 35 -> exists t, s = (partition c s).1 ++ t /\ tail_text t) as H.
  { intros c s Hc. pose proof (partition_spec c s) as H. destruct (partition c s) as [b [a|]], H as [-> _]; cbn [fst].
    - exists (c :: a). split; [done|]. right. by exists c, a.
    - exists []. rewrite app_nil_r. split; [done | by left]. }
  destruct (H 35 rest) as (t & E & Ht); [auto|]. destruct (H 63 (partition 35 rest).1) as (u & E' & Hu); [auto|].
  exists (u ++ t). rewrite app_assoc, <-E'. split; [done|].
  destruct Hu as [->|(c & v & -> & Hc)]; [done|]. right. by exists c, (v ++ t).
Qed.

Lemma scheme_and_rest_app url s r :
  scheme_and_rest url = (s, r) -> s <> [] -> exists b, url = b ++ 58 :: r /\ ascii_lower b = s.
Proof.
  unfold scheme_and_rest. pose proof (partition_spec 58 url) as H. destruct (partition 58 url) as [[|c b] [a|]];
    try (by intros [= <- <-]). destruct (_ && _); [|by intros [= <- <-]]. intros [= <- <-] _.
  destruct H as [-> _]. by exists (c :: b).
Qed.

(** An address with a scheme and a network location is these, its path, and the rest. *)
Lemma urlsplit_app url p :
  urlsplit url = Ok p -> scheme p <> [] -> netloc p <> [] ->
  exists b tail, cleaned url = b ++ lit "://" ++ netloc p ++ path p ++ tail /\ ascii_lower b = scheme p /\ tail_text tail.
Proof.
  unfold urlsplit. destruct (scheme_and_rest (cleaned url)) as [s r] eqn:Es.
  destruct (if startswith r _ then _ else _) as [n rest] eqn:En. intros H Hs Hn.
  apply bind_Ok in H as (_ & _ & H). apply bind_Ok in H as (_ & _ & H). apply bind_Ok in H as (_ & _ & H). injection H as <-.
  cbn in Hs, Hn |- *. destruct (startswith r _) eqn:Ew; [|injection En as <-; done].
  apply startswith_spec in Ew as [r' ->]. apply scheme_and_rest_app in Es as (b & -> & Hb); [|done].
  change (drop 2 (lit "//" ++ r')) with r' in En. pose proof (splitnetloc_app r') as E. rewrite En in E. cbn in E.
  destruct (path_app rest) as (tail & E' & Ht). exists b, tail. split; [|done].
  rewrite <-E'. cbn [app] in E. rewrite E. done.
Qed.
End Split.
