(* ===== verification/Registry.v ===== *)
(** * The closed registry of commands and endpoints

    [CommandSpec] and [EndpointSpec] of [runner_types.py], and the two tables of
    [runner_registry.py]: the only programs the helper runs and the only addresses it asks. *)

From S2P Require Import Prelude PyStr Models RunnerTypes.

Open Scope Z_scope.

Record CommandSpec := {
  executable : str;
  base_argv : list str;
  argument_policy : ArgumentPolicy;
  cs_timeout_seconds : Z;
  stdout_limit : Z;
  stderr_limit : Z;
  cwd : option str;
}.

(** [CommandSpec.__post_init__] *)
Definition command_spec_post_init (s : CommandSpec) : res unit :=
  _ ← raise_if (negb (startswith (executable s) (lit "/"))) ValueError;
  raise_if ((cs_timeout_seconds s <=? 0) || (stdout_limit s <=? 0) || (stderr_limit s <=? 0)) ValueError.

Record EndpointSpec := {
  url : str;
  allowed_hosts : list str;
  allowed_paths : list str;
  redirect_limit : nat;
  body_limit : Z;
  es_timeout_seconds : Z;
}.

(** [EndpointSpec.__post_init__]; a limit of redirects is never negative. *)
Definition endpoint_spec_post_init (s : EndpointSpec) : res unit :=
  _ ← raise_if (bool_decide (allowed_hosts s = []) || bool_decide (allowed_paths s = [])) ValueError;
  raise_if ((body_limit s <=? 0) || (es_timeout_seconds s <=? 0)) ValueError.

Definition _MIB : Z := 1024 * 1024.
Definition _DEFAULT_OUTPUT : Z := 2 * _MIB.

Definition spec (executable : string) (base_argv : list string) (policy : ArgumentPolicy) (timeout : Z) (cwd : option str)
    : CommandSpec :=
  {| executable := lit executable; base_argv := names base_argv; argument_policy := policy;
     cs_timeout_seconds := timeout; stdout_limit := _DEFAULT_OUTPUT; stderr_limit := _DEFAULT_OUTPUT; cwd := cwd |}.

Definition list_columns : string := "--columns=application,arch,branch,version,origin".

Section Registry.
Context (home : str).

Definition COMMAND_SPECS (name : CommandName) : CommandSpec :=
  match name with
  | OMARCHY_UPDATE_AVAILABLE => spec "/usr/bin/omarchy-update-available" [] POLICY_NONE 15 None
  | PACMAN_NATIVE => spec "/usr/bin/pacman" ["-Qn"%string] POLICY_NONE 30 None
  | CHECKUPDATES => spec "/usr/bin/checkupdates" ["--nocolor"%string] POLICY_NONE 120 None
  | VERCMP => spec "/usr/bin/vercmp" [] VERSION_PAIR 15 None
  | PACMAN_FOREIGN => spec "/usr/bin/pacman" ["-Qm"%string] POLICY_NONE 30 None
  | YAY_UPDATES => spec "/usr/bin/yay" ["-Qua"; "--color"; "never"]%string POLICY_NONE 60 None
  | PARU_UPDATES => spec "/usr/bin/paru" ["-Qua"; "--color"; "never"]%string POLICY_NONE 60 None
  | FLATPAK_USER_APP_LIST => spec "/usr/bin/flatpak" ["--user"; "list"; "--app"; list_columns]%string POLICY_NONE 60 None
  | FLATPAK_USER_RUNTIME_LIST => spec "/usr/bin/flatpak" ["--user"; "list"; "--runtime"; list_columns]%string POLICY_NONE 60 None
  | FLATPAK_SYSTEM_APP_LIST => spec "/usr/bin/flatpak" ["--system"; "list"; "--app"; list_columns]%string POLICY_NONE 60 None
  | FLATPAK_SYSTEM_RUNTIME_LIST => spec "/usr/bin/flatpak" ["--system"; "list"; "--runtime"; list_columns]%string POLICY_NONE 60 None
  | FLATPAK_USER_UPDATES =>
      spec "/usr/bin/flatpak" ["--user"; "remote-ls"; "--updates"; "--columns=ref,version,origin"]%string POLICY_NONE 60 None
  | FLATPAK_SYSTEM_UPDATES =>
      spec "/usr/bin/flatpak" ["--system"; "remote-ls"; "--updates"; "--columns=ref,version,origin"]%string POLICY_NONE 60 None
  | MISE_OUTDATED => spec "/usr/bin/mise" ["outdated"; "--json"]%string POLICY_NONE 60 (Some home)
  | ARCH_AUDIT => spec "/usr/bin/arch-audit" ["--json"%string] POLICY_NONE 30 None
  | NOTIFY => spec "/usr/bin/notify-send" ["-a"; "Opatchy"; "-u"; "normal"]%string NOTIFICATION_TEXT 15 None
  end.

Definition ENDPOINT_SPECS (name : EndpointName) : EndpointSpec :=
  match name with
  | ENDPOINT_ARCH_SECURITY =>
      {| url := lit "https://security.archlinux.org/all.json"; allowed_hosts := names ["security.archlinux.org"];
         allowed_paths := names ["/all.json"]; redirect_limit := 3; body_limit := 25 * _MIB; es_timeout_seconds := 20 |}
  | ENDPOINT_CISA_KEV =>
      {| url := lit "https://www.cisa.gov/sites/default/files/feeds/known_exploited_vulnerabilities.json";
         allowed_hosts := names ["www.cisa.gov"];
         allowed_paths := names ["/sites/default/files/feeds/known_exploited_vulnerabilities.json"];
         redirect_limit := 3; body_limit := 10 * _MIB; es_timeout_seconds := 20 |}
  end.

(** Both tables are accepted when the module is loaded. *)
Lemma registry_loads name endpoint :
  command_spec_post_init (COMMAND_SPECS name) = Ok tt /\ endpoint_spec_post_init (ENDPOINT_SPECS endpoint) = Ok tt.
Proof. split; [by destruct name | by destruct endpoint]. Qed.
End Registry.
