(* ===== verification/Process.v ===== *)
(** * Running a command

    [runner_process.py] and [run_command] of [runner.py]: a command of the registry is
    started through the supervisor, its two streams are collected within its limits and its
    time, and what it came to is told apart. The operating system is an argument: what
    starting comes to, and, round by round, the time and what can be read. *)

From S2P Require Import Prelude PyStr Models RunnerTypes Redaction Registry.

Open Scope Z_scope.

(** ** The operating system *)

(** A round of a loop: the monotonic clock when it begins and when it is read a second
    time, in ticks, and what reading each stream brings if it is ready; an empty chunk is
    its end. *)
Record round := {
  now : Z;
  later : Z;
  ready_stdout : option bytes;
  ready_stderr : option bytes;
}.

(** What sending a signal to a process group comes to. *)
Inductive kill_answer := Sent | NoProcess | KillRefused.

(** What a process group answers to SIGTERM, to the probe and to SIGKILL. *)
Record group := { on_term : kill_answer; on_probe : kill_answer; on_kill : kill_answer }.

(** A process: its rounds, the return code it has within a time, if any, and its group. *)
Record process := {
  rounds : nat -> round;
  wait : Z -> option Z;
  group_of : group;
}.

Record launch := { argv : list str; launch_cwd : option str; launch_environment : gmap str str }.

Inductive started :=
| Started (p : process)
| StartNotFound
| StartDenied (text : str)
| StartRaised (e : exn).

(** ** Stopping the group *)

(** [os.killpg]: whether the group was there; any error but that it was not is raised. *)
Definition killpg (a : kill_answer) : res bool :=
  match a with Sent => Ok true | NoProcess => Ok false | KillRefused => Err OSError end.

Definition _group_exists (g : group) : res bool := killpg (on_probe g).

(** The end of the process is waited for at most a tenth of a second, and not reported. *)
Definition _stop_group (g : group) : res unit :=
  _ ← killpg (on_term g);
  present ← _group_exists g;
  if present : bool then _ ← killpg (on_kill g); Ok tt else Ok tt.

(** ** Collecting *)

Inductive stream := STDOUT | STDERR.

#[global] Instance stream_eq_dec : EqDecision stream.
Proof. solve_decision. Defined.

Definition stream_text (s : stream) : str := lit match s with STDOUT => "stdout" | STDERR => "stderr" end.

(** The pipes that are open and the bytes kept of each stream. *)
Record pipes := {
  stdout_open : bool;
  stderr_open : bool;
  stdout_kept : bytes;
  stderr_kept : bytes;
}.

Definition all_open : pipes :=
  {| stdout_open := true; stderr_open := true; stdout_kept := []; stderr_kept := [] |}.

Definition is_open (s : stream) (p : pipes) : bool := match s with STDOUT => stdout_open p | STDERR => stderr_open p end.
Definition kept_of (s : stream) (p : pipes) : bytes := match s with STDOUT => stdout_kept p | STDERR => stderr_kept p end.
Definition limit_of (s : stream) (c : CommandSpec) : Z := match s with STDOUT => stdout_limit c | STDERR => stderr_limit c end.
Definition ready_of (s : stream) (r : round) : option bytes := match s with STDOUT => ready_stdout r | STDERR => ready_stderr r end.

Definition close_pipe (s : stream) (p : pipes) : pipes :=
  match s with
  | STDOUT => {| stdout_open := false; stderr_open := stderr_open p; stdout_kept := stdout_kept p; stderr_kept := stderr_kept p |}
  | STDERR => {| stdout_open := stdout_open p; stderr_open := false; stdout_kept := stdout_kept p; stderr_kept := stderr_kept p |}
  end.

Definition keep (s : stream) (data : bytes) (p : pipes) : pipes :=
  match s with
  | STDOUT => {| stdout_open := stdout_open p; stderr_open := stderr_open p; stdout_kept := stdout_kept p ++ data; stderr_kept := stderr_kept p |}
  | STDERR => {| stdout_open := stdout_open p; stderr_open := stderr_open p; stdout_kept := stdout_kept p; stderr_kept := stderr_kept p ++ data |}
  end.

Section Collect.
Context (second : Z) (spec : CommandSpec).

(** [limit - len(target)] *)
Definition available (s : stream) (p : pipes) : Z := limit_of s spec - len (kept_of s p).

(** What a ready pipe does: it is closed at its end, and keeps what there is room for. The
    flag says that there was more. *)
Definition receive (s : stream) (r : round) (p : pipes) : pipes * bool :=
  match ready_of s r with
  | Some chunk =>
      if is_open s p then
        match chunk with
        | [] => (close_pipe s p, false)
        | _ => (keep s (take (Z.to_nat (Z.max (available s p) 0)) chunk) p, available s p <? len chunk)
        end
      else (p, false)
  | None => (p, false)
  end.

Definition any_open (p : pipes) : bool := stdout_open p || stderr_open p.

Context (rounds : nat -> round) (wait : Z -> option Z) (g : group).

(** [_drain]: the loop from round [k] on. What is over the limits is read and dropped. The
    clock is read again for [select], which refuses a negative timeout. *)
Fixpoint drain_loop (fuel : nat) (deadline : Z) (k : nat) (p : pipes) : option (res pipes) :=
  match fuel with
  | O => None
  | S fuel =>
      let r := rounds k in
      if any_open p && (now r <? deadline) then
        if deadline - later r <? 0 then Some (Err ValueError)
        else drain_loop fuel deadline (S k) (receive STDERR r (receive STDOUT r p).1).1
      else Some (Ok p)
  end.

(** A fifth of a second is left for what the group had written. *)
Definition _drain (fuel : nat) (k : nat) (p : pipes) : option (res pipes) :=
  drain_loop fuel (now (rounds k) + second / 5) (S k) p.

(** The group is stopped, its pipes are drained, and what was kept makes a result. *)
Definition stopped (fuel k : nat) (p : pipes) (result : pipes -> CommandResult) : option (res CommandResult) :=
  match _stop_group g with
  | Err e => Some (Err e)
  | Ok _ => drained ← _drain fuel k p; Some (q ← drained; Ok (result q))
  end.

Definition timed_out (p : pipes) : CommandResult := CommandTimedOut (stdout_kept p) (stderr_kept p).
Definition exceeded (s : stream) (p : pipes) : CommandResult :=
  CommandOutputExceeded (stream_text s) (stdout_kept p) (stderr_kept p).

(** After both pipes are closed. *)
Definition finished (deadline : Z) (k : nat) (p : pipes) : res CommandResult :=
  let remaining := deadline - now (rounds k) in
  if remaining <=? 0 then _ ← _stop_group g; Ok (timed_out p)
  else match wait remaining with
       | None => _ ← _stop_group g; Ok (timed_out p)
       | Some code =>
           Ok (if code =? 0 then CommandSucceeded (stdout_kept p) (stderr_kept p)
               else CommandExited code (stdout_kept p) (stderr_kept p))
       end.

(** The loop of [_collect] from round [k] on; [None] is out of fuel. *)
Fixpoint collect_loop (fuel : nat) (deadline : Z) (k : nat) (p : pipes) : option (res CommandResult) :=
  match fuel with
  | O => None
  | S fuel =>
      if negb (any_open p) then Some (finished deadline k p)
      else
        let r := rounds k in
        if deadline - now r <=? 0
        then stopped fuel (S k) p timed_out
        else
          let '(p, more) := receive STDOUT r p in
          if more : bool then stopped fuel (S k) p (exceeded STDOUT)
          else
            let '(p, more) := receive STDERR r p in
            if more : bool then stopped fuel (S k) p (exceeded STDERR)
            else collect_loop fuel deadline (S k) p
  end.
End Collect.

Definition _collect (second : Z) (fuel : nat) (p : process) (spec : CommandSpec) : option (res CommandResult) :=
  collect_loop second spec (rounds p) (wait p) (group_of p) fuel (now (rounds p 0) + cs_timeout_seconds spec * second) 1 all_open.

(** ** Starting *)

Section Run.
Context (_HOME : str) (second : Z) (fuel : nat).
(** The interpreter, the path of the supervisor, the process id, the variables of the
    environment, which files can be executed, and what starting a process comes to. *)
Context (sys_executable _SUPERVISOR_PATH : str) (pid : Z) (environ : gmap str str).
Context (executable_file : str -> bool) (popen : launch -> started).

Definition environment : gmap str str :=
  <[lit "PATH" := lit "/usr/bin:/bin"]> (<[lit "LANG" := lit "C"]> (<[lit "LC_ALL" := lit "C"]> environ)).

Definition launch_of (spec : CommandSpec) (arguments : list str) : launch :=
  {| argv := [sys_executable; _SUPERVISOR_PATH; str_of_Z pid; executable spec] ++ base_argv spec ++ arguments;
     launch_cwd := cwd spec; launch_environment := environment |}.

(** Any other error of starting raises; [None] is out of fuel. *)
Definition run_spec (spec : CommandSpec) (arguments : list str) : option (res CommandResult) :=
  if negb (arguments_allowed (argument_policy spec) arguments)
  then Some (Ok (CommandRejected (lit "arguments are not permitted for this command")))
  else if negb (executable_file (executable spec))
  then Some (Ok (CommandMissing (redact_diagnostic _HOME (executable spec))))
  else
    match popen (launch_of spec arguments) with
    | Started p => _collect second fuel p spec
    | StartNotFound => Some (Ok (CommandMissing (redact_diagnostic _HOME (executable spec))))
    | StartDenied text => Some (Ok (CommandMissing (redact_diagnostic _HOME text)))
    | StartRaised e => Some (Err e)
    end.

Definition run_command (name : CommandName) (arguments : list str) : option (res CommandResult) :=
  run_spec (COMMAND_SPECS _HOME name) arguments.
End Run.

(** ** What is collected *)

Section Facts.
Context (second : Z) (spec : CommandSpec) (p : process).
Context (Hout : 0 <= stdout_limit spec) (Herr : 0 <= stderr_limit spec).

(** Neither stream is over its limit. *)
Definition within (q : pipes) : Prop := forall s, len (kept_of s q) <= limit_of s spec.

Definition within_result (r : CommandResult) : Prop :=
  match r with
  | CommandSucceeded out err | CommandExited _ out err | CommandTimedOut out err | CommandOutputExceeded _ out err =>
      len out <= stdout_limit spec /\ len err <= stderr_limit spec
  | CommandMissing _ | CommandRejected _ => True
  end.

Lemma kept_of_keep s t d q : kept_of t (keep s d q) = if decide (s = t) then kept_of t q ++ d else kept_of t q.
Proof using. by destruct s, t. Qed.

Lemma receive_within s r q : within q -> within (receive spec s r q).1.
Proof.
  intros H. unfold receive. destruct (ready_of s r) as [chunk|]; [|done]. destruct (is_open s q); [|done].
  destruct chunk as [|c chunk]; [by destruct s|]. intros t. cbn [fst]. rewrite kept_of_keep.
  destruct (decide (s = t)) as [->|]; [|apply H]. unfold available, len. rewrite length_app, length_take.
  specialize (H t). unfold len in H. lia.
Qed.

Lemma drain_within fuel deadline k q q' :
  drain_loop spec (rounds p) fuel deadline k q = Some (Ok q') -> within q -> within q'.
Proof.
  revert k q. induction fuel as [|fuel IH]; intros k q; [done|]. cbn [drain_loop].
  destruct (_ && _); [|by intros [= ->]]. destruct (_ <? 0); [done|]. intros H Hq. eapply IH; [exact H|]. by apply receive_within, receive_within.
Qed.

Lemma within_kept q : within q -> len (stdout_kept q) <= stdout_limit spec /\ len (stderr_kept q) <= stderr_limit spec.
Proof using. intros H. split; [apply (H STDOUT) | apply (H STDERR)]. Qed.

(** Whatever stops the group: what is reported is what was kept then. *)
Lemma stopped_within fuel k q f r :
  stopped second spec (rounds p) (group_of p) fuel k q f = Some (Ok r) -> within q -> exists q', within q' /\ r = f q'.
Proof.
  unfold stopped. destruct (_stop_group _); [|done]. intros ([q'|e] & H & E)%bind_Some Hq; [|done].
  injection E as <-. exists q'. split; [|done]. by eapply drain_within.
Qed.

Lemma finished_cases deadline k q r :
  finished (rounds p) (wait p) (group_of p) deadline k q = Ok r ->
  r = timed_out q
  \/ exists remaining code, wait p remaining = Some code
     /\ r = if code =? 0 then CommandSucceeded (stdout_kept q) (stderr_kept q) else CommandExited code (stdout_kept q) (stderr_kept q).
Proof using.
  unfold finished. destruct (_ <=? 0).
  - intros (? & _ & [= <-])%bind_Ok. by left.
  - destruct (wait p _) as [code|] eqn:E; [intros [= <-]; right; eauto|]. intros (? & _ & [= <-])%bind_Ok. by left.
Qed.

Lemma finished_within deadline k q r :
  finished (rounds p) (wait p) (group_of p) deadline k q = Ok r -> within q -> within_result r.
Proof using.
  intros H%finished_cases Hq%within_kept. destruct H as [-> | (remaining & code & _ & ->)]; [done|]. by destruct (code =? 0).
Qed.

Lemma collect_loop_within fuel deadline k q r :
  collect_loop second spec (rounds p) (wait p) (group_of p) fuel deadline k q = Some (Ok r) -> within q -> within_result r.
Proof.
  revert k q. induction fuel as [|fuel IH]; intros k q; [done|]. cbn [collect_loop].
  destruct (negb _); [intros [= H]; by eapply finished_within|]. destruct (_ <=? 0).
  { intros H Hq. destruct (stopped_within _ _ _ _ _ H Hq) as (q' & Hq' & ->). by apply within_kept. }
  intros H Hq. pose proof (receive_within STDOUT (rounds p k) q Hq) as H1.
  destruct (receive spec STDOUT (rounds p k) q) as [q1 []].
  { destruct (stopped_within _ _ _ _ _ H H1) as (q' & Hq' & ->). by apply within_kept. }
  pose proof (receive_within STDERR (rounds p k) q1 H1) as H2.
  destruct (receive spec STDERR (rounds p k) q1) as [q2 []]; [|by eapply IH].
  destruct (stopped_within _ _ _ _ _ H H2) as (q' & Hq' & ->). by apply within_kept.
Qed.

(** ** Success is never cut *)

(** What a stream brings in some rounds: its bytes, and whether it has not ended. *)
Definition deliver (s : stream) (st : bytes * bool) (r : round) : bytes * bool :=
  match ready_of s r with
  | Some chunk => if st.2 then match chunk with [] => (st.1, false) | _ => (st.1 ++ chunk, true) end else st
  | None => st
  end.
Definition delivered (s : stream) (k : nat) : bytes * bool :=
  foldl (deliver s) ([], true) (rounds p <$> seq 1 (k - 1)).

(** Everything so far was kept. *)
Definition whole (k : nat) (q : pipes) : Prop := forall s, (kept_of s q, is_open s q) = delivered s k.

Lemma receive_deliver s r q q' :
  within q -> receive spec s r q = (q', false) ->
  (kept_of s q', is_open s q') = deliver s (kept_of s q, is_open s q) r
  /\ forall t, t <> s -> (kept_of t q', is_open t q') = (kept_of t q, is_open t q).
Proof.
  intros Hw. unfold receive, deliver. destruct (ready_of s r) as [chunk|]; [|by intros [= <-]].
  cbn [fst snd]. destruct (is_open s q) eqn:Ho; [|intros [= <-]; by rewrite Ho].
  destruct chunk as [|c chunk]; [intros [= <-]; split; [by destruct s | intros []; by destruct s]|].
  intros H. injection H as <- Hm. apply Z.ltb_ge in Hm. specialize (Hw s).
  rewrite take_ge by (unfold len in *; lia). split; [destruct s; by simpl in *; rewrite Ho|].
  intros [] Ht; by destruct s.
Qed.

Lemma delivered_S s k : (1 <= k)%nat -> delivered s (S k) = deliver s (delivered s k) (rounds p k).
Proof using.
  intros Hk. unfold delivered. replace (S k - 1)%nat with (S (k - 1)) by lia.
  rewrite seq_S, fmap_app, foldl_app. cbn. do 2 f_equal. lia.
Qed.

Lemma receive_whole k q q1 q2 :
  (1 <= k)%nat -> within q -> whole k q -> receive spec STDOUT (rounds p k) q = (q1, false) ->
  receive spec STDERR (rounds p k) q1 = (q2, false) -> whole (S k) q2.
Proof.
  intros Hk Hw Hq H1 H2. pose proof (receive_within STDOUT (rounds p k) q Hw) as Hw1. rewrite H1 in Hw1.
  destruct (receive_deliver _ _ _ _ Hw H1) as [D1 O1], (receive_deliver _ _ _ _ Hw1 H2) as [D2 O2].
  intros []; rewrite delivered_S by done; rewrite <-Hq.
  - by rewrite O2.
  - rewrite D2. f_equal. by apply O1.
Qed.

Lemma collect_loop_whole fuel deadline k q r :
  (1 <= k)%nat -> within q -> whole k q ->
  collect_loop second spec (rounds p) (wait p) (group_of p) fuel deadline k q = Some (Ok r) ->
  match r with
  | CommandSucceeded out err | CommandExited _ out err =>
      exists n, delivered STDOUT n = (out, false) /\ delivered STDERR n = (err, false)
        /\ exists remaining, wait p remaining = Some (match r with CommandExited code _ _ => code | _ => 0 end)
  | _ => True
  end.
Proof.
  revert k q. induction fuel as [|fuel IH]; intros k q Hk Hw Hq; [done|]. cbn [collect_loop].
  destruct (any_open q) eqn:Eo; cbn [negb].
  - destruct (_ <=? 0); [by intros H; destruct (stopped_within _ _ _ _ _ H Hw) as (q' & _ & ->)|].
    pose proof (receive_within STDOUT (rounds p k) q Hw) as H1.
    destruct (receive spec STDOUT (rounds p k) q) as [q1 []] eqn:E1.
    { intros H. by destruct (stopped_within _ _ _ _ _ H H1) as (q' & _ & ->). }
    pose proof (receive_within STDERR (rounds p k) q1 H1) as H2.
    destruct (receive spec STDERR (rounds p k) q1) as [q2 []] eqn:E2.
    { intros H. by destruct (stopped_within _ _ _ _ _ H H2) as (q' & _ & ->). }
    apply IH; [lia | done | eapply (receive_whole k q q1 q2); eassumption].
  - intros H. injection H as H. apply finished_cases in H as [-> | (remaining & code' & Ew & ->)]; [done|].
    apply orb_false_iff in Eo as [Eo Ee].
    assert (delivered STDOUT k = (stdout_kept q, false) /\ delivered STDERR k = (stderr_kept q, false)) as [Do De].
    { split; rewrite <-Hq; cbn; congruence. }
    destruct (Z.eqb_spec code' 0) as [E0|]; [rewrite E0 in Ew|]; eauto 10.
Qed.

(** ** It ends *)

Context (Hsecond : 0 < second) (Hticks : forall k, now (rounds p k) + 1 <= now (rounds p (S k))).

Lemma drain_ends fuel deadline k q :
  (Z.to_nat (deadline - now (rounds p k)) < fuel)%nat ->
  exists q', forall fuel', (fuel <= fuel')%nat -> drain_loop spec (rounds p) fuel' deadline k q = Some q'.
Proof using Hticks.
  revert k q. induction fuel as [|fuel IH]; intros k q Hf; [lia|].
  destruct (any_open q && (now (rounds p k) <? deadline)) eqn:E.
  - apply andb_true_iff in E as [E1 E2%Z.ltb_lt]. pose proof (Hticks k).
    destruct (deadline - later (rounds p k) <? 0) eqn:El.
    { exists (Err ValueError). intros [|fuel'] Hle; [lia|]. cbn [drain_loop].
      by rewrite E1, (proj2 (Z.ltb_lt _ _) E2), El. }
    destruct (IH (S k) (receive spec STDERR (rounds p k) (receive spec STDOUT (rounds p k) q).1).1) as [q' H']; [lia|].
    exists q'. intros [|fuel'] Hle; [lia|]. cbn [drain_loop]. rewrite E1, (proj2 (Z.ltb_lt _ _) E2), El. apply H'. lia.
  - exists (Ok q). intros [|fuel'] Hle; [lia|]. cbn [drain_loop]. by rewrite E.
Qed.

Lemma drain_after fuel k q : (Z.to_nat (second / 5) < fuel)%nat ->
  exists q', forall fuel', (fuel <= fuel')%nat -> _drain second spec (rounds p) fuel' k q = Some q'.
Proof using Hsecond Hticks.
  intros Hf. apply drain_ends. pose proof (Hticks k). pose proof (Z.div_pos second 5). lia.
Qed.

Lemma stopped_ends fuel k q f : (Z.to_nat (second / 5) < fuel)%nat ->
  exists r, forall fuel', (fuel <= fuel')%nat -> stopped second spec (rounds p) (group_of p) fuel' k q f = Some r.
Proof using Hsecond Hticks.
  intros Hf. unfold stopped. destruct (_stop_group _); [|eauto]. destruct (drain_after fuel k q Hf) as [x Hx].
  eexists. intros fuel' Hl. by rewrite Hx.
Qed.

Lemma collect_loop_ends fuel deadline k q :
  (Z.to_nat (deadline - now (rounds p k)) + Z.to_nat (second / 5) + 1 < fuel)%nat ->
  exists r, forall fuel', (fuel <= fuel')%nat ->
    collect_loop second spec (rounds p) (wait p) (group_of p) fuel' deadline k q = Some r.
Proof using Hsecond Hticks.
  revert k q. induction fuel as [|fuel IH]; intros k q Hf; [lia|].
  assert (forall q' f, exists r, forall fuel', (fuel <= fuel')%nat ->
    stopped second spec (rounds p) (group_of p) fuel' (S k) q' f = Some r) as He.
  { intros q' f. apply stopped_ends. lia. }
  destruct (any_open q) eqn:Eo.
  2:{ eexists. intros [|fuel'] Hl; [lia|]. cbn [collect_loop]. rewrite Eo. reflexivity. }
  destruct (Z.leb_spec (deadline - now (rounds p k)) 0) as [Hd|Hd].
  { destruct (He q timed_out) as [x Hx]. exists x. intros [|fuel'] Hl; [lia|]. cbn [collect_loop].
    rewrite Eo, (proj2 (Z.leb_le _ _) Hd). apply Hx. lia. }
  destruct (receive spec STDOUT (rounds p k) q) as [q1 m1] eqn:E1.
  destruct (receive spec STDERR (rounds p k) q1) as [q2 m2] eqn:E2.
  assert (exists r, forall fuel', (fuel <= fuel')%nat ->
            (if m1 then stopped second spec (rounds p) (group_of p) fuel' (S k) q1 (exceeded STDOUT)
             else if m2 then stopped second spec (rounds p) (group_of p) fuel' (S k) q2 (exceeded STDERR)
             else collect_loop second spec (rounds p) (wait p) (group_of p) fuel' deadline (S k) q2) = Some r) as [r Hr].
  { destruct m1; [apply He|]. destruct m2; [apply He|]. apply IH. pose proof (Hticks k). lia. }
  exists r. intros [|fuel'] Hl; [lia|]. cbn [collect_loop]. rewrite Eo, (proj2 (Z.leb_gt _ _) Hd), E1. cbn [negb].
  specialize (Hr fuel' ltac:(lia)). destruct m1; [exact Hr|]. rewrite E2. by destruct m2.
Qed.
End Facts.

(** ** The commands of the registry *)

Section Commands.
Context (_HOME : str) (second : Z).

Lemma registry_limits name : 0 <= stdout_limit (COMMAND_SPECS _HOME name) /\ 0 <= stderr_limit (COMMAND_SPECS _HOME name).
Proof. by destruct name. Qed.

Lemma all_open_within name : within (COMMAND_SPECS _HOME name) all_open.
Proof. intros []; apply registry_limits. Qed.

(** C14. What is collected of a command never exceeds the limits of the registry, and a
    command is reported as having succeeded, or as having exited, only with all that it
    wrote: both streams were read to their end, nothing of them was dropped, and the return
    code is the one the system gave. Output that was cut never passes for a result. *)
Theorem result_uncut name fuel p :
  let spec := COMMAND_SPECS _HOME name in
  match _collect second fuel p spec with
  | None | Some (Err _) => True
  | Some (Ok r) =>
      within_result spec r
      /\ match r with
         | CommandSucceeded out err | CommandExited _ out err =>
             exists n, delivered p STDOUT n = (out, false) /\ delivered p STDERR n = (err, false)
               /\ exists remaining, wait p remaining = Some (match r with CommandExited code _ _ => code | _ => 0 end)
         | _ => True
         end
  end.
Proof.
  intros spec. destruct (registry_limits name) as [Ho He]. pose proof (all_open_within name) as Hw.
  destruct (_collect second fuel p spec) as [[r|e]|] eqn:E; [|done|done]. unfold _collect in E. split.
  - eapply collect_loop_within; eauto.
  - eapply collect_loop_whole; [..|exact E]; try done. by intros [].
Qed.

(** C15. Collecting a command ends, whatever it writes and whether or not it ever stops: if
    the clock moves on from round to round, it comes to a result, or to the error of a group
    that cannot be stopped or of a drain whose time ran out between two readings of the clock,
    that no larger bound on the number
    of rounds would change. *)
Theorem collection_ends name p :
  0 < second -> (forall k, now (rounds p k) + 1 <= now (rounds p (S k))) ->
  let spec := COMMAND_SPECS _HOME name in
  exists r, forall fuel,
    (Z.to_nat (cs_timeout_seconds spec * second) + Z.to_nat (second / 5) + 2 <= fuel)%nat -> _collect second fuel p spec = Some r.
Proof.
  intros Hs Ht spec. unfold _collect. destruct (registry_limits name) as [Ho He].
  destruct (collect_loop_ends second spec p Hs Ht (Z.to_nat (cs_timeout_seconds spec * second) + Z.to_nat (second / 5) + 2)
    (now (rounds p 0) + cs_timeout_seconds spec * second) 1 all_open) as [r Hr].
  - pose proof (Ht 0%nat). assert (0 < cs_timeout_seconds spec) by (by destruct name). lia.
  - exists r. exact Hr.
Qed.

(** A command that writes for ever, and never to its error stream. *)
Definition endless : process :=
  {| rounds k := {| now := Z.of_nat k; later := Z.of_nat k; ready_stdout := Some (lit "y"); ready_stderr := None |}; wait _ := None;
     group_of := {| on_term := Sent; on_probe := NoProcess; on_kill := NoProcess |} |}.
End Commands.

Lemma collection_ends_witness : exists r, _collect 10 154 endless (COMMAND_SPECS (lit "/root") VERCMP) = Some r.
Proof.
  destruct (collection_ends (lit "/root") 10 VERCMP endless) as [r Hr]; [reflexivity | intros k; cbn; lia |].
  exists r. apply Hr. vm_compute. lia.
Defined.

(** The same command, when the second reading of the clock is late. *)
Definition endless_late : process :=
  {| rounds k := {| now := Z.of_nat k; later := 3 * Z.of_nat k; ready_stdout := Some (lit "y"); ready_stderr := None |};
     wait _ := None; group_of := {| on_term := Sent; on_probe := NoProcess; on_kill := NoProcess |} |}.

(** [_drain] tests the deadline and reads the clock again for [select]: if the deadline has
    passed between the two, [select] raises, and the exception leaves the runner. *)
Lemma late_drain_escapes : _collect 10 154 endless_late (COMMAND_SPECS (lit "/root") VERCMP) = Some (Err ValueError).
Proof. vm_compute. reflexivity. Qed.

(** ** What is started *)

Section Confined.
Context (_HOME : str) (second : Z) (fuel : nat).
Context (sys_executable _SUPERVISOR_PATH : str) (pid : Z) (environ : gmap str str).
Context (executable_file : str -> bool).

(** What may be started for a command: its executable through the supervisor, the fixed
    arguments and then permitted ones, in the directory of the registry, with the path and
    the language fixed. *)
Definition permitted (name : CommandName) (l : launch) : Prop :=
  let c := COMMAND_SPECS _HOME name in
  exists arguments,
    argv l = [sys_executable; _SUPERVISOR_PATH; str_of_Z pid; executable c] ++ base_argv c ++ arguments
    /\ arguments_allowed (argument_policy c) arguments = true
    /\ launch_cwd l = cwd c
    /\ launch_environment l !! lit "PATH" = Some (lit "/usr/bin:/bin")
    /\ launch_environment l !! lit "LC_ALL" = Some (lit "C")
    /\ launch_environment l !! lit "LANG" = Some (lit "C").

(** C16. Whatever arguments it is given, running a command starts nothing but what is
    permitted for that command: what any other start would come to makes no difference.
    Arguments that are not permitted start nothing at all. *)
Theorem run_confined name arguments popen popen' :
  (forall l, permitted name l -> popen l = popen' l) ->
  run_command _HOME second fuel sys_executable _SUPERVISOR_PATH pid environ executable_file popen name arguments
  = run_command _HOME second fuel sys_executable _SUPERVISOR_PATH pid environ executable_file popen' name arguments
  /\ (arguments_allowed (argument_policy (COMMAND_SPECS _HOME name)) arguments = false ->
      run_command _HOME second fuel sys_executable _SUPERVISOR_PATH pid environ executable_file popen name arguments
      = Some (Ok (CommandRejected (lit "arguments are not permitted for this command")))).
Proof.
  intros H. unfold run_command, run_spec. destruct (arguments_allowed _ _) eqn:Ha; cbn [negb]; [|done]. split; [|done].
  destruct (executable_file _); cbn [negb]; [|done]. rewrite H; [done|]. exists arguments.
  unfold launch_of, environment. cbn [argv launch_cwd launch_environment]. repeat split; [done|..]; by simplify_map_eq.
Qed.
End Confined.

Lemma run_confined_witness :
  run_command (lit "/root") 10 154 (lit "/usr/bin/python3") (lit "/app/command_supervisor.py") 4242 ∅ (fun _ => true)
    (fun _ => StartNotFound) VERCMP [lit "1.1"]
  = Some (Ok (CommandRejected (lit "arguments are not permitted for this command"))).
Proof.
  apply (run_confined (lit "/root") 10 154 (lit "/usr/bin/python3") (lit "/app/command_supervisor.py") 4242 ∅ (fun _ => true)
    VERCMP [lit "1.1"] (fun _ => StartNotFound) (fun _ => StartNotFound)); [done | vm_compute; reflexivity].
Defined.
