(* ===== verification/Supervisor.v ===== *)
(** * The supervisor of a command

    [command_supervisor.py], the process between the runner and a command: its arguments,
    what it runs, and how it ends when the command has. The system calls that tie its life
    to its parent are steps that may fail; what the command comes to is an argument. *)

From S2P Require Import Prelude PyStr Decimals Models JsonText RunnerTypes Redaction Registry Process.

Open Scope Z_scope.

Definition LAUNCH_FAILURE : Z := 127.

(** ** [int] of a string

    White space around, a sign, digits with single underscores between them. What [int]
    makes of a string that is not ASCII is an argument. *)

Fixpoint digit_groups (s : str) (after_digit : bool) : option str :=
  match s with
  | [] => if after_digit then Some [] else None
  | c :: s' =>
      if is_digit c then cons c <$> digit_groups s' true
      else if (c =? 95)%N && after_digit then digit_groups s' false
      else None
  end.

Definition ascii_int (s : str) : res Z :=
  let '(negative, digits) :=
    match strip s with
    | c :: rest => if (c =? 45)%N then (true, rest) else if (c =? 43)%N then (false, rest) else (false, c :: rest)
    | [] => (false, [])
    end in
  match digit_groups digits false with
  | Some ds => int_of negative ds
  | None => Err ValueError
  end.

(** ** Signals *)

(** How a process ends. *)
Inductive ending :=
| Exits (code : Z)
| Signalled (signal : Z).

(** [Popen.returncode] *)
Definition returncode (e : ending) : Z := match e with Exits code => code | Signalled signal => - signal end.

(** The members of [signal.Signals] on Linux. *)
Definition signals : list Z := seqZ 1 31 ++ [34; 64].

(** [signal.signal(number, SIG_DFL)]: the two signals whose action is fixed are refused. *)
Definition set_default (signal : Z) : res unit := raise_if ((signal =? 9) || (signal =? 19)) OSError.

(** An exception that nothing catches ends the interpreter with this code. *)
Definition UNCAUGHT : Z := 1.

Section Supervisor.
Context (int_other : str -> res Z).
(** What starting and waiting for the command comes to; [None] if it cannot be started. *)
Context (spawn : list str -> option ending).
(** Whether [prctl] works, and the parent the process then has. *)
Context (prctl_works : bool) (parent : Z).

Definition int_of_text (s : str) : res Z := if isascii s then ascii_int s else int_other s.

(** [None] is a [SupervisorArgumentsError]. *)
Definition _arguments (arguments : list str) : option (Z * list str) :=
  match arguments with
  | first :: target :: rest =>
      match int_of_text first with
      | Ok parent_pid =>
          if (parent_pid <=? 0) || bool_decide (target = []) then None else Some (parent_pid, target :: rest)
      | Err _ => None
      end
  | _ => None
  end.

(** [_run_target]: the end of the command becomes the end of the supervisor. A signal is
    sent to itself once its action is the default one, which is to terminate. *)
Definition _run_target (target : list str) : ending :=
  match spawn target with
  | None => Exits LAUNCH_FAILURE
  | Some e =>
      let code := returncode e in
      if 0 <=? code then Exits code
      else if bool_decide (- code ∈ signals) then
        match set_default (- code) with
        | Ok _ => Signalled (- code)
        | Err _ => Exits UNCAUGHT
        end
      else Exits UNCAUGHT
  end.

(** [_arm_parent_death]: [None] when it returns. An orphan kills its own group. *)
Definition _arm_parent_death (expected_parent_pid : Z) : option ending :=
  if negb prctl_works then Some (Exits LAUNCH_FAILURE)
  else if parent =? expected_parent_pid then None
  else Some (Signalled 9).

Definition main (arguments : list str) : ending :=
  match _arguments arguments with
  | None => Exits LAUNCH_FAILURE
  | Some (parent_pid, target) =>
      match _arm_parent_death parent_pid with
      | Some e => e
      | None => _run_target target
      end
  end.

(** ** What the runner sees *)

(** A number has at most as many digits as it has bits. *)
Lemma double_digits d :
  (Decimal.nb_digits (Decimal.Little.double d) <= S (Decimal.nb_digits d))%nat
  /\ (Decimal.nb_digits (Decimal.Little.succ_double d) <= S (Decimal.nb_digits d))%nat.
Proof. induction d; cbn in *; lia. Qed.

Lemma little_digits p : (Decimal.nb_digits (Pos.to_little_uint p) <= Pos.size_nat p)%nat.
Proof.
  induction p as [p IH|p IH|]; cbn [Pos.to_little_uint Pos.size_nat]; [| |done].
  - pose proof (double_digits (Pos.to_little_uint p)). lia.
  - pose proof (double_digits (Pos.to_little_uint p)). lia.
Qed.

Lemma length_uint_str d : length (uint_str d) = Decimal.nb_digits d.
Proof. induction d; cbn; congruence. Qed.

Lemma size_mono p q : (p <= q)%positive -> (Pos.size_nat p <= Pos.size_nat q)%nat.
Proof.
  revert q. induction p as [p IH|p IH|]; intros [q|q|] H; cbn [Pos.size_nat]; try lia; apply le_n_S, IH; lia.
Qed.

(** Process ids are at most 2^22 on Linux. *)
Lemma pid_digits n : 0 < n <= 4194304 -> (length (str_of_Z n) <= 4300)%nat.
Proof.
  intros [H1 H2]. destruct n as [|p|p]; [done| |done]. unfold str_of_Z. rewrite length_uint_str.
  cbn [Z.to_N N.to_uint]. unfold Pos.to_uint. rewrite DecimalFacts.nb_digits_rev.
  pose proof (little_digits p). pose proof (size_mono p 4194304 ltac:(lia)) as Hs. cbn [Pos.size_nat] in Hs. lia.
Qed.

Lemma digit_groups_digits s : forallb is_digit s = true -> forall b, (s = [] -> b = true) -> digit_groups s b = Some s.
Proof.
  induction s as [|c s IH]; intros H b Hb; cbn [digit_groups]; [by rewrite Hb|].
  apply andb_true_iff in H as [-> H]. by rewrite IH.
Qed.

Lemma lstrip_digit c s : is_digit c = true -> lstrip (c :: s) = c :: s.
Proof.
  intros H. cbn [lstrip]. assert (is_space c = false) as ->; [|done].
  unfold is_digit in H. apply andb_true_iff in H as [H1%N.leb_le H2%N.leb_le]. unfold is_space.
  repeat (apply orb_false_iff; split); try (apply andb_false_iff; rewrite !N.leb_gt; lia); apply N.eqb_neq; lia.
Qed.

Lemma strip_digits s : s <> [] -> forallb is_digit s = true -> strip s = s.
Proof.
  intros Hne H. unfold strip. destruct s as [|c s]; [done|]. pose proof H as [Hc _]%andb_true_iff.
  rewrite lstrip_digit by done. destruct (reverse (c :: s)) as [|d r] eqn:E.
  - apply (f_equal reverse) in E. by rewrite reverse_involutive in E.
  - rewrite lstrip_digit; [by rewrite <-E, reverse_involutive|].
    rewrite forallb_forall in H. apply H, list_elem_of_In. apply elem_of_reverse. rewrite E. by left.
Qed.

(** The process id of the runner is read back. *)
Lemma int_of_text_pid n : 0 < n -> (length (str_of_Z n) <= 4300)%nat -> int_of_text (str_of_Z n) = Ok n.
Proof.
  intros Hn Hl. destruct n as [|n|n]; [done| |done]. unfold str_of_Z in *.
  set (s := uint_str (N.to_uint (Z.to_N (Z.pos n)))) in *.
  assert (forallb is_digit s = true) as Hd by apply uint_str_digits.
  assert (s <> []) as Hne by apply uint_nonempty.
  assert (isascii s = true) as Ha.
  { apply forallb_forall. intros c Hc. rewrite forallb_forall in Hd. specialize (Hd c Hc). unfold is_digit in Hd.
    apply andb_true_iff in Hd as [_ H%N.leb_le]. apply N.leb_le. lia. }
  unfold int_of_text, ascii_int. rewrite Ha, strip_digits by done. destruct s as [|c r] eqn:E; [done|].
  pose proof Hd as [Hc _]%andb_true_iff. unfold is_digit in Hc. apply andb_true_iff in Hc as [H1%N.leb_le H2%N.leb_le].
  destruct (N.eqb_spec c 45); [lia|]. destruct (N.eqb_spec c 43); [lia|].
  rewrite digit_groups_digits by done. unfold int_of, MAX_STR_DIGITS.
  destruct (Nat.ltb_spec 4300 (length (c :: r))); [lia|]. rewrite <-E. subst s. by rewrite digits_value_N.
Qed.
End Supervisor.

(** How the command ended can be passed on: an exit code, or a signal that is known and
    whose action can be the default one. *)
Definition passed_on (e : ending) : bool :=
  match e with
  | Exits _ => true
  | Signalled signal => bool_decide (signal ∈ signals) && negb ((signal =? 9) || (signal =? 19))
  end.

Definition possible (e : ending) : Prop := match e with Exits code => 0 <= code | Signalled signal => 0 < signal end.

Section Launched.
Context (_HOME : str) (int_other : str -> res Z) (spawn : list str -> option ending).
Context (sys_executable _SUPERVISOR_PATH : str) (pid : Z) (environ : gmap str str).
(** An exit code is not negative, and the number of a signal is positive. *)
Context (Hspawn : forall target e, spawn target = Some e -> possible e).

Lemma run_target_ends target :
  _run_target spawn target
  = match spawn target with None => Exits LAUNCH_FAILURE | Some e => if passed_on e then e else Exits UNCAUGHT end.
Proof.
  unfold _run_target. destruct (spawn target) as [[code|signal]|] eqn:E; [| |done]; cbn [returncode passed_on].
  - apply Hspawn in E. by rewrite (proj2 (Z.leb_le _ _) E).
  - apply Hspawn in E. cbn [possible] in E. rewrite Z.opp_involutive, (proj2 (Z.leb_gt _ _)) by lia.
    destruct (bool_decide (signal ∈ signals)); [|done]. unfold set_default, raise_if. cbn [andb]. by destruct (_ || _).
Qed.

(** C17. Started the way the runner starts it, with its parent still there and [prctl]
    working, the supervisor runs exactly the executable of the registry with its fixed arguments and then the given
    ones, and ends as the command ends: with its exit code, or of its signal. Only when the
    signal is unknown, or one whose action cannot be set, is the end another, and a failure
    all the same. *)
Theorem supervisor_transparent name arguments :
  0 < pid <= 4194304 ->
  let c := COMMAND_SPECS _HOME name in
  main int_other spawn true pid (drop 2 (argv (launch_of sys_executable _SUPERVISOR_PATH pid environ c arguments)))
  = match spawn (executable c :: base_argv c ++ arguments) with
    | None => Exits LAUNCH_FAILURE
    | Some e => if passed_on e then e else Exits UNCAUGHT
    end.
Proof.
  intros Hpid c. rewrite <-run_target_ends. unfold launch_of, main. cbn [argv drop app _arguments].
  rewrite int_of_text_pid by (by apply pid_digits || lia).
  rewrite (proj2 (Z.leb_gt _ _)), bool_decide_eq_false_2 by (lia || by destruct name).
  unfold _arm_parent_death. cbn [orb negb]. by rewrite Z.eqb_refl.
Qed.
End Launched.

(** A command that answers. *)
Definition answering (target : list str) : option ending := Some (Exits 0).

Lemma supervisor_transparent_witness :
  main (fun _ => Err ValueError) answering true 4242
    (drop 2 (argv (launch_of (lit "/usr/bin/python3") (lit "/app/command_supervisor.py") 4242 ∅
      (COMMAND_SPECS (lit "/root") VERCMP) [lit "1.0"; lit "1.1"]))) = Exits 0.
Proof.
  rewrite (supervisor_transparent (lit "/root") (fun _ => Err ValueError) answering
    (lit "/usr/bin/python3") (lit "/app/command_supervisor.py") 4242 ∅); [done | by intros ? ? [= <-] | lia].
Defined.

(** The target killed by SIGKILL: setting the default action of that signal is refused, the
    exception is not caught, and the runner sees the exit code 1 instead of the signal. *)
Lemma killed_is_exit_1 : _run_target (fun _ => Some (Signalled 9)) [lit "/usr/bin/true"] = Exits 1.
Proof. reflexivity. Qed.
