(* ===== verification/Orphans.v ===== *)
(** * No command outlives the runner

    The order of the calls in [_arm_parent_death] and [_run_target] of
    [command_supervisor.py], interleaved with the death of the runner: the supervisor blocks a
    signal, asks the kernel to send it when its parent dies, tests that its parent is still
    the runner, installs the handler that kills its group and only then unblocks the signal
    and starts the command. Whenever the runner dies, no command is left running.

    The steps of the kernel are the documented ones: the death of the parent sends the signal
    once [prctl] has asked for it and changes the parent; a signal that is pending and not
    blocked may be delivered between any two calls; without a handler it terminates the
    process, and SIGKILL to the group ends every process of it. *)

From S2P Require Import Prelude Models RunnerTypes Supervisor.

Inductive call :=
| BlockSignal
| SetParentDeathSignal
| CheckParent
| InstallHandler
| UnblockSignal
| StartTarget
| WaitTarget.

(** [_arm_parent_death] *)
Definition arm_calls : list call := [BlockSignal; SetParentDeathSignal; CheckParent; InstallHandler; UnblockSignal].

(** [_arm_parent_death], then [_run_target]. *)
Definition supervisor_calls : list call := arm_calls ++ [StartTarget; WaitTarget].

(** How the supervisor ends: it returns, a signal terminates it alone, or its whole group is
    killed. *)
Inductive finish :=
| Returned (status : option Z)
| Terminated
| GroupKilled.

Record supervisor := {
  todo : list call;
  blocked : bool;
  pending : bool;
  asked : bool;
  handled : bool;
  runner_alive : bool;
  target_runs : bool;
  finished : option finish;
}.

Definition started : supervisor := {|
  todo := supervisor_calls; blocked := false; pending := false; asked := false; handled := false;
  runner_alive := true; target_runs := false; finished := None |}.

Definition ends_with (f : finish) (s : supervisor) : supervisor := {|
  todo := []; blocked := blocked s; pending := false; asked := asked s; handled := handled s;
  runner_alive := runner_alive s; target_runs := false; finished := Some f |}.

(** [_kill_own_group] *)
Definition _kill_own_group : supervisor -> supervisor := ends_with GroupKilled.

(** One call, where [works] says whether the system did what was asked: a failure of [prctl]
    or of starting the command ends with [LAUNCH_FAILURE]; the wait ends with the command. *)
Definition perform (c : call) (works : bool) (rest : list call) (s : supervisor) : supervisor :=
  let next b a h t := {| todo := rest; blocked := b; pending := pending s; asked := a; handled := h;
                         runner_alive := runner_alive s; target_runs := t; finished := None |} in
  match c with
  | BlockSignal => next true (asked s) (handled s) (target_runs s)
  | SetParentDeathSignal =>
      if works then next (blocked s) true (handled s) (target_runs s) else ends_with (Returned (Some LAUNCH_FAILURE)) s
  | CheckParent =>
      if runner_alive s then next (blocked s) (asked s) (handled s) (target_runs s) else _kill_own_group s
  | InstallHandler => next (blocked s) (asked s) true (target_runs s)
  | UnblockSignal => next false (asked s) (handled s) (target_runs s)
  | StartTarget =>
      if works then next (blocked s) (asked s) (handled s) true else ends_with (Returned (Some LAUNCH_FAILURE)) s
  | WaitTarget => ends_with (Returned None) s
  end.

(** The runner dies. *)
Definition die (s : supervisor) : supervisor := {|
  todo := todo s; blocked := blocked s; pending := pending s || asked s; asked := asked s; handled := handled s;
  runner_alive := false; target_runs := target_runs s; finished := None |}.

(** The signal is delivered: to [_parent_died], or with its default action. *)
Definition deliver (s : supervisor) : supervisor :=
  if handled s then _kill_own_group s
  else {| todo := []; blocked := blocked s; pending := false; asked := asked s; handled := handled s;
          runner_alive := runner_alive s; target_runs := target_runs s; finished := Some Terminated |}.

Inductive step : supervisor -> supervisor -> Prop :=
| step_call s c rest works : finished s = None -> todo s = c :: rest -> step s (perform c works rest s)
| step_die s : finished s = None -> runner_alive s = true -> step s (die s)
| step_deliver s : finished s = None -> pending s = true -> blocked s = false -> step s (deliver s).

Inductive reachable : supervisor -> Prop :=
| reachable_start : reachable started
| reachable_step s s' : reachable s -> step s s' -> reachable s'.

(** ** The state after so many calls *)

(** While it runs, what the supervisor has done decides its flags; if the runner died after
    the test of the parent, the signal is pending. *)
Definition progress (k : nat) (s : supervisor) : Prop :=
  todo s = drop k supervisor_calls /\ blocked s = bool_decide (1 <= k < 5)%nat /\ asked s = bool_decide (2 <= k)%nat
  /\ handled s = bool_decide (4 <= k)%nat /\ target_runs s = bool_decide (k = 6)%nat
  /\ (pending s = true -> (2 <= k)%nat)
  /\ (runner_alive s = false -> (3 <= k)%nat -> pending s = true).

Definition inv (s : supervisor) : Prop :=
  match finished s with
  | None => exists k, (k <= 6)%nat /\ progress k s
  | Some f => f <> Terminated /\ target_runs s = false
  end.

Lemma inv_ends f s : f <> Terminated -> inv (ends_with f s).
Proof. by split. Qed.

Lemma next_inv k s : finished s = None -> progress (S k) s -> (k < 6)%nat -> inv s.
Proof. intros Hf Hp Hk. unfold inv. rewrite Hf. exists (S k). split; [lia|done]. Qed.

Lemma perform_inv s c rest works : finished s = None -> todo s = c :: rest -> inv s -> inv (perform c works rest s).
Proof.
  unfold inv at 1. intros -> Ht (k & Hk & Et & Hb & Ha & Hh & Hr & Hq & Hd). rewrite Ht in Et.
  assert (Hp : progress (S k) (perform c works rest s) -> finished (perform c works rest s) = None -> (k < 6)%nat ->
               inv (perform c works rest s)) by (intros; by apply (next_inv k)).
  destruct k as [|[|[|[|[|[|[|k]]]]]]]; [..|lia]; cbn in Et; injection Et as -> ->; cbn [perform] in *;
    try (destruct works; [|by apply inv_ends]); try (by apply inv_ends).
  1-2, 4-6: apply Hp; [|done|lia]; unfold progress; cbn; rewrite ?Hb, ?Ha, ?Hh, ?Hr; repeat split; auto with lia.
  destruct (runner_alive s) eqn:E; [|by apply inv_ends].
  apply Hp; [|done|lia]. unfold progress. cbn. rewrite ?Hb, ?Ha, ?Hh, ?Hr, ?E. repeat split; auto with lia.
Qed.

Lemma die_inv s : finished s = None -> inv s -> inv (die s).
Proof.
  unfold inv. intros -> (k & Hk & Et & Hb & Ha & Hh & Hr & Hq & Hd). cbn. exists k. split; [done|].
  unfold progress. cbn. repeat split; try done.
  - intros [Hp|Hp]%orb_prop; [by apply Hq|]. rewrite Ha in Hp. by apply bool_decide_eq_true in Hp.
  - intros _ H3. apply orb_true_iff. right. rewrite Ha. apply bool_decide_eq_true. lia.
Qed.

(** A pending signal that is not blocked finds the handler. *)
Lemma pending_handled s : finished s = None -> inv s -> pending s = true -> blocked s = false -> handled s = true.
Proof.
  unfold inv. intros -> (k & Hk & Et & Hb & Ha & Hh & Hr & Hq & Hd) Hp Hbl. rewrite Hh. apply bool_decide_eq_true.
  rewrite Hb in Hbl. apply bool_decide_eq_false in Hbl. specialize (Hq Hp). lia.
Qed.

Lemma reachable_inv s : reachable s -> inv s.
Proof.
  induction 1 as [|s s' _ IH Hs]; [exists 0%nat; by repeat split; try lia|].
  destruct Hs as [s c rest works Hf Ht|s Hf Ha|s Hf Hp Hb].
  - by apply perform_inv.
  - by apply die_inv.
  - unfold deliver. rewrite (pending_handled s) by done. by apply inv_ends.
Qed.

(** C18. No command outlives the runner, however its death falls between the calls of the
    supervisor: in every state that can be reached, the supervisor was not terminated alone;
    a command runs only while the supervisor does; and when a command runs and the runner is
    dead, the signal of its death is pending, is not blocked and has its handler, so that it
    is delivered and kills the whole group. *)
Theorem no_orphan_command s :
  reachable s ->
  finished s <> Some Terminated
  /\ (target_runs s = true -> finished s = None)
  /\ (target_runs s = true -> runner_alive s = false ->
      step s (deliver s) /\ finished (deliver s) = Some GroupKilled /\ target_runs (deliver s) = false).
Proof.
  intros Hr. pose proof (reachable_inv s Hr) as Hi. pose proof Hi as Hi'. unfold inv in Hi'.
  destruct (finished s) as [f|] eqn:Hf.
  - destruct Hi' as [Hn Ht]. split; [congruence|]. split; congruence.
  - destruct Hi' as (k & Hk & Et & Hb & Ha & Hh & Ht & Hq & Hd). split; [done|]. split; [done|]. intros Hrun Hdead.
    rewrite Ht in Hrun. apply bool_decide_eq_true in Hrun as ->.
    assert (Hp : pending s = true) by (apply Hd; [done|lia]). split.
    + by apply step_deliver.
    + unfold deliver. by rewrite Hh.
Qed.

(** The calls alone: what [_arm_parent_death] of [Supervisor] says. *)
Fixpoint run_calls (works : bool) (calls after : list call) (s : supervisor) : supervisor :=
  match calls with
  | [] => s
  | c :: rest => match finished s with None => run_calls works rest after (perform c works (rest ++ after) s) | Some _ => s end
  end.

Lemma perform_todo c works rest s : finished (perform c works rest s) = None -> todo (perform c works rest s) = rest.
Proof. destruct c, works; cbn; try done; by destruct (runner_alive s). Qed.

Lemma run_calls_reachable works calls after s :
  reachable s -> (finished s = None -> todo s = calls ++ after) -> reachable (run_calls works calls after s).
Proof.
  revert s. induction calls as [|c rest IH]; intros s Hr Ht; cbn [run_calls]; [done|].
  destruct (finished s) eqn:Hf; [done|]. apply IH; [|apply perform_todo].
  eapply reachable_step; [exact Hr|]. apply step_call; [done|]. by apply Ht.
Qed.

(** Without a death in between, the calls of [_arm_parent_death] come to what
    [Supervisor._arm_parent_death] gives: the launch failure if [prctl] fails, the death of
    the group if the parent is another, and else the start of the command. *)
Lemma arm_calls_agree works parent expected :
  let s := {| todo := supervisor_calls; blocked := false; pending := false; asked := false; handled := false;
              runner_alive := (parent =? expected)%Z; target_runs := false; finished := None |} in
  match _arm_parent_death works parent expected, finished (run_calls works arm_calls [StartTarget; WaitTarget] s) with
  | None, None => todo (run_calls works arm_calls [StartTarget; WaitTarget] s) = [StartTarget; WaitTarget]
  | Some (Exits code), Some (Returned status) => status = Some code
  | Some (Signalled 9), Some GroupKilled => True
  | _, _ => False
  end.
Proof. unfold _arm_parent_death. by destruct works, (parent =? expected)%Z. Qed.

(** The runner dies while its command runs. *)
Definition at_target : supervisor := run_calls true (arm_calls ++ [StartTarget]) [WaitTarget] started.

Example no_orphan_command_witness :
  target_runs (die at_target) = true /\ runner_alive (die at_target) = false
  /\ finished (deliver (die at_target)) = Some GroupKilled.
Proof.
  assert (Hr : reachable (die at_target)).
  { apply (reachable_step at_target); [by apply run_calls_reachable; [constructor|]|by apply step_die]. }
  split; [done|]. split; [done|]. apply (no_orphan_command (die at_target) Hr); done.
Defined.
