(* ===== verification/Fetch.v ===== *)
(** * Fetching an endpoint

    [fetch_endpoint] of [runner.py]: a conditional request, its redirects followed within
    the policy of the endpoint, a body read within its bound and kept in the transport
    cache. The network is an argument: what is answered to the [n]-th request. [delivered] says what
    an answer brought, [cache_step] what that may do to the cache. *)

From S2P Require Import Prelude PyStr Calendar Models Json Utf8 RunnerTypes Redaction Registry SecurityFeeds Urls.
From S2P Require Import CacheMetadata StorageWatches StorageState StorageIO Storage StorageSpec DiskStore CacheSpec.

Open Scope Z_scope.

(** ** The body of a response *)

(** What reading brings: some bytes, or an exception. The end of the list is the end of
    the body. *)
Inductive read_event :=
| Chunk (data : bytes)
| Broken (e : exn).

(** [response.read(amount)]: at most that many bytes, none only at the end. *)
Fixpoint read (amount : Z) (stream : list read_event) : res (bytes * list read_event) :=
  match stream with
  | [] => Ok ([], [])
  | Broken e :: _ => Err e
  | Chunk data :: rest =>
      match data with
      | [] => read amount rest
      | _ =>
          if len data <=? amount then Ok (data, rest)
          else Ok (take (Z.to_nat amount) data, Chunk (drop (Z.to_nat amount) data) :: rest)
      end
  end.

(** The bytes that can still be read: every round of the loop takes some. *)
Definition stream_size (stream : list read_event) : nat :=
  sum_list_with (fun e => match e with Chunk data => length data | Broken _ => O end) stream.

(** [_read_body]: the rounds tries are those of the fuel. *)
Fixpoint read_rounds (fuel : nat) (chunks : bytes) (remaining : Z) (stream : list read_event) : res (option bytes) :=
  match fuel with
  | O => Err RecursionError
  | S fuel =>
      '(chunk, rest) ← read (Z.min 65536 (remaining + 1)) stream;
      match chunk with
      | [] => Ok (Some chunks)
      | _ => if remaining <? len chunk then Ok None
             else read_rounds fuel (chunks ++ chunk) (remaining - len chunk) rest
      end
  end.
Definition _read_body (stream : list read_event) (limit : Z) : res (option bytes) :=
  read_rounds (S (stream_size stream)) [] limit stream.

(** ** Requests and answers *)

Abbreviation headers := (list (str * str)).

(** Why a [URLError] was raised. *)
Inductive url_reason :=
| CertificateError (text : str)
| ReasonTimeout (text : str)
| OtherReason (text : str).

(** What opening a request comes to; [get] looks a header of the answer up. *)
Inductive https_answer :=
| HttpsResponse (status : Z) (get : str -> option str) (body : list read_event)
| HTTPError (code : Z) (get : str -> option str)
| URLError (reason : url_reason)
| OpenTimedOut (text : str)
| OpenRaised (e : exn).

Section Fetch.
Context `{Tables : UnicodeTables} `{Url : UrlTables} (_HOME : str).
(** [urljoin], the text of an [OSError], and the answer to the [n]-th request. *)
Context (urljoin : str -> str -> res str) (oserror_text : str) (open : nat -> str -> headers -> https_answer).

Definition _valid_url (u : str) (spec : EndpointSpec) : res bool :=
  parts ← urlsplit u;
  match port parts with
  | Err ValueError => Ok false
  | Err e => Err e
  | Ok p =>
      Ok (bool_decide (scheme parts = lit "https")
          && match hostname parts with Some h => bool_decide (h ∈ allowed_hosts spec) | None => false end
          && negb (has_userinfo parts)
          && match p with None => true | Some n => n =? 443 end
          && bool_decide (path parts ∈ allowed_paths spec))
  end.

Definition _network_failure (reason : url_reason) : EndpointResult :=
  match reason with
  | CertificateError text => EndpointTlsFailed (redact_diagnostic _HOME text)
  | ReasonTimeout text => EndpointTimedOut (redact_diagnostic _HOME text)
  | OtherReason text => EndpointFailed (redact_diagnostic _HOME text)
  end.

Definition _not_modified_result (conditional : bool) : EndpointResult :=
  if conditional then EndpointNotModified else EndpointFailed (lit "unsolicited HTTPS 304 response").

Definition user_agent : str * str := (lit "User-Agent", lit "Opatchy/1").

(** [if value: headers[name] = value] *)
Definition header (name : string) (v : str) : headers := match v with [] => [] | _ => [(lit name, v)] end.

Definition _conditional_headers (cache : EndpointCache) : M (headers * bool) :=
  found ← catch (b ← read_bytes (body_path cache); ret (Some b)) is_oserror (ret None);
  match found with
  | None => ret ([user_agent], false)
  | Some body =>
      validators ← read_cache_validators cache body;
      match validators with
      | None => ret ([user_agent], false)
      | Some v =>
          ret (user_agent :: header "If-None-Match" (etag v) ++ header "If-Modified-Since" (last_modified v), true)
      end
  end.

(** A buffered file writes all it is given, or raises. *)
Definition write_all (l : location) (data : bytes) : M unit := sys (<[l := data]>).

(** The temporary file is created, written, flushed, synchronised and closed, then put in
    its place; it is removed when one of these fails. *)
Definition _atomic_write (target : location) (body : bytes) : M unit :=
  temporary ← mkstemp;
  cleanup (_ ← finally (_ ← write_all temporary body; _ ← sys_; sys_) sys_;
           replace temporary target)
    (unlink temporary).

Definition _replace_cache (cache : EndpointCache) (body : bytes) (etag last_modified : option str) : M unit :=
  _ ← sys_;
  _ ← _atomic_write (body_path cache) body;
  metadata ← lift (serialize_cache_metadata body etag last_modified);
  _atomic_write (metadata_path cache) metadata.

(** A round of the loop: an answer for the caller, or the next address. *)
Definition answered (spec : EndpointSpec) (cache : EndpointCache) (conditional : bool) (u : str) (a : https_answer)
    : M (EndpointResult + str) :=
  match a with
  | HTTPError code get =>
      if code =? 304 then ret (inl (_not_modified_result conditional))
      else match get (lit "Location") with
           | Some location =>
               if (300 <=? code) && (code <? 400) then next ← lift (urljoin u location); ret (inr next)
               else ret (inl (EndpointFailed (lit "HTTPS status " ++ str_of_Z code)))
           | None => ret (inl (EndpointFailed (lit "HTTPS status " ++ str_of_Z code)))
           end
  | URLError reason => ret (inl (_network_failure reason))
  | OpenTimedOut text => ret (inl (EndpointTimedOut (redact_diagnostic _HOME text)))
  | OpenRaised e => lift (Err e)
  | HttpsResponse status get body =>
      let refused :=
        if status =? 304 then ret (inl (_not_modified_result conditional))
        else if negb (status =? 200)
        then ret (inl (EndpointFailed (lit "unexpected HTTPS status " ++ str_of_Z status)))
        else
          read ← lift (_read_body body (body_limit spec));
          match read with
          | None => ret (inl (EndpointOversized (lit "HTTPS response body exceeds the endpoint limit")))
          | Some body =>
              let etag := get (lit "ETag") in
              let last_modified := get (lit "Last-Modified") in
              catch (_ ← _replace_cache cache body etag last_modified;
                     ret (inl (EndpointDownloaded body etag last_modified)))
                is_oserror (ret (inl (EndpointFailed (redact_diagnostic _HOME oserror_text))))
          end in
      match get (lit "Location") with
      | Some location =>
          if (300 <=? status) && (status <? 400) then next ← lift (urljoin u location); ret (inr next) else refused
      | None => refused
      end
  end.

(** The loop: [tries] requests may still be made, [n] have been. *)
Fixpoint requests (spec : EndpointSpec) (cache : EndpointCache) (hs : headers) (conditional : bool)
    (tries n : nat) (u : str) : M EndpointResult :=
  match tries with
  | O => ret (EndpointRejected (lit "HTTPS redirect limit exceeded"))
  | S tries =>
      valid ← lift (_valid_url u spec);
      if negb valid then ret (EndpointRejected (redact_diagnostic _HOME u))
      else
        a ← answered spec cache conditional u (open n u hs);
        match a with
        | inl result => ret result
        | inr next => requests spec cache hs conditional tries (S n) next
        end
  end.

Definition fetch_endpoint (name : EndpointName) (cache : EndpointCache) : M EndpointResult :=
  let spec := ENDPOINT_SPECS name in
  h ← _conditional_headers cache;
  requests spec cache h.1 h.2 (redirect_limit spec + 1) 0 (url spec).
End Fetch.

(** ** The body that is read *)

Section Body.
(** What a stream brings before it ends or breaks. *)
Fixpoint readable (stream : list read_event) : bytes * option exn :=
  match stream with
  | [] => ([], None)
  | Broken e :: _ => ([], Some e)
  | Chunk data :: rest => let r := readable rest in (data ++ r.1, r.2)
  end.

Lemma read_spec amount stream : 0 < amount ->
  match read amount stream with
  | Ok ([], _) => readable stream = ([], None)
  | Ok (chunk, rest) =>
      readable stream = (chunk ++ (readable rest).1, (readable rest).2) /\ len chunk <= amount
      /\ stream_size stream = (length chunk + stream_size rest)%nat
  | Err e => readable stream = ([], Some e)
  end.
Proof.
  intros Ha. induction stream as [|[data|e] rest IH]; cbn [read readable]; [done| |done].
  destruct data as [|c data].
  { cbn [app]. destruct (readable rest) as [b e]. exact IH. }
  destruct (Z.leb_spec (len (c :: data)) amount); [done|].
  destruct (Z.to_nat amount) as [|n] eqn:En; [lia|]. cbn [take drop readable]. split; [|split].
  - cbn [fst snd app]. by rewrite app_assoc, take_drop.
  - unfold len. cbn [length]. rewrite length_take. lia.
  - unfold stream_size. cbn. rewrite length_drop, length_take. unfold len in *. cbn [length] in *. lia.
Qed.

Lemma read_rounds_spec fuel chunks remaining stream :
  0 <= remaining -> (stream_size stream < fuel)%nat ->
  read_rounds fuel chunks remaining stream =
    let '(b, e) := readable stream in
    if remaining <? len b then Ok None else match e with Some e => Err e | None => Ok (Some (chunks ++ b)) end.
Proof.
  revert chunks remaining stream. induction fuel as [|fuel IH]; intros chunks remaining stream Hr Hf; [lia|]. cbn [read_rounds].
  pose proof (read_spec (Z.min 65536 (remaining + 1)) stream ltac:(lia)) as H.
  destruct (read _ stream) as [[chunk rest]|e]; cbn [mbind outcome_bind].
  2:{ rewrite H. destruct (Z.ltb_spec remaining (len (A:=N) [])); [unfold len in *; simpl in *; lia | done]. }
  destruct chunk as [|c chunk].
  { rewrite H. rewrite app_nil_r. destruct (Z.ltb_spec remaining (len (A:=N) [])); [unfold len in *; simpl in *; lia | done]. }
  destruct H as (-> & Hl & Hs). set (x := c :: chunk) in *. unfold len in *.
  destruct (readable rest) as [b e] eqn:Er. cbn [fst snd]. rewrite length_app.
  destruct (Z.ltb_spec remaining (Z.of_nat (length x))) as [Hx|Hx].
  - destruct (Z.ltb_spec remaining (Z.of_nat (length x + length b))); [done | lia].
  - rewrite IH by (subst x; cbn [length] in *; lia). rewrite Er. unfold len.
    destruct (Z.ltb_spec (remaining - Z.of_nat (length x)) (Z.of_nat (length b))),
      (Z.ltb_spec remaining (Z.of_nat (length x + length b))); try lia; [done|].
    by rewrite app_assoc.
Qed.

(** C30. Reading a body ends, and comes to what the whole stream amounts to: nothing when
    it has more bytes than the limit, however it is cut into pieces and even if it breaks
    later; the exception when it breaks within the limit; and otherwise all of it. *)
Theorem body_read_exact stream limit :
  0 <= limit ->
  _read_body stream limit =
    let '(b, e) := readable stream in
    if limit <? len b then Ok None else match e with Some e => Err e | None => Ok (Some b) end.
Proof. intros Hl. unfold _read_body. by rewrite read_rounds_spec by lia. Qed.

Lemma read_body_whole stream limit b :
  0 <= limit -> _read_body stream limit = Ok (Some b) -> readable stream = (b, None) /\ len b <= limit.
Proof.
  intros Hl. unfold _read_body. rewrite read_rounds_spec by lia. destruct (readable stream) as [x e].
  destruct (Z.ltb_spec limit (len x)); [done|]. destruct e; [done|]. by intros [= <-].
Qed.

Lemma body_read_exact_witness :
  _read_body [Chunk [1; 2]; Chunk []; Chunk [3; 4; 5]; Broken OSError]%N 4 = Ok None.
Proof. apply (body_read_exact [Chunk [1; 2]; Chunk []; Chunk [3; 4; 5]; Broken OSError]%N 4). lia. Defined.
End Body.

(** ** Where requests go *)

Section Confined.
Context `{Tables : UnicodeTables} `{Url : UrlTables} (_HOME : str).

(** Over HTTPS to an allowed host and path: no user, no other port, and nothing more than a
    query or a fragment after the path. *)
Definition confined (spec : EndpointSpec) (u : str) : Prop := exists p b tail h,
  urlsplit u = Ok p /\ cleaned u = b ++ lit "://" ++ netloc p ++ path p ++ tail /\ ascii_lower b = lit "https"
  /\ tail_text tail /\ hostname p = Some h /\ (h ∈ allowed_hosts spec) /\ (64%N ∉ netloc p)
  /\ (port p = Ok None \/ port p = Ok (Some 443)) /\ (path p ∈ allowed_paths spec).

Lemma hostname_netloc p h : hostname p = Some h -> netloc p <> [].
Proof. unfold hostname, _hostinfo. intros H E. rewrite E in H. discriminate H. Qed.

Lemma valid_url_confined u spec : _valid_url u spec = Ok true -> confined spec u.
Proof.
  unfold _valid_url. intros (p & Hp & H)%bind_Ok. destruct (port p) as [n|e] eqn:En; [|by destruct e].
  apply Ok_inj in H. rewrite !andb_true_iff, !bool_decide_eq_true, negb_true_iff in H. destruct H as [[[[Hs Hh] Hu] Hn] Hpath].
  destruct (hostname p) as [h|] eqn:Eh; [|done]. apply bool_decide_eq_true in Hh.
  destruct (urlsplit_app u p Hp) as (b & tail & E & Hb & Ht); [by rewrite Hs | by eapply hostname_netloc |].
  exists p, b, tail, h. rewrite <-Hs. repeat (split; [done|]). split; [|split].
  - unfold has_userinfo in Hu. apply bool_decide_eq_false in Hu. destruct (rpartition 64 (netloc p)) as [[x|] t] eqn:Er;
      [by destruct Hu; eexists | by apply rpartition_none in Er as [_ ?]].
  - destruct n as [n|]; [|by left]. apply Z.eqb_eq in Hn as ->. by right.
  - done.
Qed.

Context (urljoin : str -> str -> res str) (oserror_text : str).

Lemma requests_agree open open' spec cache hs conditional tries n u w :
  (forall k v, (n <= k < n + tries)%nat -> confined spec v -> open k v hs = open' k v hs) ->
  requests _HOME urljoin oserror_text open spec cache hs conditional tries n u w
  = requests _HOME urljoin oserror_text open' spec cache hs conditional tries n u w.
Proof.
  revert n u w. induction tries as [|tries IH]; intros n u w H; [done|]. cbn [requests].
  unfold mbind, M_bind, lift. destruct (_valid_url u spec) as [[]|e] eqn:Ev; [|done..]. cbn [negb].
  rewrite (H n u) by (lia || by apply valid_url_confined).
  destruct (answered _ _ _ _ _ _ _ _ _) as [w' [[r|next]|e]]; [done | | done].
  apply IH. intros k v Hk. apply H. lia.
Qed.

(** C10. The network is asked for nothing outside the policy of the endpoint: what a fetch
    comes to, and what it leaves on disk, does not depend on how any other address would
    answer, nor on any answer past the limit of redirects, wherever the redirects lead. *)
Theorem fetch_confined open open' name cache w :
  (forall n u hs, (n <= redirect_limit (ENDPOINT_SPECS name))%nat -> confined (ENDPOINT_SPECS name) u ->
                  open n u hs = open' n u hs) ->
  fetch_endpoint _HOME urljoin oserror_text open name cache w
  = fetch_endpoint _HOME urljoin oserror_text open' name cache w.
Proof.
  intros H. unfold fetch_endpoint, mbind, M_bind. destruct (_conditional_headers cache w) as [w' [h|e]]; [|done].
  apply requests_agree. intros k v Hk. apply H. lia.
Qed.

(** ** What is left in the cache *)

Context (open : nat -> str -> headers -> https_answer).

Abbreviation fetch_endpoint_ := (fetch_endpoint _HOME urljoin oserror_text open).

Lemma quiet_write_all n data : quiet (write_all (LTemp n) data).
Proof. intros w. apply wp_sys; [by rewrite durable_temp | done]. Qed.

Lemma written_all n data w :
  wp (finally (_ ← write_all (LTemp n) data; _ ← sys_; sys_) sys_)
    (fun _ w' => durable w' = durable w /\ w_files w' !! LTemp n = Some data)
    (fun e w' => os_or_kill e /\ durable w' = durable w) w.
Proof.
  set (Q := fun (_ : unit) w' => durable w' = durable w /\ w_files w' !! LTemp n = Some data).
  set (R := fun e w' => os_or_kill e /\ durable w' = durable w).
  assert (forall w1, Q tt w1 -> wp sys_ Q R w1) as Hsys.
  { intros w1 [H1 H2]. apply wp_sys; [by split | intros e He; by split]. }
  apply wp_finally. eapply wp_mono.
  - apply wp_bind. instantiate (1 := R). instantiate (1 := Q). apply wp_sys; [|intros e He; by split].
    apply wp_bind. eapply wp_mono; [apply Hsys | intros [] w' ?; by apply Hsys | done].
    split; [apply (durable_temp (called w)) | cbn; by rewrite lookup_insert_eq].
  - intros [] w'. apply Hsys.
  - intros e w' HR. split; [done|]. apply wp_sys; [done|]. intros e' He. destruct HR. by split.
Qed.

Lemma atomic_write_all l data w :
  lasting l = true ->
  wp (_atomic_write l data) (fun _ w' => durable w' = <[l := data]> (durable w))
    (fun e w' => os_or_kill e /\ durable w' = durable w) w.
Proof.
  intros Hl. unfold _atomic_write. apply wp_bind. eapply wp_mono; [apply mkstemp_spec | | auto].
  intros t w1 [<- [n ->]]. apply wp_cleanup, wp_bind. eapply wp_mono; [apply written_all | |].
  - intros [] w2 [<- Hn]. eapply wp_replace_temp; [done | exact Hn | done |]. intros e w3 He Hw. split; [done|].
    apply wp_quiet; [apply quiet_unlink_temp | |]; [intros _ w4 ->; by split | intros e' w4 He' ->; by split].
  - intros e w2 [He Hw]. split; [done|].
    apply wp_quiet; [apply quiet_unlink_temp | |]; [intros _ w4 ->; by split | intros e' w4 He' ->; by split].
Qed.

(** ** What the cache holds, what is asked and what is answered *)

(** A whole body and the validators it was stored with. *)
Definition cached (cache : EndpointCache) (f : disk) : option CacheValidators :=
  body ← f !! body_path cache; metadata ← f !! metadata_path cache; parse_cache_metadata metadata body.

(** The request for a body that may be the one in the cache: it has the validators there are. *)
Definition conditional_request (v : CacheValidators) : headers :=
  user_agent :: (if decide (etag v = []) then [] else [(lit "If-None-Match", etag v)])
             ++ (if decide (last_modified v = []) then [] else [(lit "If-Modified-Since", last_modified v)]).

(** The headers of every request of a fetch: of a conditional one only with a whole cache. *)
Definition asks (cache : EndpointCache) (f : disk) (hs : headers) (conditional : bool) : Prop :=
  if conditional then exists v, cached cache f = Some v /\ hs = conditional_request v else hs = [user_agent].

Section Answers.
Context (spec : EndpointSpec) (hs : headers).

(** An address the policy allows was asked, with these headers, within the redirects allowed. *)
Definition answers_with (a : https_answer) : Prop :=
  exists n u, (n <= redirect_limit spec)%nat /\ confined spec u /\ open n u hs = a.

(** The whole body of such an answer, within the limit, and its validators. *)
Definition delivered (body : bytes) (et lm : option str) : Prop := exists get stream,
  answers_with (HttpsResponse 200 get stream) /\ readable stream = (body, None) /\ len body <= body_limit spec
  /\ et = get (lit "ETag") /\ lm = get (lit "Last-Modified").

Definition not_modified : Prop :=
  (exists get stream, answers_with (HttpsResponse 304 get stream)) \/ exists get, answers_with (HTTPError 304 get).

(** Each of the two files of a cache is the old one or a new one, the body first. *)
Inductive cache_step (cache : EndpointCache) (f f' : disk) : Prop :=
| cache_same : f' = f -> cache_step cache f f'
| cache_body body et lm : delivered body et lm -> f' = <[body_path cache := body]> f -> cache_step cache f f'
| cache_both body et lm metadata :
    delivered body et lm -> serialize_cache_metadata body et lm = Ok metadata ->
    f' = <[metadata_path cache := metadata]> (<[body_path cache := body]> f) -> cache_step cache f f'.

(** What a fetch has done when it returns. *)
Definition fetched (cache : EndpointCache) (f : disk) (r : EndpointResult) (f' : disk) : Prop :=
  match r with
  | EndpointDownloaded body et lm =>
      delivered body et lm /\ exists metadata, serialize_cache_metadata body et lm = Ok metadata
        /\ f' = <[metadata_path cache := metadata]> (<[body_path cache := body]> f)
  | EndpointNotModified => f' = f /\ not_modified /\ asks cache f hs true
  | _ => cache_step cache f f'
  end.
End Answers.

Lemma header_spec name v : header name v = if decide (v = []) then [] else [(lit name, v)].
Proof. by destruct v. Qed.

Section Cache.
Context (cache : EndpointCache) (Hb : lasting (body_path cache) = true) (Hm : lasting (metadata_path cache) = true).

Lemma replace_cache_wp spec hs body et lm w :
  delivered spec hs body et lm ->
  wp (_replace_cache cache body et lm)
    (fun _ w' => fetched spec hs cache (durable w) (EndpointDownloaded body et lm) (durable w'))
    (fun _ w' => cache_step spec hs cache (durable w) (durable w')) w.
Proof using Hb Hm.
  intros Hl. unfold _replace_cache. apply wp_bind, wp_quiet; [apply quiet_sys | | intros; by apply cache_same].
  intros [] w1 <-. apply wp_bind. eapply wp_mono; [by apply atomic_write_all | | intros e w' [_ ?]; by apply cache_same].
  intros [] w2 H2. apply wp_bind, wp_lift; [intros metadata Hs | intros; by eapply cache_body].
  eapply wp_mono; [by apply atomic_write_all | | intros e w' [_ H]; rewrite H; by eapply cache_body].
  intros [] w3 H3. split; [done|]. exists metadata. split; [done|]. by rewrite H3, H2.
Qed.

(** Conditional headers come from a body that is whole. *)
Lemma conditional_headers_wp w :
  wp (_conditional_headers cache) (fun h w' => durable w' = durable w /\ asks cache (durable w) h.1 h.2)
    (fun _ w' => durable w' = durable w) w.
Proof using Hb Hm.
  unfold _conditional_headers.
  apply wp_bind, wp_catch, wp_bind. eapply wp_mono; [apply read_bytes_spec | |]; cbv beta.
  2:{ intros e w1 [_ H1]. destruct (is_oserror e); [|done]. by apply wp_ret, wp_ret. }
  intros body w1 [H1 Hbody]. rewrite <-durable_lookup in Hbody by done. apply wp_ret, wp_bind.
  eapply wp_mono; [by apply (read_validators_runs 0) | | intros e w2 [_ H2]; congruence]. cbv beta. intros [v|] w2 [H2 Hv].
  - apply wp_ret. split; [congruence|]. destruct (Hv v eq_refl) as (m & Hl & Hp). exists v. cbn [fst snd].
    unfold cached, conditional_request. rewrite !header_spec, Hbody. simpl. by rewrite <-H1, Hl.
  - apply wp_ret. by split; [congruence|].
Qed.

Lemma answered_wp spec hs conditional u n w :
  0 <= body_limit spec -> asks cache (durable w) hs conditional ->
  (n <= redirect_limit spec)%nat -> confined spec u ->
  wp (answered _HOME urljoin oserror_text spec cache conditional u (open n u hs))
    (fun r w' => match r with
                 | inl r => fetched spec hs cache (durable w) r (durable w')
                 | inr _ => durable w' = durable w
                 end)
    (fun _ w' => cache_step spec hs cache (durable w) (durable w')) w.
Proof using Hb Hm.
  intros Hl Hc Hn Hu. assert (answers_with spec hs (open n u hs)) as Ha by (by exists n, u).
  assert (not_modified spec hs -> fetched spec hs cache (durable w) (_not_modified_result conditional) (durable w)) as Hnot.
  { intros H. unfold _not_modified_result. destruct conditional; [by split | by apply cache_same]. }
  destruct (open n u hs) as [status get stream|code get|reason|text|e]; cbn [answered].
  - match goal with |- context [if status =? 304 then ?x else ?y] => set (refused := if status =? 304 then x else y) end.
    assert (forall Q, (forall r w', fetched spec hs cache (durable w) r (durable w') -> Q (inl r) w') ->
              wp refused Q (fun _ w' => cache_step spec hs cache (durable w) (durable w')) w) as Hr.
    { intros Q HQ. unfold refused. destruct (Z.eqb_spec status 304) as [->|]; [apply wp_ret, HQ, Hnot; left; by eexists _, _|].
      destruct (Z.eqb_spec status 200) as [->|]; [|by apply wp_ret, HQ, cache_same]. cbn [negb].
      apply wp_bind, wp_lift; [|intros; by apply cache_same]. intros [body|] Hbody; [|by apply wp_ret, HQ, cache_same].
      assert (delivered spec hs body (get (lit "ETag")) (get (lit "Last-Modified"))) as Hd.
      { apply read_body_whole in Hbody as [? ?]; [|done]. by exists get, stream. }
      apply wp_catch, wp_bind. eapply wp_mono; [by apply replace_cache_wp | |]; cbv beta.
      - intros _ w' H. by apply wp_ret, HQ.
      - intros e w' H. destruct (is_oserror e); [by apply wp_ret, HQ | done]. }
    destruct (get (lit "Location")) as [location|]; [|by apply Hr]. destruct (_ && _); [|by apply Hr].
    apply wp_bind, wp_lift; [|intros; by apply cache_same]. intros next _. by apply wp_ret.
  - destruct (Z.eqb_spec code 304) as [->|]; [apply wp_ret, Hnot; right; by eexists|].
    destruct (get (lit "Location")) as [location|]; [|by apply wp_ret, cache_same].
    destruct (_ && _); [|by apply wp_ret, cache_same].
    apply wp_bind, wp_lift; [|intros; by apply cache_same]. intros next _. by apply wp_ret.
  - apply wp_ret. destruct reason; by apply cache_same.
  - by apply wp_ret, cache_same.
  - apply wp_lift; [done|]. intros; by apply cache_same.
Qed.

Lemma requests_wp spec hs conditional tries n u w :
  0 <= body_limit spec -> (n + tries <= redirect_limit spec + 1)%nat -> asks cache (durable w) hs conditional ->
  wp (requests _HOME urljoin oserror_text open spec cache hs conditional tries n u)
    (fun r w' => fetched spec hs cache (durable w) r (durable w'))
    (fun _ w' => cache_step spec hs cache (durable w) (durable w')) w.
Proof using Hb Hm.
  intros Hl. revert n u w. induction tries as [|tries IH]; intros n u w Hn Hc; cbn [requests]; [by apply wp_ret, cache_same|].
  apply wp_bind, wp_lift; [|intros; by apply cache_same]. intros [] Hv; cbn [negb]; [|by apply wp_ret, cache_same].
  apply wp_bind. eapply wp_mono; [apply answered_wp; [done..|lia|by apply valid_url_confined] | | done]. cbv beta.
  intros [r|next] w' Hw; [by apply wp_ret|]. rewrite <-Hw in Hc |- *. apply IH; [lia | done].
Qed.

(** With no call failing, a whole cache makes the request conditional. *)
Lemma conditional_headers_fine v w :
  (forall i, w_faults w i = Fine) -> cached cache (durable w) = Some v ->
  exists w', _conditional_headers cache w = (w', Ok (conditional_request v, true)).
Proof using Hb Hm.
  unfold cached. rewrite !durable_lookup by done. intros Hf H.
  destruct (w_files w !! body_path cache) as [body|] eqn:E1; [|done].
  destruct (w_files w !! metadata_path cache) as [metadata|] eqn:E2; [|done]. cbn in H.
  unfold _conditional_headers, read_cache_validators, catch, mbind, M_bind, read_bytes, sys_, sys, ret.
  cbn. rewrite !Hf. cbn. rewrite E1. cbn. rewrite !Hf. cbn. rewrite !Hf. cbn. unfold id. rewrite E2.
  assert (len metadata <= _MAX_METADATA_BYTES) as Hl.
  { unfold parse_cache_metadata in H. destruct (Z.ltb_spec _MAX_METADATA_BYTES (len metadata)); [done | lia]. }
  rewrite take_ge, H by (unfold len in Hl; lia). eexists. unfold conditional_request. by rewrite !header_spec.
Qed.

Lemma fetch_wp name w :
  exists hs conditional, asks cache (durable w) hs conditional
    /\ ((forall i, w_faults w i = Fine) -> is_Some (cached cache (durable w)) -> conditional = true)
    /\ (forall open', (forall n u, open' n u hs = open n u hs) ->
          fetch_endpoint _HOME urljoin oserror_text open' name cache w = fetch_endpoint_ name cache w)
    /\ wp (fetch_endpoint_ name cache) (fun r w' => fetched (ENDPOINT_SPECS name) hs cache (durable w) r (durable w'))
         (fun _ w' => cache_step (ENDPOINT_SPECS name) hs cache (durable w) (durable w')) w.
Proof using Hb Hm.
  pose proof (conditional_headers_wp w) as H. unfold fetch_endpoint. destruct (_conditional_headers cache w) as [w1 [[hs conditional]|e]] eqn:E.
  - destruct (wp_result _ _ _ _ _ _ H E) as (Hs & H1 & Ha). cbn [fst snd] in Ha. exists hs, conditional.
    split; [done|]. split.
    { intros Hf [v Hv]. destruct (conditional_headers_fine v w Hf Hv) as (w' & E'). rewrite E in E'. by injection E' as _ _ ->. }
    split.
    { intros open' Ho. unfold mbind, M_bind. rewrite E. apply requests_agree. intros. apply Ho. }
    apply wp_bind. unfold wp at 1. rewrite E. split; [done|]. rewrite <-H1 in Ha |- *.
    apply requests_wp; [by destruct name | lia | done].
  - destruct (wp_error _ _ _ _ _ _ H E) as [Hs H1]. exists [user_agent], false. split; [done|]. split.
    { intros Hf [v Hv]. destruct (conditional_headers_fine v w Hf Hv) as (w' & E'). by rewrite E in E'. }
    split.
    { intros open' _. unfold mbind, M_bind. by rewrite E. }
    apply wp_bind. unfold wp at 1. rewrite E. split; [done|]. by apply cache_same.
Qed.
End Cache.
End Confined.

Section Results.
Context `{Tables : UnicodeTables} `{Url : UrlTables} (_HOME : str).
Context (urljoin : str -> str -> res str) (oserror_text : str) (open : nat -> str -> headers -> https_answer).

Lemma transport_lasting feed :
  lasting (body_path (transport_endpoint_cache feed)) = true /\ lasting (metadata_path (transport_endpoint_cache feed)) = true.
Proof. by destruct feed. Qed.

(** C9. Every request of a fetch has the same headers: the plain ones, or those with all the
    validators of the transport cache, and the latter only when the cache holds a whole body
    with validators of its own (and always then, when reading it does not fail). What the
    fetch leaves in the cache, whenever a system call fails or the process is killed:
    nothing else changes on disk; the body is the old one or the whole body, within the
    limit, of an answer 200 that an allowed address gave to those headers; its metadata is
    written after it, from the headers of the same answer. A download is reported when both
    are in place, and that nothing was modified when an allowed address answered 304 to the
    conditional headers; then no file has changed. *)
Theorem fetch_keeps_cache name feed w :
  let cache := transport_endpoint_cache feed in
  let spec := ENDPOINT_SPECS name in
  let fetch open := fetch_endpoint _HOME urljoin oserror_text open name cache w in
  exists hs conditional,
    asks cache (durable w) hs conditional
    /\ ((forall i, w_faults w i = Fine) -> is_Some (cached cache (durable w)) -> conditional = true)
    /\ (forall open', (forall n u, open' n u hs = open n u hs) -> fetch open' = fetch open)
    /\ let '(w', r) := fetch open in
       match r with
       | Ok r => fetched open spec hs cache (durable w) r (durable w')
       | Err _ => cache_step open spec hs cache (durable w) (durable w')
       end.
Proof.
  intros cache spec fetch. destruct (transport_lasting feed) as [Hb Hm].
  destruct (fetch_wp _HOME urljoin oserror_text open cache Hb Hm name w) as (hs & conditional & Ha & Hf & Ho & H).
  exists hs, conditional. split; [done|]. split; [done|]. split; [done|]. unfold wp in H. subst fetch. cbv beta.
  by destruct (fetch_endpoint _ _ _ _ _ _ _) as [w' [r|e]]; destruct H.
Qed.

(** What the handlers do not cover: an exception while the body is read, and a redirect to
    what is no address. *)
Lemma stalled_body_escapes spec cache hs conditional tries n u w e :
  0 <= body_limit spec -> _valid_url u spec = Ok true ->
  open n u hs = HttpsResponse 200 (fun _ => None) [Broken e] ->
  requests _HOME urljoin oserror_text open spec cache hs conditional (S tries) n u w = (w, Err e).
Proof.
  intros Hl Hv Ho. cbn [requests]. unfold mbind, M_bind, lift. rewrite Hv, Ho. cbn [negb]. unfold answered.
  unfold mbind, M_bind, lift, _read_body. rewrite read_rounds_spec by (done || simpl; lia). cbn [readable].
  destruct (Z.ltb_spec (body_limit spec) (len (A:=N) [])); [unfold len in *; simpl in *; lia | done].
Qed.

Lemma bad_redirect_escapes spec cache hs conditional tries n u location w e :
  _valid_url u spec = Ok true -> open n u hs = HTTPError 302 (fun _ => Some location) -> urljoin u location = Err e ->
  requests _HOME urljoin oserror_text open spec cache hs conditional (S tries) n u w = (w, Err e).
Proof.
  intros Hv Ho Hu. cbn [requests]. unfold mbind, M_bind, lift. rewrite Hv, Ho. cbn [negb answered]. cbn.
  unfold mbind, M_bind, lift. by rewrite Hu.
Qed.
End Results.

(** ** Witness: a redirect to another host is not followed, whatever is there *)

#[export] Instance ascii_urls : UrlTables := {| bracketed_host := fun _ => false; nfkc := id |}.

(** The absolute addresses only. *)
Definition absolute_join (_ location : str) : res str := _ ← urlsplit location; Ok location.

Definition redirecting (elsewhere : https_answer) : nat -> str -> headers -> https_answer := fun _ u _ =>
  match urlsplit u with
  | Ok p =>
      if bool_decide (hostname p = Some (lit "example.org")) then elsewhere
      else HTTPError 302 (fun _ => Some (lit "https://example.org/all.json"))
  | Err _ => elsewhere
  end.

Lemma fetch_confined_witness :
  (fetch_endpoint (lit "/root") absolute_join [] (redirecting (HttpsResponse 200 (fun _ => None) [Chunk (lit "[]")]))
     ENDPOINT_ARCH_SECURITY (transport_endpoint_cache FEED_ARCH_SECURITY) sample_world).2
  = Ok (EndpointRejected (lit "https://example.org/all.json")).
Proof.
  rewrite (fetch_confined (lit "/root") absolute_join [] _ (redirecting (OpenTimedOut [])) ENDPOINT_ARCH_SECURITY
    (transport_endpoint_cache FEED_ARCH_SECURITY) sample_world).
  - vm_compute. reflexivity.
  - intros n u hs _ (p & b & tail & h & Hp & _ & _ & _ & Hh & Hin & _). unfold redirecting. rewrite Hp, Hh.
    rewrite bool_decide_false; [reflexivity|]. intros [= ->]. revert Hin. apply (bool_decide_unpack _). vm_compute. exact I.
Defined.

(** ** Witness: a body that is cached and current is not sent again *)

Definition revalidating : nat -> str -> headers -> https_answer := fun _ _ hs =>
  if bool_decide ((lit "If-None-Match", lit "v1") ∈ hs) then HttpsResponse 304 (fun _ => None) []
  else HttpsResponse 200 (fun _ => Some (lit "v2")) [Chunk (lit "[]")].

Lemma fetch_keeps_cache_witness :
  let fetch := fetch_endpoint (lit "/root") absolute_join [] revalidating ENDPOINT_CISA_KEV
                 (transport_endpoint_cache FEED_CISA_KEV) in
  (exists w', fetch feed_world = (w', Ok EndpointNotModified) /\ durable w' = durable feed_world)
  /\ exists w', fetch sample_world = (w', Ok (EndpointDownloaded (lit "[]") (Some (lit "v2")) (Some (lit "v2"))))
     /\ durable w' !! body_path (transport_endpoint_cache FEED_CISA_KEV) = Some (lit "[]").
Proof.
  intros fetch. split.
  - destruct (fetch_keeps_cache (lit "/root") absolute_join [] revalidating ENDPOINT_CISA_KEV FEED_CISA_KEV feed_world)
      as (hs & conditional & _ & _ & _ & H).
    assert ((fetch feed_world).2 = Ok EndpointNotModified) as E by (vm_compute; reflexivity).
    subst fetch. cbv zeta beta in H, E. destruct (fetch_endpoint _ _ _ _ _ _ feed_world) as [w' r]. cbn [snd] in E. subst r.
    exists w'. split; [reflexivity|]. exact (proj1 H).
  - destruct (fetch_keeps_cache (lit "/root") absolute_join [] revalidating ENDPOINT_CISA_KEV FEED_CISA_KEV sample_world)
      as (hs & conditional & _ & _ & _ & H).
    assert ((fetch sample_world).2 = Ok (EndpointDownloaded (lit "[]") (Some (lit "v2")) (Some (lit "v2")))) as E
      by (vm_compute; reflexivity).
    subst fetch. cbv zeta beta in H, E. destruct (fetch_endpoint _ _ _ _ _ _ sample_world) as [w' r]. cbn [snd] in E. subst r.
    exists w'. split; [reflexivity|]. destruct H as (_ & metadata & _ & ->). reflexivity.
Defined.
