(* ===== verification/Security.v ===== *)
(** * The security adapter

    [security.py]: the advisories of arch-audit, or those of the Arch Security Tracker, are
    correlated with the official inventory and enriched with the CISA catalogue. What was
    downloaded is kept as the last good feed; what was not modified is read back from it.
    The fetcher, which owns a transport cache, is an argument. *)

From S2P Require Import Prelude PyStr Regex Calendar Models Samples Json JsonText Utf8 Validation StorageWatches StorageState.
From S2P Require Import RunnerTypes Arch ScanOutcomes ScanNormalize SecurityFeeds SecurityKev SecurityCorrelation StorageIO Storage StorageSpec.
From S2P Require Import DiskStore CacheSpec Scan.

Open Scope Z_scope.

Section Security.
Context `{Iso : IsoDialect} `{Offsets : IsoOffsets} `{Tables : UnicodeTables} (stack : nat).
Context (run : CommandRunner) (fetch : EndpointName -> M EndpointResult) (store : bool).

(** [_CurrentArch] *)
Abbreviation current_arch := (list ArchAdvisory * Provenance)%type.

(** Whether a body is a feed. Where the parser would raise, the storage has raised before:
    it decodes what it read first, and writes only what was parsed. *)
Definition _is_tracker (body : bytes) : bool :=
  match parse_tracker stack body with Ok (Ok _) => true | _ => false end.
Definition _is_kev (body : bytes) : bool :=
  match parse_kev stack body LIVE with Ok (Ok _) => true | _ => false end.

(** [_CurrentArch(parsed, provenance)], or the refusal. *)
Definition current_of (provenance : Provenance) (parsed : feed (list ArchAdvisory)) : feed current_arch :=
  match parsed with Ok l => Ok (l, provenance) | Err diagnostic => Err diagnostic end.

Definition _primary : res (feed current_arch) :=
  match run ARCH_AUDIT [] with
  | CommandSucceeded stdout _ => parsed ← parse_arch_audit stack stdout; Ok (current_of LIVE parsed)
  | _ => Ok (refused "arch-audit is unavailable")
  end.

Definition _fallback : M (feed current_arch) :=
  result ← fetch ENDPOINT_ARCH_SECURITY;
  match result with
  | EndpointDownloaded body _ _ =>
      parsed ← lift (parse_tracker stack body);
      match parsed with
      | Err diagnostic => ret (Err diagnostic)
      | Ok advisories =>
          _ ← (if store then (_ ← write_last_good_feed FEED_ARCH_SECURITY body _is_tracker; ret tt) else ret tt);
          ret (Ok (advisories, FALLBACK))
      end
  | EndpointNotModified =>
      if negb store then ret (refused "Arch Security Tracker has no semantic cache")
      else
        cached ← read_confirmed_feed stack FEED_ARCH_SECURITY _is_tracker;
        match cached with
        | None => ret (refused "Arch Security Tracker has no semantic cache")
        | Some cached =>
            parsed ← lift (parse_tracker stack cached);
            ret (current_of CACHE parsed)
        end
  | _ => ret (refused "Arch Security Tracker is unavailable")
  end.

Definition kev_result (parsed : feed (gset str * Provenance)) : KevResult :=
  match parsed with
  | Ok (cves, provenance) => KevCatalog cves provenance
  | Err _ => KevUnavailable (lit "CISA KEV evidence is invalid")
  end.

Definition _kev : M KevResult :=
  result ← fetch ENDPOINT_CISA_KEV;
  match result with
  | EndpointDownloaded body _ _ =>
      parsed ← lift (parse_kev stack body LIVE);
      match parsed with
      | Ok _ => _ ← (if store then (_ ← write_last_good_feed FEED_CISA_KEV body _is_kev; ret tt) else ret tt);
                ret (kev_result parsed)
      | Err _ => ret (kev_result parsed)
      end
  | EndpointNotModified =>
      if negb store then ret (KevUnavailable (lit "CISA KEV has no semantic cache"))
      else
        cached ← read_confirmed_feed stack FEED_CISA_KEV _is_kev;
        match cached with
        | None => ret (KevUnavailable (lit "CISA KEV has no semantic cache"))
        | Some cached => parsed ← lift (parse_kev stack cached CACHE); ret (kev_result parsed)
        end
  | _ => ret (KevUnavailable (lit "CISA KEV is unavailable"))
  end.

Definition collect_security (enable_cisa_kev : bool) : M SecurityResult :=
  match collect_official_inventory run with
  | Err d => ret (SecurityArchUnavailable (degraded_detail d))
  | Ok inventory =>
      primary ← lift _primary;
      current ← match primary with
                | Ok current => ret (Ok current)
                | Err _ => _fallback
                end;
      match current with
      | Err diagnostic => ret (SecurityArchUnavailable diagnostic)
      | Ok (advisories, provenance) =>
          match correlate_arch run provenance (Ok advisories) inventory with
          | Err f => ret (SecurityArchUnavailable (cf_diagnostic f))
          | Ok groups =>
              kev ← (if enable_cisa_kev then _kev else ret KevDisabled);
              ret (SecurityCollected (enrich_kev groups kev) provenance kev)
          end
      end
  end.

(** ** What is collected rests on evidence *)

Abbreviation kept := (kept stack).
Abbreviation collects := (collects stack).
#[local] Existing Instance kept_change.

Context (Hfetch : forall name, changes stack anyhow kept (fetch name)).

Lemma collects_changes {A} (m : M A) : changes stack anyhow kept m -> collects m (fun _ => True).
Proof. intros Hm w Hw. eapply runs_mono; [by apply Hm | | done]. by intros a f. Qed.

(** The bytes of a feed, asked for in [w]: those that were downloaded then; or, when the
    answer was that nothing was modified, those that are stored, valid and confirmed. *)
Definition downloaded (name : EndpointName) (w : world) (raw : bytes) : Prop :=
  exists w1 et lm, fetch name w = (w1, Ok (EndpointDownloaded raw et lm)).

Definition still_stored (name : EndpointName) (feed_name : FeedName) (validator : bytes -> bool) (w : world) (raw : bytes) : Prop :=
  store = true /\ exists w1, fetch name w = (w1, Ok EndpointNotModified)
    /\ durable w1 !! semantic_feed_path feed_name = Some raw /\ is_feed stack validator raw = true
    /\ confirmed (durable w1) feed_name raw.

(** Arch-audit gave advisories. *)
Definition audited (advisories : list ArchAdvisory) : Prop :=
  exists out err, run ARCH_AUDIT [] = CommandSucceeded out err /\ parse_arch_audit stack out = Ok (Ok advisories).

(** Where the advisories of a scan that began in [w] are from: live ones from arch-audit;
    only without those, the ones of the Tracker, just downloaded or still stored. *)
Definition evidence (w : world) (c : feed current_arch) : Prop :=
  match c with
  | Ok (advisories, provenance) =>
      valid_feed advisories
      /\ match provenance with
         | LIVE => audited advisories
         | FALLBACK => ~ (exists l, audited l) /\ exists raw, downloaded ENDPOINT_ARCH_SECURITY w raw
                         /\ parse_tracker stack raw = Ok (Ok advisories)
         | CACHE => ~ (exists l, audited l)
                    /\ exists raw, still_stored ENDPOINT_ARCH_SECURITY FEED_ARCH_SECURITY _is_tracker w raw
                         /\ parse_tracker stack raw = Ok (Ok advisories)
         | LAST_GOOD => False
         end
  | Err _ => True
  end.

(** The catalogue, likewise, if it was asked for. *)
Definition kev_evidence (enabled : bool) (w : world) (kev : KevResult) : Prop :=
  match kev with
  | KevDisabled => enabled = false
  | KevUnavailable _ => enabled = true
  | KevCatalog cves provenance =>
      enabled = true
      /\ exists raw, parse_kev stack raw provenance = Ok (Ok (cves, provenance))
           /\ match provenance with
              | LIVE => downloaded ENDPOINT_CISA_KEV w raw
              | CACHE => still_stored ENDPOINT_CISA_KEV FEED_CISA_KEV _is_kev w raw
              | _ => False
              end
  end.

Lemma parse_kev_provenance raw p cves q : parse_kev stack raw p = Ok (Ok (cves, q)) -> q = p.
Proof.
  unfold parse_kev, decoded. destruct (Utf8.decode raw) as [text|]; [|done]. destruct (decode_json stack text) as [v|[]]; try done.
  intros [= H]. unfold kev_catalog in H. destruct v as [| | | | | |d]; try done. destruct (negb _); [done|].
  destruct (negb _ || _); [done|]. destruct (at_ d "count"), (at_ d "vulnerabilities"); try done. destruct (negb _ || _); [done|].
  apply bind_Ok in H as (x & _ & H). by injection H.
Qed.

Lemma collects_write feed_name body validator :
  collects (if store then (_ ← write_last_good_feed feed_name body validator; ret tt) else ret tt) (fun _ => True).
Proof.
  apply collects_changes. destruct store; [|by apply (changes_ret _ _ _)].
  apply (changes_bind _ _ _); [by apply (changes_feeds stack _ kept) | intros; by apply (changes_ret _ _ _)].
Qed.

(** A computation that asks for a feed first, and what it may count on then. *)
Lemma asked_feed {A} name (k : EndpointResult -> M A) (P : A -> Prop) w :
  sound stack (durable w) ->
  (forall r, (forall raw et lm, r = EndpointDownloaded raw et lm -> downloaded name w raw) ->
             r <> EndpointNotModified -> collects (k r) P) ->
  (forall w1, fetch name w = (w1, Ok EndpointNotModified) -> sound stack (durable w1) ->
     runs (k EndpointNotModified) (fun a f => kept (durable w1) f /\ P a) (kept (durable w1)) w1) ->
  runs (fetch name ≫= k) (fun a f => kept (durable w) f /\ P a) (kept (durable w)) w.
Proof using Hfetch.
  intros Hw Hr Hn. apply runs_bind. eapply wp_mono; [apply wp_here, Hfetch; done | | by intros e w1 (_ & _ & ?)].
  cbv beta. intros r w1 (E & _ & Hk).
  assert (runs (k r) (fun a f => kept (durable w1) f /\ P a) (kept (durable w1)) w1) as H.
  { assert (r = EndpointNotModified \/ r <> EndpointNotModified) as [->|Hne] by (destruct r; auto); [by apply Hn; [|apply Hk]|].
    apply Hr; [|done | apply Hk]. intros raw et lm ->. by exists w1, et, lm. }
  eapply runs_mono; [exact H | |]; cbv beta; [intros a f [? ?]; split; [|done] | intros f ?]; by eapply kept_trans.
Qed.

(** The stored feed is read, and what is made of it. *)
Lemma stored_feed {A} feed_name validator (k : option bytes -> M A) (P : A -> Prop) w :
  sound stack (durable w) ->
  collects (k None) P ->
  (forall raw, durable w !! semantic_feed_path feed_name = Some raw -> is_feed stack validator raw = true ->
               confirmed (durable w) feed_name raw -> collects (k (Some raw)) P) ->
  runs (read_confirmed_feed stack feed_name validator ≫= k) (fun a f => kept (durable w) f /\ P a) (kept (durable w)) w.
Proof.
  intros Hw Hnone Hsome. apply runs_bind. eapply wp_mono.
  { apply wp_here, (proj2 (proj2 (changes_feeds stack anyhow kept feed_name [] validator))); [done | exact Hw]. }
  2:{ by intros e w1 (_ & _ & ?). }
  cbv beta. intros r w1 (E & _ & Hk).
  assert (collects (k r) P) as H.
  { destruct r as [raw|]; [|done]. destruct (confirmed_feed_sound _ _ _ _ _ _ E) as (? & ? & ? & _). by apply Hsome. }
  eapply runs_mono; [apply H, Hk | |]; cbv beta; [intros a f [? ?]; split; [|done] | intros f ?]; by eapply kept_trans.
Qed.

Lemma fallback_evidence w :
  sound stack (durable w) -> ~ (exists l, audited l) ->
  runs _fallback (fun c f => kept (durable w) f /\ evidence w c) (kept (durable w)) w.
Proof using Hfetch.
  intros Hw Hna. unfold _fallback. apply asked_feed; [done | |].
  - intros [| | | | | |] Hd Hn; try (by apply collects_ret); try done.
    eapply collects_bind; [apply collects_lift; intros p Hp; exact Hp|]. cbv beta. intros [l|d] Hp; [|by apply collects_ret].
    eapply collects_bind; [apply collects_write|]. intros _ _. apply collects_ret.
    split; [by eapply parse_tracker_valid|]. split; [done|]. eexists. split; [by eapply Hd | done].
  - intros w1 E Hw1. destruct store eqn:Es; cbn [negb]; [|by apply (collects_ret _ _ _ I)].
    apply (stored_feed FEED_ARCH_SECURITY _is_tracker); [done | by apply collects_ret |]. intros raw H1 H2 H3.
    eapply collects_bind; [apply collects_lift; intros p Hp; exact Hp|]. cbv beta. intros [l|d] Hp; apply collects_ret; [|done].
    split; [by eapply parse_tracker_valid|]. split; [done|]. exists raw. split; [|done]. split; [done|]. by exists w1.
Qed.

Lemma primary_evidence w c :
  _primary = Ok c -> evidence w c /\ forall d, c = Err d -> ~ exists l, audited l.
Proof.
  unfold _primary, audited. destruct (run ARCH_AUDIT []) as [out err| | | | |] eqn:Er;
    try (intros <-%Ok_inj; split; [done|]; by intros d _ (l & ? & ? & ? & _)).
  intros ([l|d] & Hp & <-%Ok_inj)%bind_Ok; cbn [current_of].
  - split; [|by intros d [=]]. split; [by eapply parse_arch_audit_valid|]. by exists out, err.
  - split; [done|]. intros d' _ (l & ? & ? & [= <- <-] & Hl). congruence.
Qed.

Lemma kev_collected w :
  sound stack (durable w) -> runs _kev (fun kev f => kept (durable w) f /\ kev_evidence true w kev) (kept (durable w)) w.
Proof using Hfetch.
  intros Hw. unfold _kev. apply asked_feed; [done | |].
  - intros [| | | | | |] Hd Hn; try (by apply collects_ret); try done.
    eapply collects_bind; [apply collects_lift; intros p Hp; exact Hp|]. cbv beta. intros [[cves p]|d] Hp; [|by apply collects_ret].
    eapply collects_bind; [apply collects_write|]. intros _ _. apply collects_ret.
    pose proof (parse_kev_provenance _ _ _ _ Hp) as ->. split; [done|]. eexists. split; [exact Hp | by eapply Hd].
  - intros w1 E Hw1. destruct store eqn:Es; cbn [negb]; [|by apply (collects_ret _ _ _ eq_refl)].
    apply (stored_feed FEED_CISA_KEV _is_kev); [done | by apply collects_ret |]. intros raw H1 H2 H3.
    eapply collects_bind; [apply collects_lift; intros p Hp; exact Hp|]. cbv beta. intros [[cves p]|d] Hp; apply collects_ret; [|done].
    pose proof (parse_kev_provenance _ _ _ _ Hp) as ->. split; [done|]. exists raw. split; [done|]. split; [done|]. by exists w1.
Qed.

(** A success is an inventory and a feed, correlated, with the catalogue's word. The
    advisories were asked for where the collection began, the catalogue later. *)
Definition grounded (enabled : bool) (w : world) (r : SecurityResult) : Prop :=
  match r with
  | SecurityCollected groups provenance kev =>
      exists inventory advisories found later,
        collect_official_inventory run = Ok inventory /\ evidence w (Ok (advisories, provenance))
        /\ kept (durable w) (durable later) /\ kev_evidence enabled later kev
        /\ correlate_arch run provenance (Ok advisories) inventory = Ok found /\ groups = enrich_kev found kev
  | SecurityArchUnavailable _ => True
  end.

Lemma collect_security_grounded enabled w :
  sound stack (durable w) ->
  runs (collect_security enabled) (fun r f => kept (durable w) f /\ grounded enabled w r) (kept (durable w)) w.
Proof using Hfetch.
  intros Hw. unfold collect_security. destruct (collect_official_inventory run) as [inventory|d] eqn:Ei;
    [|by apply (collects_ret stack _ (grounded enabled w))].
  apply runs_bind_lift; [|by apply (change_same stack kept)]. intros primary Hp. destruct (primary_evidence w _ Hp) as [He Hn].
  assert (runs (match primary with Ok current => ret (Ok current) | Err _ => _fallback end)
            (fun c f => kept (durable w) f /\ evidence w c) (kept (durable w)) w) as Hcur.
  { destruct primary as [current|d]; [by apply (collects_ret stack _ (evidence w)) | by eapply fallback_evidence, Hn]. }
  apply runs_bind. eapply wp_mono; [exact Hcur | | done]. cbv beta. intros current w1 [Hk1 He1].
  assert (forall r, grounded enabled w r -> runs (ret r) (fun r f => kept (durable w) f /\ grounded enabled w r) (kept (durable w)) w1) as Hret.
  { intros r Hr. by apply runs_ret. }
  destruct current as [[advisories provenance]|d]; [|by apply Hret].
  destruct (correlate_arch _ _ _ _) as [groups|f] eqn:Ec; [|by apply Hret].
  assert (runs (if enabled then _kev else ret KevDisabled)
            (fun kev f => kept (durable w1) f /\ kev_evidence enabled w1 kev) (kept (durable w1)) w1) as Hkev.
  { destruct enabled; [apply kev_collected | apply (collects_ret stack _ (kev_evidence false w1)); [done|]]; apply Hk1. }
  apply runs_bind. eapply wp_mono; [exact Hkev | |]; cbv beta; [|intros e w2 ?; by eapply kept_trans].
  intros kev w2 [Hk2 Hev]. apply runs_ret. split; [by eapply kept_trans|]. by exists inventory, advisories, groups, w1.
Qed.

Lemma grounded_good enabled w r :
  (forall inventory, collect_official_inventory run = Ok inventory -> short_versions inventory) ->
  grounded enabled w r -> good_security r.
Proof.
  intros Hs. destruct r as [groups p kev|d]; [|done]. intros (inventory & advisories & found & later & Hi & [Hf _] & _ & _ & Hc & ->).
  apply enriched_groups. eapply correlated_groups; eauto.
Qed.

(** C25. Unavailable evidence never becomes an empty success. When security findings are
    collected, the official inventory was read, and the advisories were read whole and
    found valid: those arch-audit printed; or, only when it gave none, those of the Tracker,
    in the body the fetcher downloaded in this collection, or, if it answered that nothing
    was modified, in the stored feed, valid and confirmed by its last transfer. The
    catalogue, if asked for, is likewise the one downloaded or still stored, and otherwise
    it is said to be unavailable. The findings are those of the inventory and the
    advisories, with the catalogue's word on each; and they can be published, if no version
    in the inventory has more than 128 characters. *)
Theorem security_grounded enabled w :
  sound stack (durable w) ->
  let '(w', r) := collect_security enabled w in
  kept (durable w) (durable w')
  /\ forall result, r = Ok result ->
       grounded enabled w result
       /\ ((forall inventory, collect_official_inventory run = Ok inventory -> short_versions inventory) ->
           good_security result).
Proof using Hfetch.
  intros Hw. pose proof (collect_security_grounded enabled w Hw) as H. unfold runs, wp in H.
  destruct (collect_security enabled w) as [w' [r|e]]; destruct H as [_ H]; [|by split; [|intros ? [=]]].
  destruct H as [Hk Hg]. split; [done|]. intros result <-%Ok_inj. split; [done|]. intros Hs. by eapply grounded_good.
Qed.
End Security.

(** ** A fixed vulnerability of an installed package, from the Tracker *)

#[local] Instance no_offsets : IsoOffsets := fun _ => false.

Definition text_of (v : json) : bytes := match dumps v with Ok t => t | Err _ => [] end.
Definition strings (l : list string) : json := JList (JStr <$> names l).
Definition string_fields (l : list (string * string)) : dict := (fun kv => (lit kv.1, JStr (lit kv.2))) <$> l.

Definition sample_tracker : bytes := text_of (JList [JObj (
  string_fields [("name", "AVG-2765"); ("status", "Fixed"); ("type", "denial of service"); ("severity", "High");
                 ("fixed", "6.9.2-1"); ("affected", "6.9.1-1")]%string
  ++ [(lit "packages", strings ["linux"; "linux-lts"]); (lit "issues", strings ["CVE-2022-0778"; "BUG-1"]);
      (lit "ticket", JNull); (lit "advisories", strings ["ASA-202201-1"])])]).

Definition sample_kev : bytes := text_of (JObj (
  string_fields [("catalogVersion", "2024.01.01"); ("dateReleased", "2024-01-01T00:00:00.000Z")]%string
  ++ [(lit "count", JInt 1);
      (lit "vulnerabilities", JList [JObj (string_fields
        [("cveID", "CVE-2022-0778"); ("vendorProject", "OpenSSL"); ("product", "OpenSSL"); ("vulnerabilityName", "Loop");
         ("dateAdded", "2024-01-01"); ("shortDescription", "A loop."); ("requiredAction", "Update."); ("dueDate", "2024-02-29")]%string)])])).

Definition sample_fetch (name : EndpointName) : M EndpointResult :=
  ret (EndpointDownloaded (match name with ENDPOINT_ARCH_SECURITY => sample_tracker | ENDPOINT_CISA_KEV => sample_kev end) None None).

Definition sample_commands : CommandRunner := fun name arguments =>
  match name with VERCMP => CommandSucceeded (lit "-1") [] | _ => sample_run name arguments end.

Definition sample_collected : world * res SecurityResult :=
  collect_security 101 sample_commands sample_fetch true true sample_world.

Lemma sample_security_found :
  (fun r => match r with
            | SecurityCollected groups p _ => Some (p, (fun g => (group_item_id g, (fun f => (finding_id f, kev_status f)) <$> group_findings g)) <$> groups)
            | SecurityArchUnavailable _ => None
            end) <$> sample_collected.2
  = Ok (Some (FALLBACK, [(lit "arch:linux", [(lit "AVG-2765", LISTED)])])).
Proof. vm_compute. reflexivity. Qed.

Lemma security_grounded_witness :
  match collect_security 101 sample_commands sample_fetch true true sample_world with
  | (_, Ok (SecurityCollected groups p kev)) =>
      p = FALLBACK /\ good_security (SecurityCollected groups p kev)
      /\ grounded (Iso:=fun _ => None) 101 sample_commands sample_fetch true true sample_world (SecurityCollected groups p kev)
  | _ => False
  end.
Proof.
  pose proof (security_grounded (Iso:=fun _ => None) 101 sample_commands sample_fetch true) as H.
  assert ((fun r => match r with SecurityCollected _ p _ => Some p | SecurityArchUnavailable _ => None end)
    <$> (collect_security 101 sample_commands sample_fetch true true sample_world).2 = Ok (Some FALLBACK)) as E
    by (vm_compute; reflexivity).
  assert (forall name, changes (Iso:=fun _ => None) 101 anyhow (kept (Iso:=fun _ => None) 101) (sample_fetch name)) as Hf.
  { intros name w _ Hw. apply runs_ret, (kept_view (Iso:=fun _ => None)); [exact Hw | split; reflexivity]. }
  specialize (H Hf true sample_world sample_sound).
  destruct (collect_security _ _ _ _ _ _) as [w' [[groups p kev|d]|e]]; [|discriminate E | discriminate E].
  injection E as ->. destruct H as [_ H]. destruct (H _ eq_refl) as [Hgr Hg].
  split; [reflexivity|]. split; [|exact Hgr]. apply Hg. intros inv Hinv.
  assert (inv = sample_inventory) as ->.
  { assert (collect_official_inventory sample_commands = Ok sample_inventory) as E by (vm_compute; reflexivity).
    rewrite E in Hinv. injection Hinv as <-. reflexivity. }
  repeat (apply List.Forall_cons; [vm_compute; split; congruence|]). apply List.Forall_nil.
Defined.
