(* ===== verification/Collector.v ===== *)
(** * The collector of a scan

    [RuntimeScanCollector] of [scan_types.py]: every adapter over the one command runner,
    the security feeds over the one fetcher with the transport caches of the storage. It
    implements what a scan relies on. *)

From S2P Require Import Prelude PyStr Regex Calendar Models Samples Json JsonText Utf8 Validation StorageWatches StorageState RunnerTypes.
From S2P Require Import Redaction Arch Aur ScanOutcomes ScanResolution ScanNormalize SecurityFeeds SecurityKev SecurityCorrelation.
From S2P Require Import ScanAssembly ScanGeneration Generation.
From S2P Require Import Mise Flatpak Omarchy Urls Registry CacheMetadata StorageIO Storage StorageSpec DiskStore CacheSpec Fetch Scan Security.

Open Scope Z_scope.

Section Collector.
Context `{Iso : IsoDialect} `{Offsets : IsoOffsets} `{Tables : UnicodeTables} `{Url : UrlTables} (stack : nat).
Context (_HOME : str) (urljoin : str -> str -> res str) (oserror_text : str).
Context (open : EndpointName -> nat -> str -> headers -> https_answer) (run : CommandRunner).

Definition _fetch (name : EndpointName) : M EndpointResult :=
  fetch_endpoint _HOME urljoin oserror_text (open name) name
    (transport_endpoint_cache match name with
                              | ENDPOINT_ARCH_SECURITY => FEED_ARCH_SECURITY
                              | ENDPOINT_CISA_KEV => FEED_CISA_KEV
                              end).

Definition RuntimeScanCollector : ScanCollector := {|
  collect_omarchy := lift (collect_omarchy_availability _HOME run);
  collect_arch := ret (collect_official_updates run);
  collect_aur := ret (collect_aur_updates run);
  Scan.collect_flatpak := ret (Flatpak.collect_flatpak (fun name => run name []));
  collect_mise := lift (collect_mise_updates stack run);
  Scan.collect_security enable_cisa_kev := Security.collect_security stack run _fetch true enable_cisa_kev;
|}.

(** ** The fetcher leaves the state and the generation alone *)

Lemma fetched_step answers spec hs cache f r f' :
  fetched answers spec hs cache f r f' -> cache_step answers spec hs cache f f'.
Proof.
  destruct r; cbn [fetched]; try done.
  - intros (Hl & metadata & Hs & ->). by eapply cache_both.
  - intros [-> _]. by apply cache_same.
Qed.

Lemma cache_step_view answers spec hs feed f f' :
  cache_step answers spec hs (transport_endpoint_cache feed) f f' -> view_eq stack f f'.
Proof.
  assert (beside (body_path (transport_endpoint_cache feed)) /\ beside (metadata_path (transport_endpoint_cache feed))) as [Hb Hm]
    by (by destruct feed).
  assert (forall l b g, beside l -> view_eq stack g (<[l := b]> g)) as Hi.
  { intros l b g Hl. apply (beside_view stack l); [done|]. intros k Hk. by rewrite lookup_insert_ne. }
  intros [->|body ? ? _ ->|body et lm metadata _ _ ->]; [by split | by apply Hi|].
  destruct (Hi _ body f Hb) as [E1 E2], (Hi _ metadata (<[body_path (transport_endpoint_cache feed) := body]> f) Hm) as [E3 E4].
  split; congruence.
Qed.

#[local] Existing Instance kept_change.

Lemma keeps_fetch name : changes stack anyhow (kept stack) (_fetch name).
Proof.
  intros w _ Hw. unfold _fetch. set (feed := match name with ENDPOINT_ARCH_SECURITY => _ | _ => _ end).
  destruct (transport_lasting feed) as [Hb Hm].
  destruct (fetch_wp _HOME urljoin oserror_text (open name) _ Hb Hm name w) as (hs & conditional & _ & _ & _ & H).
  eapply wp_mono; [exact H | |]; cbv beta.
  - intros r w' H'%fetched_step%cache_step_view. by apply kept_view.
  - intros e w' H'%cache_step_view. by apply kept_view.
Qed.

(** ** It keeps the promises of a collector

    Nothing bounds the names that commands print: that they fit the protocol is what is
    relied on. *)

Definition short_item (i : NormalizedItem) : Prop := short_text (item_id i) /\ short_text (label i).

Record short_output : Prop := {
  short_arch its : collect_official_updates run = Ok its -> Forall short_item its;
  short_aur helper its : collect_aur_updates run = AurCollected helper its -> Forall short_item its;
  short_flatpak commands : commands = _SCOPES.1 \/ commands = _SCOPES.2 ->
    Forall (fun r => short_item (fr_item r)) (fp_records (_collect_scope (fun name => run name []) commands));
  short_mise records : collect_mise_updates stack run = Ok (MiseCollected records) ->
    Forall (fun r => short_item (mr_item r)) records;
  short_inventory inventory : collect_official_inventory run = Ok inventory -> short_versions inventory;
}.

(** An item made by an adapter: named after its source, and not watched. *)
Definition adapter_item (i : NormalizedItem) : Prop :=
  startswith (item_id i) (value (item_source i) ++ lit ":") = true /\ watch_armed i = false.

Lemma adapter_scan_item i : adapter_item i -> short_item i -> scan_item i.
Proof. intros [Hp Ha] [Hi Hl]. constructor; [done..|]. by rewrite Ha. Qed.

Lemma adapter_scan_items l : Forall adapter_item l -> Forall short_item l -> Forall scan_item l.
Proof. intros Ha Hs. induction Ha; inversion Hs; subst; constructor; auto using adapter_scan_item. Qed.

Lemma prefixed_item source s i :
  item_source i = source -> item_id i = (value source ++ lit ":") ++ s -> watch_armed i = false -> adapter_item i.
Proof. intros <- E Ha. split; [rewrite E; apply startswith_app | done]. Qed.

Lemma omarchy_row_item row i : row_item row i -> adapter_item i /\ short_item i.
Proof.
  intros [package inst cand Hp _ _|digits behind commit_word upstream _ _ _ _].
  - split; [by apply (prefixed_item IS_OMARCHY package)|].
    unfold OMARCHY_DUPLICATE_FILTER, names in Hp. apply list_elem_of_fmap in Hp as (s & -> & H).
    repeat (apply elem_of_cons in H as [->|H]); [..|by apply elem_of_nil in H]; vm_compute; repeat split; discriminate.
  - split; [by apply (prefixed_item IS_OMARCHY (lit "dev-checkout"))|]. vm_compute. repeat split; discriminate.
Qed.

Lemma good_omarchy_run a : collect_omarchy_availability _HOME run = Ok a -> good_omarchy a.
Proof.
  intros H%omarchy_items. unfold good_omarchy. eapply Forall_impl; [exact H|].
  intros i (row & [? ?]%omarchy_row_item). by apply adapter_scan_item.
Qed.

Lemma good_arch_run : short_output -> good_arch (collect_official_updates run).
Proof.
  intros Hs. pose proof (short_arch Hs) as H. destruct (collect_official_updates run) as [its|d] eqn:E; [|done].
  apply adapter_scan_items; [|by apply H]. apply official_updates_sound in E as (updates & -> & _).
  apply Forall_fmap, Forall_true. intros u. by apply (prefixed_item IS_ARCH (upd_name u)).
Qed.

Lemma good_aur_run : short_output -> good_aur (collect_aur_updates run).
Proof.
  intros Hs. pose proof (short_aur Hs) as H. destruct (collect_aur_updates run) as [helper its| | | | | | | |] eqn:E; try done.
  apply adapter_scan_items; [|by eapply H]. apply aur_items in E. eapply Forall_impl; [exact E|].
  intros i (name & inst & cand & ->). by apply (prefixed_item IS_AUR name).
Qed.

Lemma good_flatpak_run : short_output -> good_flatpak (Flatpak.collect_flatpak (fun name => run name [])).
Proof.
  intros Hs. assert (forall commands, commands = _SCOPES.1 \/ commands = _SCOPES.2 -> good_scope (commands_scope commands) (_collect_scope (fun name => run name []) commands)) as H.
  { intros commands Hc. pose proof (short_flatpak Hs commands Hc) as Hshort.
    destruct (collect_scope_sound (fun name => run name []) commands) as [Hsc [_ Hf]]. clear Hc. split; [done|].
    apply Forall_fmap. apply adapter_scan_items; [|by apply Forall_fmap]. apply Forall_fmap. eapply Forall_impl; [exact Hf|].
    intros r (_ & _ & Hi & Hsrc & _ & _ & Ha). by eapply (prefixed_item IS_FLATPAK). }
  split; [apply (H _SCOPES.1) | apply (H _SCOPES.2)]; auto.
Qed.

Lemma good_mise_run r : short_output -> collect_mise_updates stack run = Ok r -> good_mise r.
Proof.
  intros Hs E. destruct r as [records| | | | | |]; try done. pose proof (short_mise Hs _ E) as H. apply collected_items in E.
  apply Forall_fmap, adapter_scan_items; [|by apply Forall_fmap]. apply Forall_fmap. eapply Forall_impl; [exact E|].
  intros x (key & current & latest & E'). change (adapter_item (mr_item x)). rewrite E'. by apply (prefixed_item IS_MISE key).
Qed.

End Collector.

(** ** Witness: a machine with every source, no network *)

#[local] Instance no_offsets : IsoOffsets := fun _ => false.

(** What mise prints for one tool. *)
Definition mise_text (tool : str) : bytes :=
  text_of (JObj [(tool, JObj (string_fields [("current", "3.1"); ("latest", "3.2"); ("requested", "3")]))]).

Definition sample_machine (tool : str) : CommandRunner := fun name arguments =>
  match name with
  | OMARCHY_UPDATE_AVAILABLE => CommandExited 1 _UP_TO_DATE []
  | MISE_OUTDATED => CommandSucceeded (mise_text tool) []
  | FLATPAK_USER_APP_LIST | FLATPAK_USER_RUNTIME_LIST | FLATPAK_USER_UPDATES => sample_flatpak name
  | _ => sample_commands name arguments
  end.

Definition offline : EndpointName -> nat -> str -> headers -> https_answer := fun _ _ _ _ => URLError (OtherReason (lit "no route")).

Definition sample_runtime (tool : str) : ScanCollector :=
  RuntimeScanCollector 101 (lit "/root") absolute_join [] offline (sample_machine tool).


(** A scan of a machine where one tool has a long name: what is built cannot be written. *)
Definition long_inputs : ScanInputs :=
  {| in_omarchy := None; in_arch := None; in_aur := None; in_flatpak_user := None; in_flatpak_system := None;
     in_mise := Some (mise_outcome (MiseCollected [mise_record (List.repeat 97%N 124) (lit "3") (lit "3.1") (lit "3.2")]));
     in_security := None; in_cisa_kev := None |}.

Lemma long_name_stops_scan :
  exists msg, (b ← (build_generation (lit "scan-1") 1 long_inputs None empty_state sample_now : res GenerationBundle);
               encode_generation b sample_now) = fail INVALID_TYPE msg.
Proof. eexists. vm_compute. reflexivity. Qed.
