(* ===== verification/CliOperations.v ===== *)
(** * The operations of the command line

    [cli_operations.py]: a scan, the snapshot with the watches of the moment, a page of an
    inventory, a click on a star. The collector of a scan, [notify-send], [str.casefold]
    and what [uuid4] gives for each kind of identifier are arguments. *)

From S2P Require Import Prelude PyStr Regex Calendar Models Samples Json Validation Wire RunnerTypes Arch StorageWatches StorageState.
From S2P Require Import StateFile StateStore Stars ScanResolution ScanAssembly Generation StorageIO Storage StorageSpec DiskStore.
From S2P Require Import CacheSpec NotificationBatch Notifications Scan CliRequests.

Open Scope Z_scope.

(** [str.casefold]: of ASCII it makes small letters; beyond, what the Unicode tables say. *)
Class Casefold := {
  casefold : str -> str;
  casefold_ascii s : isascii s = true ->
    casefold s = (fun c => if (65 <=? c)%N && (c <=? 90)%N then (c + 32)%N else c) <$> s;
}.

(** ** Items as they are watched *)

Definition _watched_items (its : list NormalizedItem) (watches : list WatchRecord) : list NormalizedItem :=
  let records : gmap str WatchRecord := list_to_map (reverse ((fun w => (w_item_id w, w)) <$> watches)) in
  (fun i =>
     let '(mode, armed) := match records !! item_id i with
                           | Some r => (w_mode r, if bool_decide (w_mode r = TEMPORARY) then w_armed r else false)
                           | None => (OFF, false)
                           end in
     {| item_id := item_id i; item_source := item_source i; label := label i; installed := installed i;
        candidate := candidate i; watch_mode := mode; watchable := watchable i;
        item_provenance := item_provenance i; installed_fingerprint := installed_fingerprint i;
        candidate_fingerprint := candidate_fingerprint i; watch_armed := armed |}) <$> its.

Definition _overlay_snapshot (response : SnapshotResponse) (watches : list WatchRecord) : SnapshotResponse :=
  let p := snap_payload response in
  let its := _watched_items (items p) watches in
  let s := summary_of p in
  {| snap_meta := snap_meta response;
     snap_payload := {| scan_state_of := scan_state_of p; sources := sources p;
                        summary_of := {| total_updates := total_updates s;
                                         watched_updates := len (List.filter (fun i => bool_decide (watch_mode i <> OFF)) its);
                                         security_findings := security_findings s;
                                         degraded_sources := degraded_sources s |};
                        items := its; findings := findings p; notifications := notifications p |} |}.

(** A permanent watch of an item that is not installed any more. *)
Definition missing_item (source : ItemSource) (w : WatchRecord) : NormalizedItem :=
  {| item_id := w_item_id w; item_source := source; label := w_item_id w; installed := None; candidate := None;
     watch_mode := PERMANENT; watchable := false; item_provenance := CACHE; installed_fingerprint := None;
     candidate_fingerprint := None; watch_armed := false |}.

Definition _inventory_items (cached : InventoryResponse) (watches : list WatchRecord) (source : ItemSource)
    : list NormalizedItem :=
  let cached_items := _watched_items (inv_items (inv_payload cached)) watches in
  let present : gset str := list_to_set (item_id <$> cached_items) in
  (missing_item source <$>
     List.filter (fun w => bool_decide (w_mode w = PERMANENT) && bool_decide (w_item_id w ∉ present)
                           && of_source source (w_item_id w)) watches)
  ++ cached_items.

(** ** Inventories *)

Section Pages.
Context `{Casefold}.

Definition _matches (i : NormalizedItem) (query : str) : bool :=
  bool_decide (query = []) || contains (casefold (label i)) query || contains (casefold (item_id i)) query.

Definition _item_key (i : NormalizedItem) : list str :=
  [lit (if bool_decide (watch_mode i <> OFF) then "0" else "1"); casefold (label i); item_id i].

(** What a query asks for, in order. *)
Definition ordered_items (cached : InventoryResponse) (watches : list WatchRecord) (source : ItemSource) (query : str)
    : list NormalizedItem :=
  sorted_by_tuple _item_key
    (List.filter (fun i => _matches i (casefold query)) (_inventory_items cached watches source)).

Definition inventory_page (cached : InventoryResponse) (watches : list WatchRecord) (c : InventoryCommand)
    : InventoryResponse :=
  let ordered := ordered_items cached watches (ic_source c) (ic_query c) in
  let paged := take (Z.to_nat (ic_limit c)) (drop (Z.to_nat (ic_offset c)) ordered) in
  {| inv_meta := {| generated_at := generated_at (inv_meta cached); generation_id := generation_id (inv_meta cached);
                    protocol_version_of := PROTOCOL_VERSION |};
     inv_payload := {| inv_source := ic_source c; inv_total := len ordered; inv_items := paged |} |}.
End Pages.

(** ** Stars *)

Definition _sources : list ItemSource := [IS_ARCH; IS_AUR; IS_FLATPAK; IS_MISE].

Definition _current_flatpak_scope (i : NormalizedItem) (h : SourceHealth) : bool :=
  let current scope :=
    existsb (fun e => bool_decide (sc_scope e = scope) && bool_decide (sc_status e = SS_OK)
                      && bool_decide (sc_provenance e = LIVE)) (sh_scopes h) in
  if startswith (item_id i) (lit "flatpak:user:") then current USER
  else if startswith (item_id i) (lit "flatpak:system:") then current SYSTEM
  else false.

Definition _current_snapshot_item (i : NormalizedItem) (srcs : list SourceHealth) : bool :=
  match List.find (fun s => bool_decide (value (sh_source s) = value (item_source i))) srcs with
  | None => false
  | Some h =>
      if bool_decide (item_provenance i <> LIVE) || bool_decide (sh_status h <> SS_OK)
         || bool_decide (sh_provenance h <> LIVE)
      then false
      else match item_source i with
           | IS_FLATPAK => _current_flatpak_scope i h
           | IS_OMARCHY | IS_ARCH | IS_AUR | IS_MISE => true
           end
  end.

Definition _current_snapshot_items (snapshot : option SnapshotResponse) : list NormalizedItem :=
  match snapshot with
  | Some s => List.filter (fun i => _current_snapshot_item i (sources (snap_payload s))) (items (snap_payload s))
  | None => []
  end.

(** [WatchMode.OFF if watch is None else watch.mode] *)
Definition find_watch (s : PersistentState) (id : str) : option WatchRecord :=
  List.find (fun w => bool_decide (w_item_id w = id)) (st_watches s).
Definition mode_of (s : PersistentState) (id : str) : WatchMode := from_option w_mode OFF (find_watch s id).

Definition with_condition (condition : option SecurityFixCondition) (id : str) (s : PersistentState) : PersistentState :=
  match condition with
  | None => s
  | Some c =>
      {| st_watches := (fun w =>
           if bool_decide (w_item_id w = id) && bool_decide (w_mode w = TEMPORARY)
           then {| w_item_id := w_item_id w; w_mode := w_mode w; w_installed_fingerprint := w_installed_fingerprint w;
                   w_candidate_fingerprint := w_candidate_fingerprint w; w_armed := w_armed w;
                   w_condition := Some c |}
           else w) <$> st_watches s;
         st_ledger := st_ledger s; st_sources := st_sources s |}
  end.

(** [mutate] *)
Definition star_mutation (c : SetStarCommand) (s : PersistentState) (inventories : list InventoryResponse)
    (snapshot : option SnapshotResponse) : res PersistentState :=
  cached ← mapM cached_item ((inventories ≫= fun r => inv_items (inv_payload r)) ++ _current_snapshot_items snapshot);
  updated ← transition s (EStarClick {| click_item_id := ss_item_id c; click_inventory := {| cached_items := cached |};
                                        require_current_inventory := true |});
  let updated := with_condition (ss_condition c) (ss_item_id c) updated in
  if bool_decide (mode_of updated (ss_item_id c) <> ss_mode c)
  then Err (WatchTransitionError (lit "watch mode does not match the transition"))
  else Ok updated.

(** ** The operations *)

(** The home directory, and the two variables that may name others. *)
Record Environment := { env_home : str; env_state : option str; env_cache : option str }.

(** [Storage.from_environment]: the directories must be absolute. *)
Definition from_environment (e : Environment) : res (str * str) :=
  state_home ← _xdg_home (lit "XDG_STATE_HOME") (env_state e) (env_home e ++ lit "/.local/state");
  cache_home ← _xdg_home (lit "XDG_CACHE_HOME") (env_cache e) (env_home e ++ lit "/.cache");
  Ok (state_home ++ lit "/opatchy/state.json", cache_home ++ lit "/opatchy").

Section Operations.
Context `{Iso : IsoDialect} `{Fold : Casefold} (stack : nat) (Hstack : MAX_JSON_DEPTH < Z.of_nat stack).
Context (notify : CommandRunner) (collector : ScanCollector) (token : NotificationKind -> str) (uuid : string -> str).

Definition identified (prefix : string) : str := lit prefix ++ lit "-" ++ uuid prefix.

Definition scan (c : ScanCommand) : M SnapshotResponse :=
  previous ← load_generation stack;
  let order := match previous with None => 0 | Some b => g_order b + 1 end in
  result ← Scan.run stack Hstack notify token collector
             {| rq_generation_id := identified "scan"; rq_generation_order := order; rq_force := force c;
                rq_notification_settings := settings c; rq_enable_cisa_kev := enable_cisa_kev c |};
  loaded ← load_state stack;
  ret (_overlay_snapshot (sr_snapshot result) (st_watches (load_state_of loaded))).

Definition snapshot : M SnapshotResponse :=
  cached ← load_snapshot_ stack;
  match cached with
  | None => lift (Err (CliUnavailableError (lit "validated snapshot storage is unavailable")))
  | Some s => loaded ← load_state stack; ret (_overlay_snapshot s (st_watches (load_state_of loaded)))
  end.

Definition inventory_response (c : InventoryCommand) : M InventoryResponse :=
  cached ← load_inventory_ stack (ic_source c);
  match cached with
  | None => lift (Err (CliUnavailableError (lit "validated inventory storage is unavailable")))
  | Some cached => loaded ← load_state stack; ret (inventory_page cached (st_watches (load_state_of loaded)) c)
  end.

(** The payload of the answer to a click. *)
Definition star_payload (s : PersistentState) (id : str) : StarResultPayload :=
  {| star_item_id := id; star_mode := mode_of s id; star_armed := from_option w_armed false (find_watch s id) |}.

Definition set_star (c : SetStarCommand) : M Response :=
  updated ← update_state_with_inventories stack _sources (star_mutation c);
  now ← clock;
  ret (RStar {| generated_at := now; generation_id := identified "star"; protocol_version_of := PROTOCOL_VERSION |}
             (star_payload (load_state_of updated) (ss_item_id c))).

Definition execute (e : Environment) (c : CliCommand) : M Response :=
  _ ← lift (from_environment e);
  match c with
  | CScan c => r ← scan c; ret (RSnapshot r)
  | CSnapshot => r ← snapshot; ret (RSnapshot r)
  | CInventory c => r ← inventory_response c; ret (RInventory r)
  | CSetStar c => set_star c
  end.
End Operations.

(** ** What is shown of the watches *)

Definition armed_of (s : PersistentState) (id : str) : bool := from_option w_armed false (find_watch s id).

Definition as_watched (s : PersistentState) (i : NormalizedItem) : NormalizedItem :=
  {| item_id := item_id i; item_source := item_source i; label := label i; installed := installed i;
     candidate := candidate i; watch_mode := mode_of s (item_id i); watchable := watchable i;
     item_provenance := item_provenance i; installed_fingerprint := installed_fingerprint i;
     candidate_fingerprint := candidate_fingerprint i; watch_armed := armed_of s (item_id i) |}.

Lemma find_watch_Some s id w :
  valid_state s -> find_watch s id = Some w <-> w ∈ st_watches s /\ w_item_id w = id.
Proof. intros Hs. apply (find_at_key_Some w_item_id), Hs. Qed.

Lemma records_lookup s id :
  valid_state s ->
  (list_to_map (reverse ((fun w => (w_item_id w, w)) <$> st_watches s)) : gmap str WatchRecord) !! id = find_watch s id.
Proof.
  intros Hs. apply option_eq. intros w. rewrite find_watch_Some by done.
  assert (((fun w => (w_item_id w, w)) <$> st_watches s).*1 = w_item_id <$> st_watches s) as E
    by (by rewrite <-list_fmap_compose).
  rewrite <-elem_of_list_to_map.
  - rewrite elem_of_reverse, list_elem_of_fmap. split; [by intros (x & [= -> ->] & ?) | intros [? <-]; by exists w].
  - rewrite fmap_reverse, E. eapply NoDup_Permutation_proper; [apply reverse_Permutation | apply Hs].
Qed.

Lemma valid_watch_armed w : valid_watch w -> w_armed w = true -> w_mode w = TEMPORARY.
Proof. by intros []. Qed.

Lemma watched_items_spec s its : valid_state s -> _watched_items its (st_watches s) = as_watched s <$> its.
Proof.
  intros Hs. unfold _watched_items. apply list_fmap_ext. intros _ i _. rewrite records_lookup by done.
  unfold as_watched, mode_of, armed_of. destruct (find_watch s (item_id i)) as [w|] eqn:E; [|done]. simpl.
  case_bool_decide; [done|]. apply find_watch_Some in E as [Hw _]; [|done].
  pose proof (vt_watches _ Hs) as Hv. rewrite Forall_forall in Hv. specialize (Hv w Hw). f_equal.
  destruct (w_armed w) eqn:Ea; [|done]. by apply valid_watch_armed in Ea.
Qed.

Lemma mode_armed s id : valid_state s -> armed_of s id = true -> mode_of s id = TEMPORARY.
Proof.
  intros Hs. unfold armed_of, mode_of. destruct (find_watch s id) as [w|] eqn:E; [|done]. simpl.
  apply find_watch_Some in E as [Hw _]; [|done]. pose proof (vt_watches _ Hs) as Hv. rewrite Forall_forall in Hv.
  by apply valid_watch_armed, Hv.
Qed.

Lemma as_watched_valid s i : valid_state s -> valid_item i -> valid_item (as_watched s i).
Proof. intros Hs []. constructor; simpl; try done. by apply mode_armed. Qed.

Lemma as_watched_items s its : valid_state s -> valid_items its -> valid_items (as_watched s <$> its).
Proof.
  intros Hs [Hn Hv]. split; [by rewrite <-list_fmap_compose|]. apply Forall_fmap. eapply Forall_impl; [exact Hv|].
  intros i. by apply as_watched_valid.
Qed.

Lemma length_filter_fmap {A B} (f : A -> B) (p : B -> bool) (l : list A) :
  length (List.filter p (f <$> l)) = length (List.filter (fun x => p (f x)) l).
Proof. induction l as [|x l IH]; [done|]. rewrite fmap_cons. cbn [List.filter]. destruct (p (f x)); cbn [length]; auto. Qed.

(** The snapshot that is answered shows the watches of the moment: each item, and no
    other field of it, carries the mode and the armed flag of its watch, the summary
    counts the watched items, and a valid snapshot stays valid. *)
Theorem overlay_shows_watches response s :
  valid_response (RSnapshot response) -> valid_state s ->
  let shown := _overlay_snapshot response (st_watches s) in
  valid_response (RSnapshot shown)
  /\ items (snap_payload shown) = as_watched s <$> items (snap_payload response)
  /\ watched_updates (summary_of (snap_payload shown))
     = len (List.filter (fun i => bool_decide (mode_of s (item_id i) <> OFF)) (items (snap_payload response)))
  /\ findings (snap_payload shown) = findings (snap_payload response)
  /\ notifications (snap_payload shown) = notifications (snap_payload response).
Proof.
  intros (Hp & Hg & Hv) Hs. simpl in Hv. unfold _overlay_snapshot. rewrite watched_items_spec by done. simpl.
  assert (len (List.filter (fun i => bool_decide (watch_mode i <> OFF)) (as_watched s <$> items (snap_payload response)))
    = len (List.filter (fun i => bool_decide (mode_of s (item_id i) <> OFF)) (items (snap_payload response)))) as Hc.
  { unfold len. f_equal. apply length_filter_fmap. }
  split; [|done]. split; [done|]. split; [done|]. destruct Hv. constructor; simpl; auto using as_watched_items.
  - eapply Forall_impl; [exact vp_findings|]. intros g []. constructor; auto.
    intros i (j & -> & Hj)%list_elem_of_fmap. simpl. eauto.
  - destruct vp_summary as (? & _ & ? & ?). split_and!; try done. unfold len. lia.
Qed.

(** ** Pages *)

Section PageLemmas.
Context `{Fold : Casefold}.

Lemma inventory_items_ids cached s source :
  valid_state s -> NoDup (item_id <$> inv_items (inv_payload cached)) ->
  NoDup (item_id <$> _inventory_items cached (st_watches s) source).
Proof.
  intros Hs Hn. unfold _inventory_items. rewrite watched_items_spec by done. cbv zeta.
  rewrite fmap_app, <-!list_fmap_compose. apply NoDup_app. split; [|split].
  - apply (NoDup_map_filter w_item_id), Hs.
  - intros x (w & -> & Hw)%list_elem_of_fmap (i & E & Hi)%list_elem_of_fmap.
    apply elem_of_filter_bool in Hw as [_ Hw]. rewrite !andb_true_iff, !bool_decide_eq_true in Hw.
    destruct Hw as [[_ Hw] _]. apply Hw, elem_of_list_to_set, list_elem_of_fmap. exists i. by split.
  - exact Hn.
Qed.

Lemma inventory_items_valid cached s source :
  valid_state s -> Forall valid_item (inv_items (inv_payload cached)) ->
  (forall w, w ∈ st_watches s -> w_mode w = PERMANENT -> short_text (w_item_id w)) ->
  Forall valid_item (_inventory_items cached (st_watches s) source).
Proof.
  intros Hs Hv Hw. unfold _inventory_items. rewrite watched_items_spec by done. cbv zeta. apply Forall_app. split.
  - apply Forall_fmap, Forall_forall. intros w [Hin Hm]%elem_of_filter_bool. rewrite !andb_true_iff, !bool_decide_eq_true in Hm.
    destruct Hm as [[Hm _] _]. constructor; try done; by apply Hw.
  - apply Forall_fmap. eapply Forall_impl; [exact Hv|]. intros i. by apply as_watched_valid.
Qed.

Lemma inventory_items_source cached s source :
  valid_state s -> Forall (fun i => item_source i = source) (inv_items (inv_payload cached)) ->
  Forall (fun i => item_source i = source) (_inventory_items cached (st_watches s) source).
Proof.
  intros Hs Hv. unfold _inventory_items. rewrite watched_items_spec by done. apply Forall_app.
  split; apply Forall_fmap; [by apply Forall_true | exact Hv].
Qed.

Lemma ordered_items_perm cached watches source query :
  ordered_items cached watches source query
  ≡ₚ List.filter (fun i => _matches i (casefold query)) (_inventory_items cached watches source).
Proof. unfold ordered_items, sorted_by_tuple. apply sorted_by_Permutation. Qed.

Lemma ordered_items_Forall (P : NormalizedItem -> Prop) cached watches source query :
  Forall P (_inventory_items cached watches source) -> Forall P (ordered_items cached watches source query).
Proof. intros H. rewrite ordered_items_perm. by apply Forall_filter_bool. Qed.

(** A page of an inventory is a response that can be sent: for a valid cache, a valid
    state and a command that was parsed, the page holds at most as many items as asked
    for, all of the source asked for, none twice, each as it is watched at the moment. The
    identifiers of the permanent watches must be short, which the state does not check. *)
Theorem inventory_page_valid cached s c :
  valid_response (RInventory cached) -> valid_state s -> valid_command (CInventory c) ->
  inv_source (inv_payload cached) = ic_source c ->
  (forall w, w ∈ st_watches s -> w_mode w = PERMANENT -> short_text (w_item_id w)) ->
  let page := inventory_page cached (st_watches s) c in
  valid_response (RInventory page)
  /\ len (inv_items (inv_payload page)) <= ic_limit c
  /\ Forall (fun i => watch_mode i = mode_of s (item_id i)) (inv_items (inv_payload page)).
Proof.
  intros (_ & Hg & Hv) Hs (Hsrc & _ & Hl & Ho) Es Hw. simpl in Hv. destruct Hv as [_ _ [Hn Hi] Hsame]. cbv zeta.
  set (l := ordered_items cached (st_watches s) (ic_source c) (ic_query c)). rewrite Es in Hsame.
  assert (NoDup (item_id <$> l)) as Hln.
  { unfold l. rewrite ordered_items_perm. by apply NoDup_map_filter, inventory_items_ids. }
  assert (forall P, Forall P l -> Forall P (take (Z.to_nat (ic_limit c)) (drop (Z.to_nat (ic_offset c)) l))) as Hpage.
  { intros P H. by apply Forall_take, Forall_drop. }
  split_and!.
  - split; [done|]. split; [done|]. constructor; simpl.
    + done.
    + fold l. unfold len. rewrite length_take, length_drop. lia.
    + split; [|by apply Hpage, ordered_items_Forall, inventory_items_valid].
      fold l. rewrite fmap_take, fmap_drop. eapply sublist_NoDup; [exact Hln|].
      etransitivity; [apply sublist_take | apply sublist_drop].
    + by apply Hpage, ordered_items_Forall, inventory_items_source.
  - simpl. unfold len. rewrite length_take. lia.
  - apply Hpage, ordered_items_Forall. unfold _inventory_items. rewrite watched_items_spec by done. apply Forall_app. split.
    + apply Forall_fmap, Forall_forall. intros w [Hin Hm]%elem_of_filter_bool.
      rewrite !andb_true_iff, !bool_decide_eq_true in Hm. destruct Hm as [[Hm _] _]. simpl.
      unfold mode_of. assert (find_watch s (w_item_id w) = Some w) as -> by (by apply find_watch_Some). by rewrite <-Hm.
    + by apply Forall_fmap, Forall_true.
Qed.

Definition at_offset (c : InventoryCommand) (offset : Z) : InventoryCommand :=
  {| ic_source := ic_source c; ic_query := ic_query c; ic_limit := ic_limit c; ic_offset := offset |}.

(** The items of the [n] first pages. *)
Definition first_pages (cached : InventoryResponse) (watches : list WatchRecord) (c : InventoryCommand) (n : nat)
    : list NormalizedItem :=
  seq 0 n ≫= fun k => inv_items (inv_payload (inventory_page cached watches (at_offset c (Z.of_nat k * ic_limit c)))).

Lemma first_pages_take cached watches c n :
  0 <= ic_limit c ->
  first_pages cached watches c n
  = take (n * Z.to_nat (ic_limit c)) (ordered_items cached watches (ic_source c) (ic_query c)).
Proof.
  intros Hl. unfold first_pages. induction n as [|n IH]; [done|].
  rewrite seq_S, bind_app, IH. cbn [mbind list_bind inventory_page inv_items inv_payload at_offset ic_limit ic_source ic_query ic_offset].
  rewrite app_nil_r, Nat.add_0_l. replace (Z.to_nat (Z.of_nat n * ic_limit c)) with (n * Z.to_nat (ic_limit c))%nat by lia.
  rewrite take_take_drop. f_equal. lia.
Qed.

(** *** What the pages should show *)

Definition substring (p s : str) : Prop := exists before after, s = before ++ p ++ after.

Lemma contains_substring s p : contains s p = true <-> substring p s.
Proof.
  unfold substring. induction s as [|c s IH]; cbn [contains].
  - rewrite orb_false_r, startswith_spec. split; [intros [t ->]; by exists [], t|].
    intros (b & a & E). symmetry in E. apply app_nil in E as [-> E]. by exists a.
  - rewrite orb_true_iff, startswith_spec, IH. split.
    + intros [[t ->]|(b & a & ->)]; [by exists [], t | by exists (c :: b), a].
    + intros ([|x b] & a & E); [left; by exists a | right]. injection E as -> ->. by exists b, a.
Qed.

(** An item of the cache, as it is watched; or what stands for a permanent watch of the
    source whose item is not in the cache. *)
Definition shown_item (cached : InventoryResponse) (s : PersistentState) (source : ItemSource) (x : NormalizedItem) : Prop :=
  (exists i, i ∈ inv_items (inv_payload cached) /\ x = as_watched s i)
  \/ exists w, w ∈ st_watches s /\ w_mode w = PERMANENT
       /\ (exists rest, w_item_id w = value source ++ lit ":" ++ rest)
       /\ (forall i, i ∈ inv_items (inv_payload cached) -> item_id i <> w_item_id w)
       /\ item_id x = w_item_id w /\ item_source x = source /\ label x = w_item_id w /\ installed x = None
       /\ candidate x = None /\ watch_mode x = PERMANENT /\ watchable x = false /\ item_provenance x = CACHE
       /\ installed_fingerprint x = None /\ candidate_fingerprint x = None /\ watch_armed x = false.

(** Its label or its identifier has the query in it, small and capital letters alike. *)
Definition asked_for (query : str) (x : NormalizedItem) : Prop :=
  substring (casefold query) (casefold (label x)) \/ substring (casefold query) (casefold (item_id x)).

Definition watched (x : NormalizedItem) : Prop := watch_mode x <> OFF.

(** Watched items come before the others; then labels decide, then identifiers. *)
Definition comes_before (x y : NormalizedItem) : Prop :=
  watched x /\ ~ watched y
  \/ (watched x <-> watched y)
     /\ if decide (casefold (label x) = casefold (label y))
        then str_leb (item_id x) (item_id y) = true
        else str_leb (casefold (label x)) (casefold (label y)) = true.

Lemma key_order x y : tuple_leb (_item_key x) (_item_key y) = true -> comes_before x y.
Proof.
  unfold _item_key, comes_before, watched. cbn [tuple_leb]. intros H.
  destruct (decide (watch_mode x = OFF)) as [Hx|Hx], (decide (watch_mode y = OFF)) as [Hy|Hy];
    rewrite ?(bool_decide_false (watch_mode x <> OFF)), ?(bool_decide_false (watch_mode y <> OFF)),
      ?(bool_decide_true (watch_mode x <> OFF)), ?(bool_decide_true (watch_mode y <> OFF)) in H by (done || by intros []).
  2:{ by vm_compute in H. }
  2:{ left. by split; [|intros []]. }
  all: right; (split; [done|]); rewrite bool_decide_true in H by done; destruct (decide (casefold (label x) = casefold (label y))) as [E|E].
  1,3: rewrite bool_decide_true in H by done; case_bool_decide as Ei; [rewrite Ei; apply str_leb_refl | exact H].
  all: by rewrite bool_decide_false in H by done.
Qed.

Lemma missing_item_spec source w x :
  x = missing_item source w <->
  item_id x = w_item_id w /\ item_source x = source /\ label x = w_item_id w /\ installed x = None
  /\ candidate x = None /\ watch_mode x = PERMANENT /\ watchable x = false /\ item_provenance x = CACHE
  /\ installed_fingerprint x = None /\ candidate_fingerprint x = None /\ watch_armed x = false.
Proof.
  split; [by intros ->|]. intros (H1 & H2 & H3 & H4 & H5 & H6 & H7 & H8 & H9 & H10 & H11). destruct x. simpl in *. by subst.
Qed.

Lemma inventory_items_shown cached s source x :
  valid_state s -> x ∈ _inventory_items cached (st_watches s) source <-> shown_item cached s source x.
Proof.
  intros Hs. unfold _inventory_items, shown_item. rewrite watched_items_spec by done. cbv zeta.
  rewrite elem_of_app, !list_elem_of_fmap.
  assert (forall id, id ∈ (list_to_set (item_id <$> (as_watched s <$> inv_items (inv_payload cached))) : gset str)
            <-> exists i, i ∈ inv_items (inv_payload cached) /\ item_id i = id) as Hid.
  { intros id. rewrite elem_of_list_to_set, <-list_fmap_compose, list_elem_of_fmap. split.
    - intros (i & -> & Hi). by exists i.
    - intros (i & Hi & <-). by exists i. }
  split.
  - intros [(w & Hx & Hw)|(i & -> & Hi)]; [right | left; by exists i].
    apply elem_of_filter_bool in Hw as [Hw Hp]. rewrite !andb_true_iff, !bool_decide_eq_true, Hid in Hp.
    destruct Hp as [[Hm Hn] Ho]. exists w. split; [done|]. split; [done|]. split.
    { unfold of_source in Ho. apply startswith_spec in Ho as [t E]. exists t. by rewrite <-app_assoc in E. }
    split; [intros i Hi E; apply Hn; by exists i|]. by apply missing_item_spec.
  - intros [(i & Hi & ->)|(w & Hw & Hm & [t Ht] & Hn & Hx)]; [right; by exists i | left]. apply missing_item_spec in Hx.
    exists w. split; [done|]. apply elem_of_filter_bool. split; [done|]. rewrite !andb_true_iff, !bool_decide_eq_true, Hid.
    split; [split; [done | intros (i & Hi & E); by apply (Hn i)]|]. unfold of_source. apply startswith_spec. exists t.
    by rewrite <-app_assoc.
Qed.

Lemma matches_asked query x : _matches x (casefold query) = true <-> asked_for query x.
Proof.
  unfold _matches, asked_for. rewrite !orb_true_iff, bool_decide_eq_true, !contains_substring. split; [|tauto].
  intros [[->|]|]; auto. left. by exists [], (casefold (label x)).
Qed.

Lemma sorted_weaken {A} (R R' : A -> A -> Prop) l :
  (forall x y, R x y -> R' x y) -> StronglySorted R l -> StronglySorted R' l.
Proof. intros H. induction 1 as [|x l _ IH Hx]; constructor; [done|]. eapply Forall_impl; [exact Hx | apply H]. Qed.

(** C24. Leafing through an inventory shows every item once: the pages, one after the other,
    have exactly the items of the cache, as they are watched, and what stands for the
    permanent watches of the source that are gone from it, whose label or identifier has
    the query in it; none twice; the watched ones first, then by label, then by identifier;
    no page has more than the limit, and each knows how many there are in all. *)
Theorem pages_complete cached s c n :
  valid_response (RInventory cached) -> valid_state s -> valid_command (CInventory c) ->
  inv_total (inv_payload (inventory_page cached (st_watches s) c)) <= Z.of_nat n * ic_limit c ->
  let all := first_pages cached (st_watches s) c n in
  (forall x, x ∈ all <-> shown_item cached s (ic_source c) x /\ asked_for (ic_query c) x)
  /\ NoDup (item_id <$> all)
  /\ StronglySorted comes_before all
  /\ forall offset, let page := inv_payload (inventory_page cached (st_watches s) (at_offset c offset)) in
       inv_total page = len all /\ len (inv_items page) <= ic_limit c.
Proof.
  intros (_ & _ & Hv) Hs (_ & _ & Hl & _) Hn. cbv zeta. rewrite first_pages_take by lia.
  set (l := ordered_items _ _ _ _). assert (take (n * Z.to_nat (ic_limit c)) l = l) as ->.
  { apply take_ge. change (inv_total _) with (len l) in Hn. unfold len in Hn. nia. }
  split; [|split; [|split]].
  - intros x. unfold l. rewrite ordered_items_perm, elem_of_filter_bool, matches_asked, inventory_items_shown by done. tauto.
  - unfold l. rewrite ordered_items_perm. apply NoDup_map_filter, inventory_items_ids; [done|]. apply Hv.
  - eapply sorted_weaken; [apply key_order | apply sorted_by_tuple_sorted].
  - intros offset. split; [done|]. simpl. unfold len. rewrite length_take. lia.
Qed.
End PageLemmas.

(** ** Clicks *)

Lemma find_map_key {A K} `{!EqDecision K} (key : A -> K) (f : A -> A) k l :
  (forall x, key (f x) = key x) -> List.find (at_key key k) (f <$> l) = f <$> List.find (at_key key k) l.
Proof.
  intros Hf. induction l as [|x l IH]; [done|]. rewrite fmap_cons. cbn [List.find]. unfold at_key at 1 3.
  rewrite Hf. by case_bool_decide.
Qed.

Definition next_mode (m : WatchMode) : WatchMode :=
  match m with OFF => TEMPORARY | TEMPORARY => PERMANENT | PERMANENT => OFF end.

(** Nothing but the watch of [id]. *)
Definition others_kept (id : str) (s s' : PersistentState) : Prop :=
  st_sources s' = st_sources s /\ st_ledger s' ⊆+ st_ledger s
  /\ forall id', id' <> id -> find_watch s' id' = find_watch s id'.

Lemma click_effect s id inv b s' :
  valid_state s -> _star_click s {| click_item_id := id; click_inventory := inv; require_current_inventory := b |} = Ok s' ->
  others_kept id s s' /\ mode_of s' id = next_mode (mode_of s id).
Proof.
  intros Hs. unfold _star_click, mode_of. cbn [click_item_id click_inventory require_current_inventory].
  change (List.find _ (st_watches s)) with (find_watch s id). destruct (find_watch s id) as [w|] eqn:Ew.
  - intros H. pose proof Ew as Hw. apply find_watch_Some in Hw as [Hin Hid]; [|done].
    pose proof (click_existing_valid _ _ _ _ _ Hs Hin H) as Hs'. unfold _click_existing_watch in H. simpl.
    destruct (w_mode w); [done | destruct (_ && _); [done|] |]; apply Ok_inj in H as <-.
    + set (f := fun r => if bool_decide (r = w) then _ else r).
      assert (forall r, w_item_id (f r) = w_item_id r) as Hf by (intros r; subst f; simpl; by case_bool_decide; subst).
      assert (forall id', find_watch {| st_watches := f <$> st_watches s; st_ledger := st_ledger s; st_sources := st_sources s |} id'
                = f <$> find_watch s id') as E by (intros; by apply (find_map_key w_item_id)).
      rewrite E, Ew. subst f. cbn. rewrite bool_decide_true by done. split; [|done]. split; [done|]. split; [done|].
      intros id' Hne. rewrite E. destruct (find_watch s id') as [r|] eqn:Er; [|done]. simpl.
      apply find_watch_Some in Er as [_ Er]; [|done]. rewrite bool_decide_false; [done|]. congruence.
    + assert (forall id' r, find_watch {| st_watches := List.filter (fun r => bool_decide (r <> w)) (st_watches s);
          st_ledger := _without_active_references (st_ledger s) (w_item_id w); st_sources := st_sources s |} id' = Some r
          <-> find_watch s id' = Some r /\ r <> w) as E.
      { intros id' r. rewrite !find_watch_Some by done. simpl. rewrite elem_of_filter_bool, bool_decide_eq_true. tauto. }
      split.
      * split; [done|]. split; [apply filter_bool_submseteq|].
        intros id' Hne. apply option_eq. intros r. rewrite E. split; [tauto|]. intros Hr. split; [done|]. intros ->.
        apply find_watch_Some in Hr as [_ Hr]; [|done]. congruence.
      * match goal with |- context [find_watch ?t id] => destruct (find_watch t id) as [r|] eqn:Er end; [|done].
        apply E in Er as [Er Hne]. congruence.
  - destruct (List.find _ (cached_items inv)) as [i|] eqn:Ei; [|done].
    destruct (ci_watchable i), (ci_installed_fingerprint i) as [inst|]; try done. intros [= <-].
    apply find_some in Ei as [_ Ei%bool_decide_eq_true]. rewrite Ei.
    assert (forall id' w, w_item_id w = id ->
      find_watch {| st_watches := st_watches s ++ [w]; st_ledger := st_ledger s; st_sources := st_sources s |} id'
      = if bool_decide (id' = id) then Some w else find_watch s id') as E.
    { intros id' w Hw. unfold find_watch in *. cbn [st_watches]. rewrite find_app. case_bool_decide as Hid.
      - subst id'. rewrite Ew. cbn. by rewrite Hw, bool_decide_true.
      - cbn. rewrite Hw, bool_decide_false by congruence. by case_match. }
    rewrite E, bool_decide_true by done. split; [|done]. split; [done|]. split; [done|].
    intros id' Hne. by rewrite E, bool_decide_false.
Qed.

Lemma with_condition_find condition id s id' :
  find_watch (with_condition condition id s) id'
  = (fun w => match condition with
              | Some c => if bool_decide (w_item_id w = id) && bool_decide (w_mode w = TEMPORARY)
                          then Build_WatchRecord (w_item_id w) (w_mode w) (w_installed_fingerprint w)
                                 (w_candidate_fingerprint w) (w_armed w) (Some c)
                          else w
              | None => w
              end) <$> find_watch s id'.
Proof.
  destruct condition as [c|]; [|simpl; by destruct (find_watch s id')].
  apply (find_map_key w_item_id). intros w. by destruct (_ && _).
Qed.

Lemma with_condition_mode condition id s id' : mode_of (with_condition condition id s) id' = mode_of s id'.
Proof.
  unfold mode_of. rewrite with_condition_find. destruct (find_watch s id'); [|done]. simpl.
  destruct condition; [|done]. by destruct (_ && _).
Qed.

Lemma with_condition_valid condition id s :
  valid_state s -> (forall c, condition = Some c -> matches _ARCH_ITEM_ID id /\ valid_condition c) ->
  valid_state (with_condition condition id s).
Proof.
  intros Hs Hc. destruct condition as [c|]; [|done]. destruct Hs. constructor; simpl; try done.
  - rewrite <-list_fmap_compose. rewrite (list_fmap_ext _ w_item_id); [done|]. intros _ w _. simpl. by destruct (_ && _).
  - apply Forall_fmap. eapply Forall_impl; [exact vt_watches|]. intros w Hw. simpl.
    destruct (_ && _) eqn:E; [|done]. apply andb_true_iff in E as [Hid%bool_decide_eq_true Hm%bool_decide_eq_true].
    destruct Hw as [|i inst cand cond Hcond]; [done|]. simpl in Hid. subst i. constructor. intros c' [= <-]. by apply Hc.
Qed.

(** A condition of the command is one the state may hold. *)
Definition storable_condition (c : SetStarCommand) : Prop :=
  forall e, ss_condition c = Some e -> matches _ARCH_ITEM_ID (ss_item_id c) /\ valid_condition e.

(** A click goes through only when the client saw the mode that is stored: the mode it asks
    for is the next one. Then the watch has that mode, and the condition that was given,
    and nothing else changes. *)
Definition clicked (c : SetStarCommand) (s s' : PersistentState) : Prop :=
  ss_mode c = next_mode (mode_of s (ss_item_id c)) /\ mode_of s' (ss_item_id c) = ss_mode c
  /\ others_kept (ss_item_id c) s s'
  /\ (forall e, ss_condition c = Some e -> ss_mode c = TEMPORARY ->
        exists w, find_watch s' (ss_item_id c) = Some w /\ w_condition w = Some e)
  /\ (storable_condition c -> valid_state s').

Lemma star_mutation_clicked c s inventories snapshot s' :
  valid_state s -> star_mutation c s inventories snapshot = Ok s' -> clicked c s s'.
Proof.
  unfold star_mutation. intros Hs (cached & _ & H)%bind_Ok. apply bind_Ok in H as (u & Hu & H). simpl in Hu.
  cbv zeta in H. case_bool_decide as Hm; [done|]. apply Ok_inj in H as <-.
  pose proof (star_click_valid _ _ _ Hs Hu) as Hv. apply click_effect in Hu as [(H1 & H2 & H3) Hn]; [|done].
  rewrite with_condition_mode in Hm. split; [congruence|]. split; [by rewrite with_condition_mode|]. split; [|split].
  - split; [by destruct (ss_condition c)|]. split; [by destruct (ss_condition c)|]. intros id' Hne.
    rewrite with_condition_find, H3 by done. destruct (find_watch s id') as [w|] eqn:E; [|done]. simpl.
    apply find_watch_Some in E as [_ E]; [|done]. destruct (ss_condition c); [|done].
    rewrite (bool_decide_false (w_item_id w = _)) by congruence. done.
  - intros e He Ht. rewrite with_condition_find, He. unfold mode_of in Hm.
    destruct (find_watch u (ss_item_id c)) as [w|] eqn:E; simpl in Hm; [|congruence].
    apply find_watch_Some in E as [_ E]; [|done]. simpl. rewrite !bool_decide_true by congruence. by eexists.
  - intros Hc. by apply with_condition_valid.
Qed.

Lemma star_mutation_times c : keeps_range_with (star_mutation c).
Proof.
  intros s inventories snapshot s' Ht. unfold star_mutation. intros (cached & _ & H)%bind_Ok. apply bind_Ok in H as (u & Hu & H).
  cbv zeta in H. case_bool_decide; [done|]. apply Ok_inj in H as <-.
  assert (st_sources u = st_sources s /\ st_ledger u ⊆+ st_ledger s) as [Es El].
  { simpl in Hu. unfold _star_click, _click_existing_watch in Hu. cbn [click_item_id click_inventory require_current_inventory] in Hu.
    destruct (List.find _ (st_watches s)) as [w|].
    - destruct (w_mode w); [done | destruct (_ && _); [done|] |]; apply Ok_inj in Hu as <-; [done|].
      split; [done | apply filter_bool_submseteq].
    - destruct (List.find _ _) as [i|]; [|done]. destruct (ci_watchable i), (ci_installed_fingerprint i); try done.
      by apply Ok_inj in Hu as <-. }
  pose proof (with_ledger_times s _ El Ht) as H'. unfold state_times in *. cbn [st_ledger st_sources with_ledger] in H'. rewrite <-Es in H'. by destruct (ss_condition c).
Qed.

Lemma owner_no_reference k id : startswith (_owner_fingerprint k) (lit "watch-v1:" ++ id ++ lit ":") = false.
Proof. done. Qed.

Lemma references_keep_owners l id k :
  find_entry (_without_active_references l id) (_owner_fingerprint k) = find_entry l (_owner_fingerprint k).
Proof.
  unfold _without_active_references. cbv zeta. induction l as [|e l IH]; [done|]. cbn [List.filter].
  destruct (decide (e_fingerprint e = _owner_fingerprint k)) as [Ee|Ee].
  - rewrite Ee, owner_no_reference, andb_false_r. cbn [negb]. by rewrite !find_entry_cons, Ee, !bool_decide_true.
  - rewrite find_entry_cons, (bool_decide_false (e_fingerprint e = _)) by done.
    destruct (negb _); [|exact IH]. by rewrite find_entry_cons, (bool_decide_false (e_fingerprint e = _)).
Qed.

(** A click leaves the leases of the kinds alone: it is a [step_click] of the coordinators. *)
Lemma star_keeps_owners c s inventories snapshot s' k :
  star_mutation c s inventories snapshot = Ok s' -> _entry s' (_owner_fingerprint k) = _entry s (_owner_fingerprint k).
Proof.
  unfold star_mutation. intros (cached & _ & H)%bind_Ok. apply bind_Ok in H as (u & Hu & H).
  cbv zeta in H. case_bool_decide; [done|]. apply Ok_inj in H as <-.
  assert (_entry u (_owner_fingerprint k) = _entry s (_owner_fingerprint k)) as E.
  { simpl in Hu. unfold _star_click, _click_existing_watch in Hu. cbn [click_item_id click_inventory require_current_inventory] in Hu.
    destruct (List.find _ (st_watches s)) as [w|].
    - destruct (w_mode w); [done | destruct (_ && _); [done|] |]; apply Ok_inj in Hu as <-; [done|].
      apply references_keep_owners.
    - destruct (List.find _ _) as [i|]; [|done]. destruct (ci_watchable i), (ci_installed_fingerprint i); try done.
      by apply Ok_inj in Hu as <-. }
  rewrite <-E. by destruct (ss_condition c).
Qed.

(** ** A click, on disk *)

Section Clicks.
Context `{Iso : IsoDialect} (stack : nat) (Hstack : MAX_JSON_DEPTH < Z.of_nat stack).

Abbreviation sound := (sound stack).
Abbreviation state_in := (state_in stack).
Abbreviation view_eq := (view_eq stack).

Definition same_view (f f' : disk) : Prop := sound f' /\ view_eq f f'.

#[local] Instance same_view_change : Change stack same_view.
Proof.
  split.
  - intros f g Hf Hv. split; [by eapply view_sound | done].
  - intros f g h [_ H1] [Hh H2]. split; [done | by eapply view_trans].
  - by intros f g [? _].
Qed.

Definition paired (m : PersistentState -> res PersistentState) (s : PersistentState) : res (PersistentState * unit) :=
  p ← m s; Ok (p, tt).

(** The mutation was given some caches, and took place. *)
Definition updated_with (m : PersistentState -> list InventoryResponse -> option SnapshotResponse -> res PersistentState)
    (before p after : PersistentState) : Prop :=
  exists inventories snapshot, committed (paired (fun s => m s inventories snapshot)) before p tt after.

Lemma update_with_inventories_runs sources m w :
  answers w -> sound (durable w) -> keeps_range_with m ->
  runs (update_state_with_inventories stack sources m)
    (fun l f => same_scan stack (durable w) f /\ updated_with m (state_in (durable w)) (load_state_of l) (state_in f))
    (fun f => same_scan stack (durable w) f
              /\ (state_in f = state_in (durable w) \/ exists p, updated_with m (state_in (durable w)) p (state_in f))) w.
Proof using Hstack.
  intros Ha Hw Hm. unfold update_state_with_inventories.
  assert (forall f, view_eq (durable w) f -> same_scan stack (durable w) f /\ (state_in f = state_in (durable w)
            \/ exists p, updated_with m (state_in (durable w)) p (state_in f))) as Hsame.
  { intros f Hv. split; [by apply view_same_scan | left; apply Hv]. }
  apply runs_lock; [by apply Hsame | intros l f [? ?]; eauto |].
  intros w1 Hw1 Hs1. apply (same_answers _ _ Hs1) in Ha. rewrite <-Hw1 in *. clear Hw1 Hs1 w.
  eapply runs_bind_answers; [done | by apply load_for_update_runs | | by auto]. cbv beta.
  intros l w2 Ha2 [Hv [c1 Hc]]. pose proof (view_sound stack _ _ Hv Hw) as Hw2.
  eapply runs_bind_answers; [done | by apply (changes_read_caches stack answering same_view sources) | |]; cbv beta.
  2:{ intros f [_ H]. apply Hsame. by eapply view_trans. }
  intros inventories w3 Ha3 [Hw3 Hv3]. apply (view_trans _ _ _ _ Hv) in Hv3.
  eapply runs_bind_answers; [done | by apply (changes_read_caches stack answering same_view sources) | |]; cbv beta.
  2:{ intros f [_ H]. apply Hsame. by eapply view_trans. }
  intros snapshot w4 Ha4 [Hw4 Hv4]. apply (view_trans _ _ _ _ Hv3) in Hv4.
  apply runs_bind_lift; [|by apply Hsame]. intros p Hp.
  assert (Forall in_range (state_times p)) as Hpr.
  { eapply Hm; [|exact Hp]. eapply pruned_times; [exact Hc | apply Hw]. }
  assert (forall f, stored_as stack p (durable w4) f ->
            same_scan stack (durable w1) f /\ updated_with m (state_in (durable w1)) p (state_in f)) as Hdone.
  { intros f Hst. split; [eapply same_scan_trans; [by apply view_same_scan | by eapply stored_same_scan]|].
    destruct Hst as (_ & (c2 & Hc2) & _). exists inventories, snapshot, c1, c2, (load_state_of l).
    split; [done|]. split; [|done]. unfold paired. by rewrite Hp. }
  apply runs_bind. eapply wp_mono; [by apply write_state_runs | |]; cbv beta.
  - intros [] w5 H5. apply runs_ret. by apply Hdone.
  - intros e w5 [H5|H5]; [apply Hsame; by eapply view_trans|]. destruct (Hdone _ H5) as [Hs5 Hc5]. eauto.
Qed.

(** What a click does to the stored state. *)
Record star_done (c : SetStarCommand) (s s' : PersistentState) : Prop := {
  sd_seen : ss_mode c = next_mode (mode_of s (ss_item_id c));
  sd_mode : mode_of s' (ss_item_id c) = ss_mode c;
  sd_sources : st_sources s' = st_sources s;
  sd_others : forall id, id <> ss_item_id c -> find_watch s' id = find_watch s id;
  sd_condition : forall e, ss_condition c = Some e -> ss_mode c = TEMPORARY ->
    exists w, find_watch s' (ss_item_id c) = Some w /\ w_condition w = Some e;
}.

Lemma pruned_watch s t s' id : prune_ledger s t = Ok s' -> find_watch s' id = find_watch s id.
Proof. intros H. unfold find_watch. by destruct (pruned_only_ledger _ _ _ H) as [-> _]. Qed.

Lemma updated_star_done c s p s' :
  valid_state s -> updated_with (star_mutation c) s p s' ->
  star_done c s s' /\ forall id, find_watch s' id = find_watch p id.
Proof.
  intros Hs (invs & snap & c1 & c2 & l & Hl & Hm & Hp).
  unfold paired in Hm. apply bind_Ok in Hm as (u & Hu & E). apply Ok_inj in E. injection E as ->.
  pose proof (pruned_valid _ _ _ Hl Hs) as Hv.
  destruct (star_mutation_clicked c l invs snap p Hv Hu) as (H1 & H2 & (H3 & _ & H4) & H5 & _).
  assert (forall id, find_watch s' id = find_watch p id) as Ep by (intros; by eapply pruned_watch).
  assert (forall id, find_watch l id = find_watch s id) as El by (intros; by eapply pruned_watch).
  assert (mode_of l (ss_item_id c) = mode_of s (ss_item_id c)) as Em by (unfold mode_of; by rewrite El).
  split; [|done]. constructor.
  - by rewrite <-Em.
  - rewrite <-H2. unfold mode_of. by rewrite Ep.
  - destruct (pruned_only_ledger _ _ _ Hp) as [_ ->]. rewrite H3. by destruct (pruned_only_ledger _ _ _ Hl) as [_ ->].
  - intros id Hne. by rewrite Ep, <-El, H4.
  - intros e He Ht. rewrite Ep. by apply H5.
Qed.

(** C12. A click on a star, on disk: when it is answered, the stored watch moved one step, to
    the mode the client asked for, with the condition it gave; the answer says what is
    stored; no other watch changed, nor anything known of the sources, nor the published
    scan. When it fails, whichever call failed, nothing changed or that change is stored.
    It relies on [stat] to answer ([StorageSpec.unanswered_update]). *)
Theorem star_stored uuid c w :
  answers w -> sound (durable w) ->
  let '(w', r) := set_star stack uuid c w in
  same_scan stack (durable w) (durable w')
  /\ match r with
     | Ok answer => star_done c (state_in (durable w)) (state_in (durable w'))
                    /\ exists m, answer = RStar m (star_payload (state_in (durable w')) (ss_item_id c))
     | Err _ => state_in (durable w') = state_in (durable w)
                \/ star_done c (state_in (durable w)) (state_in (durable w'))
     end.
Proof using Hstack.
  intros Ha Hw. pose proof (update_with_inventories_runs _sources (star_mutation c) w Ha Hw (star_mutation_times c)) as H.
  pose proof (state_in_valid stack (durable w)) as Hv.
  unfold set_star, mbind, M_bind. unfold runs, wp in H.
  destruct (update_state_with_inventories stack _sources (star_mutation c) w) as [w1 [l|e]].
  - destruct H as (_ & Hs & Hu). apply updated_star_done in Hu as [Hd Ef]; [|done]. simpl. split; [done|]. split; [done|].
    eexists. f_equal. unfold star_payload, mode_of. by rewrite Ef.
  - destruct H as (_ & Hs & [Hu|[p Hu]]); split; auto. right. by apply updated_star_done in Hu as [Hd _].
Qed.
End Clicks.

(** ** Concrete inventories *)

(** [casefold] for ASCII text; it leaves the rest alone. *)
#[local] Program Instance ascii_fold : Casefold := {|
  casefold s := (fun c => if (65 <=? c)%N && (c <=? 90)%N then (c + 32)%N else c) <$> s;
|}.
Next Obligation. done. Qed.

Definition sample_query : InventoryCommand :=
  {| ic_source := IS_ARCH; ic_query := lit "OPEN"; ic_limit := 1; ic_offset := 0 |}.

Definition bare_item (name : string) : NormalizedItem :=
  {| item_id := lit "arch:" ++ lit name; item_source := IS_ARCH; label := lit name; installed := Some (lit "1-1");
     candidate := None; watch_mode := OFF; watchable := true; item_provenance := LIVE; installed_fingerprint := None;
     candidate_fingerprint := None; watch_armed := false |}.

Definition sample_cached : InventoryResponse :=
  {| inv_meta := sample_meta;
     inv_payload := {| inv_source := IS_ARCH; inv_total := 3;
                       inv_items := [bare_item "Openal"; bare_item "linux"; bare_item "openssl"] |} |}.

Lemma sample_cached_valid : valid_response (RInventory sample_cached).
Proof. apply validate_response_spec. vm_compute. reflexivity. Qed.

Lemma sample_query_valid : valid_command (CInventory sample_query).
Proof. split; [done|]. vm_compute. split_and!; congruence. Qed.

Lemma overlay_shows_watches_witness :
  let shown := _overlay_snapshot sample_snapshot (st_watches sample_state) in
  valid_response (RSnapshot shown) /\ watch_mode <$> items (snap_payload shown) = [TEMPORARY].
Proof.
  destruct (overlay_shows_watches sample_snapshot sample_state) as (H & E & _).
  - apply validate_response_spec. vm_compute. reflexivity.
  - apply sample_state_valid.
  - split; [exact H | rewrite E; vm_compute; reflexivity].
Defined.

Lemma inventory_page_valid_witness :
  let page := inventory_page sample_cached (st_watches sample_state) sample_query in
  valid_response (RInventory page)
  /\ (fun i => (label i, watch_mode i)) <$> inv_items (inv_payload page) = [(lit "openssl", TEMPORARY)].
Proof.
  intros page. split; [|vm_compute; reflexivity].
  apply (inventory_page_valid sample_cached sample_state sample_query); auto using sample_cached_valid, sample_state_valid, sample_query_valid.
  intros w [->|[->|H%elem_of_nil]%elem_of_cons]%elem_of_cons _; [vm_compute; split; congruence.. | done].
Defined.

(** Two pages of one item: the watched one is first. *)
Lemma pages_complete_witness :
  let all := first_pages sample_cached (st_watches sample_state) sample_query 2 in
  label <$> all = [lit "openssl"; lit "Openal"] /\ StronglySorted comes_before all
  /\ forall x, x ∈ all <-> shown_item sample_cached sample_state IS_ARCH x /\ asked_for (lit "OPEN") x.
Proof.
  destruct (pages_complete sample_cached sample_state sample_query 2) as (H1 & _ & H3 & _).
  - apply sample_cached_valid.
  - apply sample_state_valid.
  - apply sample_query_valid.
  - vm_compute. congruence.
  - split; [vm_compute; reflexivity|]. split; [exact H3 | exact H1].
Defined.

Definition cached_world : world := (save_inventory (Iso:=fun _ => None) 101 sample_cached sample_world).1.

(** Off, then temporary: the item of the cached inventory is watched. *)
Lemma star_stored_witness :
  let click := {| ss_item_id := lit "arch:linux"; ss_mode := TEMPORARY; ss_condition := None |} in
  match set_star (Iso:=fun _ => None) 101 (fun _ => lit "0") click cached_world with
  | (w', Ok answer) => mode_of (state_in (Iso:=fun _ => None) 101 (durable w')) (lit "arch:linux") = TEMPORARY
      /\ exists m, answer = RStar m (star_payload (state_in (Iso:=fun _ => None) 101 (durable w')) (lit "arch:linux"))
  | _ => False
  end.
Proof.
  intros click. pose proof (star_stored (Iso:=fun _ => None) 101 eq_refl (fun _ => lit "0") click cached_world) as H.
  assert (is_ok (set_star (Iso:=fun _ => None) 101 (fun _ => lit "0") click cached_world).2 = true) as E
    by (vm_compute; reflexivity).
  destruct (set_star _ _ _ _) as [w' [answer|e]]; [|discriminate E].
  destruct H as [_ [Hd Ha]]; [| |split; [exact (sd_mode _ _ _ Hd) | exact Ha]].
  - intros i. vm_compute. reflexivity.
  - apply unread_sound; reflexivity.
Defined.
