(* ===== verification/Cli.v ===== *)
(** * The command line

    [cli.py]: the arguments become a command, the command a response, whatever happens,
    and the response the line that is written. *)

From S2P Require Import Prelude PyStr Regex Calendar Models Samples Json JsonText Utf8 Validation Wire Codec Protocol RunnerTypes Arch.
From S2P Require Import StorageWatches StorageState StateFile StateStore Stars ScanResolution Generation StorageIO Storage StorageSpec.
From S2P Require Import DiskStore CacheSpec NotificationPolicy Notifications Scan CliRequests CliOperations.

Open Scope Z_scope.

Definition EXIT_ERROR : Z := 2.

(** The clauses of [_response]: the code and the message of each exception. Nothing is
    answered by a process that was killed. *)
Definition boundary (e : exn) : option ErrorInfo :=
  let answer c m := Some {| code := c; message := m |} in
  match e with
  | CliUsageError msg => answer CLI_USAGE msg
  | WatchTransitionError reason => answer STATE_UNAVAILABLE reason
  | CliUnavailableError _ | StateSchemaIncompatible _ | StoragePathError _ =>
      answer STATE_UNAVAILABLE (lit "validated state is unavailable")
  | ProtocolError _ => answer STATE_UNAVAILABLE (lit "validated state is unavailable")
  | Killed => None
  | _ => answer STATE_UNAVAILABLE (lit "helper operation failed")
  end.

Section Main.
Context `{Iso : IsoDialect} `{Fold : Casefold} (stack : nat) (Hstack : MAX_JSON_DEPTH < Z.of_nat stack).
Context (notify : CommandRunner) (collector : ScanCollector) (token : NotificationKind -> str) (uuid : string -> str).
Context (environment : Environment).

Definition _error (error : ErrorInfo) : M Response :=
  now ← clock;
  ret (RError {| generated_at := now; generation_id := identified uuid "cli"; protocol_version_of := PROTOCOL_VERSION |} error).

Definition _response (arguments : list str) : M Response := fun w =>
  match (c ← lift (parse_command arguments);
         execute stack Hstack notify collector token uuid environment c) w with
  | (w', Ok r) => (w', Ok r)
  | (w', Err e) => match boundary e with
                   | Some error => _error error w'
                   | None => (w', Err e)
                   end
  end.

(** What is written to the standard output, and the exit status. *)
Definition main (arguments : list str) : M (bytes * Z) :=
  response ← _response arguments;
  line ← lift (encode_response response);
  ret (line, match response with RError _ _ => EXIT_ERROR | _ => 0 end).
End Main.

(** ** Errors can always be written *)

(** [uuid4().hex] *)
Definition hexadecimal (s : str) : Prop :=
  length s = 32%nat /\ Forall (fun c => is_digit c = true \/ (97 <= c <= 102)%N) s.

Lemma hexadecimal_ascii s : hexadecimal s -> isascii s = true.
Proof.
  intros [_ H]. unfold isascii. rewrite forallb_Forall. eapply Forall_impl; [exact H|]. intros c Hc. apply N.leb_le.
  unfold is_digit in Hc. rewrite andb_true_iff, !N.leb_le in Hc. lia.
Qed.

Lemma isascii_app s t : isascii (s ++ t) = isascii s && isascii t.
Proof. apply forallb_app. Qed.

Lemma hex_char_ascii n : (n < 16)%N -> isascii [hex_char n] = true.
Proof.
  intros Hn. assert (forallb (fun n => isascii [hex_char n]) (N.of_nat <$> seq 0 16) = true) as H by (vm_compute; reflexivity).
  rewrite forallb_Forall, Forall_forall in H. apply H, list_elem_of_fmap. exists (N.to_nat n).
  rewrite N2Nat.id, elem_of_seq. lia.
Qed.

Lemma escape_char_ascii c : (c <= 127)%N -> isascii (escape_char c) = true /\ (length (escape_char c) <= 6)%nat.
Proof.
  intros Hc. unfold escape_char. repeat case_match; try (by split; [|simpl; lia]).
  - split; [|simpl; lia]. assert (c < 32)%N by (by apply N.ltb_lt).
    change [hex_char (c / 16); hex_char (c mod 16)] with ([hex_char (c / 16)] ++ [hex_char (c mod 16)]).
    rewrite !isascii_app, !hex_char_ascii; [done | by apply N.mod_lt | by apply N.Div0.div_lt_upper_bound; lia].
  - split; [|simpl; lia]. simpl. rewrite andb_true_r. by apply N.leb_le.
Qed.

Lemma quote_ascii s : isascii s = true -> isascii (quote s) = true /\ len (quote s) <= 6 * len s + 2.
Proof.
  unfold quote. intros H. assert (isascii (s ≫= escape_char) = true /\ len (s ≫= escape_char) <= 6 * len s) as [Ha Hl].
  { induction s as [|c s IH]; [done|]. change (c :: s) with ([c] ++ s) in H. rewrite isascii_app in H.
    apply andb_true_iff in H as [Hc [IH1 IH2]%IH]. simpl in Hc. rewrite andb_true_r in Hc. apply N.leb_le in Hc.
    apply escape_char_ascii in Hc as [Hc1 Hc2]. csimpl. rewrite isascii_app, Hc1, IH1. split; [done|].
    unfold len in *. rewrite length_app. simpl length in *. lia. }
  change (34%N :: (s ≫= escape_char) ++ [34%N]) with ([34%N] ++ (s ≫= escape_char) ++ [34%N]).
  rewrite !isascii_app, Ha. split; [done|]. unfold len in *. rewrite !length_app. simpl length. lia.
Qed.

Lemma timestamp_ascii d : dt_utc d = true -> isascii (timestamp_text d) = true /\ len (timestamp_text d) = 27.
Proof.
  destruct d as [us u]. simpl. intros ->. rewrite timestamp_text_utc. split.
  - rewrite isascii_app. unfold iso_body. destruct (iso_fields us) as [[[y mo] da] [[[h mi] s] m]].
    assert (forall w n, isascii (fixed w n) = true) as Hf.
    { intros w n. pose proof (fixed_digits w n) as H. unfold isascii. rewrite forallb_Forall in *.
      eapply Forall_impl; [exact H|]. intros c. unfold is_digit. rewrite andb_true_iff, !N.leb_le. lia. }
    rewrite !isascii_app, !Hf. done.
  - unfold len. rewrite length_app, length_iso_body. done.
Qed.

Definition object_text (fields : list (str * str)) : str :=
  lit "{" ++ join (lit ",") ((fun kt => quote kt.1 ++ lit ":" ++ kt.2) <$> fields) ++ lit "}".

(** The line of a usage error. *)
Lemma usage_error_text ts id msg :
  dumps (JObj [(lit "error", Wire._error {| code := CLI_USAGE; message := msg |}); (lit "generatedAt", JStr ts);
               (lit "generationId", JStr id); (lit "kind", JEnum RK_ERROR); (lit "protocolVersion", JInt PROTOCOL_VERSION)])
  = Ok (object_text
          [(lit "error", object_text [(lit "code", quote (value CLI_USAGE)); (lit "message", quote msg)]);
           (lit "generatedAt", quote ts); (lit "generationId", quote id); (lit "kind", quote (value RK_ERROR));
           (lit "protocolVersion", str_of_Z PROTOCOL_VERSION)]).
Proof. reflexivity. Qed.

Definition fields_size (fields : list (str * str)) : Z := foldr (fun kt z => 6 * len kt.1 + len kt.2 + 4 + z) 2 fields.

Lemma object_text_ascii fields :
  Forall (fun kt => isascii kt.1 = true /\ isascii kt.2 = true) fields ->
  isascii (object_text fields) = true /\ len (object_text fields) <= fields_size fields.
Proof.
  intros H. unfold object_text. set (l := _ <$> fields).
  assert (isascii (join (lit ",") l) = true /\ len (join (lit ",") l) + 2 <= fields_size fields) as [Ha Hl].
  { unfold l. clear l. induction H as [|[k t] fields [Hk Ht] H [IH1 IH2]]; [done|]. simpl in Hk, Ht.
    apply quote_ascii in Hk as [Hk Hkl]. rewrite fmap_cons. cbn [fields_size foldr fst snd].
    fold (fields_size fields). set (m := _ <$> fields) in *. destruct m as [|x m].
    - cbn [join]. rewrite !isascii_app, Hk, Ht. split; [done|].
      change (len (join (lit ",") [])) with 0 in IH2.
      lengths.
    - change (join (lit ",") ((quote k ++ lit ":" ++ t) :: x :: m))
        with ((quote k ++ lit ":" ++ t) ++ lit "," ++ join (lit ",") (x :: m)).
      rewrite !isascii_app, Hk, Ht, IH1. split; [done|].
      lengths. }
  rewrite !isascii_app, Ha. split; [done|]. lengths.
Qed.

(** An error of the command line that can be written: one line, that says what it says. *)
Lemma usage_error_encodes m msg :
  dt_utc (generated_at m) = true -> protocol_version_of m = PROTOCOL_VERSION ->
  isascii (generation_id m) = true -> short_text (generation_id m) ->
  isascii msg = true -> bounded_text MAX_ERROR_MESSAGE_LENGTH msg ->
  exists line, encode_response (RError m {| code := CLI_USAGE; message := msg |}) = Ok line.
Proof.
  intros Ht Hp Hi Hl Hm Hml. unfold encode_response, _encode_json, response_value.
  assert (validate_response (RError m {| code := CLI_USAGE; message := msg |}) = Ok tt) as ->.
  { apply validate_response_spec. by split. }
  rewrite bind_Ok_l. unfold _error_envelope. rewrite timestamp_utc, bind_Ok_l, bind_Ok_l, Hp by done.
  unfold dump_line. rewrite usage_error_text, bind_Ok_l.
  destruct (timestamp_ascii _ Ht) as [Hta Htl]. destruct (quote_ascii _ Hta) as [Hq1 Hq1l].
  destruct (quote_ascii _ Hi) as [Hq2 Hq2l]. destruct (quote_ascii _ Hm) as [Hq3 Hq3l].
  unfold bounded_text, MAX_ERROR_MESSAGE_LENGTH, MAX_IDENTIFIER_LENGTH in *.
  destruct (object_text_ascii [(lit "code", quote (value CLI_USAGE)); (lit "message", quote msg)]) as [He Hel];
    [by repeat constructor|].
  set (error := object_text [_; _]) in *.
  assert (len error <= 4000) as Herr.
  { etransitivity; [exact Hel|]. cbn [fields_size foldr fst snd]. change (len (quote (value CLI_USAGE))) with 11.
    change (len (lit "code")) with 4. change (len (lit "message")) with 7. lia. }
  match goal with |- context [object_text ?l] => destruct (object_text_ascii l) as [Ha Hal]; [by repeat constructor|];
    set (text := object_text l) in * end.
  rewrite encode_ascii by (unfold isascii in Ha; rewrite forallb_Forall in Ha; eapply Forall_impl; [exact Ha|];
    intros c; apply N.leb_le).
  rewrite !bind_Ok_l. destruct (Z.leb_spec MAX_PROTOCOL_BYTES (len (text ++ [10%N]))) as [Hbig|]; [|by eexists].
  exfalso. cbn [fields_size foldr fst snd] in Hal. unfold MAX_PROTOCOL_BYTES in Hbig.
  change (len (quote (value RK_ERROR))) with 7 in Hal. change (len (str_of_Z PROTOCOL_VERSION)) with 1 in Hal.
  change (len (lit "error")) with 5 in Hal. change (len (lit "generatedAt")) with 11 in Hal.
  change (len (lit "generationId")) with 12 in Hal. change (len (lit "kind")) with 4 in Hal.
  change (len (lit "protocolVersion")) with 15 in Hal.
  unfold len in *. rewrite length_app in Hbig. change (length [10%N]) with 1%nat in Hbig. lia.
Qed.

(** ** The messages of usage errors *)

Definition usage_messages : list str := names
  ["unsupported helper command or arguments"; "inventory source is unsupported"; "inventory query is invalid";
   "inventory pagination is invalid"; "item ID is invalid"; "watch mode is invalid"; "notification setting is invalid";
   "notification severity is invalid"; "conditional watch item ID must be canonical Arch";
   "conditional watch evidence is invalid"].

Definition known_usage (e : exn) : Prop := exists msg, e = CliUsageError msg /\ msg ∈ usage_messages.

Lemma usage_known {A} msg : lit msg ∈ usage_messages -> raises known_usage (usage msg : res A).
Proof. intros H e [= <-]. by exists (lit msg). Qed.

#[local] Hint Extern 1 (raises known_usage (usage _)) =>
  apply usage_known; apply (bool_decide_unpack _); vm_compute; exact I : raises.

Lemma security_condition_known adv cves fixed : raises known_usage (_security_condition adv cves fixed).
Proof.
  unfold _security_condition, security_fix_condition. intros e.
  destruct (_validate_condition _) as [[]|x] eqn:E; cbn; [done|].
  apply validate_condition_raises in E as [r ->]. apply usage_known, (bool_decide_unpack _). vm_compute. exact I.
Qed.
#[local] Hint Resolve security_condition_known : raises.

Lemma parse_command_known l : raises known_usage (parse_command l).
Proof.
  unfold parse_command, _scan_command, _notification_settings, _boolean, _notification_severity, _inventory_source, _query,
    _limit, _offset, _decimal, _arch_item_id, _item_id, _watch_mode, unsupported. solve_raises.
Qed.

Lemma usage_messages_short msg :
  msg ∈ usage_messages -> isascii msg = true /\ bounded_text MAX_ERROR_MESSAGE_LENGTH msg.
Proof.
  assert (forallb (fun m => isascii m && (1 <=? len m) && (len m <=? MAX_ERROR_MESSAGE_LENGTH)) usage_messages = true) as H
    by (vm_compute; reflexivity).
  rewrite forallb_Forall, Forall_forall in H. intros [[H1 H2]%andb_true_iff H3]%H%andb_true_iff.
  split; [done|]. by split; apply Z.leb_le.
Qed.

(** ** The answers *)

Section Answers.
Context `{Iso : IsoDialect} `{Fold : Casefold} (stack : nat) (Hstack : MAX_JSON_DEPTH < Z.of_nat stack).
Context (notify : CommandRunner) (collector : ScanCollector) (token : NotificationKind -> str) (uuid : string -> str).
Context (environment : Environment) (Huuid : hexadecimal (uuid "cli")).

Abbreviation main := (main stack Hstack notify collector token uuid environment).
Abbreviation _response := (_response stack Hstack notify collector token uuid environment).

(** C31. Arguments the helper does not understand are answered: it writes one line, which
    says what is wrong with them, exits with 2, and has touched no file. *)
Theorem usage_answered arguments e w :
  parse_command arguments = Err e -> dt_utc (w_clock w (w_readings w)) = true ->
  exists msg line,
    e = CliUsageError msg
    /\ (main arguments w).2 = Ok (line, EXIT_ERROR)
    /\ w_files (main arguments w).1 = w_files w
    /\ decode_response stack line
       = Ok (RError {| generated_at := w_clock w (w_readings w); generation_id := lit "cli-" ++ uuid "cli";
                       protocol_version_of := PROTOCOL_VERSION |} {| code := CLI_USAGE; message := msg |}).
Proof using Huuid.
  intros He Hu. destruct (parse_command_known arguments e He) as (msg & -> & Hmsg%usage_messages_short).
  set (m := {| generated_at := w_clock w (w_readings w); generation_id := identified uuid "cli";
               protocol_version_of := PROTOCOL_VERSION |}).
  destruct (usage_error_encodes m msg Hu eq_refl) as [line Hline]; try apply Hmsg.
  - unfold m, identified. cbn [generation_id]. by rewrite !isascii_app, (hexadecimal_ascii _ Huuid).
  - unfold m, identified, bounded_text, len. cbn [generation_id]. rewrite !length_app, (proj1 Huuid). by vm_compute.
  - exists msg, line. split; [done|].
    assert (main arguments w = ((clock w).1, Ok (line, EXIT_ERROR))) as ->.
    { assert (_response arguments w = ((clock w).1, Ok (RError m {| code := CLI_USAGE; message := msg |}))) as Hr.
      { unfold Cli._response, mbind, M_bind, lift. by rewrite He. }
      unfold Cli.main, mbind, M_bind, lift. by rewrite Hr, Hline. }
    split; [done|]. split; [done|]. apply (response_bytes_inverse stack _ line); [|done|done].
    constructor; [apply w_clock_range | constructor].
Qed.
End Answers.

(** ** One answer, and one that is missing *)

#[local] Existing Instance ascii_fold.

Definition sample_environment : Environment := {| env_home := lit "/home/user"; env_state := None; env_cache := Some [] |}.
Definition sample_uuid (prefix : string) : str := lit "0123456789abcdef0123456789abcdef".

Definition sample_main (arguments : list string) (w : world) : world * res (bytes * Z) :=
  main (Iso:=fun _ => None) 101 eq_refl sample_run sample_collector value sample_uuid sample_environment
    (names arguments) w.

Lemma usage_answered_witness :
  exists line, (sample_main ["inventory"; "--all"] sample_world).2 = Ok (line, EXIT_ERROR)
    /\ decode_response (Iso:=fun _ => None) 101 line
       = Ok (RError {| generated_at := sample_later; generation_id := lit "cli-" ++ sample_uuid "cli";
                       protocol_version_of := PROTOCOL_VERSION |}
               {| code := CLI_USAGE; message := lit "unsupported helper command or arguments" |}).
Proof.
  destruct (usage_answered (Iso:=fun _ => None) 101 eq_refl sample_run sample_collector value sample_uuid sample_environment)
    with (arguments := names ["inventory"; "--all"]) (w := sample_world)
         (e := CliUsageError (lit "unsupported helper command or arguments")) as (msg & line & E & H & _ & Hd).
  - split; [reflexivity|]. unfold sample_uuid. repeat (apply List.Forall_cons; [first [left; reflexivity | right; vm_compute; split; congruence]|]). apply List.Forall_nil.
  - reflexivity.
  - reflexivity.
  - exists line. split; [exact H|]. rewrite Hd. injection E as <-. reflexivity.
Defined.

(** A page of the inventory, with the watches of the state. *)
Example inventory_answered :
  (fun r => r.2) <$> (sample_main ["inventory"; "--source"; "arch"; "--query"; EmptyString; "--limit"; "10"; "--offset"; "0"]
    cached_world).2 = Ok 0.
Proof. vm_compute. reflexivity. Qed.

(** [main] encodes the response after the clauses that turn exceptions into errors: a
    permanent watch with an identifier that is too long for a response, which the state may
    hold, makes every inventory of its source end in an exception. *)
Definition long_watch : PersistentState := {|
  st_watches := [{| w_item_id := lit "arch:" ++ replicate 130 97%N; w_mode := PERMANENT; w_installed_fingerprint := None;
                    w_candidate_fingerprint := None; w_armed := false; w_condition := None |}];
  st_ledger := []; st_sources := [] |}.

Lemma response_escapes :
  validate_state long_watch = Ok tt
  /\ (let w := (save_state (Iso:=fun _ => None) 101 long_watch cached_world).1 in
      match (sample_main ["inventory"; "--source"; "arch"; "--query"; EmptyString; "--limit"; "10"; "--offset"; "0"] w).2 with
      | Err (ProtocolError info) => code info = INVALID_TYPE
      | _ => False
      end).
Proof. split; vm_compute; reflexivity. Qed.
