(* ===== verification/Tooling.v ===== *)
(** * What the release scripts share

    Their errors, the commands they run, and [json.loads] without hooks. A script is a
    function of the world its commands act on; the world is a parameter. *)

From S2P Require Import Prelude PyStr Models Json JsonText.

Open Scope Z_scope.

(** [BacklogError] of [publication_model.py], [PublicationError] of [publish_repository.py],
    [VerifierError] of [publication_verifier_model.py], and what else may be raised. *)
Inductive tool_error :=
| BacklogError (reason : str)
| PublicationError (reason : str)
| VerifierError (reason : str)
| Raised (e : exn).

Abbreviation tool := (outcome tool_error).

(** [CommandResult] of the scripts: what a command ended with and printed. *)
Record ToolResult := { tr_returncode : Z; tr_stdout : str; tr_stderr : str }.

Section Runs.
Context {W : Type}.

(** A script over a world of type [W]. *)
Definition Script (A : Type) : Type := W -> W * tool A.

#[global] Instance Script_ret : MRet Script := fun A a w => (w, Ok a).
#[global] Instance Script_bind : MBind Script := fun A B k m w =>
  match m w with
  | (w', Ok a) => k a w'
  | (w', Err e) => (w', Err e)
  end.

(** A step that runs no command. *)
Definition pure {A} (m : tool A) : Script A := fun w => (w, m).

(** [for x in l: f(x)] *)
Fixpoint each {A} (f : A -> Script unit) (l : list A) : Script unit :=
  match l with
  | [] => mret tt
  | x :: rest => _ ← f x; each f rest
  end.
End Runs.
Arguments Script : clear implicits.

(** ** [json.loads] without hooks *)

(** [d[k] = v]: the place of a key is where it came first. *)
Fixpoint dict_set (d : dict) (k : str) (v : json) : dict :=
  match d with
  | [] => [(k, v)]
  | (k', v') :: rest => if bool_decide (k = k') then (k, v) :: rest else (k', v') :: dict_set rest k v
  end.

(** [dict(pairs)] *)
Definition dict_of (pairs : dict) : dict := foldl (fun d kv => dict_set d kv.1 kv.2) [] pairs.

(** [json.loads(text)]; [stack] is how deep the interpreter can recurse. *)
Definition plain_loads (stack : nat) (text : str) : res json :=
  if startswith text [0xFEFF%N] then Err JSONDecodeError
  else
    '(v, r) ← scan_with (fun pairs => Ok (dict_of pairs)) (fun name => Ok (JFloat name)) stack (skip_ws text);
    match skip_ws r with [] => Ok v | _ => Err JSONDecodeError end.

Example plain_duplicate :
  plain_loads 10 (lit "{" ++ [34%N] ++ lit "a" ++ [34%N] ++ lit ":1, " ++ [34%N] ++ lit "a" ++ [34%N] ++ lit ":[NaN]}")
  = Ok (JObj [(lit "a", JList [JFloat (lit "NaN")])]).
Proof. vm_compute. reflexivity. Qed.
