(* ===== verification/Backlog.v ===== *)
(** * The backlog and the issues of the roadmap

    [publication_model.py]: the entries of the backlog are read from Markdown, the issues
    from what GitHub prints, and both sets are compared. *)

From S2P Require Import Prelude PyStr Models Json JsonText Tooling.

Open Scope Z_scope.

Definition REQUIRED_SECTIONS : list str :=
  names ["Value"; "Scope"; "Safety constraints"; "Dependencies"; "Acceptance criteria"; "Non-goals"; "Labels"].
Definition REQUIRED_LABELS : gset str := list_to_set (names ["enhancement"; "roadmap"]).

Record RoadmapItem := { slug : str; title : str; issue_body : str; rm_labels : gset str }.

Record ExistingIssue := { ei_slug : str; ei_url : str; ei_labels : gset str }.

Record IssueSetComparison := {
  missing : gset str;
  unexpected : gset str;
  duplicate : gset str;
  missing_labels : gset str;
}.

Definition can_seed (c : IssueSetComparison) : bool :=
  bool_decide (unexpected c = ∅) && bool_decide (duplicate c = ∅) && bool_decide (missing_labels c = ∅).

(** ** The two patterns

    In both each part ends where the next one must begin, so that there is one way to match
    at a place. *)

(** [[a-z0-9-]] *)
Definition slug_char (c : N) : bool := (((97 <=? c) && (c <=? 122)) || is_digit c || (c =? 45))%N.
Definition not_newline (c : N) : bool := negb (c =? 10)%N.

(** The longest prefix of such characters, and the rest. *)
Fixpoint span (p : N -> bool) (s : str) : str * str :=
  match s with
  | [] => ([], [])
  | c :: rest => if p c then let q := span p rest in (c :: q.1, q.2) else ([], s)
  end.

Definition nonempty (s : str) : option unit := match s with [] => None | _ => Some tt end.

(** The text after a prefix. *)
Definition past (p s : str) : option str := if startswith s p then Some (drop (length p) s) else None.

(** The text before the first place where [p] is, and after it. *)
Fixpoint until (p s : str) : option (str * str) :=
  match past p s with
  | Some rest => Some ([], rest)
  | None => match s with [] => None | c :: s' => q ← until p s'; Some (c :: q.1, q.2) end
  end.

Definition newline : str := [10%N].

(** A match of [ENTRY_PATTERN] at the start of a text: its slug, title and body, and the
    text after it. *)
Definition entry_match (s : str) : option (str * str * str * str) :=
  s ← past (lit "<!-- opatchy-roadmap: ") s;
  let '(slug, s) := span slug_char s in
  _ ← nonempty slug;
  s ← past (lit " -->" ++ newline ++ lit "## ") s;
  let '(title, s) := span not_newline s in
  _ ← nonempty title;
  s ← past newline s;
  '(body, rest) ← until (lit "<!-- /opatchy-roadmap -->") s;
  Some (slug, title, body, rest).

(** [ENTRY_PATTERN.finditer]; [skip] counts the characters of a match that are passed. *)
Fixpoint entries (s : str) (skip : nat) : list (str * str * str) :=
  match s with
  | [] => []
  | _ :: s' =>
      match skip with
      | S k => entries s' k
      | O => match entry_match s with
             | Some (slug, title, body, rest) => (slug, title, body) :: entries s' (length s' - length rest)
             | None => entries s' O
             end
      end
  end.

Definition slug_open : str := lit "<!-- opatchy-roadmap-slug: ".
Definition slug_close : str := lit " -->".

(** A match of [SLUG_PATTERN] at the start of a text. *)
Definition slug_match (s : str) : option str :=
  s ← past slug_open s;
  let '(slug, s) := span slug_char s in
  _ ← nonempty slug; _ ← past slug_close s; Some slug.

(** [SLUG_PATTERN.search] *)
Fixpoint slug_search (s : str) : option str :=
  match slug_match s with
  | Some slug => Some slug
  | None => match s with [] => None | _ :: s' => slug_search s' end
  end.

(** ** The backlog *)

(** The line after the first heading of the labels that has one. *)
Fixpoint labels_match (s : str) : option str :=
  match (s' ← past (lit "## Labels" ++ newline) s; let line := (span not_newline s').1 in _ ← nonempty line; Some line) with
  | Some line => Some line
  | None => match s with [] => None | _ :: s' => labels_match s' end
  end.

Definition parse_labels (slug body : str) : tool (gset str) :=
  match labels_match body with
  | None => Err (BacklogError (lit "roadmap entry " ++ slug ++ lit " has no labels"))
  | Some line =>
      let labels : gset str := list_to_set (strip <$> split line (lit ",")) in
      if bool_decide (labels = REQUIRED_LABELS) then Ok labels
      else Err (BacklogError (lit "roadmap entry " ++ slug ++ lit " must use roadmap and enhancement labels"))
  end.

Definition heading (section : str) : str := lit "## " ++ section ++ newline.

Definition marker (slug : str) : str := slug_open ++ slug ++ slug_close.

Definition parse_entry (m : str * str * str) : tool RoadmapItem :=
  let '(slug, title, body) := m in
  let title := strip title in
  let body := strip body in
  _ ← raise_if (bool_decide (title = [])) (BacklogError (lit "roadmap entry " ++ slug ++ lit " has no title"));
  let missing_sections := List.filter (fun section => negb (contains body (heading section))) REQUIRED_SECTIONS in
  _ ← raise_if (bool_decide (missing_sections <> []))
        (BacklogError (lit "roadmap entry " ++ slug ++ lit " misses: " ++ join (lit ", ") missing_sections));
  labels ← parse_labels slug body;
  Ok {| slug := slug; title := title;
        issue_body := marker slug ++ newline ++ newline ++ lit "# [" ++ slug ++ lit "] " ++ title
                      ++ newline ++ newline ++ body ++ newline;
        rm_labels := labels |}.

(** The members that occur more than once, and [sorted] of a set of them. *)
Definition repeated (l : list str) : list str := List.filter (fun s => (1 <? count_occ (fun x y => decide (x = y)) l s)%nat) l.
Definition in_order (l : list str) : list str := sorted_by_key id (remove_dups l).

Definition parse_backlog (markdown : str) : tool (list RoadmapItem) :=
  match entries markdown 0 with
  | [] => Err (BacklogError (lit "backlog has no roadmap entries"))
  | matches =>
      items ← mapM parse_entry matches;
      match repeated (slug <$> items) with
      | [] => Ok items
      | duplicates => Err (BacklogError (lit "backlog has duplicate slugs: " ++ join (lit ", ") (in_order duplicates)))
      end
  end.

(** ** The issues *)

Definition invalid_issue {A} : tool A := Err (BacklogError (lit "GitHub issue response contains an invalid issue")).

(** [case {"key": str(value)}] *)
Definition text_at (d : dict) (key : string) : option str :=
  match dict_get d (lit key) with Some (JStr s) => Some s | _ => None end.

Definition is_roadmap (entry : json) : tool bool :=
  match entry with
  | JObj d =>
      match text_at d "body" with
      | Some body => Ok (match slug_search body with Some _ => true | None => false end)
      | None => invalid_issue
      end
  | _ => invalid_issue
  end.

Definition remote_label (label : json) : tool str :=
  match label with
  | JObj d => match text_at d "name" with
              | Some name => Ok name
              | None => Err (BacklogError (lit "GitHub issue response contains an invalid label"))
              end
  | _ => Err (BacklogError (lit "GitHub issue response contains an invalid label"))
  end.

Definition parse_remote_labels (labels : list json) : tool (gset str) :=
  list_to_set <$> mapM remote_label labels.

Definition parse_existing_issue (entry : json) : tool ExistingIssue :=
  match entry with
  | JObj d =>
      match text_at d "body", text_at d "url", dict_get d (lit "labels") with
      | Some body, Some url, Some (JList labels) =>
          match slug_search body with
          | None => Err (BacklogError (lit "roadmap issue lacks its slug marker"))
          | Some found => labels ← parse_remote_labels labels; Ok {| ei_slug := found; ei_url := url; ei_labels := labels |}
          end
      | _, _, _ => invalid_issue
      end
  | _ => invalid_issue
  end.

(** The generator of [parse_existing_issues]: an entry is parsed before the next is looked
    at. *)
Fixpoint existing_issues (entries : list json) : tool (list ExistingIssue) :=
  match entries with
  | [] => Ok []
  | entry :: rest =>
      roadmap ← is_roadmap entry;
      if roadmap : bool
      then issue ← parse_existing_issue entry; issues ← existing_issues rest; Ok (issue :: issues)
      else existing_issues rest
  end.

Definition parse_existing_issues (stack : nat) (document : str) : tool (list ExistingIssue) :=
  match plain_loads stack document with
  | Ok (JList l) => existing_issues l
  | Ok _ => Err (BacklogError (lit "GitHub issue response must be an array"))
  | Err JSONDecodeError => Err (BacklogError (lit "GitHub issue response is invalid JSON"))
  | Err e => Err (Raised e)
  end.

Definition compare_issue_sets (expected : list RoadmapItem) (existing : list ExistingIssue) : IssueSetComparison :=
  let expected_slugs : gset str := list_to_set (slug <$> expected) in
  let slugs := ei_slug <$> existing in
  let existing_slugs : gset str := list_to_set slugs in
  {| missing := expected_slugs ∖ existing_slugs;
     unexpected := existing_slugs ∖ expected_slugs;
     duplicate := list_to_set (repeated slugs);
     missing_labels :=
       list_to_set (ei_slug <$> List.filter (fun i => negb (bool_decide (REQUIRED_LABELS ⊆ ei_labels i))) existing) |}.

(** ** What an entry and an issue are *)

Lemma elem_of_repeated l s : s ∈ repeated l <-> (1 < count_occ (fun x y => decide (x = y)) l s)%nat.
Proof.
  unfold repeated. rewrite elem_of_filter_bool, Nat.ltb_lt. split; [by intros [? ?]|]. intros H. split; [|done].
  apply list_elem_of_In, (count_occ_In (fun x y => decide (x = y))). lia.
Qed.

Lemma repeated_nil l : repeated l = [] <-> NoDup l.
Proof.
  rewrite NoDup_ListNoDup, (NoDup_count_occ (fun x y => decide (x = y))). split.
  - intros H s. destruct (Nat.ltb_spec 1 (count_occ (fun x y => decide (x = y)) l s)) as [Hs|]; [|lia].
    apply elem_of_repeated in Hs. rewrite H in Hs. by apply elem_of_nil in Hs.
  - intros H. apply elem_of_nil_inv. intros s Hs%elem_of_repeated. specialize (H s). lia.
Qed.

(** A slug is a word of small letters, digits and hyphens. *)
Definition proper_slug (s : str) : Prop := s <> [] /\ Forall (fun c => slug_char c = true) s.

Lemma past_app p s : past p (p ++ s) = Some s.
Proof. unfold past. by rewrite startswith_app, drop_app_length. Qed.

Lemma past_Some p s r : past p s = Some r -> s = p ++ r.
Proof.
  unfold past. destruct (startswith s p) eqn:E; [|done]. apply startswith_spec in E as [t ->]. intros [= <-].
  by rewrite drop_app_length.
Qed.

Lemma span_Forall p s : Forall (fun c => p c = true) (span p s).1 /\ s = (span p s).1 ++ (span p s).2.
Proof.
  induction s as [|c s [IH1 IH2]]; cbn [span]; [done|]. destruct (p c) eqn:E; [|done]. cbn. split; [by constructor | congruence].
Qed.

Lemma span_app p s c r : Forall (fun c => p c = true) s -> p c = false -> span p (s ++ c :: r) = (s, c :: r).
Proof. induction 1 as [|x s Hx _ IH]; intros Hc; cbn [app span]; [by rewrite Hc|]. by rewrite Hx, IH. Qed.

(** The marker of an issue is found again. *)
Lemma slug_match_marker s r : proper_slug s -> slug_match (marker s ++ r) = Some s.
Proof.
  intros [Hne Hs]. unfold slug_match, marker. rewrite <-!app_assoc, past_app. cbn [mbind option_bind].
  change (slug_close ++ r) with (32%N :: lit "-->" ++ r). rewrite span_app by done.
  destruct s as [|c s]; [done|]. cbn [nonempty mbind option_bind].
  change (32%N :: lit "-->" ++ r) with (slug_close ++ r). by rewrite past_app.
Qed.

Lemma slug_search_marker s r : proper_slug s -> slug_search (marker s ++ r) = Some s.
Proof. intros H. apply (slug_match_marker s r) in H. destruct (marker s ++ r); cbn [slug_search]; by rewrite H. Qed.

Lemma entry_match_slug s slug title body rest : entry_match s = Some (slug, title, body, rest) -> proper_slug slug.
Proof.
  unfold entry_match. intros (s1 & _ & H)%bind_Some. pose proof (span_Forall slug_char s1) as [Hs _].
  destruct (span slug_char s1) as [w s2]. apply bind_Some in H as ([] & Hw & H).
  apply bind_Some in H as (s3 & _ & H). destruct (span not_newline s3) as [t s4].
  apply bind_Some in H as ([] & _ & H). apply bind_Some in H as (s5 & _ & H). apply bind_Some in H as ([b r] & _ & [= <- <- <- <-]).
  split; [by intros ->|done].
Qed.

Lemma entries_slugs s skip : Forall (fun m => proper_slug m.1.1) (entries s skip).
Proof.
  revert skip. induction s as [|c s IH]; intros skip; cbn [entries]; [done|]. destruct skip as [|skip]; [|done].
  destruct (entry_match (c :: s)) as [[[[w t] b] r]|] eqn:E; [|done]. constructor; [by eapply entry_match_slug | done].
Qed.

(** What an item of the backlog has. *)
Record proper_item (i : RoadmapItem) : Prop := {
  item_slug : proper_slug (slug i);
  item_title : title i <> [];
  item_body : exists body, issue_body i = marker (slug i) ++ newline ++ newline ++ lit "# [" ++ slug i ++ lit "] " ++ title i
    ++ newline ++ newline ++ body ++ newline /\ forall section, section ∈ REQUIRED_SECTIONS -> contains body (heading section) = true;
  item_labels : rm_labels i = REQUIRED_LABELS;
}.

Lemma parse_entry_proper m i : parse_entry m = Ok i -> proper_slug m.1.1 -> proper_item i /\ slug i = m.1.1.
Proof.
  destruct m as [[w t] b]. cbn [parse_entry fst]. intros (u & Ht%raise_if_Ok & H)%bind_Ok Hw.
  apply bind_Ok in H as (u' & Hm%raise_if_Ok & H). apply bind_Ok in H as (l & Hl & [= <-]). split; [|done].
  apply bool_decide_eq_false in Ht, Hm. constructor; cbn [slug title issue_body rm_labels]; try done.
  - exists (strip b). split; [done|]. intros section Hs. apply not_false_iff_true. intros Hc. apply Hm. intros Hn.
    assert (section ∈ List.filter (fun section => negb (contains (strip b) (heading section))) REQUIRED_SECTIONS) as Hin.
    { apply elem_of_filter_bool. by rewrite Hc. }
    rewrite Hn in Hin. by apply elem_of_nil in Hin.
  - unfold parse_labels in Hl. destruct (labels_match _); [|done]. case_bool_decide as E; [|done]. injection Hl as <-. done.
Qed.

Lemma backlog_facts markdown items :
  parse_backlog markdown = Ok items ->
  items <> [] /\ NoDup (slug <$> items) /\ Forall proper_item items
  /\ Forall (fun i => forall r, slug_search (issue_body i ++ r) = Some (slug i)) items.
Proof.
  unfold parse_backlog. pose proof (entries_slugs markdown 0) as Hs. destruct (entries markdown 0) as [|m ms]; [done|].
  intros (its & Hi%mapM_Ok & H)%bind_Ok. destruct (repeated (slug <$> its)) as [|] eqn:Hr; [|done]. injection H as <-.
  apply repeated_nil in Hr.
  assert (Forall proper_item its) as Hp.
  { clear Hr. revert Hs. induction Hi as [|x i l k Hx _ IH]; [done|]. intros [Hw Hs]%Forall_cons.
    constructor; [by eapply parse_entry_proper | by apply IH]. }
  split_and!; [|done|done|].
  - by inversion Hi.
  - eapply Forall_impl; [exact Hp|]. intros i [Hi' _ (body & -> & _) _] r. rewrite <-app_assoc. by apply slug_search_marker.
Qed.

(** C39. A backlog that is accepted has at least one item; every item has a slug of its own,
    a title, all the sections, exactly the two labels, and an issue whose marker is its
    slug, wherever that issue is read again. *)
Theorem backlog_sound markdown items :
  parse_backlog markdown = Ok items ->
  items <> [] /\ NoDup (slug <$> items) /\ Forall proper_item items
  /\ Forall (fun i => forall r, slug_search (issue_body i ++ r) = Some (slug i)) items.
Proof. apply backlog_facts. Qed.

(** ** A backlog *)

Definition sample_sections : str :=
  (REQUIRED_SECTIONS ≫= fun s => heading s ++ (if bool_decide (s = lit "Labels") then lit "roadmap, enhancement" else lit "x") ++ newline).

Definition sample_backlog : str :=
  lit "# Backlog" ++ newline ++ lit "<!-- opatchy-roadmap: more-feeds -->" ++ newline ++ lit "## More feeds" ++ newline
  ++ sample_sections ++ lit "<!-- /opatchy-roadmap -->".

Definition sample_item : RoadmapItem :=
  {| slug := lit "more-feeds"; title := lit "More feeds";
     issue_body := marker (lit "more-feeds") ++ newline ++ newline ++ lit "# [more-feeds] More feeds" ++ newline ++ newline
       ++ strip sample_sections ++ newline;
     rm_labels := REQUIRED_LABELS |}.

Lemma sample_backlog_parses : parse_backlog sample_backlog = Ok [sample_item].
Proof. vm_compute. reflexivity. Qed.

Lemma backlog_sound_witness :
  parse_backlog sample_backlog = Ok [sample_item] /\ slug_search (issue_body sample_item) = Some (lit "more-feeds").
Proof.
  split; [exact sample_backlog_parses|]. destruct (backlog_sound _ _ sample_backlog_parses) as (_ & _ & _ & H).
  apply Forall_cons in H as [H _]. rewrite <-(app_nil_r (issue_body sample_item)). exact (H []).
Defined.

Example backlog_refused : parse_backlog (lit "# Backlog") = Err (BacklogError (lit "backlog has no roadmap entries")).
Proof. reflexivity. Qed.
