(* ===== verification/Publisher.v ===== *)
(** * Seeding the roadmap

    [publish_repository.py]: the items of the backlog that have no issue get one. What the
    commands do is an argument; what is relied on of GitHub's command line is a class. *)

From S2P Require Import Prelude PyStr Models Json JsonText Urls Tooling Backlog.

Open Scope Z_scope.

Section Publisher.
Context {W : Type} (run_ : W -> list str -> W * ToolResult) (stack : nat) (repository owner : str).

Definition run (arguments : list str) (operation : str) : Script W ToolResult := fun w =>
  let '(w', result) := run_ w arguments in
  (w', if tr_returncode result =? 0 then Ok result else Err (PublicationError (operation ++ lit " failed"))).

Definition owner_arguments : list str := names ["gh"; "api"; "user"; "--jq"; ".login"].

Definition require_owner : Script W unit :=
  result ← run owner_arguments (lit "owner lookup");
  pure (raise_if (bool_decide (strip (tr_stdout result) <> owner))
          (PublicationError (lit "GitHub CLI owner does not match the approved owner"))).

Definition issue_list_arguments : list str :=
  names ["gh"; "issue"; "list"; "--repo"] ++ [repository]
  ++ names ["--state"; "all"; "--limit"; "100"; "--json"; "title,body,url,labels"].

Definition list_existing_issues : Script W (list ExistingIssue) :=
  result ← run issue_list_arguments (lit "issue list");
  pure (match parse_existing_issues stack (tr_stdout result) with
        | Err (BacklogError _) => Err (PublicationError (lit "GitHub issue list cannot be parsed safely"))
        | r => r
        end).

Definition label_arguments (label : str) : list str :=
  names ["gh"; "label"; "create"] ++ [label; lit "--repo"; repository; lit "--force"].

Definition create_labels : Script W unit :=
  each (fun label => _ ← run (label_arguments label) (lit "label create " ++ label); mret tt) (names ["enhancement"; "roadmap"]).

Definition issue_arguments (item : RoadmapItem) : list str :=
  names ["gh"; "issue"; "create"; "--repo"] ++ [repository; lit "--title"; lit "[" ++ slug item ++ lit "] " ++ title item;
    lit "--body"; issue_body item] ++ names ["--label"; "enhancement"; "--label"; "roadmap"].

Definition create_issue (item : RoadmapItem) : Script W unit :=
  _ ← run (issue_arguments item) (lit "issue create " ++ slug item); mret tt.

(** The lines it prints when it succeeds. *)
Definition seed (items : list RoadmapItem) (dry_run : bool) : Script W (list str) :=
  _ ← require_owner;
  existing ← list_existing_issues;
  let comparison := compare_issue_sets items existing in
  if negb (can_seed comparison)
  then pure (Err (PublicationError (lit "remote roadmap issues do not match the committed model")))
  else
    let missing_ := List.filter (fun item => bool_decide (slug item ∈ missing comparison)) items in
    if dry_run then mret ((fun item => lit "DRY-RUN(create issue): " ++ slug item) <$> missing_)
    else match missing_ with
         | [] => mret [lit "PASS(publication): issue set already matches"]
         | _ =>
             _ ← create_labels;
             _ ← each create_issue missing_;
             mret [lit "PASS(publication): created " ++ str_of_Z (len missing_) ++ lit " roadmap issues"]
         end.
End Publisher.

(** [parse_arguments]: the repository, the path of the backlog, and whether to create
    nothing. *)
Definition usage : str := lit "usage: publish_repository.py --repository OWNER/NAME --backlog PATH [--dry-run]".

Definition parse_arguments (arguments : list str) : tool (str * str * bool) :=
  match arguments with
  | first :: repository :: second :: path :: rest =>
      if bool_decide (first <> lit "--repository") || (1 <? length rest)%nat then Err (PublicationError usage)
      else if bool_decide (second <> lit "--backlog")
              || match rest with last :: _ => bool_decide (last <> lit "--dry-run") | [] => false end
      then Err (PublicationError usage)
      else
        match partition 47 repository with
        | (owner, Some name) =>
            if bool_decide (owner = []) || bool_decide (name = []) || existsb (N.eqb 47) name
            then Err (PublicationError (lit "repository must use OWNER/NAME form"))
            else Ok (repository, path, negb (bool_decide (rest = [])))
        | _ => Err (PublicationError (lit "repository must use OWNER/NAME form"))
        end
  | _ => Err (PublicationError usage)
  end.

Definition is_caught (e : tool_error) : bool :=
  match e with Raised OSError | BacklogError _ | PublicationError _ => true | _ => false end.

(** [main]: the code it ends with; [read_text] is what reading the backlog comes to. *)
Definition main {W} (run_ : W -> list str -> W * ToolResult) (stack : nat) (read_text : str -> res str) (arguments : list str)
    : W -> W * tool Z := fun w =>
  let '(w', result) :=
    ('(repository, path, dry_run) ← pure (parse_arguments arguments);
     text ← pure (match read_text path with Ok t => Ok t | Err e => Err (Raised e) end);
     items ← pure (parse_backlog text);
     seed run_ stack repository (partition 47 repository).1 items dry_run) w in
  (w', match result with
       | Ok _ => Ok 0
       | Err e => if is_caught e then Ok 1 else Err e
       end).

(** ** What is relied on of GitHub *)

Record RemoteIssue := { ri_body : str; ri_url : str; ri_labels : list str }.

(** A member of what the listing prints: the fields asked for, perhaps among others. *)
Definition issue_value (i : RemoteIssue) (v : json) : Prop := exists d labels,
  v = JObj d /\ text_at d "body" = Some (ri_body i) /\ text_at d "url" = Some (ri_url i)
  /\ dict_get d (lit "labels") = Some (JList labels)
  /\ Forall2 (fun name label => exists e, label = JObj e /\ text_at e "name" = Some name) (ri_labels i) labels.

(** The listing of issues, in any order. *)
Definition prints (stack : nat) (text : str) (l : list RemoteIssue) : Prop := exists l' vs,
  l' ≡ₚ l /\ plain_loads stack text = Ok (JList vs) /\ Forall2 issue_value l' vs.

(** What [gh] is documented to do, for the issues [remote] of the repository and the items
    that may be created: reading changes no issue, and prints all of at most 100; creating
    a label changes none; creating an issue adds it when it succeeds, and may have added it
    when it fails. *)
Class GitHub {W} (run_ : W -> list str -> W * ToolResult) (remote : W -> list RemoteIssue)
    (stack : nat) (repository : str) (items : list RoadmapItem) : Prop := {
  gh_owner : forall w, remote (run_ w owner_arguments).1 ≡ₚ remote w;
  gh_list : forall w, remote (run_ w (issue_list_arguments repository)).1 ≡ₚ remote w;
  gh_prints : forall w, (length (remote w) <= 100)%nat -> tr_returncode (run_ w (issue_list_arguments repository)).2 = 0 ->
    prints stack (tr_stdout (run_ w (issue_list_arguments repository)).2) (remote w);
  gh_label : forall w label, remote (run_ w (label_arguments repository label)).1 ≡ₚ remote w;
  gh_create : forall w item, item ∈ items -> let w' := (run_ w (issue_arguments repository item)).1 in exists url,
    let added := {| ri_body := issue_body item; ri_url := url; ri_labels := names ["enhancement"; "roadmap"] |} in
    (remote w' ≡ₚ remote w \/ remote w' ≡ₚ added :: remote w)
    /\ (tr_returncode (run_ w (issue_arguments repository item)).2 = 0 -> remote w' ≡ₚ added :: remote w);
}.

(** The issues of the roadmap among those of the repository, by slug and labels. *)
Definition on_roadmap (i : RemoteIssue) : option (str * list str) := (fun s => (s, ri_labels i)) <$> slug_search (ri_body i).
Definition roadmap (l : list RemoteIssue) : list (str * list str) := omap on_roadmap l.

(** Nothing on the roadmap is foreign to the backlog, doubled, or without its labels. *)
Definition consistent (items : list RoadmapItem) (l : list RemoteIssue) : Prop :=
  NoDup (roadmap l).*1
  /\ Forall (fun s => s ∈ slug <$> items) (roadmap l).*1
  /\ Forall (fun i => REQUIRED_LABELS ⊆ list_to_set i.2) (roadmap l).

#[global] Instance roadmap_Proper : Proper ((≡ₚ) ==> (≡ₚ)) roadmap.
Proof. intros l k H. unfold roadmap. induction H; cbn; [done | by destruct (on_roadmap x); cbn; rewrite IHPermutation | | by etrans].
  destruct (on_roadmap x), (on_roadmap y); cbn; done || by constructor.
Qed.

#[global] Instance consistent_Proper items : Proper ((≡ₚ) ==> iff) (consistent items).
Proof. intros l k H. unfold consistent. by rewrite H. Qed.

(** ** What is read of the listing *)

Definition seen (i : ExistingIssue) : str * gset str := (ei_slug i, ei_labels i).
Definition meant (i : str * list str) : str * gset str := (i.1, list_to_set i.2).

Lemma labels_read ls labels :
  Forall2 (fun name label => exists e, label = JObj e /\ text_at e "name" = Some name) ls labels ->
  mapM remote_label labels = Ok ls.
Proof.
  intros H. apply mapM_Ok. induction H as [|name label ls labels (e & -> & He) _ IH]; [done|].
  constructor; [|done]. cbn. by rewrite He.
Qed.

Lemma issues_read l vs : Forall2 issue_value l vs ->
  exists es, existing_issues vs = Ok es /\ seen <$> es = meant <$> roadmap l.
Proof.
  induction 1 as [|i v l vs (d & labels & -> & Hb & Hu & Hl & Hls) _ (es & He & Hm)]; [by exists []|].
  cbn [existing_issues is_roadmap parse_existing_issue]. rewrite Hb, Hu, Hl. unfold roadmap, on_roadmap. cbn [omap list_omap].
  destruct (slug_search (ri_body i)) as [s|]; cbn [mbind outcome_bind fmap option_fmap option_map]; [|by exists es].
  unfold parse_remote_labels. rewrite (labels_read _ _ Hls), He. cbn. eexists. split; [done|]. cbn. by f_equal.
Qed.

Lemma listing_read stack text l : prints stack text l ->
  exists es, parse_existing_issues stack text = Ok es /\ seen <$> es ≡ₚ meant <$> roadmap l.
Proof.
  intros (l' & vs & Hl & Ht & (es & He & Hm)%issues_read). exists es. unfold parse_existing_issues. rewrite Ht, Hm.
  split; [done|]. by rewrite Hl.
Qed.

Lemma empty_iff (X : gset str) : X = ∅ <-> forall s, s ∉ X.
Proof. split; [set_solver|]. intros H. apply set_eq. set_solver. Qed.

Lemma can_seed_spec items es l :
  seen <$> es ≡ₚ meant <$> roadmap l -> can_seed (compare_issue_sets items es) = true <-> consistent items l.
Proof.
  intros H. assert (ei_slug <$> es ≡ₚ (roadmap l).*1) as Hs.
  { apply (fmap_Permutation fst) in H. by rewrite <-!list_fmap_compose in H. }
  unfold can_seed, consistent, compare_issue_sets. cbn [unexpected duplicate missing_labels].
  rewrite !andb_true_iff, !bool_decide_eq_true, !empty_iff. setoid_rewrite elem_of_list_to_set.
  setoid_rewrite elem_of_difference. setoid_rewrite elem_of_list_to_set.
  assert ((forall s, s ∉ repeated (ei_slug <$> es)) <-> NoDup (roadmap l).*1) as ->.
  { rewrite <-Hs, <-repeated_nil. split; [apply elem_of_nil_inv | intros -> s; apply not_elem_of_nil]. }
  assert ((forall s, ~ (s ∈ ei_slug <$> es /\ s ∉ slug <$> items)) <-> Forall (fun s => s ∈ slug <$> items) (roadmap l).*1) as ->.
  { rewrite <-Hs, Forall_forall. split; [|naive_solver]. intros Hn s Hin. destruct (decide (s ∈ slug <$> items)); [done|]. by destruct (Hn s). }
  assert ((forall s, s ∉ ei_slug <$> List.filter (fun i => negb (bool_decide (REQUIRED_LABELS ⊆ ei_labels i))) es)
          <-> Forall (fun i => REQUIRED_LABELS ⊆ list_to_set i.2) (roadmap l)) as ->; [|tauto].
  transitivity (Forall (fun i : str * gset str => REQUIRED_LABELS ⊆ i.2) (meant <$> roadmap l)); [|by rewrite Forall_fmap].
  rewrite <-H, Forall_fmap, Forall_forall. split.
  - intros Hn i Hi. cbn. apply dec_stable. intros Hl. apply (Hn (ei_slug i)). apply list_elem_of_fmap_2.
    apply elem_of_filter_bool. by rewrite bool_decide_eq_false_2.
  - intros Ha s (i & -> & Hi)%list_elem_of_fmap. apply elem_of_filter_bool in Hi as [Hi Hl].
    apply negb_true_iff, bool_decide_eq_false in Hl. by apply Hl, (Ha i).
Qed.

Lemma missing_spec items es l s :
  seen <$> es ≡ₚ meant <$> roadmap l -> s ∈ missing (compare_issue_sets items es) <-> (s ∈ slug <$> items) /\ (s ∉ (roadmap l).*1).
Proof.
  intros H. cbn. rewrite elem_of_difference, !elem_of_list_to_set.
  apply (fmap_Permutation fst) in H. rewrite <-!list_fmap_compose in H.
  change (fst ∘ seen <$> es) with (ei_slug <$> es) in H. change (fst ∘ meant <$> roadmap l) with ((roadmap l).*1) in H.
  by rewrite H.
Qed.

(** ** What seeding does *)

Section Seeding.
Context {W : Type} (run_ : W -> list str -> W * ToolResult) (remote : W -> list RemoteIssue).
Context (stack : nat) (repository owner : str) (items : list RoadmapItem).
Context `{!GitHub run_ remote stack repository items}.
Context (Hslugs : NoDup (slug <$> items)).
Context (Hmarkers : Forall (fun i => slug_search (issue_body i) = Some (slug i)) items).

Lemma run_Ok arguments operation w w' r :
  run run_ arguments operation w = (w', r) ->
  w' = (run_ w arguments).1
  /\ (forall result, r = Ok result -> result = (run_ w arguments).2 /\ tr_returncode (run_ w arguments).2 = 0).
Proof using.
  unfold run. destruct (run_ w arguments) as [v result]. intros [= <- <-]. split; [done|]. intros x.
  destruct (Z.eqb_spec (tr_returncode result) 0); [|done]. by intros [= <-].
Qed.

Lemma owner_keeps w w' r : require_owner run_ owner w = (w', r) -> remote w' ≡ₚ remote w.
Proof.
  unfold require_owner, mbind, Script_bind. destruct (run run_ owner_arguments _ w) as [v [result|e]] eqn:E;
    apply run_Ok in E as [-> _]; intros [= <- _]; apply gh_owner.
Qed.

Lemma list_keeps w w' r :
  list_existing_issues run_ stack repository w = (w', r) -> remote w' ≡ₚ remote w
  /\ forall es, r = Ok es -> (length (remote w) <= 100)%nat -> seen <$> es ≡ₚ meant <$> roadmap (remote w).
Proof.
  unfold list_existing_issues, mbind, Script_bind. destruct (run run_ _ _ w) as [v [result|e]] eqn:E;
    apply run_Ok in E as [-> Hr]; intros [= <- <-]; (split; [apply gh_list|]); [|done].
  destruct (Hr result eq_refl) as [-> H0]. intros es He Hl.
  destruct (listing_read _ _ _ (gh_prints w Hl H0)) as (es' & He' & Hs). rewrite He' in He. by injection He as <-.
Qed.

Lemma labels_keep labels w w' r :
  each (fun label => _ ← run run_ (label_arguments repository label) (lit "label create " ++ label); mret tt) labels w = (w', r) ->
  remote w' ≡ₚ remote w.
Proof.
  revert w. induction labels as [|label labels IH]; intros w; cbn [each]; [by intros [= <- _]|].
  unfold mbind, Script_bind.
  destruct (run run_ (label_arguments repository label) (lit "label create " ++ label) w) as [v [result|e]] eqn:E;
    apply run_Ok in E as [-> _].
  - cbn. intros H. rewrite (IH _ H). apply gh_label.
  - intros [= <- _]. apply gh_label.
Qed.

(** The issue of an item is added, and leaves the roadmap consistent. *)
Lemma create_step item w w' r :
  item ∈ items -> consistent items (remote w) -> slug item ∉ (roadmap (remote w)).*1 ->
  create_issue run_ repository item w = (w', r) ->
  consistent items (remote w') /\ remote w ⊆+ remote w'
  /\ (r = Ok tt -> (roadmap (remote w')).*1 ≡ₚ slug item :: (roadmap (remote w)).*1).
Proof.
  intros Hin Hc Hnew. unfold create_issue, mbind, Script_bind.
  destruct (gh_create w item Hin) as (url & Hw & Hok). revert Hw Hok. set (added := {| ri_body := _ |}). intros Hw Hok.
  assert (on_roadmap added = Some (slug item, names ["enhancement"; "roadmap"])) as Ha.
  { unfold on_roadmap. cbn [ri_body added]. rewrite Forall_forall in Hmarkers. by rewrite (Hmarkers item Hin). }
  assert (roadmap (added :: remote w) = (slug item, names ["enhancement"; "roadmap"]) :: roadmap (remote w)) as Hr.
  { unfold roadmap. cbn [omap list_omap]. by rewrite Ha. }
  assert (consistent items (added :: remote w)) as Hc'.
  { destruct Hc as (H1 & H2 & H3). unfold consistent. rewrite Hr. split_and!; [by constructor | constructor; [|done] | constructor; [|done]].
    - exact (list_elem_of_fmap_2 slug items item Hin).
    - done. }
  assert (consistent items (remote (run_ w (issue_arguments repository item)).1)
          /\ remote w ⊆+ remote (run_ w (issue_arguments repository item)).1) as [H1 H2].
  { destruct Hw as [-> | ->]; [done|]. split; [done|]. by apply submseteq_cons. }
  destruct (run run_ _ _ w) as [v [result|e]] eqn:E; apply run_Ok in E as [-> H]; intros [= <- <-]; (split_and!; [done | done |]).
  - intros _. destruct (H result eq_refl) as [_ H0]. by rewrite (Hok H0), Hr.
  - done.
Qed.

Lemma create_all ms w w' r :
  Forall (fun i => i ∈ items) ms -> NoDup (slug <$> ms) -> consistent items (remote w) ->
  Forall (fun i => slug i ∉ (roadmap (remote w)).*1) ms ->
  each (create_issue run_ repository) ms w = (w', r) ->
  consistent items (remote w') /\ remote w ⊆+ remote w'
  /\ (r = Ok tt -> (roadmap (remote w')).*1 ≡ₚ (slug <$> ms) ++ (roadmap (remote w)).*1).
Proof.
  revert w. induction ms as [|item ms IH]; intros w; cbn [each]; [by intros _ _ Hc _ [= <- <-]|].
  intros [Hi His]%Forall_cons [Hn Hns]%NoDup_cons Hc [Hf Hfs]%Forall_cons. unfold mbind, Script_bind.
  destruct (create_issue run_ repository item w) as [v s] eqn:E.
  destruct (create_step _ _ _ _ Hi Hc Hf E) as (Hc' & Hs & Hok). destruct s as [[]|e].
  - intros H. specialize (Hok eq_refl). destruct (IH v His Hns Hc') as (H1 & H2 & H3); [|exact H|].
    + apply Forall_forall. intros i Hi'. rewrite Hok, not_elem_of_cons, Forall_forall in *. split; [|by apply Hfs].
      intros E'. apply Hn. rewrite <-E'. by apply list_elem_of_fmap_2.
    + split_and!; [done | by etrans |]. intros Hr. rewrite (H3 Hr), Hok. cbn. by rewrite Permutation_middle.
  - by intros [= <- <-].
Qed.

(** The end of seeding, after the listing: what is missing is created. *)
Lemma seed_missing (existing : list ExistingIssue) w w' r :
  consistent items (remote w) -> seen <$> existing ≡ₚ meant <$> roadmap (remote w) ->
  (_ ← create_labels run_ repository;
   each (create_issue run_ repository)
     (List.filter (fun item => bool_decide (slug item ∈ missing (compare_issue_sets items existing))) items)) w = (w', r) ->
  consistent items (remote w') /\ remote w ⊆+ remote w'
  /\ (r = Ok tt -> (roadmap (remote w')).*1 ≡ₚ slug <$> items).
Proof.
  intros Hc He. unfold create_labels, mbind, Script_bind. destruct (each _ _ w) as [v s] eqn:E. apply labels_keep in E.
  destruct s as [u|e]; [|intros [= <- <-]; split_and!; [by rewrite E | by rewrite E | done]].
  assert (consistent items (remote v)) as Hcv by (by rewrite E). set (ms := List.filter _ items). intros H.
  assert (Forall (fun i => i ∈ items /\ slug i ∉ (roadmap (remote v)).*1) ms) as Hms.
  { apply Forall_forall. intros i [Hi Hm%bool_decide_eq_true]%elem_of_filter_bool. split; [done|].
    apply (missing_spec _ _ _ _ He) in Hm as [_ Hm]. by rewrite E. }
  apply Forall_and in Hms as [Hms1 Hms2].
  destruct (create_all ms v w' r Hms1 (NoDup_map_filter _ _ _ Hslugs) Hcv Hms2 H) as (H1 & H2 & H3).
  split_and!; [done | by rewrite <-E |]. intros Hr. apply NoDup_Permutation; [apply H1 | done |]. intros s. split.
  - destruct H1 as (_ & H1 & _). rewrite Forall_forall in H1. apply H1.
  - intros Hs. rewrite (H3 Hr), elem_of_app, E. destruct (decide (s ∈ (roadmap (remote w)).*1)) as [|Hn]; [by right | left].
    apply list_elem_of_fmap in Hs as (i & -> & Hi). apply list_elem_of_fmap_2. apply elem_of_filter_bool. split; [done|].
    apply bool_decide_eq_true, (missing_spec _ _ _ _ He). split; [by apply list_elem_of_fmap_2 | done].
Qed.

(** When nothing is missing, the roadmap is the backlog already. *)
Lemma nothing_missing existing w :
  consistent items (remote w) -> seen <$> existing ≡ₚ meant <$> roadmap (remote w) ->
  List.filter (fun item => bool_decide (slug item ∈ missing (compare_issue_sets items existing))) items = [] ->
  (roadmap (remote w)).*1 ≡ₚ slug <$> items.
Proof.
  intros (H1 & H2 & _) He Hm. apply NoDup_Permutation; [done | done |]. intros s. split.
  - rewrite Forall_forall in H2. apply H2.
  - intros Hs. apply dec_stable. intros Hn. pose proof Hs as (i & -> & Hi)%list_elem_of_fmap.
    apply (not_elem_of_nil i). rewrite <-Hm. apply elem_of_filter_bool. split; [done|].
    by apply bool_decide_eq_true, (missing_spec _ _ _ _ He).
Qed.

Lemma seed_effect dry_run w w' r :
  (length (remote w) <= 100)%nat -> seed run_ stack repository owner items dry_run w = (w', r) ->
  remote w ⊆+ remote w'
  /\ (dry_run = true \/ ~ consistent items (remote w) -> remote w' ≡ₚ remote w)
  /\ (consistent items (remote w) -> consistent items (remote w'))
  /\ (forall out, r = Ok out -> consistent items (remote w)
      /\ (dry_run = false -> (roadmap (remote w')).*1 ≡ₚ slug <$> items)).
Proof.
  intros Hl. unfold seed. unfold mbind at 1, Script_bind at 1.
  destruct (require_owner run_ owner w) as [w1 s1] eqn:E1. apply owner_keeps in E1.
  assert (forall v, remote v ≡ₚ remote w -> forall e : tool_error,
    remote w ⊆+ remote v /\ (dry_run = true \/ ~ consistent items (remote w) -> remote v ≡ₚ remote w)
    /\ (consistent items (remote w) -> consistent items (remote v))
    /\ (forall out : list str, Err e = Ok out -> consistent items (remote w)
        /\ (dry_run = false -> (roadmap (remote v)).*1 ≡ₚ slug <$> items))) as Herr.
  { intros v E e. rewrite E. by split_and!. }
  destruct s1 as [u|e]; [|intros [= <- <-]; by apply Herr].
  unfold mbind at 1, Script_bind at 1. destruct (list_existing_issues run_ stack repository w1) as [w2 s2] eqn:E2.
  apply list_keeps in E2 as [E2 Hs2]. assert (remote w2 ≡ₚ remote w) as E by (by rewrite E2).
  destruct s2 as [existing|e]; [|intros [= <- <-]; by apply Herr].
  specialize (Hs2 existing eq_refl). rewrite E1 in Hs2. specialize (Hs2 Hl). rewrite <-E in Hs2.
  pose proof (can_seed_spec items existing _ Hs2) as Hcan.
  destruct (can_seed (compare_issue_sets items existing)) eqn:Ec; cbn [negb].
  2:{ intros [= <- <-]. by apply Herr. }
  assert (consistent items (remote w2)) as Hc by (by apply Hcan). assert (consistent items (remote w)) as Hcw by (by rewrite <-E).
  pose proof (seed_missing existing w2) as Hseed. set (ms := List.filter _ items) in *.
  destruct dry_run; [intros [= <- <-]; by rewrite E; split_and!|].
  destruct ms as [|m ms'] eqn:Em.
  { intros [= <- <-]. split_and!; [by rewrite E | done | by rewrite E |]. intros _ _. split; [done|]. intros _.
    by apply (nothing_missing existing). }
  unfold mbind in Hseed |- *. unfold Script_bind in Hseed |- *.
  destruct (create_labels run_ repository w2) as [w3 [[]|e]] eqn:E3.
  - destruct (each (create_issue run_ repository) (m :: ms') w3) as [w4 s4] eqn:E4.
    destruct (Hseed w4 s4 Hc Hs2 eq_refl) as (H1 & H2 & H3). rewrite E in H2.
    destruct s4 as [[]|e]; intros [= <- <-]; split_and!; try (done || by intros [[=]|[]]).
    intros _ _. split; [done|]. intros _. by apply H3.
  - destruct (Hseed w3 (Err e) Hc Hs2 eq_refl) as (H1 & H2 & _). rewrite E in H2. intros [= <- <-].
    split_and!; try (done || by intros [[=]|[]]).
Qed.
End Seeding.

(** C33. In a repository that has at most 100 issues when it starts - the script lists no
    more, and with more an item already seeded can be created again -, seeding only ever
    adds issues, and only when the roadmap holds nothing foreign, doubled or unlabelled; a
    dry run adds none. Wherever it stops, what it leaves is as consistent as before, so
    that it can be run again while the bound holds; and when it succeeds, the roadmap has
    exactly one issue for each item of the backlog, with its labels. *)
Theorem seed_converges {W} (run_ : W -> list str -> W * ToolResult) remote stack repository owner markdown items dry_run w :
  parse_backlog markdown = Ok items -> GitHub run_ remote stack repository items -> (length (remote w) <= 100)%nat ->
  let '(w', r) := seed run_ stack repository owner items dry_run w in
  remote w ⊆+ remote w'
  /\ (dry_run = true \/ ~ consistent items (remote w) -> remote w' ≡ₚ remote w)
  /\ (consistent items (remote w) -> consistent items (remote w'))
  /\ (forall out, r = Ok out -> consistent items (remote w')
      /\ (dry_run = false -> (roadmap (remote w')).*1 ≡ₚ slug <$> items)).
Proof.
  intros Hp Hg Hl. apply backlog_facts in Hp as (_ & Hn & _ & Hm).
  destruct (seed run_ stack repository owner items dry_run w) as [w' r] eqn:E.
  assert (Forall (fun i => slug_search (issue_body i) = Some (slug i)) items) as Hmarkers.
  { eapply Forall_impl; [exact Hm|]. intros i Hi. rewrite <-(app_nil_r (issue_body i)). apply Hi. }
  pose proof (seed_effect run_ remote stack repository owner items Hn Hmarkers dry_run w w' r Hl E) as (H1 & H2 & H3 & H4).
  split_and!; [done..|]. intros out Hr. destruct (H4 out Hr) as [Hc Hs]. auto.
Qed.

(** ** A repository with the one item of a backlog, or without it *)

Definition quoted (s : string) : str := [34%N] ++ lit s ++ [34%N].

Definition sample_listing : str :=
  lit "[{" ++ quoted "title" ++ lit ":" ++ quoted "x" ++ lit "," ++ quoted "body" ++ lit ":" ++ quote (issue_body sample_item)
  ++ lit "," ++ quoted "url" ++ lit ":" ++ quoted "u" ++ lit "," ++ quoted "labels"
  ++ lit ":[{" ++ quoted "name" ++ lit ":" ++ quoted "enhancement" ++ lit "},{" ++ quoted "name" ++ lit ":" ++ quoted "roadmap"
  ++ lit "}]}]".

Definition sample_remote (created : bool) : list RemoteIssue :=
  if created then [{| ri_body := issue_body sample_item; ri_url := lit "u"; ri_labels := names ["enhancement"; "roadmap"] |}] else [].

Definition sample_result (code : Z) (text : str) : ToolResult := {| tr_returncode := code; tr_stdout := text; tr_stderr := [] |}.

(** An issue that is there already is not created again: the command fails. *)
Definition sample_gh (created : bool) (arguments : list str) : bool * ToolResult :=
  if bool_decide (arguments = owner_arguments) then (created, sample_result 0 (lit "me" ++ newline))
  else if bool_decide (arguments = issue_list_arguments (lit "me/it"))
  then (created, sample_result 0 (if created then sample_listing else lit "[]"))
  else if bool_decide (arguments = issue_arguments (lit "me/it") sample_item)
  then (true, sample_result (if created then 1 else 0) [])
  else (created, sample_result 0 []).

Lemma sample_github : GitHub sample_gh sample_remote 10 (lit "me/it") [sample_item].
Proof.
  constructor.
  - by intros [].
  - by intros [].
  - intros [] _ _.
    + exists (sample_remote true). eexists. split; [done|]. split; [vm_compute; reflexivity|]. repeat constructor.
      eexists _, _. split_and!; [reflexivity..|]. repeat constructor; by eexists.
    + exists [], []. split_and!; [done | vm_compute; reflexivity | constructor].
  - intros w label. unfold sample_gh. assert (label_arguments (lit "me/it") label !! 1%nat = Some (lit "label")) as H by done.
    repeat (case_bool_decide as E; [rewrite E in H; vm_compute in H; discriminate|]). by destruct w.
  - intros w item ->%list_elem_of_singleton. exists (lit "u"). destruct w; split; vm_compute; auto; discriminate.
Qed.

Lemma seed_converges_witness :
  parse_backlog sample_backlog = Ok [sample_item]
  /\ (roadmap (sample_remote (seed sample_gh 10 (lit "me/it") (lit "me") [sample_item] false false).1)).*1 = [lit "more-feeds"].
Proof.
  split; [exact sample_backlog_parses|].
  pose proof (seed_converges sample_gh sample_remote 10 (lit "me/it") (lit "me") sample_backlog [sample_item] false false
    sample_backlog_parses sample_github ltac:(cbn; lia)) as H.
  destruct (seed sample_gh 10 (lit "me/it") (lit "me") [sample_item] false false) as [w' r] eqn:E.
  assert (exists out, r = Ok out) as [out Hr].
  { apply (f_equal snd) in E. vm_compute in E. rewrite <-E. by eexists. }
  destruct H as (_ & _ & _ & H). destruct (H out Hr) as [_ Hs]. by apply Permutation_singleton_r, Hs.
Defined.
