(* ===== verification/CiPolicy.v ===== *)
(** * The policy of the workflows

    [ci_policy.py], the check of the workflows of continuous integration: it composes each
    file to the nodes of its YAML and refuses what the policy does not allow. Composing is
    an argument. *)

#[local] Set Warnings "-register-all".
From S2P Require Import Prelude PyStr Models Json Urls.

Open Scope Z_scope.

Definition SHA_LENGTH : nat := 40.

(** A node of YAML. An alias is the node it stands for: a document has a finite tree. *)
Inductive Node :=
| ScalarNode (node_value : str)
| SequenceNode (nodes : list Node)
| MappingNode (pairs : list (Node * Node)).

Abbreviation node_map := (list (str * Node)).

(** What reading and composing a file comes to: [YAMLError] of [get_single_node] is caught,
    an error of reading the file or of its first look at the text is not. *)
Inductive composed :=
| Composed (document : option Node)
| YAMLError
| ReadRaised (e : exn).

Record PolicyViolation := { v_path : str; v_message : str }.

(** ** The nodes *)

Definition scalar (node : option Node) : option str :=
  match node with Some (ScalarNode v) => Some v | _ => None end.

(** The loop of [mapping], with the values so far. *)
Fixpoint mapping_values (pairs : list (Node * Node)) (values : node_map) : option node_map :=
  match pairs with
  | [] => Some values
  | (key_node, value_node) :: rest =>
      match scalar (Some key_node) with
      | None => None
      | Some key =>
          if bool_decide (key ∈ values.*1) then None else mapping_values rest (values ++ [(key, value_node)])
      end
  end.

Definition mapping (node : option Node) : option node_map :=
  match node with Some (MappingNode pairs) => mapping_values pairs [] | _ => None end.

(** [values.get(key)] *)
Fixpoint get (l : node_map) (key : str) : option Node :=
  match l with
  | [] => None
  | (k, v) :: rest => if bool_decide (k = key) then Some v else get rest key
  end.

(** ** The rules *)

Definition immutable_action (reference : option str) : bool :=
  match reference with
  | None => false
  | Some reference =>
      match partition 64 reference with
      | (action, Some revision) =>
          bool_decide (action <> []) && bool_decide (length revision = SHA_LENGTH)
          && forallb (fun c => existsb (N.eqb c) (lit "0123456789abcdef")) revision
      | _ => false
      end
  end.

Definition permission_is_read_only (node : option Node) : bool :=
  match mapping node with
  | Some [(key, n)] => bool_decide (key = lit "contents") && bool_decide (scalar (Some n) = Some (lit "read"))
  | _ => false
  end.

Definition pull_request_target : str := lit "pull_request_target".

Definition trigger_contains_pull_request_target (node : option Node) : bool :=
  if bool_decide (scalar node = Some pull_request_target) then true
  else
    match node with
    | Some (SequenceNode nodes) => existsb (fun item => bool_decide (scalar (Some item) = Some pull_request_target)) nodes
    | _ => match mapping node with
           | Some triggers => bool_decide (pull_request_target ∈ triggers.*1)
           | None => false
           end
    end.

Section Violations.
Context (path : str).

Definition violation (message : string) : PolicyViolation := {| v_path := path; v_message := lit message |}.
(** A list with a violation when a condition holds. *)
Definition violation_if (b : bool) (message : string) : list PolicyViolation := if b then [violation message] else [].

Definition step_violations (step : Node) : list PolicyViolation :=
  match mapping (Some step) with
  | None => [violation "step must be a mapping"]
  | Some step_map =>
      match get step_map (lit "uses") with
      | Some uses => violation_if (negb (immutable_action (scalar (Some uses)))) "mutable action reference"
      | None => []
      end
  end.

Definition job_violations (node : Node) : list PolicyViolation :=
  match mapping (Some node) with
  | None => [violation "job must be a mapping"]
  | Some job =>
      let permissions :=
        match get job (lit "permissions") with
        | Some p => violation_if (negb (permission_is_read_only (Some p))) "permissions must be exactly contents: read"
        | None => []
        end in
      match get job (lit "uses") with
      | Some uses =>
          permissions
          ++ violation_if (bool_decide (is_Some (get job (lit "steps"))) || negb (immutable_action (scalar (Some uses))))
               "reusable workflow must use an immutable action reference"
      | None =>
          match get job (lit "steps") with
          | Some (SequenceNode steps) => permissions ++ (steps ≫= step_violations)
          | _ => permissions ++ [violation "job steps must be a sequence"]
          end
      end
  end.

Definition workflow_violations (document : option Node) : list PolicyViolation :=
  match mapping document with
  | None => [violation "invalid YAML"]
  | Some document_map =>
      violation_if (negb (permission_is_read_only (get document_map (lit "permissions"))))
        "permissions must be exactly contents: read"
      ++ violation_if (trigger_contains_pull_request_target (get document_map (lit "on"))) "pull_request_target is prohibited"
      ++ match mapping (get document_map (lit "jobs")) with
         | None => [violation "jobs must be a mapping"]
         | Some jobs => jobs.*2 ≫= job_violations
         end
  end.
End Violations.

(** [read_yaml] *)
Definition read_yaml (file : composed) : res (option Node) :=
  match file with
  | Composed document => Ok document
  | YAMLError => Ok None
  | ReadRaised e => Err e
  end.

(** [main] over the workflows of a repository, in order: the code it ends with. *)
Definition main (workflows : list (str * composed)) : res Z :=
  match workflows with
  | [] => Ok 1
  | _ =>
      violations ← mapM (fun w => document ← read_yaml w.2; Ok (workflow_violations w.1 document)) workflows;
      Ok (match mjoin violations with [] => 0 | _ => 1 end)
  end.

(** ** What the policy asks *)

(** A mapping with scalar keys, each once. *)
Definition fields (n : Node) (l : node_map) : Prop :=
  n = MappingNode ((fun kv => (ScalarNode kv.1, kv.2)) <$> l) /\ NoDup l.*1.

Definition read_only (n : Node) : Prop := n = MappingNode [(ScalarNode (lit "contents"), ScalarNode (lit "read"))].

Definition hex_lower (c : N) : Prop := (48 <= c <= 57 \/ 97 <= c <= 102)%N.

(** An action at a full commit. *)
Definition pinned (n : Node) : Prop := exists action revision,
  n = ScalarNode (action ++ 64%N :: revision) /\ action <> [] /\ (64%N ∉ action)
  /\ length revision = 40%nat /\ Forall hex_lower revision.

Definition step_allowed (n : Node) : Prop := exists l, fields n l /\ forall u, (lit "uses", u) ∈ l -> pinned u.

Definition job_allowed (n : Node) : Prop := exists l, fields n l
  /\ (forall p, (lit "permissions", p) ∈ l -> read_only p)
  /\ ((exists u, ((lit "uses", u) ∈ l) /\ pinned u /\ (lit "steps" ∉ l.*1))
      \/ ((lit "uses" ∉ l.*1) /\ exists steps, ((lit "steps", SequenceNode steps) ∈ l) /\ Forall step_allowed steps)).

Definition trigger_allowed (n : Node) : Prop :=
  n <> ScalarNode pull_request_target
  /\ (forall nodes, n = SequenceNode nodes -> ScalarNode pull_request_target ∉ nodes)
  /\ (forall l, fields n l -> pull_request_target ∉ l.*1).

Definition workflow_allowed (n : Node) : Prop := exists l, fields n l
  /\ (exists p, ((lit "permissions", p) ∈ l) /\ read_only p)
  /\ (forall t, (lit "on", t) ∈ l -> trigger_allowed t)
  /\ exists jobs jl, ((lit "jobs", jobs) ∈ l) /\ fields jobs jl /\ Forall job_allowed jl.*2.

(** ** The nodes, as the rules see them *)

Lemma mapping_values_spec pairs values l :
  NoDup values.*1 ->
  mapping_values pairs values = Some l
  <-> exists m, l = values ++ m /\ pairs = ((fun kv => (ScalarNode kv.1, kv.2)) <$> m) /\ NoDup l.*1.
Proof.
  revert values. induction pairs as [|[k v] pairs IH]; intros values Hv; cbn [mapping_values].
  - split; [intros [= <-]; exists []; by rewrite app_nil_r|]. intros ([|? ?] & -> & [=] & _). by rewrite app_nil_r.
  - destruct k as [key| |]; cbn [scalar].
    2-3: split; [done|]; by intros ([|? ?] & -> & [=] & _).
    case_bool_decide as Hk.
    + split; [done|]. intros ([|[k' v'] m] & -> & [=] & Hn); subst. rewrite fmap_app in Hn.
      apply NoDup_app in Hn as (_ & Hd & _). exfalso. apply (Hd k' Hk). cbn. by left.
    + rewrite IH; [|rewrite fmap_app; apply NoDup_app; split_and!; [done | by intros x Hx ->%list_elem_of_singleton | apply NoDup_singleton]].
      split.
      * intros (m & -> & -> & Hn). exists ((key, v) :: m). by rewrite <-app_assoc in *.
      * intros ([|[k' v'] m] & -> & [=] & Hn); subst. exists m. by rewrite <-app_assoc.
Qed.

Lemma mapping_spec n l : mapping (Some n) = Some l <-> fields n l.
Proof.
  unfold fields. destruct n as [| |pairs]; cbn [mapping]; [by split; [|intros [? _]].. |].
  rewrite mapping_values_spec by constructor. split; [intros (m & -> & -> & Hn); done|].
  intros [[= ->] Hn]. by exists l.
Qed.

Lemma mapping_option o l : mapping o = Some l <-> exists n, o = Some n /\ fields n l.
Proof.
  destruct o as [n|]; [|by split; [|intros (n & ? & _)]]. rewrite mapping_spec. split; [by exists n|]. by intros (? & [= <-] & ?).
Qed.

Lemma get_spec l key v : NoDup l.*1 -> get l key = Some v <-> (key, v) ∈ l.
Proof.
  induction l as [|[k w] l IH]; cbn [get]; [by rewrite elem_of_nil|]. intros [Hk Hn]%NoDup_cons.
  rewrite elem_of_cons. case_bool_decide as E; subst.
  - split; [intros [= ->]; by left|]. intros [[= ->]|H]; [done|]. destruct Hk. by apply (list_elem_of_fmap_2' fst _ (key, v)).
  - rewrite IH by done. split; [by right|]. by intros [[= -> _]|].
Qed.

Lemma get_none l key : get l key = None <-> key ∉ l.*1.
Proof.
  induction l as [|[k w] l IH]; cbn [get fmap list_fmap fst]; [split; [intros _; apply not_elem_of_nil | done]|].
  rewrite not_elem_of_cons. case_bool_decide as E; subst; [naive_solver|]. rewrite IH. naive_solver.
Qed.

Lemma read_only_spec o : permission_is_read_only o = true <-> exists n, o = Some n /\ read_only n.
Proof.
  unfold permission_is_read_only. split.
  - destruct (mapping o) as [[|[key v] [|]]|] eqn:E; try done. apply mapping_option in E as (n & -> & -> & _).
    rewrite andb_true_iff, !bool_decide_eq_true. intros [-> Hv]. eexists. split; [done|]. unfold read_only.
    destruct v as [r| |]; try done. by injection Hv as ->.
  - intros (n & -> & ->). reflexivity.
Qed.

Lemma hex_lower_spec c : existsb (N.eqb c) (lit "0123456789abcdef") = true <-> hex_lower c.
Proof.
  unfold hex_lower. rewrite existsb_exists. split.
  - intros (x & Hx & ->%N.eqb_eq). cbv in Hx. lia.
  - intros H. exists c. split; [|apply N.eqb_refl]. cbv. lia.
Qed.

Lemma separator_inj {A} (x : A) a b r s : a ++ x :: r = b ++ x :: s -> x ∉ a -> x ∉ b -> a = b /\ r = s.
Proof.
  revert b. induction a as [|y a IH]; intros [|z b] E Ha Hb; cbn in E.
  - by injection E.
  - injection E as -> _. by destruct Hb; left.
  - injection E as -> _. by destruct Ha; left.
  - injection E as -> E. apply not_elem_of_cons in Ha as [_ Ha], Hb as [_ Hb]. by destruct (IH b E Ha Hb) as [-> ->].
Qed.

Lemma pinned_spec n : immutable_action (scalar (Some n)) = true <-> pinned n.
Proof.
  unfold pinned. destruct n as [reference|nodes|pairs]; cbn [scalar immutable_action].
  2-3: split; [done | by intros (? & ? & ? & _)].
  pose proof (partition_spec 64 reference) as Hp. destruct (partition 64 reference) as [action [revision|]].
  - destruct Hp as [-> Ha]. rewrite !andb_true_iff, !bool_decide_eq_true, forallb_Forall.
    rewrite (Forall_iff _ _ _ hex_lower_spec).
    split; [intros [[? ?] ?]; eauto 10|]. intros (a & r & [= E] & Hne & Hn & Hl & Hx).
    apply separator_inj in E as [-> ->]; done.
  - split; [done|]. intros (a & r & [= E] & _ & _ & _). destruct Hp as [<- Hn]. destruct Hn. rewrite E, elem_of_app, elem_of_cons. auto.
Qed.

Lemma step_spec path n : step_violations path n = [] <-> step_allowed n.
Proof.
  unfold step_violations, step_allowed. destruct (mapping (Some n)) as [l|] eqn:E.
  - apply mapping_spec in E as Hf. pose proof Hf as [_ Hn]. split.
    + intros H. exists l. split; [done|]. intros u Hu%get_spec; [|done]. rewrite Hu in H. apply pinned_spec.
      by destruct (immutable_action _).
    + intros (m & Hm%mapping_spec & H). rewrite E in Hm. injection Hm as <-.
      destruct (get l (lit "uses")) as [u|] eqn:Eu; [|done]. apply get_spec, H, pinned_spec in Eu; [|done]. by rewrite Eu.
  - split; [done|]. intros (m & Hm%mapping_spec & _). congruence.
Qed.

Lemma steps_spec path steps : steps ≫= step_violations path = [] <-> Forall step_allowed steps.
Proof.
  induction steps as [|n steps IH]; [by split|]. rewrite Forall_cons, <-IH, <-(step_spec path). cbn. by rewrite app_nil.
Qed.

Lemma violation_if_nil path b message : violation_if path b message = [] <-> b = false.
Proof. by destruct b. Qed.

Lemma job_spec path n : job_violations path n = [] <-> job_allowed n.
Proof.
  unfold job_violations, job_allowed. destruct (mapping (Some n)) as [l|] eqn:E.
  2:{ split; [done|]. intros (m & Hm%mapping_spec & _). congruence. }
  apply mapping_spec in E as Hf. pose proof Hf as [_ Hn].
  assert (match get l (lit "permissions") with
          | Some p => violation_if path (negb (permission_is_read_only (Some p))) "permissions must be exactly contents: read"
          | None => []
          end = [] <-> forall p, (lit "permissions", p) ∈ l -> read_only p) as Hp.
  { split.
    - intros H p Hp%get_spec; [|done]. rewrite Hp in H. apply violation_if_nil, negb_false_iff, read_only_spec in H.
      by destruct H as (? & [= <-] & ?).
    - intros H. destruct (get l (lit "permissions")) as [p|] eqn:Ep; [|done]. apply get_spec, H in Ep; [|done].
      apply violation_if_nil, negb_false_iff, read_only_spec. eauto. }
  assert ((exists l', fields n l' /\ (forall p, (lit "permissions", p) ∈ l' -> read_only p)
      /\ ((exists u, ((lit "uses", u) ∈ l') /\ pinned u /\ (lit "steps" ∉ l'.*1))
          \/ ((lit "uses" ∉ l'.*1) /\ exists steps, ((lit "steps", SequenceNode steps) ∈ l') /\ Forall step_allowed steps)))
    <-> (forall p, (lit "permissions", p) ∈ l -> read_only p)
      /\ ((exists u, get l (lit "uses") = Some u /\ pinned u /\ get l (lit "steps") = None)
          \/ (get l (lit "uses") = None /\ exists steps, get l (lit "steps") = Some (SequenceNode steps) /\ Forall step_allowed steps))) as Hl.
  { setoid_rewrite get_none. setoid_rewrite get_spec; [|done..]. split; [|by intros H; exists l].
    intros (m & Hm%mapping_spec & H). rewrite E in Hm. by injection Hm as <-. }
  rewrite Hl, <-Hp. clear Hl Hp. destruct (get l (lit "uses")) as [u|].
  - rewrite app_nil, violation_if_nil, orb_false_iff, negb_false_iff, pinned_spec, bool_decide_eq_false. unfold is_Some.
    destruct (get l (lit "steps")) as [s|]; naive_solver.
  - destruct (get l (lit "steps")) as [[| steps |]|]; rewrite ?app_nil, ?steps_spec; naive_solver.
Qed.

Lemma jobs_spec path jobs : jobs ≫= job_violations path = [] <-> Forall job_allowed jobs.
Proof.
  induction jobs as [|n jobs IH]; [by split|]. rewrite Forall_cons, <-IH, <-(job_spec path). cbn. by rewrite app_nil.
Qed.

Lemma scalar_target n : scalar (Some n) = Some pull_request_target <-> n = ScalarNode pull_request_target.
Proof. destruct n; cbn; split; congruence. Qed.

Lemma trigger_spec n : trigger_contains_pull_request_target (Some n) = false <-> trigger_allowed n.
Proof.
  unfold trigger_contains_pull_request_target, trigger_allowed. destruct n as [v|nodes|pairs].
  - destruct (decide (v = pull_request_target)) as [->|H].
    + rewrite bool_decide_eq_true_2 by done. split; [done | by intros (? & _)].
    + rewrite bool_decide_eq_false_2 by (by intros [= ->]). split; [|done]. intros _. split_and!; [by intros [= ->] | done |].
      by intros l [? _].
  - rewrite bool_decide_eq_false_2 by done. rewrite <-not_true_iff_false, existsb_exists. split.
    + intros H. split_and!; [done | | by intros l [? _]]. intros l [= <-] Hin. apply H.
      exists (ScalarNode pull_request_target). by rewrite <-list_elem_of_In, bool_decide_eq_true_2.
    + intros (_ & H & _) (n & Hin & Hn%bool_decide_eq_true%scalar_target). subst n. by apply (H nodes), list_elem_of_In.
  - rewrite bool_decide_eq_false_2 by done. destruct (mapping (Some (MappingNode pairs))) as [l|] eqn:E.
    + rewrite bool_decide_eq_false. split; [|intros (_ & _ & H); by apply H, mapping_spec].
      intros H. split_and!; [done | done |]. intros m Hm%mapping_spec. rewrite E in Hm. by injection Hm as <-.
    + split; [|done]. intros _. split_and!; [done | done |]. intros m Hm%mapping_spec. congruence.
Qed.

Lemma workflow_spec path o : workflow_violations path o = [] <-> exists n, o = Some n /\ workflow_allowed n.
Proof.
  unfold workflow_violations, workflow_allowed. destruct (mapping o) as [l|] eqn:E.
  2:{ split; [done|]. intros (n & -> & l & Hl%mapping_spec & _). congruence. }
  apply mapping_option in E as Hf. destruct Hf as (n & -> & Hf). pose proof Hf as [_ Hn].
  rewrite !app_nil, !violation_if_nil, negb_false_iff, read_only_spec. split.
  - intros (Hp & Ht & Hj). exists n. split; [done|]. exists l. split; [done|]. split_and!.
    + destruct Hp as (p & Hp & Hr). exists p. by rewrite <-get_spec.
    + intros t Ht'%get_spec; [|done]. rewrite Ht' in Ht. by apply trigger_spec.
    + destruct (mapping (get l (lit "jobs"))) as [jl|] eqn:Ej; [|done]. apply mapping_option in Ej as (jobs & Ej & Hjl).
      exists jobs, jl. rewrite <-get_spec by done. by rewrite <-jobs_spec.
  - intros (n' & [= <-] & m & Hm%mapping_spec & Hp & Ht & jobs & jl & Hj & Hjl & Hall). rewrite E in Hm. injection Hm as <-.
    split_and!.
    + destruct Hp as (p & Hp & Hr). exists p. by rewrite get_spec.
    + destruct (get l (lit "on")) as [t|] eqn:Et; [|done]. by apply trigger_spec, Ht, get_spec.
    + apply get_spec in Hj as ->; [|done]. apply mapping_spec in Hjl as ->. by apply jobs_spec.
Qed.

Lemma violations_nil workflows l :
  mapM (fun w => document ← read_yaml w.2; Ok (workflow_violations w.1 document)) workflows = Ok l -> mjoin l = [] ->
  Forall (fun w => exists n, w.2 = Composed (Some n) /\ workflow_allowed n) workflows.
Proof.
  rewrite mapM_Ok. induction 1 as [|w v ws l (o & Ho & [= <-])%bind_Ok _ IH]; [done|]. cbn. intros [Hw Hl]%app_nil.
  constructor; [|by apply IH]. apply workflow_spec in Hw as (n & -> & Hn). exists n. split; [|done].
  destruct w.2 as [[m|]| |]; cbn in Ho; congruence.
Qed.

Lemma allowed_violations workflows :
  Forall (fun w : str * composed => exists n, w.2 = Composed (Some n) /\ workflow_allowed n) workflows ->
  exists l, mapM (fun w => document ← read_yaml w.2; Ok (workflow_violations w.1 document)) workflows = Ok l /\ mjoin l = [].
Proof.
  induction 1 as [|w ws (n & Hw & Hn) _ (l & Hl & Hj)]; [by exists []|]. exists ([] :: l). split; [|done].
  cbn [mapM]. rewrite Hw. cbn. rewrite (proj2 (workflow_spec w.1 (Some n))) by eauto. cbn. by rewrite Hl.
Qed.

(** C34. The check of the workflows passes exactly when there is one and every one of them
    is a mapping of YAML that may read the contents and nothing else, is not triggered by
    pull_request_target, and whose jobs run only steps and reusable workflows pinned to a
    full commit. *)
Theorem ci_policy_exact workflows :
  main workflows = Ok 0
  <-> workflows <> [] /\ Forall (fun w => exists n, w.2 = Composed (Some n) /\ workflow_allowed n) workflows.
Proof.
  unfold main. destruct workflows as [|w ws]; [by split; [|intros [? _]]|]. rewrite bind_Ok. split.
  - intros (l & Hl & [= H]). split; [done|]. apply (violations_nil _ _ Hl). by destruct (mjoin l).
  - intros [_ (l & Hl & Hj)%allowed_violations]. exists l. by rewrite Hj.
Qed.

(** A trigger that names pull_request_target twice is no mapping with distinct keys: the
    rule does not see it, where every other rule refuses such a node. *)
Lemma malformed_trigger_passes :
  trigger_contains_pull_request_target
    (Some (MappingNode [(ScalarNode pull_request_target, ScalarNode []); (ScalarNode pull_request_target, ScalarNode [])]))
  = false.
Proof. reflexivity. Qed.
