(* ===== verification/Verifier.v ===== *)
(** * Verifying a publication

    [publication_verifier.py] and its modules: before and after publication, what GitHub
    and git print is compared with what is approved. *)

From S2P Require Import Prelude PyStr Models Json JsonText Tooling Backlog CiPolicy.

Open Scope Z_scope.

Definition APPROVED_PLUGIN_ID : str := lit "io.github.tommynem.opatchy".
Definition APPROVED_REPOSITORY : str := lit "Tommynem/opatchy".
Definition MARKETPLACE_REPOSITORY : str := lit "omacom/omarchy-plugin-marketplace".

Record MarketplaceRegistry := { active_plugin_ids : gset str; retired_plugin_ids : gset str }.

Record VerificationReport := { vr_mode : str; remote_sha : str; marketplace_sha : str }.

Definition refuse {A} (reason : str) : tool A := Err (VerifierError reason).

(** ** Documents *)

Section Documents.
Context (stack : nat).

(** [decode_json] of a document: a [ProtocolError] becomes the error of the verifier. *)
Definition decoded (document description : str) : tool json :=
  match decode_json stack document with
  | Ok v => Ok v
  | Err (ProtocolError _) => refuse (description ++ lit " is invalid JSON")
  | Err e => Err (Raised e)
  end.

Definition parse_object (document description : str) : tool dict :=
  v ← decoded document description;
  match v with JObj d => Ok d | _ => refuse (description ++ lit " must be a JSON object") end.

Definition parse_array (document description : str) : tool (list json) :=
  v ← decoded document description;
  match v with JList l => Ok l | _ => refuse (description ++ lit " must be a JSON array") end.

Definition has_text (d : dict) (key : string) (text : str) : bool := bool_decide (text_at d key = Some text).
Definition has_flag (d : dict) (key : string) : bool := match dict_get d (lit key) with Some (JBool b) => b | _ => false end.

Definition parse_target (document : str) : tool unit :=
  d ← parse_object document (lit "target repository");
  raise_if (negb (has_text d "nameWithOwner" APPROVED_REPOSITORY && has_flag d "isEmpty" && has_text d "viewerPermission" (lit "ADMIN")))
    (VerifierError (lit "target repository is unavailable, unauthorized, or nonempty")).

(** The name of [defaultBranchRef], if it is a nonempty text. *)
Definition branch_name (d : dict) : option str :=
  match dict_get d (lit "defaultBranchRef") with
  | Some (JObj r) => match text_at r "name" with Some [] => None | found => found end
  | _ => None
  end.

Definition parse_published_repository (document : str) : tool str :=
  d ← parse_object document (lit "published repository");
  match branch_name d with
  | Some branch =>
      if has_text d "nameWithOwner" APPROVED_REPOSITORY && has_text d "visibility" (lit "PUBLIC")
         && has_text d "url" (lit "https://github.com/Tommynem/opatchy") && has_flag d "hasIssuesEnabled"
      then Ok branch else refuse (lit "published repository does not match approved invariants")
  | None => refuse (lit "published repository does not match approved invariants")
  end.

Definition parse_default_branch (document description : str) : tool str :=
  d ← parse_object document description;
  match branch_name d, text_at d "default_branch" with
  | Some branch, _ => Ok branch
  | None, Some (c :: branch) => Ok (c :: branch)
  | None, _ => refuse (description ++ lit " has no usable default branch")
  end.

(** ** The registry of the marketplace *)

(** The loop over the identifiers of one source, with those so far. *)
Fixpoint plugin_ids (ids : list str) (active : gset str) : tool (gset str) :=
  match ids with
  | [] => Ok active
  | id :: rest =>
      if bool_decide (id = [] \/ id ∈ active) then refuse (lit "marketplace registry has malformed plugin maps")
      else plugin_ids rest ({[id]} ∪ active)
  end.

Fixpoint source_ids (sources : list json) (active : gset str) : tool (gset str) :=
  match sources with
  | [] => Ok active
  | JObj d :: rest =>
      match dict_get d (lit "plugins") with
      | Some (JObj plugins) => active ← plugin_ids (keys plugins) active; source_ids rest active
      | Some _ => refuse (lit "marketplace registry has malformed plugin maps")
      | None => source_ids rest active
      end
  | _ => refuse (lit "marketplace registry has malformed plugin maps")
  end.
Definition parse_active_plugin_ids (sources : list json) : tool (gset str) := source_ids sources ∅.

Fixpoint retired_ids (retired : list json) (ids : gset str) : tool (gset str) :=
  match retired with
  | [] => Ok ids
  | JStr id :: rest =>
      if bool_decide (id = [] \/ id ∈ ids) then refuse (lit "marketplace registry has malformed retiredPluginIds")
      else retired_ids rest ({[id]} ∪ ids)
  | _ => refuse (lit "marketplace registry has malformed retiredPluginIds")
  end.
Definition parse_retired_plugin_ids (retired : list json) : tool (gset str) := retired_ids retired ∅.

Definition parse_marketplace_registry (document : str) : tool MarketplaceRegistry :=
  d ← parse_object document (lit "marketplace registry");
  match dict_get d (lit "sources"), dict_get d (lit "retiredPluginIds") with
  | Some (JList sources), Some (JList retired) =>
      active ← parse_active_plugin_ids sources;
      retired ← parse_retired_plugin_ids retired;
      Ok {| active_plugin_ids := active; retired_plugin_ids := retired |}
  | _, _ => refuse (lit "marketplace registry has an incomplete schema")
  end.

(** ** Commits and runs *)

Definition require_sha (value description : str) : tool str :=
  let sha := strip value in
  if negb (bool_decide (length sha = 40%nat)) || existsb (fun c => negb (existsb (N.eqb c) (lit "0123456789abcdef"))) sha
  then refuse (description ++ lit " must be a lowercase full commit SHA")
  else Ok sha.

(** The loop of [require_successful_ci], with whether a run has matched. *)
Fixpoint ci_runs (sha : str) (runs : list json) (matched : bool) : tool bool :=
  match runs with
  | [] => Ok matched
  | run :: rest =>
      match run with
      | JObj d =>
          match text_at d "headSha", text_at d "status", text_at d "conclusion" with
          | Some head_sha, Some status, Some conclusion =>
              if bool_decide (head_sha = sha) then
                if bool_decide (status <> lit "completed" \/ conclusion <> lit "success")
                then refuse (lit "expected SHA has no successful Validate workflow run")
                else ci_runs sha rest true
              else ci_runs sha rest matched
          | _, _, _ => refuse (lit "Validate workflow response has an invalid run")
          end
      | _ => refuse (lit "Validate workflow response has an invalid run")
      end
  end.

Definition require_successful_ci (document sha : str) : tool unit :=
  runs ← parse_array document (lit "Validate workflow response");
  matched ← ci_runs sha runs false;
  raise_if (negb matched) (VerifierError (lit "expected SHA has no successful Validate workflow run")).
End Documents.

(** ** The checks *)

Section Service.
Context {W : Type} (run_ : W -> list str -> W * ToolResult) (stack : nat).

(** [require_result]: what a command printed, if it succeeded. *)
Definition require_result (arguments : list str) (operation : string) : Script W str := fun w =>
  let '(w', result) := run_ w arguments in
  (w', if tr_returncode result =? 0 then Ok (tr_stdout result) else refuse (lit operation ++ lit " failed")).

Definition commit_arguments (repository branch : str) : list str :=
  [lit "gh"; lit "api"; lit "repos/" ++ repository ++ lit "/commits/" ++ branch; lit "--jq"; lit ".sha"].

Definition marketplace_view : list str :=
  [lit "gh"; lit "repo"; lit "view"; MARKETPLACE_REPOSITORY; lit "--json"; lit "defaultBranchRef"].

Definition registry_arguments (sha : str) : list str :=
  [lit "gh"; lit "api"; lit "repos/" ++ MARKETPLACE_REPOSITORY ++ lit "/contents/registry.json?ref=" ++ sha;
   lit "-H"; lit "Accept: application/vnd.github.raw+json"].

Definition require_marketplace_absent : Script W str :=
  view ← require_result marketplace_view "marketplace branch lookup";
  branch ← pure (parse_default_branch stack view (lit "marketplace repository"));
  commit ← require_result (commit_arguments MARKETPLACE_REPOSITORY branch) "marketplace SHA lookup";
  sha ← pure (require_sha commit (lit "marketplace SHA"));
  registry ← require_result (registry_arguments sha) "marketplace registry lookup";
  parsed ← pure (parse_marketplace_registry stack registry);
  _ ← pure (raise_if (bool_decide (APPROVED_PLUGIN_ID ∈ active_plugin_ids parsed \/ APPROVED_PLUGIN_ID ∈ retired_plugin_ids parsed))
              (VerifierError (lit "marketplace collision for the permanent plugin ID")));
  mret sha.

Definition require_plugin_id (plugin_id : str) : Script W unit :=
  pure (raise_if (bool_decide (plugin_id <> APPROVED_PLUGIN_ID)) (VerifierError (lit "plugin ID does not match the approved identity"))).

Definition owner_lookup : list str := names ["gh"; "api"; "user"; "--jq"; ".login"].

Definition require_owner : Script W unit :=
  login ← require_result owner_lookup "owner lookup";
  pure (raise_if (bool_decide (strip login <> lit "Tommynem"))
          (VerifierError (lit "GitHub CLI owner does not match the approved owner"))).

Definition repository_view (fields : string) : list str :=
  [lit "gh"; lit "repo"; lit "view"; APPROVED_REPOSITORY; lit "--json"; lit fields].

Definition require_empty_target : Script W unit :=
  view ← require_result (repository_view "nameWithOwner,isEmpty,viewerPermission") "target lookup";
  pure (parse_target stack view).

Definition ORIGINS : list str :=
  names ["git@github.com:Tommynem/opatchy.git"; "https://github.com/Tommynem/opatchy.git"; "https://github.com/Tommynem/opatchy"].

Definition origin_lookup : list str := names ["git"; "remote"; "get-url"; "origin"].

Definition require_origin : Script W unit :=
  origin ← require_result origin_lookup "origin lookup";
  pure (raise_if (bool_decide (strip origin ∉ ORIGINS)) (VerifierError (lit "origin does not identify the approved repository"))).

Definition published_view : list str := repository_view "nameWithOwner,visibility,url,hasIssuesEnabled,defaultBranchRef".

Definition require_published_repository : Script W str :=
  view ← require_result published_view "published repository lookup";
  pure (parse_published_repository stack view).

Definition roadmap_lookup : list str :=
  names ["gh"; "issue"; "list"; "--repo"] ++ [APPROVED_REPOSITORY]
  ++ names ["--state"; "all"; "--limit"; "100"; "--json"; "title,body,url,labels"].

Definition require_roadmap_match (items : list RoadmapItem) : Script W unit :=
  issues ← require_result roadmap_lookup "roadmap issue lookup";
  existing ← pure (match parse_existing_issues stack issues with
                   | Err (BacklogError _) => refuse (lit "roadmap issue response cannot be parsed safely")
                   | r => r
                   end);
  let comparison := compare_issue_sets items existing in
  pure (raise_if (negb (bool_decide (missing comparison = ∅) && bool_decide (unexpected comparison = ∅)
                        && bool_decide (duplicate comparison = ∅) && bool_decide (missing_labels comparison = ∅)))
          (VerifierError (lit "remote roadmap issues do not exactly match the backlog"))).

Definition runs_lookup (branch : str) : list str :=
  names ["gh"; "run"; "list"; "--repo"] ++ [APPROVED_REPOSITORY; lit "--workflow"; lit "Validate"; lit "--branch"; branch]
  ++ names ["--limit"; "100"; "--json"; "headSha,status,conclusion,url"].

Definition require_validate_success (sha branch : str) : Script W unit :=
  runs ← require_result (runs_lookup branch) "Validate lookup";
  pure (require_successful_ci stack runs sha).

Definition tags_lookup : list str := [lit "gh"; lit "api"; lit "repos/" ++ APPROVED_REPOSITORY ++ lit "/tags"; lit "--paginate"].
Definition releases_lookup : list str :=
  names ["gh"; "release"; "list"; "--repo"] ++ [APPROVED_REPOSITORY] ++ names ["--limit"; "100"; "--json"; "tagName"].

(** The releases are read only when there are no tags. *)
Definition require_no_tags_or_releases : Script W unit :=
  tags ← require_result tags_lookup "tag lookup";
  releases ← require_result releases_lookup "release lookup";
  tags ← pure (parse_array stack tags (lit "tag response"));
  some ← match tags with
         | _ :: _ => mret true
         | [] => releases ← pure (parse_array stack releases (lit "release response")); mret (negb (bool_decide (releases = [])))
         end;
  pure (raise_if some (VerifierError (lit "published repository unexpectedly has tags or releases"))).

Definition verify_pre_publication (plugin_id : str) : Script W VerificationReport :=
  _ ← require_plugin_id plugin_id;
  _ ← require_owner;
  _ ← require_empty_target;
  sha ← require_marketplace_absent;
  mret {| vr_mode := lit "pre-publication"; remote_sha := []; marketplace_sha := sha |}.

Definition verify_published (items : list RoadmapItem) (plugin_id : str) : Script W VerificationReport :=
  _ ← require_plugin_id plugin_id;
  _ ← require_owner;
  _ ← require_origin;
  head ← require_result (names ["git"; "rev-parse"; "HEAD"]) "local SHA";
  local ← pure (require_sha head (lit "local SHA"));
  branch ← require_published_repository;
  commit ← require_result (commit_arguments APPROVED_REPOSITORY branch) "remote SHA";
  remote ← pure (require_sha commit (lit "remote SHA"));
  _ ← pure (raise_if (bool_decide (local <> remote)) (VerifierError (lit "local SHA does not match remote default branch")));
  _ ← require_roadmap_match items;
  _ ← require_validate_success remote branch;
  _ ← require_no_tags_or_releases;
  sha ← require_marketplace_absent;
  mret {| vr_mode := lit "published"; remote_sha := remote; marketplace_sha := sha |}.
End Service.

(** ** The command line *)

Record Arguments := { mode : str; plugin_id : str; backlog : option str }.

Definition parse_arguments (arguments : list str) : tool Arguments :=
  match arguments with
  | first :: mode :: second :: repository :: third :: plugin_id :: rest =>
      let backlog := match rest with [option_; path] => Some (option_, path) | _ => None end in
      if bool_decide (first <> lit "--mode") || bool_decide (second <> lit "--repository")
         || bool_decide (repository <> APPROVED_REPOSITORY) || bool_decide (third <> lit "--plugin-id")
         || match rest, backlog with
            | [], _ => false
            | _, Some (option_, _) => bool_decide (option_ <> lit "--backlog")
            | _, None => true
            end
      then refuse (lit "publication verifier arguments are invalid")
      else if bool_decide (mode ∉ names ["pre-publication"; "published"]) || bool_decide (plugin_id <> APPROVED_PLUGIN_ID)
      then refuse (lit "approved mode or plugin ID is invalid")
      else if xorb (bool_decide (mode = lit "published")) (bool_decide (is_Some backlog))
      then refuse (lit "published mode requires exactly one backlog path")
      else Ok {| mode := mode; plugin_id := plugin_id; backlog := snd <$> backlog |}
  | _ => refuse (lit "publication verifier arguments are invalid")
  end.

Definition is_caught (e : tool_error) : bool :=
  match e with Raised OSError | BacklogError _ | VerifierError _ => true | _ => false end.

(** [main]: the code it ends with; [read_text] is what reading the backlog comes to. *)
Definition main {W} (run_ : W -> list str -> W * ToolResult) (stack : nat) (read_text : str -> res str) (arguments : list str)
    : W -> W * tool Z := fun w =>
  let '(w', result) :=
    (arguments ← pure (parse_arguments arguments);
     if bool_decide (mode arguments = lit "pre-publication")
     then verify_pre_publication run_ stack (plugin_id arguments)
     else
       match backlog arguments with
       | None => pure (refuse (lit "published mode requires a backlog"))
       | Some path =>
           text ← pure (match read_text path with Ok t => Ok t | Err e => Err (Raised e) end);
           items ← pure (parse_backlog text);
           verify_published run_ stack items (plugin_id arguments)
       end) w in
  (w', match result with
       | Ok _ => Ok 0
       | Err e => if is_caught e then Ok 1 else Err e
       end).

(** ** What a publication must be *)

Definition full_sha (s : str) : Prop := length s = 40%nat /\ Forall hex_lower s.

Lemma existsb_negb_forallb {A} (f : A -> bool) l : existsb (fun x => negb (f x)) l = negb (forallb f l).
Proof. induction l as [|x l IH]; cbn; [done|]. rewrite IH. by destruct (f x). Qed.

Lemma require_sha_Ok value description sha : require_sha value description = Ok sha <-> strip value = sha /\ full_sha sha.
Proof.
  unfold require_sha, full_sha. rewrite <-(Forall_iff _ _ _ hex_lower_spec), <-forallb_Forall.
  rewrite (existsb_negb_forallb (fun c => existsb (N.eqb c) (lit "0123456789abcdef"))).
  destruct (decide (length (strip value) = 40%nat)) as [Hl|Hl].
  - rewrite bool_decide_eq_true_2 by done. cbn [negb orb]. destruct (forallb _ (strip value)) eqn:E; cbn [negb].
    + split; [intros [= <-]; done | intros [-> _]; done].
    + split; [done|]. intros (<- & _ & H). congruence.
  - rewrite bool_decide_eq_false_2 by done. cbn [negb orb]. split; [done|]. by intros (<- & H & _).
Qed.

(** The identifiers that the sources of a registry offer. *)
Definition offered (source : json) : option (list str) :=
  match source with
  | JObj d => match dict_get d (lit "plugins") with
              | Some (JObj plugins) => Some (keys plugins)
              | Some _ => None
              | None => Some []
              end
  | _ => None
  end.

Lemma plugin_ids_Ok ids active active' :
  plugin_ids ids active = Ok active'
  <-> NoDup ids /\ Forall (fun id => id <> [] /\ id ∉ active) ids /\ active' = list_to_set ids ∪ active.
Proof.
  revert active. induction ids as [|id ids IH]; intros active; cbn [plugin_ids list_to_set].
  - split; [intros [= <-]; split_and!; [constructor | constructor | set_solver] | intros (_ & _ & ->); f_equal; set_solver].
  - rewrite NoDup_cons, Forall_cons. case_bool_decide as E.
    + split; [done|]. intros (_ & [[? ?] _] & _). tauto.
    + rewrite IH, !Forall_forall. split.
      * intros (H1 & H2 & ->). split_and!; [|done|tauto|tauto| |set_solver].
        -- intros Hid. apply (H2 id Hid). set_solver.
        -- intros x Hx. destruct (H2 x Hx). set_solver.
      * intros ([H1 H1'] & [[Hi Hi'] H2] & ->). split_and!; [done| |set_solver]. intros x Hx. destruct (H2 x Hx). split; [done|].
        assert (x <> id) by (by intros ->). set_solver.
Qed.

Lemma source_ids_Ok sources active active' :
  source_ids sources active = Ok active'
  <-> exists idss, mapM offered sources = Some idss /\ NoDup (mjoin idss)
      /\ Forall (fun id => id <> [] /\ id ∉ active) (mjoin idss) /\ active' = list_to_set (mjoin idss) ∪ active.
Proof.
  revert active. induction sources as [|source sources IH]; intros active; cbn [source_ids mapM].
  - split.
    + intros [= <-]. exists []. cbn. split_and!; [done | constructor | constructor | set_solver].
    + intros (idss & [= <-] & _ & _ & ->). f_equal. set_solver.
  - destruct source as [| | | | | |d]; try (split; [done|]; intros (idss & H & _); done). cbn [offered].
    destruct (dict_get d (lit "plugins")) as [[| | | | | |plugins]|]; try (split; [done|]; intros (idss & H & _); done).
    + rewrite bind_Ok. setoid_rewrite plugin_ids_Ok. setoid_rewrite IH. cbn [mbind option_bind].
      split.
      * intros (a & (H1 & H2 & ->) & idss & -> & H3 & H4 & ->). exists (keys plugins :: idss). cbn [mjoin list_join].
        rewrite NoDup_app, Forall_app, !Forall_forall in *. split_and!; [done | done | | done | done | | set_solver].
        -- intros x Hx Hx'. destruct (H4 x Hx'). set_solver.
        -- intros x Hx. destruct (H4 x Hx). set_solver.
      * intros (idss & H & Hn & Hf & ->). destruct (mapM offered sources) as [k|]; [|done]. injection H as <-. cbn [mjoin list_join] in *.
        apply NoDup_app in Hn as (H1 & H2 & H3). apply Forall_app in Hf as [H4 H5].
        eexists. split; [split_and!; [done | done | done]|]. exists k. split_and!; [done | done | | set_solver].
        apply Forall_forall. intros x Hx. rewrite Forall_forall in H5. destruct (H5 x Hx). split; [done|].
        specialize (H2 x). set_solver.
    + rewrite IH. cbn [mbind option_bind]. split.
      * intros (idss & -> & H). by exists ([] :: idss).
      * intros (idss & H & H'). destruct (mapM offered sources) as [k|]; [|done]. injection H as <-. by exists k.
Qed.

Lemma retired_ids_Ok retired ids ids' :
  retired_ids retired ids = Ok ids'
  <-> exists l, retired = JStr <$> l /\ NoDup l /\ Forall (fun id => id <> [] /\ id ∉ ids) l /\ ids' = list_to_set l ∪ ids.
Proof.
  revert ids. induction retired as [|v retired IH]; intros ids; cbn [retired_ids].
  - split.
    + intros [= <-]. exists []. split_and!; [done | constructor | constructor | set_solver].
    + intros ([|? ?] & [=] & _ & _ & ->). f_equal. set_solver.
  - destruct v as [| | | |id| |]; try (split; [done | by intros ([|? ?] & [=] & _)]). case_bool_decide as E.
    + split; [done|]. intros ([|x l] & [=] & _ & [[? ?] _]%Forall_cons & _). subst. tauto.
    + rewrite IH. split.
      * intros (l & -> & H1 & H2 & ->). exists (id :: l). rewrite NoDup_cons, Forall_cons, !Forall_forall in *.
        split_and!; [done | | done | tauto | tauto | | set_solver].
        -- intros Hid. destruct (H2 id Hid). set_solver.
        -- intros x Hx. destruct (H2 x Hx). set_solver.
      * intros ([|x l] & [=] & [Hn1 Hn2]%NoDup_cons & [[? ?] Hl]%Forall_cons & ->). subst. exists l. split_and!; [done | done | | set_solver].
        rewrite !Forall_forall in *. intros y Hy. destruct (Hl y Hy). split; [done|]. assert (y <> x) by (by intros ->). set_solver.
Qed.

(** What a runner says while nothing changes: the same answer to the same command. *)
Section Exact.
Context (answer : list str -> ToolResult) (stack : nat).

Definition steady : unit -> list str -> unit * ToolResult := fun w arguments => (w, answer arguments).

(** A command succeeds and prints a text. *)
Definition says (arguments : list str) (text : str) : Prop :=
  tr_returncode (answer arguments) = 0 /\ tr_stdout (answer arguments) = text.

(** A document says a value. *)
Definition holds (arguments : list str) (v : json) : Prop := exists text, says arguments text /\ decode_json stack text = Ok v.

(** A command prints a full commit. *)
Definition commit_is (arguments : list str) (sha : str) : Prop :=
  full_sha sha /\ exists text, says arguments text /\ strip text = sha.

Definition approved_repository (branch : str) : Prop := exists d,
  holds published_view (JObj d)
  /\ text_at d "nameWithOwner" = Some APPROVED_REPOSITORY /\ text_at d "visibility" = Some (lit "PUBLIC")
  /\ text_at d "url" = Some (lit "https://github.com/Tommynem/opatchy") /\ has_flag d "hasIssuesEnabled" = true
  /\ branch_name d = Some branch.

(** A run of the workflow; one of this commit is complete and has succeeded. *)
Definition run_of (sha : str) (run : json) (h : str) : Prop := exists d status conclusion,
  run = JObj d /\ text_at d "headSha" = Some h /\ text_at d "status" = Some status /\ text_at d "conclusion" = Some conclusion
  /\ (h = sha -> status = lit "completed" /\ conclusion = lit "success").

Definition validated (sha branch : str) : Prop := exists runs heads,
  holds (runs_lookup branch) (JList runs) /\ Forall2 (run_of sha) runs heads /\ sha ∈ heads.

(** The roadmap has one issue for each item and no other, each with its labels. *)
Definition roadmap_is (items : list RoadmapItem) : Prop := exists text existing,
  says roadmap_lookup text /\ parse_existing_issues stack text = Ok existing
  /\ NoDup (ei_slug <$> existing) /\ (forall s, s ∈ ei_slug <$> existing <-> s ∈ slug <$> items)
  /\ Forall (fun i => REQUIRED_LABELS ⊆ ei_labels i) existing.

(** The marketplace at a commit does not know the plugin, neither offered nor retired. *)
Definition marketplace_free (sha : str) : Prop := exists view branch d sources idss retired,
  says marketplace_view view /\ parse_default_branch stack view (lit "marketplace repository") = Ok branch
  /\ commit_is (commit_arguments MARKETPLACE_REPOSITORY branch) sha
  /\ holds (registry_arguments sha) (JObj d)
  /\ dict_get d (lit "sources") = Some (JList sources) /\ mapM offered sources = Some idss
  /\ dict_get d (lit "retiredPluginIds") = Some (JList (JStr <$> retired))
  /\ NoDup (mjoin idss) /\ NoDup retired /\ Forall (fun id => id <> []) (mjoin idss ++ retired)
  /\ APPROVED_PLUGIN_ID ∉ mjoin idss ++ retired.

Definition published (items : list RoadmapItem) (sha market : str) : Prop :=
  (exists login, says owner_lookup login /\ strip login = lit "Tommynem")
  /\ (exists origin, says origin_lookup origin /\ strip origin ∈ ORIGINS)
  /\ commit_is (names ["git"; "rev-parse"; "HEAD"]) sha
  /\ (exists branch, approved_repository branch /\ commit_is (commit_arguments APPROVED_REPOSITORY branch) sha /\ validated sha branch)
  /\ roadmap_is items
  /\ holds tags_lookup (JList []) /\ holds releases_lookup (JList [])
  /\ marketplace_free market.

Lemma bind_steady {A B} (m : Script unit A) (k : A -> Script unit B) b :
  (m ≫= k) tt = (tt, Ok b) <-> exists a, m tt = (tt, Ok a) /\ k a tt = (tt, Ok b).
Proof.
  unfold mbind, Script_bind. destruct (m tt) as [[] [a|e]]; [split; [by exists a | by intros (? & [= <-] & ?)]|].
  split; [done | by intros (? & ? & _)].
Qed.

Lemma pure_steady {A} (m : tool A) a : pure m tt = (tt, Ok a) <-> m = Ok a.
Proof. unfold pure. split; [by intros [= ->] | by intros ->]. Qed.

Lemma said arguments operation text : require_result steady arguments operation tt = (tt, Ok text) <-> says arguments text.
Proof.
  unfold require_result, steady, says. destruct (Z.eqb_spec (tr_returncode (answer arguments)) 0).
  - split; [by intros [= <-] | by intros [_ ->]].
  - split; [done | by intros [? _]].
Qed.

Lemma document_Ok document description v : decoded stack document description = Ok v <-> decode_json stack document = Ok v.
Proof. unfold decoded. destruct (decode_json stack document) as [w|[]]; (split; [done || by intros [= ->] | done || by intros [= ->]]). Qed.

Lemma object_Ok document description d : parse_object stack document description = Ok d <-> decode_json stack document = Ok (JObj d).
Proof.
  unfold parse_object. rewrite bind_Ok. setoid_rewrite document_Ok. split; [|by exists (JObj d)].
  intros (v & -> & H). destruct v; try done. by injection H as ->.
Qed.

Lemma array_Ok document description l : parse_array stack document description = Ok l <-> decode_json stack document = Ok (JList l).
Proof.
  unfold parse_array. rewrite bind_Ok. setoid_rewrite document_Ok. split; [|by exists (JList l)].
  intros (v & -> & H). destruct v; try done. by injection H as ->.
Qed.

Lemma has_text_true d key text : has_text d key text = true <-> text_at d key = Some text.
Proof. apply bool_decide_eq_true. Qed.

Lemma repository_Ok branch : require_published_repository steady stack tt = (tt, Ok branch) <-> approved_repository branch.
Proof.
  unfold require_published_repository, approved_repository, holds. rewrite bind_steady. setoid_rewrite said.
  setoid_rewrite pure_steady. unfold parse_published_repository. setoid_rewrite bind_Ok. setoid_rewrite object_Ok. split.
  - intros (text & Ht & d & Hd & H). exists d. destruct (branch_name d) as [b|]; [|done].
    destruct (_ && _) eqn:E in H; [|done]. injection H as <-. rewrite !andb_true_iff, !has_text_true in E.
    destruct E as [[[? ?] ?] ?]. split_and!; [by exists text|done..].
  - intros (d & (text & Ht & Hd) & H1 & H2 & H3 & H4 & H5). exists text. split; [done|]. exists d. split; [done|].
    apply has_text_true in H1, H2, H3. by rewrite H5, H1, H2, H3, H4.
Qed.

Lemma commit_Ok arguments operation description sha :
  (text ← require_result steady arguments operation; pure (require_sha text description)) tt = (tt, Ok sha)
  <-> commit_is arguments sha.
Proof.
  rewrite bind_steady. setoid_rewrite said. setoid_rewrite pure_steady. setoid_rewrite require_sha_Ok.
  unfold commit_is. naive_solver.
Qed.

Lemma ci_runs_Ok sha runs matched b :
  ci_runs sha runs matched = Ok b <-> exists heads, Forall2 (run_of sha) runs heads /\ b = (matched || bool_decide (sha ∈ heads)).
Proof.
  revert matched. induction runs as [|run runs IH]; intros matched; cbn [ci_runs].
  - split; [intros [= <-]; exists []; split; [done|]; by rewrite orb_false_r|].
    intros (heads & ->%Forall2_nil_inv_l & ->). by rewrite orb_false_r.
  - assert (forall h k b', run_of sha run h -> (matched || bool_decide (h = sha) || bool_decide (sha ∈ k)) = b' ->
      matched || bool_decide (sha ∈ h :: k) = b') as Hcons.
    { intros h k b' _ <-. rewrite <-orb_assoc. f_equal. destruct (decide (h = sha)) as [->|Hn].
      - by rewrite !bool_decide_eq_true_2 by (done || by left).
      - rewrite (bool_decide_eq_false_2 (h = sha)) by done. apply bool_decide_ext. rewrite elem_of_cons. naive_solver. }
    destruct run as [| | | | | |d];
      try (split; [done|]; by intros (heads & (h & k & (? & ? & ? & [=] & _) & _)%Forall2_cons_inv_l & _)).
    destruct (text_at d "headSha") as [h|] eqn:E1, (text_at d "status") as [s|] eqn:E2, (text_at d "conclusion") as [c|] eqn:E3;
      try (split; [done|]; intros (heads & (h' & k & (d' & s' & c' & [= <-] & ? & ? & ? & _) & _)%Forall2_cons_inv_l & _); congruence).
    destruct (decide (h = sha)) as [->|Hn].
    + rewrite (bool_decide_eq_true_2 (sha = sha)) by done. case_bool_decide as Ec.
      * split; [done|]. intros (heads & (h' & k & (d' & s' & c' & [= <-] & ? & ? & ? & H) & _ & ->)%Forall2_cons_inv_l & _).
        destruct H; [congruence|]. destruct Ec; congruence.
      * rewrite IH. split.
        -- intros (k & Hk & ->). exists (sha :: k). assert (run_of sha (JObj d) sha) as Hr.
           { exists d, s, c. split_and!; try done. intros _. split; apply dec_stable; tauto. }
           split; [by constructor|]. symmetry. eapply Hcons; [exact Hr|]. rewrite (bool_decide_eq_true_2 (sha = sha)) by done.
           by destruct matched.
        -- intros (heads & (h' & k & (d' & s' & c' & [= <-] & ? & ? & ? & H) & Hk & ->)%Forall2_cons_inv_l & ->).
           exists k. split; [done|]. assert (h' = sha) as -> by congruence.
           rewrite (bool_decide_eq_true_2 (sha ∈ _ :: _)) by by left. by rewrite orb_true_r.
    + rewrite (bool_decide_eq_false_2 (h = sha)), IH by done. split.
      * intros (k & Hk & ->). exists (h :: k). assert (run_of sha (JObj d) h) as Hr by (by exists d, s, c).
        split; [by constructor|]. symmetry. eapply Hcons; [exact Hr|]. by rewrite bool_decide_eq_false_2, orb_false_r.
      * intros (heads & (h' & k & (d' & s' & c' & [= <-] & ? & ? & ? & H) & Hk & ->)%Forall2_cons_inv_l & ->).
        exists k. split; [done|]. assert (h' = h) as -> by congruence. f_equal. apply bool_decide_ext. rewrite elem_of_cons. naive_solver.
Qed.

Lemma raise_steady (b : bool) (e : tool_error) : pure (raise_if b e) tt = (tt, Ok tt) <-> b = false.
Proof. rewrite pure_steady. apply raise_if_Ok. Qed.

Lemma ci_validated_Ok sha branch : require_validate_success steady stack sha branch tt = (tt, Ok tt) <-> validated sha branch.
Proof.
  unfold require_validate_success, validated, holds, require_successful_ci. rewrite bind_steady. setoid_rewrite said.
  setoid_rewrite pure_steady. setoid_rewrite bind_Ok. setoid_rewrite array_Ok. setoid_rewrite bind_Ok.
  setoid_rewrite ci_runs_Ok. setoid_rewrite raise_if_Ok. setoid_rewrite negb_false_iff. split.
  - intros (text & Ht & runs & Hr & b & (heads & Hh & ->) & Hin%bool_decide_eq_true). eauto 10.
  - intros (runs & heads & (text & Ht & Hd) & Hh & Hin). exists text. split; [done|]. exists runs. split; [done|].
    exists true. split; [|done]. exists heads. by rewrite bool_decide_eq_true_2.
Qed.

Lemma exactly_matches items existing :
  let c := compare_issue_sets items existing in
  (missing c = ∅ /\ unexpected c = ∅ /\ duplicate c = ∅ /\ missing_labels c = ∅)
  <-> NoDup (ei_slug <$> existing) /\ (forall s, s ∈ ei_slug <$> existing <-> s ∈ slug <$> items)
      /\ Forall (fun i => REQUIRED_LABELS ⊆ ei_labels i) existing.
Proof.
  intros c. subst c. cbn [missing unexpected duplicate missing_labels compare_issue_sets].
  assert (list_to_set (ei_slug <$> List.filter (fun i => negb (bool_decide (REQUIRED_LABELS ⊆ ei_labels i))) existing) = (∅ : gset str)
          <-> Forall (fun i => REQUIRED_LABELS ⊆ ei_labels i) existing) as ->.
  { rewrite Forall_forall. split.
    - intros H i Hi. apply dec_stable. intros Hl. apply (not_elem_of_empty (C:=gset str) (ei_slug i)). rewrite <-H.
      apply elem_of_list_to_set, list_elem_of_fmap_2, elem_of_filter_bool. by rewrite bool_decide_eq_false_2.
    - intros H. rewrite filter_none; [done|]. apply Forall_forall. intros i Hi. by rewrite bool_decide_eq_true_2 by auto. }
  assert (list_to_set (repeated (ei_slug <$> existing)) = (∅ : gset str) <-> NoDup (ei_slug <$> existing)) as ->.
  { rewrite <-repeated_nil. split; [|by intros ->]. intros H. apply elem_of_nil_inv. intros s Hs.
    apply (not_elem_of_empty (C:=gset str) s). rewrite <-H. by apply elem_of_list_to_set. }
  split.
  - intros (H1 & H2 & H3 & H4). split; [done|]. split; [|done]. intros s.
    apply empty_difference_subseteq_L in H1, H2. rewrite <-!(elem_of_list_to_set (C:=gset str)). split; auto.
  - intros (H3 & H & H4). split_and!; [| |done|done]; apply subseteq_empty_difference_L; intros s;
      rewrite !elem_of_list_to_set; apply H.
Qed.

Lemma roadmap_Ok items :
  require_roadmap_match steady stack items tt = (tt, Ok tt) <-> roadmap_is items.
Proof.
  unfold require_roadmap_match, roadmap_is. rewrite bind_steady. setoid_rewrite said. setoid_rewrite bind_steady.
  setoid_rewrite pure_steady. setoid_rewrite raise_if_Ok. setoid_rewrite negb_false_iff. setoid_rewrite andb_true_iff.
  setoid_rewrite andb_true_iff. setoid_rewrite andb_true_iff. setoid_rewrite bool_decide_eq_true. split.
  - intros (text & Ht & es & He & [[H1 H2] H3] & H4). exists text, es. split; [done|]. split.
    + by destruct (parse_existing_issues stack text) as [x|[]].
    + by apply exactly_matches.
  - intros (text & es & Ht & He & H). exists text. split; [done|]. exists es. rewrite He. split; [done|].
    apply exactly_matches in H; tauto.
Qed.

Lemma nothing_released_Ok :
  require_no_tags_or_releases steady stack tt = (tt, Ok tt) <-> holds tags_lookup (JList []) /\ holds releases_lookup (JList []).
Proof.
  unfold require_no_tags_or_releases, holds. rewrite bind_steady. setoid_rewrite said. setoid_rewrite bind_steady. setoid_rewrite said.
  setoid_rewrite bind_steady. setoid_rewrite pure_steady. setoid_rewrite array_Ok. setoid_rewrite bind_steady. setoid_rewrite pure_steady.
  setoid_rewrite raise_if_Ok. split.
  - intros (tags & Ht & releases & Hr & l & Hl & b & Hb & ->). destruct l as [|x l]; [|discriminate Hb].
    apply bind_steady in Hb as (k & Hk%pure_steady%array_Ok & [= Hb]).
    destruct k; [|done]. eauto 10.
  - intros [(tags & Ht & Hl) (releases & Hr & Hk)]. exists tags. split; [done|]. exists releases. split; [done|]. exists [].
    split; [done|]. exists false. split; [|done]. apply bind_steady. exists []. by rewrite pure_steady, array_Ok.
Qed.

Lemma marketplace_Ok sha : require_marketplace_absent steady stack tt = (tt, Ok sha) <-> marketplace_free sha.
Proof.
  unfold require_marketplace_absent, marketplace_free, holds.
  repeat (setoid_rewrite bind_steady || setoid_rewrite said || setoid_rewrite pure_steady).
  unfold parse_marketplace_registry, parse_active_plugin_ids, parse_retired_plugin_ids.
  setoid_rewrite require_sha_Ok. setoid_rewrite bind_Ok. setoid_rewrite object_Ok. setoid_rewrite raise_if_Ok.
  setoid_rewrite bool_decide_eq_false. split.
  - intros (view & Hv & branch & Hb & commit & Hc & s & Hs & registry & Hr & parsed & (d & Hd & Hp) & [] & Hn & [= <-]).
    destruct (dict_get d (lit "sources")) as [[| | | | |sources|]|] eqn:E1; try done.
    destruct (dict_get d (lit "retiredPluginIds")) as [[| | | | |retired|]|] eqn:E2; try done.
    apply bind_Ok in Hp as (active & (idss & Hi & Hn1 & Hf1 & ->)%source_ids_Ok & Hp).
    apply bind_Ok in Hp as (ids & (l & -> & Hn2 & Hf2 & ->)%retired_ids_Ok & [= <-]).
    exists view, branch, d, sources, idss, l. unfold commit_is. split_and!; try done; try tauto; try naive_solver.
    + apply Forall_app. split; [eapply Forall_impl; [exact Hf1|] | eapply Forall_impl; [exact Hf2|]]; naive_solver.
    + cbn in Hn. rewrite elem_of_app. set_solver.
  - intros (view & branch & d & sources & idss & l & Hv & Hb & (Hs & commit & Hc & Hcs) & (registry & Hr & Hd) & E1 & Hi & E2
             & Hn1 & Hn2 & [Hf1 Hf2]%Forall_app & Hn).
    exists view. split; [done|]. exists branch. split; [done|]. exists commit. split; [done|]. exists sha. split; [done|].
    exists registry. split; [done|]. rewrite elem_of_app in Hn.
    exists {| active_plugin_ids := list_to_set (mjoin idss); retired_plugin_ids := list_to_set l |}. split.
    + exists d. split; [done|]. rewrite E1, E2. apply bind_Ok. exists (list_to_set (mjoin idss)). split.
      * apply source_ids_Ok. exists idss. split_and!; [done | done | | set_solver]. eapply Forall_impl; [exact Hf1|]. set_solver.
      * apply bind_Ok. exists (list_to_set l). split; [|done]. apply retired_ids_Ok. exists l.
        split_and!; [done | done | | set_solver]. eapply Forall_impl; [exact Hf2|]. set_solver.
    + exists tt. split; [|done]. cbn. set_solver.
Qed.

Lemma owner_Ok : require_owner steady tt = (tt, Ok tt) <-> exists login, says owner_lookup login /\ strip login = lit "Tommynem".
Proof.
  unfold require_owner. rewrite bind_steady. setoid_rewrite said. setoid_rewrite raise_steady. setoid_rewrite bool_decide_eq_false.
  split; intros (login & H & E); exists login; (split; [done|]); [by apply dec_stable | tauto].
Qed.

Lemma origin_Ok : require_origin steady tt = (tt, Ok tt) <-> exists origin, says origin_lookup origin /\ strip origin ∈ ORIGINS.
Proof.
  unfold require_origin. rewrite bind_steady. setoid_rewrite said. setoid_rewrite raise_steady. setoid_rewrite bool_decide_eq_false.
  split; intros (origin & H & E); exists origin; (split; [done|]); [by apply dec_stable | tauto].
Qed.

#[local] Opaque require_owner require_origin require_published_repository require_roadmap_match.
#[local] Opaque require_validate_success require_no_tags_or_releases require_marketplace_absent.

(** C32. A publication is reported as verified exactly when it is what was approved: the
    owner is logged in, the origin is the repository, the commit at hand is the head of its
    default branch, the repository is public under its address with issues enabled, every
    run of the workflow on that commit is complete and successful and there is one, the
    roadmap has one issue for each item of the backlog and no other, nothing is tagged or
    released, and the marketplace, at the commit that is reported, has never known the
    plugin. *)
Theorem verify_published_exact items plugin report :
  verify_published steady stack items plugin tt = (tt, Ok report)
  <-> plugin = APPROVED_PLUGIN_ID /\ vr_mode report = lit "published"
      /\ published items (remote_sha report) (marketplace_sha report).
Proof.
  unfold verify_published, published, require_plugin_id.
  repeat (rewrite bind_steady || setoid_rewrite bind_steady). split.
  - intros ([] & Hp & [] & Ho%owner_Ok & [] & Hg%origin_Ok & head & Hh & local & Hl & branch & Hb%repository_Ok & commit & Hc
      & remote & Hr & [] & He & [] & Hm%roadmap_Ok & [] & Hv%ci_validated_Ok & [] & Hn%nothing_released_Ok & sha & Hs%marketplace_Ok
      & [= <-]). cbn [vr_mode remote_sha marketplace_sha].
    apply raise_steady, bool_decide_eq_false in Hp, He. apply dec_stable in Hp, He. subst local.
    assert (forall arguments operation text description, require_result steady arguments operation tt = (tt, Ok text) ->
      pure (require_sha text description) tt = (tt, Ok remote) -> commit_is arguments remote) as Hcommit.
    { intros a o t d H1 H2. apply (commit_Ok a o d), bind_steady. by exists t. }
    split_and!; [done | done | done | done | by eapply Hcommit | | done | apply Hn | apply Hn | done].
    exists branch. split_and!; [done | by eapply Hcommit | done].
  - intros (-> & Hmode & Ho%owner_Ok & Hg%origin_Ok & Hlocal & (branch & Hb%repository_Ok & Hremote & Hv%ci_validated_Ok)
      & Hm%roadmap_Ok & Ht & Hr & Hs%marketplace_Ok).
    destruct report as [mode sha market]. cbn [vr_mode remote_sha marketplace_sha] in *. subst mode.
    apply (commit_Ok _ "local SHA" (lit "local SHA")), bind_steady in Hlocal as (head & Hh & Hl).
    apply (commit_Ok _ "remote SHA" (lit "remote SHA")), bind_steady in Hremote as (commit & Hc & Hr').
    exists tt. split; [done|]. exists tt. split; [done|]. exists tt. split; [done|]. exists head. split; [done|].
    exists sha. split; [done|]. exists branch. split; [done|]. exists commit. split; [done|]. exists sha. split; [done|].
    exists tt. split; [apply raise_steady; by rewrite bool_decide_eq_false_2 by tauto|]. exists tt. split; [done|].
    exists tt. split; [done|]. exists tt. split; [by apply nothing_released_Ok|]. by exists market.
Qed.
End Exact.

(** ** A publication that is verified *)

Definition apostrophes (s : string) : str := (fun c => if (c =? 39)%N then 34%N else c) <$> lit s.

Definition sample_sha : str := lit "0123456789abcdef0123456789abcdef01234567".

Definition sample_answers : list (list str * str) :=
  [(owner_lookup, lit "Tommynem" ++ newline);
   (origin_lookup, lit "https://github.com/Tommynem/opatchy" ++ newline);
   (names ["git"; "rev-parse"; "HEAD"], sample_sha ++ newline);
   (published_view, apostrophes "{'nameWithOwner':'Tommynem/opatchy','visibility':'PUBLIC','hasIssuesEnabled':true,"
      ++ apostrophes "'url':'https://github.com/Tommynem/opatchy','defaultBranchRef':{'name':'main'}}");
   (commit_arguments APPROVED_REPOSITORY (lit "main"), sample_sha);
   (roadmap_lookup, apostrophes "[{'body':'<!-- opatchy-roadmap-slug: more-feeds -->','url':'u',"
      ++ apostrophes "'labels':[{'name':'roadmap'},{'name':'enhancement'}]}]");
   (runs_lookup (lit "main"), apostrophes "[{'headSha':'" ++ sample_sha ++ apostrophes "','status':'completed','conclusion':'success'}]");
   (tags_lookup, lit "[]"); (releases_lookup, lit "[]");
   (marketplace_view, apostrophes "{'defaultBranchRef':{'name':'main'}}");
   (commit_arguments MARKETPLACE_REPOSITORY (lit "main"), sample_sha);
   (registry_arguments sample_sha, apostrophes "{'sources':[{'plugins':{'other':1}},{}],'retiredPluginIds':['old']}")].

Definition sample_answer (arguments : list str) : ToolResult :=
  match List.find (fun a => bool_decide (a.1 = arguments)) sample_answers with
  | Some a => {| tr_returncode := 0; tr_stdout := a.2; tr_stderr := [] |}
  | None => {| tr_returncode := 1; tr_stdout := []; tr_stderr := [] |}
  end.

Example sample_verified :
  verify_published (steady sample_answer) 10 [sample_item] APPROVED_PLUGIN_ID tt
  = (tt, Ok {| vr_mode := lit "published"; remote_sha := sample_sha; marketplace_sha := sample_sha |}).
Proof. vm_compute. reflexivity. Qed.

Example other_plugin_refused : (verify_published (steady sample_answer) 10 [sample_item] (lit "other") tt).2
  = Err (VerifierError (lit "plugin ID does not match the approved identity")).
Proof. vm_compute. reflexivity. Qed.
