(* ===== verification/Pattern.v ===== *)
(** * Patterns that backtrack

    What [re] does with the patterns of [security_check.py]: sequences, alternatives, [\b] and
    greedy runs of one class of characters. A pattern gives the places where it may end, the
    preferred one first, which [re] tries in that order; [ends_spec] relates them to the
    language of the pattern, [finditer_none] says when no match is found. *)

From S2P Require Import Prelude PyStr.

Open Scope N_scope.

Inductive pattern :=
| PSet (p : N -> bool)
| PRun (p : N -> bool) (least : nat) (most : option nat)
| PBoundary
| PCat (r1 r2 : pattern)
| PAlt (r1 r2 : pattern)
| PText (t : str)
| PNone.

Section Word.
(** The class [\w]. *)
Context (word : N -> bool).

(** [\b] between two characters. *)
Definition boundary (before after : option N) : bool :=
  xorb (from_option word false before) (from_option word false after).

(** A place in a text: the character before it and what follows. *)
Abbreviation place := (option N * str)%type.

Definition less (most : option nat) : option (option nat) :=
  match most with None => Some None | Some (S k) => Some (Some k) | Some O => None end.

(** The ends of a greedy run of characters, the longest first. *)
Fixpoint run_ends (p : N -> bool) (least : nat) (most : option nat) (before : option N) (s : str) : list place :=
  (match s with
   | c :: s' => match less most with
                | Some most' => if p c then run_ends p (pred least) most' (Some c) s' else []
                | None => []
                end
   | [] => []
   end) ++ (match least with O => [(before, s)] | S _ => [] end).

Definition text_end (t : str) (at_ : place) : list place :=
  if startswith at_.2 t then [(match last t with Some c => Some c | None => at_.1 end, drop (length t) at_.2)] else [].

Fixpoint ends (r : pattern) (at_ : place) : list place :=
  match r with
  | PSet p => match at_.2 with c :: s => if p c then [(Some c, s)] else [] | [] => [] end
  | PRun p least most => run_ends p least most at_.1 at_.2
  | PBoundary => if boundary at_.1 (head at_.2) then [at_] else []
  | PCat r1 r2 => ends r1 at_ ≫= ends r2
  | PAlt r1 r2 => ends r1 at_ ++ ends r2 at_
  | PText t => text_end t at_
  | PNone => []
  end.

(** The text a pattern matches at a place: up to the end that [re] reaches first. *)
Definition match_at (r : pattern) (before : option N) (s : str) : option str :=
  match ends r (before, s) with
  | (_, rest) :: _ => Some (take (length s - length rest) s)
  | [] => None
  end.

(** [pattern.finditer] for a pattern whose matches are nonempty: offsets and texts. *)
Fixpoint finditer (r : pattern) (before : option N) (s : str) (offset skip : nat) : list (nat * str) :=
  match s with
  | [] => []
  | c :: s' =>
      match skip with
      | S k => finditer r (Some c) s' (S offset) k
      | O => match match_at r before s with
             | Some t => (offset, t) :: finditer r (Some c) s' (S offset) (pred (length t))
             | None => finditer r (Some c) s' (S offset) O
             end
      end
  end.

Definition matches_of (r : pattern) (text : str) : list (nat * str) := finditer r None text O O.

(** ** The language of a pattern *)

Definition before_of (before : option N) (t : str) : option N :=
  match last t with Some c => Some c | None => before end.

(** [accepts r before t after]: the pattern matches [t] after the character [before], with
    the text [after] to follow. *)
Inductive accepts : pattern -> option N -> str -> str -> Prop :=
| accepts_set p before c after : p c = true -> accepts (PSet p) before [c] after
| accepts_run p least most before t after :
    forallb p t = true -> (least <= length t)%nat -> from_option (fun m => length t <= m)%nat True most ->
    accepts (PRun p least most) before t after
| accepts_boundary before after : boundary before (head after) = true -> accepts PBoundary before [] after
| accepts_cat r1 r2 before t1 t2 after :
    accepts r1 before t1 (t2 ++ after) -> accepts r2 (before_of before t1) t2 after ->
    accepts (PCat r1 r2) before (t1 ++ t2) after
| accepts_left r1 r2 before t after : accepts r1 before t after -> accepts (PAlt r1 r2) before t after
| accepts_right r1 r2 before t after : accepts r2 before t after -> accepts (PAlt r1 r2) before t after
| accepts_text t before after : accepts (PText t) before t after.

Lemma before_of_app before t1 t2 : before_of before (t1 ++ t2) = before_of (before_of before t1) t2.
Proof. unfold before_of. rewrite last_app. by destruct (last t2). Qed.

Lemma before_of_cons before c t : before_of before (c :: t) = before_of (Some c) t.
Proof. change (c :: t) with ([c] ++ t). by rewrite before_of_app. Qed.

Lemma run_ends_spec p s : forall least most before b rest,
  (b, rest) ∈ run_ends p least most before s <->
  exists t, s = t ++ rest /\ b = before_of before t /\ forallb p t = true /\ (least <= length t)%nat
            /\ from_option (fun m => length t <= m)%nat True most.
Proof.
  assert (Hend : forall (least : nat) before (s : str) (b : option N) (rest : str),
    (b, rest) ∈ (match least with O => [(before, s)] | S _ => [] end : list place)
    <-> least = O /\ (b, rest) = (before, s)).
  { intros [|n] *; rewrite ?list_elem_of_singleton, ?elem_of_nil; naive_solver. }
  induction s as [|c s IH]; intros least most before b rest; cbn [run_ends]; rewrite elem_of_app, Hend.
  - rewrite elem_of_nil. split.
    + intros [[]|[-> [= -> ->]]]. exists []. by destruct most; cbn; repeat split; try lia.
    + intros (t & [-> ->]%eq_sym%app_nil & -> & _ & Hl & _). right. split; [cbn in Hl; lia|done].
  - split.
    + intros [H|[-> [= -> ->]]]; [|by exists []; destruct most; cbn; repeat split; try lia].
      destruct (less most) as [most'|] eqn:El; [|by apply elem_of_nil in H].
      destruct (p c) eqn:Hp; [|by apply elem_of_nil in H]. apply IH in H as (t & -> & -> & Ht & Hl & Hm).
      exists (c :: t). rewrite before_of_cons. cbn. rewrite Hp. repeat split; [done|lia|].
      destruct most as [[|m]|]; cbn in El; inversion El; subst; cbn in *; lia || done.
    + intros (t & Ht & -> & Hp & Hl & Hm). destruct t as [|d t]; [right; cbn in *; split; [lia|by subst]|left].
      injection Ht as <- Ht. cbn in Hp. apply andb_true_iff in Hp as [Hc Hp].
      destruct most as [[|m]|]; cbn in Hm |- *; [lia|..]; rewrite Hc; apply IH; exists t; rewrite before_of_cons; cbn in *;
        repeat split; lia || done.
Qed.

Lemma text_end_spec t before s b rest :
  (b, rest) ∈ text_end t (before, s) <-> s = t ++ rest /\ b = before_of before t.
Proof.
  unfold text_end. cbn [fst snd]. destruct (startswith s t) eqn:E.
  - apply startswith_spec in E as [r ->]. rewrite drop_app_length, list_elem_of_singleton. unfold before_of. split.
    + by intros [= -> ->].
    + by intros [->%app_inv_head ->].
  - rewrite elem_of_nil. split; [done|]. intros [-> _]. by rewrite startswith_app in E.
Qed.

(** The places [re] may end a match at are those where a text of the language ends. *)
Lemma ends_spec r : forall before s b rest,
  (b, rest) ∈ ends r (before, s) <-> exists t, s = t ++ rest /\ b = before_of before t /\ accepts r before t rest.
Proof.
  induction r as [p|p least most| |r1 IH1 r2 IH2|r1 IH1 r2 IH2|t|]; intros before s b rest; cbn [ends fst snd].
  - split.
    + destruct s as [|c s]; [by intros ?%elem_of_nil|]. destruct (p c) eqn:E; [|by intros ?%elem_of_nil].
      intros [= -> ->]%list_elem_of_singleton. exists [c]. by repeat constructor.
    + intros (t & -> & -> & H). inversion H as [? ? c ? Hc| | | | | |]; subst. cbn. rewrite Hc. by constructor.
  - rewrite run_ends_spec. split; intros (t & -> & -> & H); exists t; (do 2 (split; [done|])).
    + destruct H as (? & ? & ?). by constructor.
    + by inversion H.
  - split.
    + destruct (boundary before (head s)) eqn:E; [|by intros ?%elem_of_nil]. intros [= -> ->]%list_elem_of_singleton.
      exists []. by repeat constructor.
    + intros (t & -> & -> & H). inversion H as [| |? ? Hb| | | |]; subst. cbn. rewrite Hb. by constructor.
  - rewrite list_elem_of_bind. split.
    + intros ([b' s'] & H2 & (t1 & -> & -> & H1)%IH1). apply IH2 in H2 as (t2 & -> & -> & H2).
      exists (t1 ++ t2). rewrite <- app_assoc, before_of_app. by repeat econstructor.
    + intros (t & -> & -> & H). inversion H as [| | |? ? ? t1 t2 ? H1 H2| | |]; subst.
      exists (before_of before t1, t2 ++ rest). rewrite IH2, IH1, before_of_app. split; [by exists t2|].
      exists t1. by rewrite <- app_assoc.
  - rewrite elem_of_app, IH1, IH2. split.
    + intros [(t & -> & -> & H)|(t & -> & -> & H)]; exists t; by repeat constructor.
    + intros (t & -> & -> & H). inversion H; subst; [left|right]; by exists t.
  - rewrite text_end_spec. split.
    + intros [-> ->]. exists t. by repeat constructor.
    + intros (t' & -> & -> & H). by inversion H.
  - split; [by intros ?%elem_of_nil|]. intros (t & _ & _ & H). inversion H.
Qed.

(** A text of the language of [r] somewhere in [text]. *)
Definition occurs (r : pattern) (text : str) : Prop :=
  exists pre t post, text = pre ++ t ++ post /\ t <> [] /\ accepts r (last pre) t post.

Lemma match_at_None r before s : match_at r before s = None <-> forall t after, s = t ++ after -> ~ accepts r before t after.
Proof.
  unfold match_at. destruct (ends r (before, s)) as [|[b rest] l] eqn:E; cbn; (split; [|]); try done.
  - intros _ t after Hs Ha. apply (not_elem_of_nil (before_of before t, after)). rewrite <- E. apply ends_spec. by exists t.
  - intros H. destruct (proj1 (ends_spec r before s b rest)) as (t & Hs & _ & Ha); [rewrite E; by constructor|].
    by destruct (H t rest Hs).
Qed.

(** A pattern none of whose texts is empty. *)
Definition nonempty_pattern (r : pattern) : Prop := forall before after, ~ accepts r before [] after.

(** No match is found exactly where no text of the language occurs. *)
Lemma finditer_none r : nonempty_pattern r -> forall s before offset,
  finditer r before s offset O = [] <->
  forall pre t post, s = pre ++ t ++ post -> ~ accepts r (before_of before pre) t post.
Proof.
  intros Hr s. induction s as [|c s IH]; intros before offset; cbn [finditer].
  - split; [|done]. intros _ pre t post H. symmetry in H. apply app_nil in H as [-> [-> ->]%app_nil]. apply Hr.
  - destruct (match_at r before (c :: s)) as [m|] eqn:E.
    + split; [done|]. intros H. enough (match_at r before (c :: s) = None) by congruence. apply match_at_None.
      intros t after Hs. by apply (H [] t after).
    + rewrite IH. rewrite match_at_None in E. split.
      * intros H [|d pre] t post Hs; [by apply E|]. injection Hs as -> Hs. rewrite before_of_cons. by apply H.
      * intros H pre t post Hs. specialize (H (c :: pre) t post). rewrite before_of_cons in H. apply H. cbn. by rewrite Hs.
Qed.

Lemma matches_of_none r text : nonempty_pattern r -> matches_of r text = [] <-> ~ occurs r text.
Proof.
  intros Hr. unfold matches_of. rewrite finditer_none by done. unfold before_of, occurs. split.
  - intros H (pre & t & post & Ht & _ & Ha). apply (H pre t post Ht). by destruct (last pre).
  - intros H pre t post Ht Ha. apply H. exists pre, t, post. split; [done|]. split.
    + intros ->. by apply Hr in Ha.
    + by destruct (last pre).
Qed.
End Word.

(** ** Nonempty patterns *)

Fixpoint consumes (r : pattern) : bool :=
  match r with
  | PSet _ => true
  | PRun _ least _ => negb (Nat.eqb least 0)
  | PBoundary => false
  | PCat r1 r2 => consumes r1 || consumes r2
  | PAlt r1 r2 => consumes r1 && consumes r2
  | PText t => match t with [] => false | _ => true end
  | PNone => true
  end.

Lemma consumes_spec word r : consumes r = true -> nonempty_pattern word r.
Proof.
  intros Hr before after Ha. remember [] as t eqn:Et. revert Hr Et.
  induction Ha as [|p [|n] most before t after _ Hl _| |r1 r2 before t1 t2 after _ IH1 _ IH2|r1 r2 before t after _ IH|r1 r2 before t after _ IH|];
    cbn; intros Hr Et; try done; subst; try done.
  - cbn in Hl. lia.
  - apply app_nil in Et as [-> ->]. apply orb_true_iff in Hr as [Hr|Hr]; auto.
  - apply andb_true_iff in Hr as [Hr _]. auto.
  - apply andb_true_iff in Hr as [_ Hr]. auto.
Qed.

(** ** Notation of patterns *)

Definition plits (l : list string) : pattern := foldr (fun s r => PAlt (PText (lit s)) r) PNone l.
Definition pcats (l : list pattern) : pattern :=
  match l with [] => PText [] | r :: rest => foldl PCat r rest end.
