(* ===== verification/SecurityQml.v ===== *)
(** * Mutation commands in QML

    [security_qml.py]: the array literals of a QML text whose command is a package manager
    and is not one of the approved hand-offs to a terminal. The scanner of brackets is
    characterised by the grammar of the arrays it finds, and the check is proved complete
    and exact on arrays of plain string literals.

    Each pattern of the module is matched by a function: in all of them the parts begin
    with different characters, so that there is one way to match at a place. *)

From S2P Require Import Prelude PyStr Models Utf8 JsonText Backlog Pattern.

Open Scope N_scope.

(** ** Patterns *)

Definition quotes (c : N) : bool := (c =? 34) || (c =? 39).

(** The rest of a string literal that [q] opened, up to and with the quote that closes it:
    no line break follows a backslash. *)
Fixpoint literal_rest (q : N) (s : str) : option str :=
  match s with
  | [] => None
  | c :: s' =>
      if c =? 92
      then match s' with
           | [] => None
           | d :: s'' => if d =? 10 then None else (fun t => c :: d :: t) <$> literal_rest q s''
           end
      else if c =? q then Some [c] else cons c <$> literal_rest q s'
  end.

(** [_STRING_PATTERN] at the start of a text. *)
Definition literal_at (s : str) : option str :=
  match s with
  | c :: s' => if quotes c then cons c <$> literal_rest c s' else None
  | [] => None
  end.

(** [[A-Za-z_$]] and [[A-Za-z0-9_$]] *)
Definition name_start (c : N) : bool :=
  between 65 90 c || between 97 122 c || (c =? 95) || (c =? 36).
Definition name_char (c : N) : bool := name_start c || is_digit c.

(** [_NAME_PATTERN] at the start of a text. *)
Definition name_at (s : str) : option str :=
  match s with
  | c :: s' => if name_start c then Some (c :: (span name_char s').1) else None
  | [] => None
  end.

(** [pattern.finditer]: the texts of the matches; [skip] counts the characters of a match
    that are passed. *)
Fixpoint find_texts (pattern : str -> option str) (s : str) (skip : nat) : list str :=
  match s with
  | [] => []
  | _ :: s' =>
      match skip with
      | S k => find_texts pattern s' k
      | O => match pattern s with
             | Some t => t :: find_texts pattern s' (pred (length t))
             | None => find_texts pattern s' O
             end
      end
  end.

Inductive token :=
| TString (t : str)
| TName (t : str)
| TComma
| TSpace (t : str).

Definition token_text (t : token) : str :=
  match t with TString t | TName t | TSpace t => t | TComma => [44] end.

(** [_TOKEN_PATTERN] at the start of a text. *)
Definition token_at (s : str) : option token :=
  match literal_at s with
  | Some t => Some (TString t)
  | None =>
      match name_at s with
      | Some t => Some (TName t)
      | None =>
          match s with
          | c :: s' => if c =? 44 then Some TComma
                       else if is_space c then Some (TSpace (c :: (span is_space s').1)) else None
          | [] => None
          end
      end
  end.

Definition launcher : str := lit "/usr/bin/omarchy-launch-floating-terminal-with-presentation".

Definition APPROVED_HANDOFFS : list (list str) :=
  [ [launcher; lit "/usr/bin/omarchy-update"];
    [launcher; lit "/usr/bin/flatpak"; lit "--user"; lit "update"];
    [launcher; lit "/usr/bin/flatpak"; lit "--system"; lit "update"] ].

Definition PACKAGE_MANAGERS : list str :=
  names ["/usr/bin/pacman"; "/usr/bin/yay"; "/usr/bin/paru"; "/usr/bin/flatpak"].

(** ** The codec [unicode_escape] *)

(** [digits] hexadecimal digits, with the value before them. *)
Fixpoint hex_run (digits : nat) (s : bytes) (value : N) : option N :=
  match digits, s with
  | O, _ => Some value
  | S n, c :: s' => d ← JsonText.hex_digit c; hex_run n s' (16 * value + d)
  | S _, [] => None
  end.

Definition octal (c : N) : bool := between 48 55 c.

(** The digits of an octal escape, at most [k]. *)
Fixpoint octal_run (k : nat) (s : bytes) : bytes :=
  match k, s with
  | S k', c :: s' => if octal c then c :: octal_run k' s' else []
  | _, _ => []
  end.

Definition octal_value (s : bytes) : N := foldl (fun v c => 8 * v + (c - 48)) 0 s.

(** The escapes of one letter. *)
Definition simple_escape (c : N) : option str :=
  if c =? 10 then Some []
  else if (c =? 92) || (c =? 39) || (c =? 34) then Some [c]
  else if c =? 98 then Some [8]
  else if c =? 102 then Some [12]
  else if c =? 116 then Some [9]
  else if c =? 110 then Some [10]
  else if c =? 114 then Some [13]
  else if c =? 118 then Some [11]
  else if c =? 97 then Some [7]
  else None.

Section Qml.
(** The names of the Unicode character database, and the class [\w] of the patterns. *)
Context (named : bytes -> option N) (word : N -> bool).

Definition hex_escape (digits : nat) (s : bytes) : option (str * nat) :=
  v ← hex_run digits s 0;
  if v <=? 0x10FFFF then Some ([v], S digits) else None.

(** What follows a backslash: the characters it stands for, and how many octets it is. *)
Definition escape (s : bytes) : option (str * nat) :=
  match s with
  | [] => None
  | c :: s' =>
      match simple_escape c with
      | Some t => Some (t, 1%nat)
      | None =>
          if octal c then let o := octal_run 3 s in Some ([octal_value o], length o)
          else if c =? 120 then hex_escape 2 s'
          else if c =? 117 then hex_escape 4 s'
          else if c =? 85 then hex_escape 8 s'
          else if c =? 78
          then match s' with
               | 123 :: s'' =>
                   let '(name, rest) := span (fun d => negb (d =? 125)) s'' in
                   if bool_decide (rest = []) then None
                   else v ← named name; Some ([v], length name + 3)%nat
               | _ => None
               end
          else Some ([92; c], 1%nat)
      end
  end.

(** [bytes.decode("unicode_escape")]: an octet that no backslash precedes is a Latin-1
    character. *)
Fixpoint unicode_escape (b : bytes) (skip : nat) : res str :=
  match b with
  | [] => Ok []
  | c :: b' =>
      match skip with
      | S k => unicode_escape b' k
      | O => if c =? 92
             then match escape b' with
                  | Some (t, n) => s ← unicode_escape b' n; Ok (t ++ s)
                  | None => Err UnicodeDecodeError
                  end
             else s ← unicode_escape b' O; Ok (c :: s)
      end
  end.

(** [codecs.decode(token[1:-1], "unicode_escape")]: the codec reads a text as its UTF-8. *)
Definition _unquote (t : str) : res str :=
  b ← encode (removelast (drop 1 t)); unicode_escape b O.

(** ** The constants of a text *)

Definition past_space (s : str) : str := (span is_space s).2.

(** What follows [var], [const] or [let] at the start of a text. *)
Definition past_keyword (s : str) : option str :=
  match past (lit "var") s with
  | Some r => Some r
  | None => match past (lit "const") s with Some r => Some r | None => past (lit "let") s end
  end.

(** [_CONSTANT_PATTERN] at a place: the name, the literal, and the rest. *)
Definition constant_at (before : option N) (s : str) : option (str * str * str) :=
  if boundary word before (head s)
  then s ← past_keyword s;
       _ ← nonempty (span is_space s).1;
       let s := past_space s in
       name ← name_at s;
       s ← past (lit "=") (past_space (drop (length name) s));
       let s := past_space s in
       value ← literal_at s;
       Some (name, value, drop (length value) s)
  else None.

(** [_CONSTANT_PATTERN.finditer] *)
Fixpoint constants_in (before : option N) (s : str) (skip : nat) : list (str * str) :=
  match s with
  | [] => []
  | c :: s' =>
      match skip with
      | S k => constants_in (Some c) s' k
      | O => match constant_at before s with
             | Some (name, value, rest) => (name, value) :: constants_in (Some c) s' (length s' - length rest)
             | None => constants_in (Some c) s' O
             end
      end
  end.

(** The comprehension of [mutation_array_lines]: the last value of a name stands. *)
Definition constants_of (text : str) : res (gmap str str) :=
  pairs ← mapM (fun p => v ← _unquote p.2; Ok (p.1, v)) (constants_in None text O);
  Ok (foldl (fun m p => <[p.1 := p.2]> m) ∅ pairs).

(** ** Arrays *)

(** [quote] and [escaped] of both scanners: [None] when the character is outside of a
    string literal. *)
Definition in_literal (quote : option N) (escaped : bool) (c : N) : option (option N * bool) :=
  q ← quote;
  Some (if escaped then (Some q, false)
        else if c =? 92 then (Some q, true)
        else if c =? q then (None, false) else (Some q, false)).

Record array_state := {
  arrays : list (nat * str);
  starts : list nat;
  quote : option N;
  escaped : bool;
  depth : Z;
}.

(** The body of the loop of [_array_contents]; the last of [starts] is the head. *)
Definition array_step (text : str) (st : array_state) (index : nat) (c : N) : array_state :=
  match in_literal (quote st) (escaped st) c with
  | Some (q, e) => {| arrays := arrays st; starts := starts st; quote := q; escaped := e; depth := depth st |}
  | None =>
      if quotes c
      then {| arrays := arrays st; starts := starts st; quote := Some c; escaped := escaped st; depth := depth st |}
      else if c =? 91
      then {| arrays := arrays st; starts := index :: starts st; quote := None; escaped := escaped st;
              depth := depth st + 1 |}
      else if (c =? 93) && (0 <? depth st)%Z
      then match starts st with
           | start :: below =>
               {| arrays := arrays st ++ [(start, take (index - (start + 1)) (drop (start + 1) text))];
                  starts := below; quote := None; escaped := escaped st; depth := depth st - 1 |}
           | [] => st
           end
      else st
  end.

Fixpoint array_loop (text : str) (st : array_state) (index : nat) (s : str) : array_state :=
  match s with
  | [] => st
  | c :: s' => array_loop text (array_step text st index c) (S index) s'
  end.

Definition array_start : array_state :=
  {| arrays := []; starts := []; quote := None; escaped := false; depth := 0 |}.

Definition _array_contents (text : str) : list (nat * str) := arrays (array_loop text array_start 0 text).

Record entry_state := {
  entries_done : list str;
  entry : str;
  entry_quote : option N;
  entry_escaped : bool;
  entry_depth : Z;
}.

(** The body of the loop of [_top_level_entries]; [entry] is [content[start:index]], in
    reverse. *)
Definition entry_step (st : entry_state) (c : N) : entry_state :=
  let go es cur q e d :=
    {| entries_done := es; entry := cur; entry_quote := q; entry_escaped := e; entry_depth := d |} in
  let more := go (entries_done st) (c :: entry st) in
  match in_literal (entry_quote st) (entry_escaped st) c with
  | Some (q, e) => more q e (entry_depth st)
  | None =>
      if quotes c then more (Some c) (entry_escaped st) (entry_depth st)
      else if existsb (N.eqb c) (lit "([{") then more None (entry_escaped st) (entry_depth st + 1)%Z
      else if existsb (N.eqb c) (lit ")]}") then more None (entry_escaped st) (entry_depth st - 1)%Z
      else if (c =? 44) && (entry_depth st =? 0)%Z
      then go (entries_done st ++ [reverse (entry st)]) [] None (entry_escaped st) (entry_depth st)
      else more None (entry_escaped st) (entry_depth st)
  end.

Definition entry_start : entry_state :=
  {| entries_done := []; entry := []; entry_quote := None; entry_escaped := false; entry_depth := 0 |}.

Definition _top_level_entries (content : str) : list str :=
  let st := foldl entry_step entry_start content in entries_done st ++ [reverse (entry st)].

(** ** Commands *)

Section Constants.
Context (constants : gmap str str).

(** The loop of [_literal_argv]. Where no token matches, the next match starts later or
    there is none: either way the result is [None]. *)
Fixpoint argv_loop (s : str) (skip : nat) (values : list str) (needs_value : bool) : res (option (list str)) :=
  match s with
  | [] => Ok (if needs_value then None else Some values)
  | _ :: s' =>
      match skip with
      | S k => argv_loop s' k values needs_value
      | O =>
          match token_at s with
          | None => Ok None
          | Some t =>
              let k := pred (length (token_text t)) in
              match t with
              | TSpace _ => argv_loop s' k values needs_value
              | TComma => if needs_value then Ok None else argv_loop s' k values true
              | TString t =>
                  if needs_value then v ← _unquote t; argv_loop s' k (values ++ [v]) false else Ok None
              | TName t =>
                  if needs_value then argv_loop s' k (values ++ [default [] (constants !! t)]) false else Ok None
              end
          end
      end
  end.

Definition _literal_argv (content : str) : res (option (list str)) := argv_loop content O [] true.

Definition _entry_value (e : str) : res (option str) :=
  argv ← _literal_argv (strip e);
  Ok (match argv with Some [v] => Some v | _ => None end).

Definition is_manager (v : str) : bool := bool_decide (v ∈ PACKAGE_MANAGERS).

(** [any(f(x) for x in l)] *)
Fixpoint any_of (f : str -> res bool) (l : list str) : res bool :=
  match l with
  | [] => Ok false
  | x :: rest => match f x with Ok true => Ok true | Ok false => any_of f rest | Err e => Err e end
  end.

Definition _contains_package_manager (e : str) : res bool :=
  quoted ← any_of (fun t => v ← _unquote t; Ok (is_manager v)) (find_texts literal_at e O);
  if (quoted : bool) then Ok true
  else Ok (existsb (fun n => from_option is_manager false (constants !! n)) (find_texts name_at e O)).

Definition _is_package_manager_bearing (content : str) : res bool :=
  match _top_level_entries content with
  | [] => Ok false
  | first :: rest =>
      executable ← _entry_value first;
      _contains_package_manager
        (match rest with
         | second :: _ => if bool_decide (executable = Some launcher) then second else first
         | [] => first
         end)
  end.

Definition _is_unapproved_mutation (argv : list str) : bool :=
  let executable := default [] (head argv) in
  let executable := if bool_decide (executable = launcher) then default [] (argv !! 1%nat) else executable in
  is_manager executable && bool_decide (argv ∉ APPROVED_HANDOFFS).

(** The condition of [mutation_array_lines] on the content of an array. *)
Definition mutation_array (content : str) : res bool :=
  bearing ← _is_package_manager_bearing content;
  if (bearing : bool)
  then argv ← _literal_argv content; Ok (from_option _is_unapproved_mutation true argv)
  else Ok false.
End Constants.

(** [text.count("\n", 0, offset) + 1] *)
Definition line_of (text : str) (offset : nat) : Z := 1 + len (List.filter (N.eqb 10) (take offset text)).

Fixpoint lines_of (text : str) (constants : gmap str str) (l : list (nat * str)) : res (list Z) :=
  match l with
  | [] => Ok []
  | (offset, content) :: rest =>
      flagged ← mutation_array constants content;
      lines ← lines_of text constants rest;
      Ok (if (flagged : bool) then line_of text offset :: lines else lines)
  end.

Definition mutation_array_lines (text : str) : res (list Z) :=
  constants ← constants_of text; lines_of text constants (_array_contents text).
End Qml.

(** ** What the scanner of arrays finds *)

(** A text whose literals opened by [q] are: [body q e s] when [s] is the inside of one,
    that ends after a backslash if [e]. *)
Inductive body (q : N) : bool -> str -> Prop :=
| body_nil : body q false []
| body_char s c : body q false s -> c <> 92 -> c <> q -> body q false (s ++ [c])
| body_backslash s : body q false s -> body q true (s ++ [92])
| body_escaped s c : body q true s -> body q false (s ++ [c]).

Definition literal (s : str) : Prop := exists q t, quotes q = true /\ body q false t /\ s = q :: t ++ [q].

(** Text in which every literal is closed. *)
Inductive code : str -> Prop :=
| code_nil : code []
| code_char s c : code s -> quotes c = false -> code (s ++ [c])
| code_literal s t : code s -> literal t -> code (s ++ t).

(** Text in which every literal is closed and the square brackets of the rest match. *)
Inductive balanced : str -> Prop :=
| balanced_nil : balanced []
| balanced_char s c : balanced s -> quotes c = false -> c <> 91 -> c <> 93 -> balanced (s ++ [c])
| balanced_literal s t : balanced s -> literal t -> balanced (s ++ t)
| balanced_array s t : balanced s -> balanced t -> balanced (s ++ 91 :: t ++ [93]).

(** [content] is between matching brackets, the first of them at [offset]. *)
Definition array_literal (text : str) (offset : nat) (content : str) : Prop :=
  exists pre post, text = pre ++ 91 :: content ++ 93 :: post /\ offset = length pre /\ code pre /\ balanced content.

Lemma code_app s t : code s -> code t -> code (s ++ t).
Proof.
  intros Hs. induction 1 as [|t c Ht IH Hc|t l Ht IH Hl]; rewrite ?app_nil_r, ?app_assoc; eauto using code.
Qed.

Lemma balanced_app s t : balanced s -> balanced t -> balanced (s ++ t).
Proof.
  intros Hs. induction 1 as [|t c Ht IH Hc H1 H2|t l Ht IH Hl|t u Ht IH Hu _]; rewrite ?app_nil_r, ?app_assoc; eauto using balanced.
Qed.

Lemma balanced_code s : balanced s -> code s.
Proof.
  induction 1 as [|s c Hs IH Hc H1 H2|s l Hs IH Hl|s t Hs IH Ht IHt]; eauto using code.
  replace (s ++ 91 :: t ++ [93]) with (((s ++ [91]) ++ t) ++ [93]) by (by rewrite <- !app_assoc).
  apply code_char; [|done]. apply code_app; [|done]. by apply code_char.
Qed.

(** The text before the current place and the brackets open there. *)
Inductive open_at : str -> list nat -> Prop :=
| open_none s : code s -> open_at s []
| open_some s l t : open_at s l -> balanced t -> open_at (s ++ 91 :: t) (length s :: l).

Lemma open_code s l : open_at s l -> code s.
Proof.
  induction 1 as [s Hs|s l t _ IH Ht]; [done|]. change (s ++ 91 :: t) with (s ++ [91] ++ t). rewrite app_assoc.
  apply code_app; [by apply code_char | by apply balanced_code].
Qed.

Lemma open_balanced s l t : open_at s l -> balanced t -> open_at (s ++ t) l.
Proof.
  intros [s' Hs|s' l' u Hs Hu] Ht.
  - apply open_none, code_app; [done | by apply balanced_code].
  - rewrite <- app_assoc. cbn. apply open_some; [done | by apply balanced_app].
Qed.

(** The text before the current place, by the state of the quotes. *)
Definition scanned (q : option N) (e : bool) (l : list nat) (s : str) : Prop :=
  match q with
  | None => e = false /\ open_at s l
  | Some q => exists p t, s = p ++ q :: t /\ quotes q = true /\ body q e t /\ open_at p l
  end.

Lemma scanned_literal q e l s c q' e' :
  in_literal q e c = Some (q', e') -> scanned q e l s -> scanned q' e' l (s ++ [c]).
Proof.
  destruct q as [q|]; [|done]. cbn. intros [= H] (p & t & -> & Hq & Hb & Hp).
  destruct e; [injection H as <- <-; exists p, (t ++ [c]); rewrite <- app_assoc; eauto using body|].
  destruct (N.eqb_spec c 92) as [->|Hc].
  { injection H as <- <-. exists p, (t ++ [92]). rewrite <- app_assoc. eauto using body. }
  destruct (N.eqb_spec c q) as [->|Hcq]; injection H as <- <-.
  - split; [done|]. rewrite <- app_assoc. apply open_balanced; [done|]. cbn.
    apply (balanced_literal [] (q :: t ++ [q])); [constructor|]. by exists q, t.
  - exists p, (t ++ [c]). rewrite <- app_assoc. eauto using body.
Qed.

Lemma in_literal_None q e c : in_literal q e c = None -> q = None.
Proof. by destruct q. Qed.

(** The loop keeps [depth] at the number of [starts], so that [pop] finds one. *)
Definition loop_inv (text s : str) (st : array_state) : Prop :=
  scanned (quote st) (escaped st) (starts st) s /\ depth st = Z.of_nat (length (starts st))
  /\ Forall (fun a => array_literal text a.1 a.2) (arrays st).

Lemma take_between (s t r : str) c d :
  take (length (s ++ c :: t) - (length s + 1)) (drop (length s + 1) ((s ++ c :: t) ++ d :: r)) = t.
Proof.
  rewrite <- app_assoc. cbn [app]. rewrite drop_app, drop_ge by lia. rewrite length_app. cbn [length].
  replace (length s + 1 - length s)%nat with 1%nat by lia. cbn [drop app].
  replace (length s + S (length t) - (length s + 1))%nat with (length t) by lia. by rewrite drop_0, take_app_length.
Qed.

Lemma array_step_inv text s st c r :
  text = s ++ c :: r -> loop_inv text s st -> loop_inv text (s ++ [c]) (array_step text st (length s) c).
Proof.
  intros Ht (Hs & Hd & Ha). unfold array_step. destruct (in_literal _ _ c) as [[q e]|] eqn:El.
  { split; [|done]. cbn. by eapply scanned_literal. }
  apply in_literal_None in El. rewrite El in Hs. destruct Hs as [He Ho].
  destruct (quotes c) eqn:Hq.
  { split; [|done]. cbn. rewrite He. exists s, []. eauto using body. }
  destruct (N.eqb_spec c 91) as [->|Hc].
  { split; [|split; cbn; [lia|done]]. cbn. split; [done|]. apply (open_some s _ []); [done|constructor]. }
  destruct (N.eqb_spec c 93) as [->|Hc']; cbn [andb]; [destruct (Z.ltb_spec 0 (depth st))|].
  - remember (starts st) as l eqn:Es. destruct Ho as [s' Hs|s' l t Ho Hb]; cbn [length] in Hd; [lia|]. split; [|split; cbn; [lia|]].
    + cbn. split; [done|]. rewrite <- app_assoc. cbn. apply open_balanced; [done|].
      apply (balanced_array [] t); [constructor|done].
    + apply Forall_app; split; [done|]. constructor; [|done]. cbn. subst text. rewrite take_between.
      exists s', r. rewrite <- app_assoc. cbn. eauto using open_code.
  - remember (starts st) as l eqn:Es. destruct Ho as [s' Hs|s' l t Ho Hb]; cbn [length] in Hd; [|lia].
    unfold loop_inv. rewrite El, <- Es. split; [|done]. split; [done|]. constructor. by apply code_char.
  - split; [|done]. rewrite El. split; [done|]. apply open_balanced; [done|].
    apply (balanced_char []); [constructor|done..].
Qed.

Lemma array_loop_inv text s st r : text = s ++ r -> loop_inv text s st -> loop_inv text text (array_loop text st (length s) r).
Proof.
  revert s st. induction r as [|c r IH]; intros s st Ht Hi; cbn [array_loop].
  - rewrite app_nil_r in Ht. by rewrite Ht at 2.
  - specialize (IH (s ++ [c]) (array_step text st (length s) c)). rewrite length_app, Nat.add_comm in IH. apply IH.
    + by rewrite <- app_assoc.
    + by apply array_step_inv with r.
Qed.

(** ** The scanner over a part of a text *)

Lemma array_loop_app text st i s t :
  array_loop text st i (s ++ t) = array_loop text (array_loop text st i s) (i + length s) t.
Proof.
  revert st i. induction s as [|c s IH]; intros st i; cbn; [by rewrite Nat.add_0_r|]. by rewrite IH, Nat.add_succ_r.
Qed.

(** Outside of a literal, with [l] the brackets that are open. *)
Definition outside (l : list nat) (st : array_state) : Prop :=
  quote st = None /\ escaped st = false /\ starts st = l /\ depth st = Z.of_nat (length l).

(** What follows the opening quote of a literal is passed to the state [(q, e)]. *)
Lemma array_loop_body text q e t st i :
  body q e t -> quote st = Some q -> escaped st = false ->
  array_loop text st i t
  = {| arrays := arrays st; starts := starts st; quote := Some q; escaped := e; depth := depth st |}.
Proof.
  intros Hb Hq He. induction Hb as [|t c Hb IH Hc Hcq|t Hb IH|t c Hb IH]; [by destruct st; cbn in *; subst|..];
    rewrite array_loop_app, IH; cbn [array_loop]; unfold array_step; cbn [quote escaped in_literal].
  - cbn. by rewrite (proj2 (N.eqb_neq c 92) Hc), (proj2 (N.eqb_neq c q) Hcq).
  - done.
  - done.
Qed.

Lemma quotes_not_backslash q : quotes q = true -> (q =? 92) = false.
Proof. unfold quotes. intros H%orb_prop. destruct H as [->%N.eqb_eq| ->%N.eqb_eq]; done. Qed.

Lemma array_loop_literal text st i t l :
  literal t -> outside l st -> array_loop text st i t = st.
Proof.
  intros (q & b & Hq & Hb & ->) (H1 & H2 & H3 & H4). cbn [array_loop]. rewrite array_loop_app. unfold array_step.
  rewrite H1. cbn [in_literal mbind option_bind]. rewrite Hq.
  rewrite (array_loop_body text q false b) by (done || (cbn; congruence)). cbn [array_loop starts depth arrays]. unfold array_step. cbn.
  rewrite (quotes_not_backslash q Hq), N.eqb_refl. destruct st; cbn in *; by subst.
Qed.

Lemma array_step_grows text st i c : exists more, arrays (array_step text st i c) = arrays st ++ more.
Proof.
  unfold array_step. destruct (in_literal _ _ _) as [[]|]; [by exists []; rewrite app_nil_r|].
  repeat case_match; cbn; first [by exists []; rewrite app_nil_r | by eexists].
Qed.

Lemma array_loop_grows text st i s a : a ∈ arrays st -> a ∈ arrays (array_loop text st i s).
Proof.
  revert st i. induction s as [|c s IH]; intros st i Ha; cbn [array_loop]; [done|]. apply IH.
  destruct (array_step_grows text st i c) as [more ->]. apply elem_of_app. by left.
Qed.

(** One character outside of the literals that leaves the brackets as they are. *)
Lemma array_step_plain text st i c l :
  quotes c = false -> c <> 91 -> c <> 93 \/ l = [] -> outside l st -> array_step text st i c = st.
Proof.
  intros Hq H1 H2 (Q & E & S & D). unfold array_step. rewrite Q. cbn. rewrite Hq, (proj2 (N.eqb_neq c 91) H1).
  destruct (N.eqb_spec c 93) as [->|]; [|done]. destruct H2 as [H2| ->]; [done|]. by rewrite D.
Qed.

Lemma array_step_open text st i l : outside l st -> outside (i :: l) (array_step text st i 91).
Proof. intros (Q & E & S & D). unfold array_step, outside. rewrite Q. cbn. rewrite E, S, D. repeat split; cbn [length]; lia || done. Qed.

Lemma array_step_close text st i j l :
  outside (j :: l) st ->
  outside l (array_step text st i 93)
  /\ (j, take (i - (j + 1)) (drop (j + 1) text)) ∈ arrays (array_step text st i 93).
Proof.
  intros (Q & E & S & D). unfold array_step, outside. rewrite Q. cbn. rewrite S, D.
  rewrite (proj2 (Z.ltb_lt _ _)) by (cbn [length]; lia). cbn [starts quote escaped depth arrays]. rewrite E.
  split; [repeat split; cbn [length]; lia || done|]. apply elem_of_app. right. by constructor.
Qed.

Lemma array_loop_code text s : code s -> forall st i l, outside l st -> exists l', outside l' (array_loop text st i s).
Proof.
  induction 1 as [|s c Hs IH Hc|s t Hs IH Ht]; intros st i l Hl; [by exists l|..]; rewrite array_loop_app.
  - destruct (IH st i l Hl) as [l' Hl']. cbn [array_loop].
    destruct (N.eqb_spec c 91) as [->|H1]; [eexists; by apply array_step_open|].
    destruct (N.eqb_spec c 93) as [->|H2]; [destruct l' as [|j l']|].
    + exists []. by rewrite (array_step_plain _ _ _ _ []) by auto.
    + exists l'. by apply (array_step_close _ _ _ j).
    + exists l'. by rewrite (array_step_plain _ _ _ _ l') by auto.
  - destruct (IH st i l Hl) as [l' Hl']. exists l'. by rewrite (array_loop_literal _ _ _ _ l').
Qed.

Lemma array_loop_balanced text s :
  balanced s -> forall st i l, outside l st -> outside l (array_loop text st i s).
Proof.
  induction 1 as [|s c Hs IH Hc H1 H2|s t Hs IH Ht|s t Hs IHs Ht IHt]; intros st i l Hl; [done|..]; rewrite array_loop_app.
  - cbn [array_loop]. rewrite (array_step_plain _ _ _ _ l) by auto. by apply IH.
  - rewrite (array_loop_literal _ _ _ _ l) by auto. by apply IH.
  - cbn [array_loop]. rewrite array_loop_app. cbn [array_loop]. eapply array_step_close, IHt, array_step_open, IHs, Hl.
Qed.

Lemma array_loop_finds text pre content post :
  text = pre ++ 91 :: content ++ 93 :: post -> code pre -> balanced content ->
  (length pre, content) ∈ _array_contents text.
Proof.
  intros Ht Hp Hc. unfold _array_contents. rewrite Ht at 2. rewrite array_loop_app.
  destruct (array_loop_code text pre Hp array_start 0 []) as [l Hl]; [done|]. cbn [array_loop plus].
  rewrite array_loop_app. cbn [array_loop]. apply array_loop_grows.
  eapply array_step_open, (array_loop_balanced text content Hc) in Hl.
  eapply array_step_close in Hl as [_ Hl]. replace content with (take (S (length pre) + length content - (length pre + 1)) (drop (length pre + 1) text)) at 1; [exact Hl|].
  replace (S (length pre) + length content)%nat with (length (pre ++ 91 :: content)) by (rewrite length_app; cbn; lia).
  rewrite Ht. replace (pre ++ 91 :: content ++ 93 :: post) with ((pre ++ 91 :: content) ++ 93 :: post) by (by rewrite <- app_assoc).
  apply take_between.
Qed.

Lemma elem_of_array_contents text offset content :
  (offset, content) ∈ _array_contents text <-> array_literal text offset content.
Proof.
  split.
  - intros H. assert (Hi : loop_inv text text (array_loop text array_start 0 text)).
    { apply (array_loop_inv text []); [done|]. split; [|split; [done|constructor]]. split; [done|]. repeat constructor. }
    destruct Hi as (_ & _ & Ha). rewrite Forall_forall in Ha. exact (Ha _ H).
  - intros (pre & post & Ht & -> & Hp & Hc). by apply array_loop_finds with post.
Qed.

(** ** Arrays of plain literals *)

Definition plain (v : str) : Prop := Forall (fun c => c <= 127 /\ c <> 34 /\ c <> 92) v.
Definition quoted (v : str) : str := 34 :: v ++ [34].
Definition argv_text (argv : list str) : str := join (lit ", ") (quoted <$> argv).

Lemma literal_rest_plain v r : plain v -> literal_rest 34 (v ++ 34 :: r) = Some (v ++ [34]).
Proof.
  induction 1 as [|c v (_ & H1 & H2) _ IH]; [done|]. cbn [app literal_rest].
  by rewrite (proj2 (N.eqb_neq c 92) H2), (proj2 (N.eqb_neq c 34) H1), IH.
Qed.

Lemma literal_at_quoted v r : plain v -> literal_at (quoted v ++ r) = Some (quoted v).
Proof. intros H. unfold quoted. cbn [app literal_at]. rewrite <- app_assoc. cbn. by rewrite literal_rest_plain. Qed.

Lemma body_plain v : plain v -> body 34 false v.
Proof.
  intros H. induction v as [|c v IH] using rev_ind; [constructor|].
  apply Forall_app in H as [H (H0 & H1 & H2)%Forall_singleton]. apply body_char; auto.
Qed.

Lemma literal_quoted v : plain v -> literal (quoted v).
Proof. intros H. exists 34, v. eauto using body_plain. Qed.

Section Argv.
Context (named : bytes -> option N).

Lemma unicode_escape_plain v : plain v -> unicode_escape named v O = Ok v.
Proof.
  induction 1 as [|c v (_ & _ & H) _ IH]; [done|]. cbn [unicode_escape]. rewrite (proj2 (N.eqb_neq c 92) H), IH. done.
Qed.

Lemma unquote_quoted v : plain v -> _unquote named (quoted v) = Ok v.
Proof.
  intros H. unfold _unquote, quoted. cbn [drop]. rewrite drop_0, removelast_last, encode_ascii.
  - by apply unicode_escape_plain.
  - eapply Forall_impl; [exact H|]. by intros c [? _].
Qed.

Lemma find_skip p t s : find_texts p (t ++ s) (length t) = find_texts p s O.
Proof. induction t; [destruct s|]; done. Qed.

(** An entry of a plain array is a quoted literal, perhaps after a space. *)
Definition plain_entry (v e : str) : Prop := e = quoted v \/ e = 32 :: quoted v.

Lemma find_quoted v e : plain v -> plain_entry v e -> find_texts literal_at e O = [quoted v].
Proof.
  intros Hv He. assert (H : find_texts literal_at (quoted v) O = [quoted v]).
  { generalize (literal_at_quoted v [] Hv). rewrite app_nil_r. unfold quoted at 1 3. cbn [find_texts]. intros ->.
    f_equal. cbn [length quoted pred]. generalize (find_skip literal_at (v ++ [34]) []). by rewrite app_nil_r. }
  destruct He as [-> | ->]; done.
Qed.

Section Constants.
Context (constants : gmap str str).
#[local] Abbreviation loop := (argv_loop named constants).

Lemma argv_loop_skip t s values needs : loop (t ++ s) (length t) values needs = loop s O values needs.
Proof. induction t; [destruct s|]; done. Qed.

Lemma argv_loop_quoted v s values : plain v -> loop (quoted v ++ s) O values true = loop s O (values ++ [v]) false.
Proof.
  intros Hv. generalize (literal_at_quoted v s Hv), (unquote_quoted v Hv). unfold quoted at 1 4. cbn [app argv_loop].
  unfold token_at. intros -> Hu. rewrite Hu. cbn [mbind outcome_bind token_text quoted length pred].
  apply argv_loop_skip.
Qed.

Lemma argv_loop_separator v s values :
  loop (lit ", " ++ quoted v ++ s) O values false = loop (quoted v ++ s) O values true.
Proof. done. Qed.

Lemma join_cons2 sep x y (l : list str) : join sep (x :: y :: l) = x ++ sep ++ join sep (y :: l).
Proof. done. Qed.

Lemma literal_argv_plain argv : argv <> [] -> Forall plain argv -> _literal_argv named constants (argv_text argv) = Ok (Some argv).
Proof.
  intros Hne Hp. unfold _literal_argv, argv_text. change argv with ([] ++ argv) at 2. generalize (@nil str) as done_.
  induction Hp as [|v argv Hv Hp IH]; intros done_; [done|]. destruct argv as [|w argv].
  - cbn [fmap list_fmap join]. rewrite <- (app_nil_r (quoted v)).
    by rewrite argv_loop_quoted.
  - cbn [fmap list_fmap]. rewrite join_cons2, argv_loop_quoted by done.
    specialize (IH ltac:(done) (done_ ++ [v])). rewrite <- app_assoc in IH. cbn [app] in IH. rewrite <- IH.
    cbn [fmap list_fmap]. destruct argv; cbn [fmap list_fmap]; [|rewrite join_cons2]; cbn [join];
      [rewrite <- (app_nil_r (quoted w))|]; apply argv_loop_separator.
Qed.
End Constants.
End Argv.

Lemma entry_body q e t st :
  body q e t -> entry_quote st = Some q -> entry_escaped st = false ->
  foldl entry_step st t
  = {| entries_done := entries_done st; entry := reverse t ++ entry st; entry_quote := Some q; entry_escaped := e;
       entry_depth := entry_depth st |}.
Proof.
  intros Hb Hq He. induction Hb as [|t c Hb IH Hc Hcq|t Hb IH|t c Hb IH]; [by destruct st; cbn in *; subst|..];
    rewrite foldl_app, IH, reverse_snoc; cbn [foldl]; unfold entry_step; cbn [entry_quote entry_escaped in_literal].
  - cbn. by rewrite (proj2 (N.eqb_neq c 92) Hc), (proj2 (N.eqb_neq c q) Hcq).
  - done.
  - done.
Qed.

(** Between two entries of a plain array, [cur] of the next one read. *)
Definition between_entries (before : list str) (cur : str) : entry_state :=
  {| entries_done := before; entry := reverse cur; entry_quote := None; entry_escaped := false; entry_depth := 0 |}.

Lemma entry_quoted v before cur :
  plain v -> foldl entry_step (between_entries before cur) (quoted v) = between_entries before (cur ++ quoted v).
Proof.
  intros Hv. unfold quoted. cbn [foldl]. rewrite foldl_app.
  rewrite (entry_body 34 false v) by (auto using body_plain). unfold between_entries. cbn.
  by rewrite reverse_app, reverse_cons, reverse_snoc, <- app_assoc.
Qed.

Lemma top_level_plain v argv before cur :
  plain v -> Forall plain argv ->
  (let st := foldl entry_step (between_entries before cur) (argv_text (v :: argv)) in entries_done st ++ [reverse (entry st)])
  = before ++ (cur ++ quoted v) :: (cons 32 ∘ quoted <$> argv).
Proof.
  unfold argv_text. intros Hv Hp. revert v before cur Hv. induction Hp as [|w argv Hw Hp IH]; intros v before cur Hv.
  - cbn [fmap list_fmap join]. rewrite entry_quoted by done. unfold between_entries. cbn [entries_done entry]. by rewrite reverse_involutive.
  - cbn [fmap list_fmap]. rewrite join_cons2, foldl_app, entry_quoted, foldl_app by done.
    change (foldl entry_step (between_entries before (cur ++ quoted v)) (lit ", "))
      with (between_entries (before ++ [reverse (reverse (cur ++ quoted v))]) [32]).
    rewrite reverse_involutive. specialize (IH w (before ++ [cur ++ quoted v]) [32] Hw). cbn [fmap list_fmap] in IH.
    rewrite IH, <- app_assoc. done.
Qed.

Lemma strip_quoted v : strip (quoted v) = quoted v.
Proof.
  unfold strip, quoted. change (lstrip (34 :: v ++ [34])) with (34 :: v ++ [34]).
  rewrite reverse_cons, reverse_snoc. cbn [app]. change (lstrip (34 :: reverse v ++ [34])) with (34 :: reverse v ++ [34]).
  by rewrite reverse_cons, reverse_snoc, reverse_involutive.
Qed.

Section PlainArrays.
Context (named : bytes -> option N) (constants : gmap str str).

Lemma entry_value_quoted v : plain v -> _entry_value named constants (quoted v) = Ok (Some v).
Proof.
  intros Hv. unfold _entry_value. rewrite strip_quoted. change (quoted v) with (argv_text [v]).
  by rewrite literal_argv_plain by (done || by repeat constructor).
Qed.

Lemma contains_manager v e :
  plain v -> plain_entry v e ->
  exists b, _contains_package_manager named constants e = Ok b /\ (is_manager v = true -> b = true).
Proof.
  intros Hv He. unfold _contains_package_manager. rewrite (find_quoted v) by done. cbn [any_of].
  rewrite unquote_quoted by done. cbn. destruct (is_manager v); cbn; eexists; by split.
Qed.

(** The command of a plain array, as [_is_package_manager_bearing] and
    [_is_unapproved_mutation] take it. *)
Definition command_of (argv : list str) : str :=
  match argv with
  | [] => []
  | [v] => if bool_decide (v = launcher) then [] else v
  | v :: w :: _ => if bool_decide (v = launcher) then w else v
  end.

Lemma unapproved_spec argv :
  argv <> [] -> _is_unapproved_mutation argv = is_manager (command_of argv) && bool_decide (argv ∉ APPROVED_HANDOFFS).
Proof. destruct argv as [|v [|w argv]]; [done|..]; intros _; unfold _is_unapproved_mutation; cbn; by case_bool_decide. Qed.

Lemma bearing_plain argv :
  argv <> [] -> Forall plain argv ->
  exists b, _is_package_manager_bearing named constants (argv_text argv) = Ok b
            /\ (is_manager (command_of argv) = true -> b = true).
Proof.
  intros Hne Hp. destruct Hp as [|v argv Hv Hp]; [done|].
  assert (Ht : _top_level_entries (argv_text (v :: argv)) = quoted v :: (cons 32 ∘ quoted <$> argv))
    by exact (top_level_plain v argv [] [] Hv Hp).
  unfold _is_package_manager_bearing. rewrite Ht.
  rewrite entry_value_quoted by done. cbn [mbind outcome_bind].
  destruct Hp as [|w argv Hw Hp]; cbn [fmap list_fmap command_of].
  - destruct (contains_manager v (quoted v)) as (b & -> & H); [done|by left|]. exists b. split; [done|].
    case_bool_decide; [done|auto].
  - destruct (decide (v = launcher)) as [->|Hn];
      [rewrite !bool_decide_true by done | rewrite !bool_decide_false by naive_solver].
    + apply (contains_manager w); [done|by right].
    + apply (contains_manager v); [done|by left].
Qed.

Lemma mutation_array_argv argv :
  argv <> [] -> Forall plain argv ->
  mutation_array named constants (argv_text argv)
  = Ok (is_manager (command_of argv) && bool_decide (argv ∉ APPROVED_HANDOFFS)).
Proof.
  intros Hne Hp. unfold mutation_array. destruct (bearing_plain argv Hne Hp) as (b & -> & Hb). cbn [mbind outcome_bind].
  rewrite literal_argv_plain by done. cbn. rewrite unapproved_spec by done.
  destruct b; [done|]. destruct (is_manager (command_of argv)); [by specialize (Hb eq_refl)|done].
Qed.

Lemma plain_check v : forallb (fun c => (c <=? 127) && negb (c =? 34) && negb (c =? 92)) v = true -> plain v.
Proof.
  intros H. apply Forall_forall. intros c Hc%list_elem_of_In. eapply forallb_forall in H; [|exact Hc]. rewrite !andb_true_iff, !negb_true_iff, !N.eqb_neq, N.leb_le in H. tauto.
Qed.
End PlainArrays.

(** ** The lines reported *)

Section Lines.
Context (named : bytes -> option N) (word : N -> bool).

Lemma lines_of_Ok text constants l lines :
  lines_of named text constants l = Ok lines ->
  forall n, n ∈ lines <-> exists offset content,
    (offset, content) ∈ l /\ mutation_array named constants content = Ok true /\ n = line_of text offset.
Proof.
  revert lines. induction l as [|[offset content] l IH]; intros lines H n; cbn in H.
  - injection H as <-. split; [by intros ?%not_elem_of_nil|]. by intros (? & ? & ?%not_elem_of_nil & _).
  - inv_ok. specialize (IH _ H n). split.
    + intros Hn. destruct x; [apply elem_of_cons in Hn as [->|Hn]|].
      * exists offset, content. split; [by constructor|done].
      * apply IH in Hn as (o & c & Hl & Hr). exists o, c. split; [by constructor|done].
      * apply IH in Hn as (o & c & Hl & Hr). exists o, c. split; [by constructor|done].
    + intros (o & c & Hl & Hm & ->). apply elem_of_cons in Hl as [[= -> ->]|Hl].
      * replace x with true by congruence. constructor.
      * destruct x; [constructor|]; apply IH; eauto.
Qed.

(** C36. [mutation_array_lines] reports the line of every array literal of the text - at any
    depth, outside of string literals - that [mutation_array] flags, and no other line:
    with no line reported, no plain array of the text runs a package manager except as an
    approved hand-off. *)
Theorem mutation_array_lines_spec text lines :
  mutation_array_lines named word text = Ok lines ->
  (exists constants, constants_of named word text = Ok constants /\
   forall n, n ∈ lines <-> exists offset content,
     array_literal text offset content /\ mutation_array named constants content = Ok true /\ n = line_of text offset)
  /\ (lines = [] -> forall offset argv,
       array_literal text offset (argv_text argv) -> argv <> [] -> Forall plain argv ->
       is_manager (command_of argv) = true -> argv ∈ APPROVED_HANDOFFS).
Proof.
  intros H. unfold mutation_array_lines in H. inv_ok. rename x into constants.
  assert (Hl : forall n, n ∈ lines <-> exists offset content,
    array_literal text offset content /\ mutation_array named constants content = Ok true /\ n = line_of text offset).
  { intros n. rewrite lines_of_Ok by done. by setoid_rewrite elem_of_array_contents. }
  split; [by exists constants|]. intros -> offset argv Ha Hne Hp Hm. apply dec_stable. intros Hn.
  apply (not_elem_of_nil (line_of text offset)), Hl. exists offset, (argv_text argv).
  by rewrite mutation_array_argv, Hm, bool_decide_true.
Qed.
End Lines.

(** ** A check of a text, and a text it does not see *)

Definition no_names (name : bytes) : option N := None.
(** The class [\w] on ASCII. *)
Definition ascii_word (c : N) : bool := between 65 90 c || between 97 122 c || is_digit c || (c =? 95).

Example mutation_array_lines_spec_witness :
  let text := lit "['/usr/bin/yay', '-S'] [launcher, '/usr/bin/omarchy-update']" in
  exists constants, constants_of no_names ascii_word text = Ok constants /\
   forall n, n ∈ [1%Z] <-> exists offset content,
     array_literal text offset content /\ mutation_array no_names constants content = Ok true /\ n = line_of text offset.
Proof. intros text. apply (mutation_array_lines_spec no_names ascii_word text [1%Z]). vm_compute. reflexivity. Defined.

(** An apostrophe of a comment opens a literal for the scanner, which knows no comments: what
    follows it is not read until the next apostrophe. *)
Example comment_hides_arrays :
  let array := lit "x: ['/usr/bin/pacman', '-Syu']" in
  mutation_array_lines no_names ascii_word (lit "// now" ++ [10] ++ array) = Ok [2%Z]
  /\ mutation_array_lines no_names ascii_word (lit "// don't" ++ [10] ++ array) = Ok [].
Proof. split; vm_compute; reflexivity. Qed.
