(* ===== verification/SecurityCheck.v ===== *)
(** * The security policy of the sources

    [security_check.py]: the rules a Python or QML file of the product must meet. The check
    passes exactly when every file of the product can be read and is compliant
    ([python_compliant], [qml_compliant], [size_compliant]), where the rules are stated on the
    texts that occur in a file and on its syntax tree, not on the scan.

    Parameters: the parser of Python ([ast.parse] and the nodes [ast.walk] gives), the modules
    of the standard library, the class [\w] and the character names of Unicode, and the files. *)

From S2P Require Import Prelude PyStr Models Backlog Pattern SecurityQml.

Open Scope Z_scope.

(** A path below the root of the repository, by its parts. *)
Abbreviation path := (list str).

Definition file (parts : list string) : path := names parts.

Definition PYTHON_ROOTS : path * path := (file ["helper"; "opatchy.py"], file ["helper"; "opatchy_helper"]).
Definition QML_ROOTS : path := file ["qml"].
Definition PROCESS_ALLOWLIST : list path :=
  [file ["helper"; "opatchy_helper"; "runner_process.py"]; file ["helper"; "opatchy_helper"; "command_supervisor.py"]].
Definition QML_PROCESS_ALLOWLIST : list path :=
  [file ["qml"; "models"; "HelperTransport.qml"]; file ["qml"; "models"; "TerminalHandoff.qml"]].
Definition URL_ALLOWLIST : list str :=
  names ["https://security.archlinux.org/all.json";
         "https://www.cisa.gov/sites/default/files/feeds/known_exploited_vulnerabilities.json";
         "https://security.archlinux.org/"; "https://www.cve.org/CVERecord?id="].
Definition QML_IMPORTS : list str := names ["QtQml"; "QtQuick"; "Quickshell.Io"; "qs.Commons"; "qs.Ui"].
Definition OVERSIZED_ALLOWLIST : list path := [file ["helper"; "opatchy_helper"; "payload_parser.py"]].
Definition SAFE_LINK : path := file ["qml"; "components"; "SafeExternalLink.qml"].

(** ** The patterns *)

Definition upper (c : N) : bool := ((65 <=? c) && (c <=? 90))%N.
Definition lower (c : N) : bool := ((97 <=? c) && (c <=? 122))%N.
Definition spaces : pattern := PRun is_space 0 None.

Definition MUTATION_PATTERN : pattern :=
  pcats [plits ["pacman"; "yay"; "paru"; "flatpak"];
         PRun not_newline 0 (Some 160%nat);
         PAlt (pcats [PText (lit "-"); plits ["S"; "R"; "U"]; PRun (fun c => upper c || lower c) 0 None])
        (PAlt (PCat (PText (lit "--")) (plits ["sync"; "remove"; "install"; "uninstall"; "upgrade"]))
              (pcats [PBoundary; plits ["install"; "uninstall"; "remove"; "upgrade"]; PBoundary]))].

Definition SHELL_PATTERN : pattern :=
  PAlt (pcats [PText (lit "shell"); spaces; PText (lit "="); spaces; PText (lit "True")])
 (PAlt (pcats [PBoundary; PText (lit "os."); plits ["system"; "popen"]; PText (lit "(")])
       (pcats [PBoundary; plits ["eval"; "exec"]; PText (lit "(")])).

(** A character as [re.IGNORECASE] compares it with [c], a small letter or no letter: the
    capital, and the other letters of Unicode that fold to it. *)
Definition same_letter (c x : N) : bool :=
  ((x =? c) || lower c && (x =? c - 32)
   || (c =? 105) && ((x =? 304) || (x =? 305)) || (c =? 115) && (x =? 383) || (c =? 107) && (x =? 8490))%N.
Definition itext (t : string) : pattern := pcats ((fun c => PSet (same_letter c)) <$> lit t).
Definition itexts (l : list string) : pattern := foldr (fun t r => PAlt (itext t) r) PNone l.

Definition RICH_TEXT_PATTERN : pattern :=
  PAlt (itext "text.richtext")
 (PAlt (pcats [itext "textformat"; spaces; PText (lit ":"); spaces; PRun not_newline 0 None; itext "richtext"])
       (pcats [PText (lit "<"); itexts ["a"; "b"; "br"; "em"; "font"; "i"; "img"; "p"; "span"; "strong"]; PBoundary])).

Definition URL_PATTERN : pattern :=
  pcats [PText (lit "http"); PRun (N.eqb 115) 0 (Some 1%nat); PText (lit "://");
         PRun (fun c => negb (is_space c || quotes c)) 1 None].

Definition hexadecimal (c : N) : bool := is_digit c || Utf8.between 97 102 c || Utf8.between 65 70 c.

Definition PALETTE_PATTERN : pattern :=
  PAlt (pcats [PText (lit "#"); PRun hexadecimal 3 (Some 8%nat); PBoundary])
       (pcats [PAlt (PText (lit "Qt.")) (PText []); plits ["rgb"; "rgba"; "hsl"; "hsla"; "hsv"; "hsva"]; spaces; PText (lit "(")]).

Definition PROCESS_PATTERN : pattern := pcats [PBoundary; PText (lit "Process"); spaces; PText (lit "{")].
Definition OPEN_PATTERN : pattern := pcats [PBoundary; PText (lit "Qt.openUrlExternally(")].

Record Violation := { rule : str; violation_path : path; violation_line : Z }.

(** [PurePath.suffix]: what follows the last dot of the name, if another character than a
    dot comes before it. *)
Definition suffix (p : path) : str :=
  let name := default [] (last p) in
  let '(ext, before) := span (fun c => negb (c =? 46)%N) (reverse name) in
  if existsb (fun c => negb (c =? 46)%N) (drop 1 before) then 46%N :: reverse ext else [].

(** [module.partition(".")[0]] *)
Definition top_module (m : str) : str := (span (fun c => negb (c =? 46)%N) m).1.

(** ** What [ast.walk] gives *)

(** An expression, as far as the check looks at it: a constant is a text or something else. *)
Inductive expr :=
| EName (id : str)
| EAttribute (value : expr) (attr : str)
| EConstant (value : option str)
| EOther.

Inductive node :=
| NImport (imported : list str) (lineno : Z)
| NImportFrom (level : Z) (module : option str) (imported : list str) (lineno : Z)
| NCall (func : expr) (args : list expr) (lineno : Z)
| NOther.

(** What [ast.parse] comes to: the nodes of the tree in the order of [ast.walk], or a
    [SyntaxError] with its line. *)
Inductive parsed :=
| Tree (walk : list node)
| Broken (lineno : option Z).

Section Policy.
Context (parse : path -> str -> res parsed) (stdlib : list str) (word : N -> bool) (named : bytes -> option N).

(** The violations of [rule] where a pattern is found. *)
Definition found_at (r : pattern) (rule : string) (p : path) (text : str) : list Violation :=
  (fun m : nat * str => {| rule := lit rule; violation_path := p; violation_line := line_of text m.1 |})
    <$> matches_of word r text.

Definition violation (rule : string) (p : path) (line : Z) : Violation :=
  {| rule := lit rule; violation_path := p; violation_line := line |}.

(** [module in sys.stdlib_module_names or module == "opatchy_helper"] *)
Definition known_module (m : str) : bool :=
  bool_decide (top_module m ∈ stdlib) || bool_decide (top_module m = lit "opatchy_helper").

Definition _dynamic_import_violations (p : path) (args : list expr) (line : Z) : list Violation :=
  match args with
  | EConstant (Some m) :: _ => if known_module m then [] else [violation "runtime-dependency" p line]
  | _ => [violation "runtime-dependency" p line]
  end.

Definition _import_violations (p : path) (imported : list str) (line : Z) : list Violation :=
  (fun _ => violation "runtime-dependency" p line) <$> List.filter (fun m => negb (known_module m)) imported.

Definition _from_import_violations (p : path) (module : option str) (line : Z) : list Violation :=
  match module with
  | None => []
  | Some m => if known_module m then [] else [violation "runtime-dependency" p line]
  end.

(** The name [func] is, and the module and the name it is an attribute of. *)
Definition is_name (func : expr) (id : string) : bool :=
  match func with EName i => bool_decide (i = lit id) | _ => false end.
Definition attribute_of (func : expr) (id : string) : option str :=
  match func with EAttribute v attr => if is_name v id then Some attr else None | _ => None end.

(** The body of the loop over [ast.walk]: the first case that matches. *)
Definition node_violations (p : path) (n : node) : list Violation :=
  match n with
  | NImport imported line => _import_violations p imported line
  | NImportFrom level module _ line => if level =? 0 then _from_import_violations p module line else []
  | NCall func args line =>
      if is_name func "__import__" then _dynamic_import_violations p args line
      else if bool_decide (attribute_of func "importlib" = Some (lit "import_module"))
      then _dynamic_import_violations p args line
      else match attribute_of func "subprocess" with
           | Some method =>
               if bool_decide (p ∉ PROCESS_ALLOWLIST) || bool_decide (method <> lit "Popen")
               then [violation "shell-api" p line] else []
           | None => []
           end
  | NOther => []
  end.

Definition _python_violations (p : path) (text : str) : res (list Violation) :=
  let found := found_at MUTATION_PATTERN "mutation-command" p text ++ found_at SHELL_PATTERN "shell-api" p text in
  tree ← parse p text;
  Ok (found ++ match tree with
               | Broken line => [violation "invalid-python" p (match line with Some 0 | None => 1 | Some n => n end)]
               | Tree walk => walk ≫= node_violations p
               end).

(** [re.match(r"\s*import\s+([^\s]+)", line)]: the module. *)
Definition qml_import (line : str) : option str :=
  s ← past (lit "import") (past_space line);
  _ ← nonempty (span is_space s).1;
  let module := (span (fun c => negb (is_space c)) (past_space s)).1 in
  _ ← nonempty module; Some module.

Definition _allowed_qml_import (module : str) : bool :=
  startswith module [34%N] || bool_decide (module ∈ QML_IMPORTS).

Definition safe_url (url : str) : bool := existsb (startswith url) URL_ALLOWLIST.

Definition url_violations (p : path) (text : str) : list Violation :=
  (fun m : nat * str => violation "unsafe-url" p (line_of text m.1))
    <$> List.filter (fun m => negb (safe_url m.2)) (matches_of word URL_PATTERN text).

(** The loop over [enumerate(text.splitlines(), start=1)]. *)
Fixpoint import_lines (p : path) (number : Z) (lines : list str) : list Violation :=
  match lines with
  | [] => []
  | line :: rest =>
      (match qml_import line with
       | Some module => if _allowed_qml_import module then [] else [violation "runtime-dependency" p number]
       | None => []
       end) ++ import_lines p (number + 1) rest
  end.

Definition _qml_violations (p : path) (text : str) : res (list Violation) :=
  mutations ← mutation_array_lines named word text;
  Ok (found_at RICH_TEXT_PATTERN "rich-text" p text
      ++ found_at PALETTE_PATTERN "hardcoded-palette" p text
      ++ (violation "mutation-command" p <$> mutations)
      ++ url_violations p text
      ++ (if bool_decide (p ∈ QML_PROCESS_ALLOWLIST) then [] else found_at PROCESS_PATTERN "shell-api" p text)
      ++ (if bool_decide (p = SAFE_LINK) then [] else found_at OPEN_PATTERN "unsafe-url" p text)
      ++ import_lines p 1 (splitlines text)).

Definition is_python (p : path) : bool := bool_decide (suffix p = lit ".py").

Definition _scan_text (p : path) (text : str) : res (list Violation) :=
  if is_python p then _python_violations p text else _qml_violations p text.

(** A line that is not blank and does not start a comment. *)
Definition code_line (line : str) : bool :=
  negb (bool_decide (strip line = []))
  && negb (startswith (lstrip line) (lit "#") || startswith (lstrip line) (lit "//")).

Definition _size_violations (p : path) (text : str) : list Violation :=
  if (250 <? len (List.filter code_line (splitlines text))) && bool_decide (p ∉ OVERSIZED_ALLOWLIST)
  then [violation "oversized-module" p 251] else [].

(** ** The files *)

(** What a recursive walk of the repository meets, what [Path.exists] says, and what
    [Path.read_text] comes to. *)
Context (listing : list path) (exists_ : path -> bool) (read_text : path -> res str).

Definition below (directory p : path) : bool :=
  bool_decide (take (length directory) p = directory) && (len directory <? len p).

Definition name_of (p : path) : str := default [] (last p).

(** [sorted(...)] of paths: they compare by their parts. *)
Definition sorted_paths : list path -> list path := sorted_by_tuple id.

Definition _product_files : list path :=
  let python_files :=
    PYTHON_ROOTS.1
    :: sorted_paths (List.filter (fun p => below PYTHON_ROOTS.2 p && endswith (name_of p) (lit ".py")) listing) in
  let qml_files :=
    sorted_paths (List.filter (fun p => (len p =? 1) && endswith (name_of p) (lit ".qml")) listing)
    ++ sorted_paths (List.filter (fun p => below QML_ROOTS p && bool_decide (suffix p ∈ names [".js"; ".qml"])) listing) in
  List.filter exists_ (python_files ++ qml_files).

(** The violations of one file. *)
Definition file_violations (p : path) : res (list Violation) :=
  text ← read_text p; found ← _scan_text p text; Ok (found ++ _size_violations p text).

Definition report (v : Violation) : str :=
  lit "SECURITY POLICY VIOLATION(" ++ rule v ++ lit "): " ++ join (lit "/") (violation_path v) ++ lit ":" ++ str_of_Z (violation_line v).

(** What [main] returns, and the lines it prints on the standard output and error. *)
Definition main : res (Z * list str * list str) :=
  found ← mapM file_violations _product_files;
  match concat found with
  | [] => Ok (0, [lit "PASS(security-policy)"], [])
  | violations => Ok (1, [], report <$> violations)
  end.

(** ** The policy *)

Definition allowed_module (m : str) : Prop := top_module m ∈ stdlib \/ top_module m = lit "opatchy_helper".

(** What a node may be: absolute imports are of the standard library or the helper, an import
    by a function names its module by such a text, and of [subprocess] only [Popen] is called,
    in the files of the process boundary. *)
Definition node_compliant (p : path) (n : node) : Prop :=
  match n with
  | NImport imported _ => Forall allowed_module imported
  | NImportFrom level module _ _ => level = 0 -> forall m, module = Some m -> allowed_module m
  | NCall func args _ =>
      (func = EName (lit "__import__") \/ func = EAttribute (EName (lit "importlib")) (lit "import_module") ->
       exists m, head args = Some (EConstant (Some m)) /\ allowed_module m)
      /\ (forall method, func = EAttribute (EName (lit "subprocess")) method ->
          (p ∈ PROCESS_ALLOWLIST) /\ method = lit "Popen")
  | NOther => True
  end.

Definition python_compliant (p : path) (text : str) : Prop :=
  ~ occurs word MUTATION_PATTERN text /\ ~ occurs word SHELL_PATTERN text
  /\ exists walk, parse p text = Ok (Tree walk) /\ Forall (node_compliant p) walk.

Definition qml_compliant (p : path) (text : str) : Prop :=
  ~ occurs word RICH_TEXT_PATTERN text /\ ~ occurs word PALETTE_PATTERN text
  /\ mutation_array_lines named word text = Ok []
  /\ (forall offset url, (offset, url) ∈ matches_of word URL_PATTERN text -> exists allowed rest, (allowed ∈ URL_ALLOWLIST) /\ url = allowed ++ rest)
  /\ ((p ∈ QML_PROCESS_ALLOWLIST) \/ ~ occurs word PROCESS_PATTERN text)
  /\ (p = SAFE_LINK \/ ~ occurs word OPEN_PATTERN text)
  /\ forall line module, line ∈ splitlines text -> qml_import line = Some module ->
       head module = Some 34%N \/ (module ∈ QML_IMPORTS).

Definition size_compliant (p : path) (text : str) : Prop :=
  (p ∈ OVERSIZED_ALLOWLIST) \/ len (List.filter code_line (splitlines text)) <= 250.

Definition compliant (p : path) (text : str) : Prop :=
  (if is_python p then python_compliant p text else qml_compliant p text) /\ size_compliant p text.

(** ** Each rule *)

Lemma fmap_nil_iff {A B} (f : A -> B) l : f <$> l = [] <-> l = [].
Proof. by destruct l. Qed.

Lemma found_at_nil r t p text : consumes r = true -> found_at r t p text = [] <-> ~ occurs word r text.
Proof.
  intros Hr. rewrite <- matches_of_none by (by apply consumes_spec). unfold found_at. by rewrite fmap_nil_iff.
Qed.

Lemma known_module_spec m : known_module m = true <-> allowed_module m.
Proof. unfold known_module, allowed_module. by rewrite orb_true_iff, !bool_decide_eq_true. Qed.

Lemma filter_nil_iff {A} (f : A -> bool) l : List.filter f l = [] <-> Forall (fun x => f x = false) l.
Proof.
  split; [|apply filter_none]. intros H. apply Forall_forall. intros x Hx. destruct (f x) eqn:E; [|done].
  assert (x ∈ List.filter f l) as Hn by (by apply elem_of_filter_bool). rewrite H in Hn. by apply elem_of_nil in Hn.
Qed.

Lemma import_nil p imported line : _import_violations p imported line = [] <-> Forall allowed_module imported.
Proof.
  unfold _import_violations. rewrite fmap_nil_iff, filter_nil_iff. apply Forall_iff. intros m.
  by rewrite negb_false_iff, known_module_spec.
Qed.

Lemma from_import_nil p module line :
  _from_import_violations p module line = [] <-> forall m, module = Some m -> allowed_module m.
Proof.
  destruct module as [m|]; cbn; [|done]. setoid_rewrite <- known_module_spec. 
  destruct (known_module m) eqn:E; split; [by intros _ ? [= <-]|done|done|intros H; specialize (H m eq_refl); congruence].
Qed.

Lemma dynamic_import_nil p args line :
  _dynamic_import_violations p args line = [] <-> exists m, head args = Some (EConstant (Some m)) /\ allowed_module m.
Proof.
  setoid_rewrite <- known_module_spec. destruct args as [|[| |[m|]|] args]; cbn; try (split; [done|intros (? & ? & _); congruence]).
  destruct (known_module m) eqn:E; split; [by exists m|done|done|intros (? & [= <-] & ?); congruence].
Qed.

Lemma is_name_spec func id : is_name func id = true <-> func = EName (lit id).
Proof. destruct func; cbn; rewrite ?bool_decide_eq_true; naive_solver. Qed.

Lemma attribute_of_spec func id attr : attribute_of func id = Some attr <-> func = EAttribute (EName (lit id)) attr.
Proof.
  destruct func as [|v a| |]; cbn; [naive_solver| |naive_solver..]. destruct (is_name v id) eqn:E.
  - apply is_name_spec in E as ->. naive_solver.
  - split; [done|]. intros [= -> ->]. by rewrite (proj2 (is_name_spec _ _)) in E.
Qed.

Lemma call_nil p func args line : node_violations p (NCall func args line) = [] <-> node_compliant p (NCall func args line).
Proof.
  cbn [node_violations node_compliant]. destruct (is_name func "__import__") eqn:E1; [|case_bool_decide as E2].
  - apply is_name_spec in E1 as ->. rewrite dynamic_import_nil. split; [|intros [H _]; auto].
    intros H. split; [done|]. by intros ? [=].
  - apply attribute_of_spec in E2 as ->. rewrite dynamic_import_nil. split; [|intros [H _]; auto].
    intros H. split; [done|]. by intros method [=].
  - assert (Hn : ~ (func = EName (lit "__import__") \/ func = EAttribute (EName (lit "importlib")) (lit "import_module"))).
    { intros [Hi|Hi]; [apply is_name_spec in Hi; congruence|]. by apply E2, attribute_of_spec. }
    destruct (attribute_of func "subprocess") as [method|] eqn:E3.
    + pose proof E3 as Hf. apply attribute_of_spec in Hf as ->. case_match eqn:Eb; split; try done.
      * intros [_ H]. destruct (H method eq_refl) as [H1 H2]. exfalso.
        rewrite !bool_decide_false in Eb by tauto. done.
      * intros _. split; [done|]. intros ? [= <-]. apply orb_false_iff in Eb as [H1%bool_decide_eq_false H2%bool_decide_eq_false].
        split; by apply dec_stable.
    + split; [|done]. intros _. split; [done|]. intros method Hm. apply attribute_of_spec in Hm. congruence.
Qed.

Lemma node_nil p n : node_violations p n = [] <-> node_compliant p n.
Proof.
  destruct n as [imported line|level module imported line|func args line|].
  - apply import_nil.
  - cbn. destruct (Z.eqb_spec level 0); [rewrite from_import_nil; by split; auto|done].
  - apply call_nil.
  - done.
Qed.

Lemma bind_nil {A B} (f : A -> list B) l : l ≫= f = [] <-> Forall (fun x => f x = []) l.
Proof. induction l as [|x l IH]; [done|]. cbn. by rewrite app_nil, Forall_cons, IH. Qed.

Lemma python_nil p text : _python_violations p text = Ok [] <-> python_compliant p text.
Proof.
  unfold _python_violations, python_compliant. destruct (parse p text) as [[walk|line]|e]; cbn [mbind outcome_bind].
  - rewrite <- (found_at_nil MUTATION_PATTERN "mutation-command" p) by done.
    rewrite <- (found_at_nil SHELL_PATTERN "shell-api" p) by done. split.
    + intros [= H]. rewrite !app_nil, bind_nil in H. destruct H as [[H1 H2] H3]. repeat split; [done..|].
      exists walk. split; [done|]. eapply Forall_impl; [exact H3|]. intros n. apply node_nil.
    + intros (-> & -> & w & [= <-] & H). f_equal. apply bind_nil. eapply Forall_impl; [exact H|]. intros n. apply node_nil.
  - split; [|naive_solver]. intros [= H]. by apply app_nil in H as [_ H].
  - naive_solver.
Qed.

Lemma safe_url_spec url : safe_url url = true <-> exists allowed rest, (allowed ∈ URL_ALLOWLIST) /\ url = allowed ++ rest.
Proof.
  unfold safe_url. rewrite existsb_exists. setoid_rewrite <- list_elem_of_In. setoid_rewrite startswith_spec. naive_solver.
Qed.

Lemma url_nil p text :
  url_violations p text = [] <->
  forall offset url, (offset, url) ∈ matches_of word URL_PATTERN text ->
    exists allowed rest, (allowed ∈ URL_ALLOWLIST) /\ url = allowed ++ rest.
Proof.
  unfold url_violations. rewrite fmap_nil_iff, filter_nil_iff, Forall_forall. split.
  - intros H offset url Hu. apply safe_url_spec, negb_false_iff. exact (H _ Hu).
  - intros H [offset url] Hu. apply negb_false_iff, safe_url_spec. by apply (H offset).
Qed.

Lemma allowed_import_spec module : _allowed_qml_import module = true <-> head module = Some 34%N \/ (module ∈ QML_IMPORTS).
Proof.
  unfold _allowed_qml_import. rewrite orb_true_iff, bool_decide_eq_true, startswith_spec.
  enough ((exists r, module = [34%N] ++ r) <-> head module = Some 34%N) as ->; [done|].
  destruct module as [|c m]; cbn; [naive_solver|]. split; [by intros (? & [= -> ->])|]. intros [= ->]. by exists m.
Qed.

Lemma import_lines_nil p number lines :
  import_lines p number lines = [] <->
  forall line module, line ∈ lines -> qml_import line = Some module -> head module = Some 34%N \/ (module ∈ QML_IMPORTS).
Proof.
  setoid_rewrite <- allowed_import_spec. revert number. induction lines as [|l lines IH]; intros number; cbn [import_lines].
  - split; [|done]. by intros _ ? ? ?%elem_of_nil.
  - rewrite app_nil, IH. split.
    + intros [H1 H2] line module [->|Hl]%elem_of_cons Hm; [|by eapply H2]. rewrite Hm in H1. by destruct (_allowed_qml_import module).
    + intros H. split; [|intros line module Hl; apply H; by constructor]. destruct (qml_import l) as [m|] eqn:E; [|done].
      by rewrite (H l m) by (done || by constructor).
Qed.

Lemma unless_nil (b : bool) (P : Prop) (l : list Violation) : (b = true <-> P) -> (if b then [] else l) = [] <-> P \/ l = [].
Proof. destruct b; naive_solver. Qed.

Lemma qml_nil p text : _qml_violations p text = Ok [] <-> qml_compliant p text.
Proof.
  unfold _qml_violations, qml_compliant.
  rewrite <- (found_at_nil RICH_TEXT_PATTERN "rich-text" p), <- (found_at_nil PALETTE_PATTERN "hardcoded-palette" p) by done.
  rewrite <- (found_at_nil PROCESS_PATTERN "shell-api" p), <- (found_at_nil OPEN_PATTERN "unsafe-url" p) by done.
  rewrite <- (url_nil p), <- (import_lines_nil p 1).
  rewrite <- (unless_nil (bool_decide (p ∈ QML_PROCESS_ALLOWLIST))), <- (unless_nil (bool_decide (p = SAFE_LINK)))
    by apply bool_decide_eq_true.
  destruct (mutation_array_lines named word text) as [l|e]; cbn [mbind outcome_bind]; [|naive_solver].
  assert (Hok : forall (a b : list Violation), Ok a = Ok b :> res _ <-> a = b) by naive_solver. rewrite Hok.
  rewrite !app_nil, fmap_nil_iff. naive_solver.
Qed.

Lemma size_nil p text : _size_violations p text = [] <-> size_compliant p text.
Proof.
  unfold _size_violations, size_compliant. destruct (Z.ltb_spec 250 (len (List.filter code_line (splitlines text)))); cbn.
  - case_bool_decide; [|by split; auto]. split; [done|]. intros [?|?]; [done|lia].
  - split; [|done]. by right.
Qed.

Lemma file_nil p : file_violations p = Ok [] <-> exists text, read_text p = Ok text /\ compliant p text.
Proof.
  unfold file_violations, compliant, _scan_text. destruct (read_text p) as [text|e]; cbn [mbind outcome_bind]; [|naive_solver].
  transitivity ((if is_python p then _python_violations p text else _qml_violations p text) = Ok [] /\ _size_violations p text = []).
  - destruct (if is_python p then _ else _) as [l|e]; cbn; [|naive_solver]. split.
    + intros [= [-> ->]%app_nil]. done.
    + intros [[= ->] ->]. done.
  - rewrite size_nil. destruct (is_python p); rewrite ?python_nil, ?qml_nil; split;
      [intros H; by exists text|intros (? & [= <-] & H); done|intros H; by exists text|intros (? & [= <-] & H); done].
Qed.

Lemma mapM_nil l : (exists found, mapM file_violations l = Ok found /\ concat found = []) <-> Forall (fun p => file_violations p = Ok []) l.
Proof.
  split.
  - intros (found & H%mapM_Ok & Hc). induction H as [|p l f found Hp H IH]; [done|].
    apply app_nil in Hc as [-> Hc]. by constructor; auto.
  - induction 1 as [|p l Hp H (found & IH & Hc)]; [by exists []|]. exists ([] :: found). cbn. by rewrite Hp, IH.
Qed.

(** C35. The check passes - it returns 0, prints that it passed and nothing on the standard
    error - exactly when every file of the product can be read and is compliant: a Python
    file holds no text of the patterns of mutations and of shell calls, parses, and each of
    its imports and calls is allowed; any other file holds no rich text, no colour, no
    unapproved package-manager array, no URL, process or import beyond the allowed ones; and
    neither has more than 250 lines of code, unless it is listed. *)
Theorem check_passes_iff_compliant :
  main = Ok (0, [lit "PASS(security-policy)"], []) <->
  forall p, p ∈ _product_files -> exists text, read_text p = Ok text /\ compliant p text.
Proof.
  setoid_rewrite <- file_nil. rewrite <- Forall_forall, <- mapM_nil. unfold main. split.
  - intros H. inv_ok. exists x. split; [done|]. by destruct (concat x).
  - by intros (found & -> & Hc); cbn; rewrite Hc.
Qed.
End Policy.

(** ** A file that is found, and one that is not *)

Definition one_file (p : path) (text : str) (walk : list node) : res (Z * list str * list str) :=
  main (fun _ _ => Ok (Tree walk)) (names ["json"; "subprocess"; "os"]) ascii_word no_names
    [p] (fun q => bool_decide (q = p)) (fun _ => Ok text).

Definition sample_file : path := file ["helper"; "opatchy_helper"; "runner.py"].

Example violations_reported :
  one_file sample_file (lit "import requests" ++ [10%N] ++ lit "os.system('pacman -Syu')")
    [NImport [lit "requests"] 1; NCall (EAttribute (EName (lit "os")) (lit "system")) [EConstant (Some (lit "pacman -Syu"))] 2]
  = Ok (1, [], [lit "SECURITY POLICY VIOLATION(mutation-command): helper/opatchy_helper/runner.py:2";
                lit "SECURITY POLICY VIOLATION(shell-api): helper/opatchy_helper/runner.py:2";
                lit "SECURITY POLICY VIOLATION(runtime-dependency): helper/opatchy_helper/runner.py:1"]).
Proof. vm_compute. reflexivity. Qed.

Example qml_violations_reported :
  one_file (file ["qml"; "X.qml"]) (lit "Item { color: '#FF00ff'; text: '<STRONG>' ; u: 'http://a.b' }") []
  = Ok (1, [], [lit "SECURITY POLICY VIOLATION(rich-text): qml/X.qml:1";
                lit "SECURITY POLICY VIOLATION(hardcoded-palette): qml/X.qml:1";
                lit "SECURITY POLICY VIOLATION(unsafe-url): qml/X.qml:1"]).
Proof. vm_compute. reflexivity. Qed.

(** A process started under another name of the module is none of the cases of the check. *)
Example aliased_process_passes :
  one_file sample_file (lit "import subprocess as sp" ++ [10%N] ++ lit "sp.run(['true'])")
    [NImport [lit "subprocess"] 1; NCall (EAttribute (EName (lit "sp")) (lit "run")) [EOther] 2]
  = Ok (0, [lit "PASS(security-policy)"], []).
Proof. vm_compute. reflexivity. Qed.
