(* ===== verification/ReleaseReadiness.v ===== *)
(** * Preparing a release

    [release_readiness.py]: what must hold of a repository before it is archived, the archive
    and its manifest. The commands and files the script uses act on a world of type [W] and
    are parameters; each step is characterised by what they answered ([clean_tree],
    [identified], [archived]), and [main] ends with 0 exactly after all steps succeed. *)

From Stdlib Require Import ZifyBool.
From S2P Require Import Prelude PyStr Models Utf8 Json JsonText Tooling Backlog Sha256 CacheMetadata.

Open Scope Z_scope.

Definition PROJECT_FILES : list str := names ["manifest.json"; "pyproject.toml"; "CHANGELOG.md"].
Definition RELEASE_PREFIX : str := lit "v".
Definition dquote : str := [34%N].

(** What leaves the script: [SystemExit] with the message of [fail] and the status, or
    another exception. *)
Inductive stop :=
| Exit (message : str) (status : Z)
| Uncaught (e : exn).

Record Arguments := { repository : str; tag : str; output_directory : str }.
Record ReleaseIdentity := { version : str; commit : str }.

(** [directory / name] *)
Record Below := { directory : str; name : str }.

Record Member := { issym : bool; islnk : bool }.

(** What the script uses of the machine. A command or a file operation may raise. *)
Class Machine (W : Type) := {
  resolve : str -> W -> W * res str;
  is_dir : str -> W -> bool;
  is_file : Below -> W -> bool;
  read_text : Below -> W -> res str;
  (** [subprocess.run] of a command in a directory: with what it prints captured as text, on
      the terminal of the script, or written to a file that is opened first. *)
  captured : list str -> str -> W -> W * res ToolResult;
  called : list str -> str -> W -> W * res Z;
  called_to : list str -> str -> Below -> W -> W * res Z;
  mkdir : str -> W -> W * res unit;
  getmembers : Below -> W -> res (list Member);
  read_bytes : Below -> W -> res bytes;
  write_text : Below -> str -> W -> W * res unit;
  (** [str(path)] *)
  text_of : Below -> str;
}.

(** ** The script's monad *)

Section Monad.
Context {W : Type}.

Definition Release (A : Type) : Type := W -> W * outcome stop A.

#[global] Instance Release_ret : MRet Release := fun A a w => (w, Ok a).
#[global] Instance Release_bind : MBind Release := fun A B k m w =>
  match m w with
  | (w', Ok a) => k a w'
  | (w', Err e) => (w', Err e)
  end.

Definition fail_with {A} (message : str) (status : Z) : Release A := fun w => (w, Err (Exit message status)).
Definition refuse_if (b : bool) (message : str) (status : Z) : Release unit :=
  if b then fail_with message status else mret tt.

(** An operation that may raise. *)
Definition raising {A} (m : res A) : outcome stop A := match m with Ok a => Ok a | Err e => Err (Uncaught e) end.
Definition act {A} (f : W -> W * res A) : Release A := fun w => let '(w', r) := f w in (w', raising r).
Definition look {A} (f : W -> res A) : Release A := fun w => (w, raising (f w)).
Definition ask {A} (f : W -> A) : Release A := fun w => (w, Ok (f w)).

Lemma Release_bind_Ok {A B} (m : Release A) (k : A -> Release B) w w' b :
  (m ≫= k) w = (w', Ok b) <-> exists w1 a, m w = (w1, Ok a) /\ k a w1 = (w', Ok b).
Proof. unfold mbind, Release_bind. destruct (m w) as [w1 [a|e]]; naive_solver. Qed.

Lemma act_Ok {A} (f : W -> W * res A) w w' a : act f w = (w', Ok a) <-> f w = (w', Ok a).
Proof. unfold act. destruct (f w) as [w1 [a1|e]]; cbn; split; congruence. Qed.

Lemma look_Ok {A} (f : W -> res A) w w' a : look f w = (w', Ok a) <-> w' = w /\ f w = Ok a.
Proof. unfold look. destruct (f w); cbn; split; [by intros [= <- <-]|by intros [-> [= ->]]|done|by intros [_ ?]]. Qed.

Lemma ask_Ok {A} (f : W -> A) w w' a : ask f w = (w', Ok a) <-> w' = w /\ a = f w.
Proof. unfold ask. split; [by intros [= <- <-]|by intros [-> ->]]. Qed.

Lemma refuse_if_Ok b m s w w' u : refuse_if b m s w = (w', Ok u) <-> w' = w /\ b = false.
Proof. destruct b, u; cbn; split; [done|by intros [_ ?]|by intros [= <-]|by intros [-> _]]. Qed.

Lemma ret_Ok {A} (a b : A) w w' : (mret a : Release A) w = (w', Ok b) <-> w' = w /\ b = a.
Proof. unfold mret, Release_ret. split; [by intros [= <- <-]|by intros [-> ->]]. Qed.
End Monad.
Arguments Release : clear implicits.

(** ** The versions of the files *)

(** The text between double quotes that a text starts with. *)
Definition quoted_text (s : str) : option str :=
  s ← past dquote s;
  let '(t, rest) := span (fun c => negb (c =? 34)%N) s in
  _ ← nonempty t; _ ← past dquote rest; Some t.

Definition spaces (s : str) : str := (span is_space s).2.

(** [MANIFEST_VERSION] and [PROJECT_VERSION] at the start of a line: the group. *)
Definition manifest_version_at (s : str) : option str :=
  s ← past (dquote ++ lit "version" ++ dquote) (spaces s);
  s ← past (lit ":") (spaces s);
  quoted_text (spaces s).

Definition project_version_at (s : str) : option str :=
  s ← past (lit "version") s;
  s ← past (lit "=") (spaces s);
  quoted_text (spaces s).

(** [pattern.search] of a pattern that [^] begins, with [re.MULTILINE]. *)
Fixpoint search_lines (pattern : str -> option str) (line_start : bool) (s : str) : option str :=
  match (if line_start then pattern s else None) with
  | Some t => Some t
  | None => match s with [] => None | c :: s' => search_lines pattern (c =? 10)%N s' end
  end.

(** ** [json.dumps] of texts, in ASCII *)

Definition u_escape (n : N) : str :=
  lit "\u" ++ (hex_char <$> [n / 4096; n / 256 mod 16; n / 16 mod 16; n mod 16]%N).

Definition ascii_char (c : N) : str :=
  (if c <? 127 then escape_char c
   else if c <? 0x10000 then u_escape c
   else u_escape (0xD800 + (c - 0x10000) / 1024) ++ u_escape (0xDC00 + (c - 0x10000) mod 1024))%N.

Definition ascii_quote (s : str) : str := 34%N :: (s ≫= ascii_char) ++ [34%N].

(** [json.dumps(d, sort_keys=True, separators=(",", ":"))] of texts. *)
Definition dumps_texts (d : list (str * str)) : str :=
  lit "{" ++ join (lit ",") ((fun kv => ascii_quote kv.1 ++ lit ":" ++ ascii_quote kv.2) <$> sorted_by_key fst d) ++ lit "}".

(** ** The steps *)

Section Release.
Context {W : Type} `{Machine W}.
#[local] Abbreviation Rel := (Release W).

Definition usage : str :=
  lit "usage: release_readiness.py --repository PATH --tag vVERSION --dry-run --output-directory PATH".

Definition parse_arguments (arguments : list str) : Rel Arguments :=
  match arguments with
  | [a0; a1; a2; a3; a4; a5; a6] =>
      if bool_decide (a0 = lit "--repository") && bool_decide (a2 = lit "--tag") && bool_decide (a4 = lit "--dry-run")
         && bool_decide (a5 = lit "--output-directory")
      then repository ← act (resolve a1);
           output_directory ← act (resolve a6);
           exists_ ← ask (is_dir repository);
           _ ← refuse_if (negb exists_) (lit "repository is unavailable: " ++ repository) 1;
           _ ← refuse_if (negb (startswith a3 RELEASE_PREFIX) || (len a3 =? 1)) (lit "prospective tag must use vVERSION form") 1;
           mret {| repository := repository; tag := a3; output_directory := output_directory |}
      else fail_with usage 1
  | _ => fail_with usage 1
  end.

Definition git_path : str := lit "/usr/bin/git".

(** [run] *)
Definition git (repository : str) (arguments : list str) : W -> W * res ToolResult :=
  captured (git_path :: arguments) repository.

Definition make_validate (repository : str) : W -> W * res Z := called (names ["make"; "validate"]) repository.

Definition allowed : list str := names [".omo/"; ".codegraph/"; ".playwright-mcp/"].

(** The untracked files that count. *)
Definition product_entries (listing : str) : list str :=
  List.filter (fun entry => negb (existsb (startswith entry) allowed)) (splitlines listing).

Definition require_clean_tree (repository : str) : Rel unit :=
  tracked ← act (git repository (names ["diff"; "--quiet"]));
  staged ← act (git repository (names ["diff"; "--cached"; "--quiet"]));
  untracked ← act (git repository (names ["ls-files"; "--others"; "--exclude-standard"]));
  refuse_if (negb (tr_returncode tracked =? 0) || negb (tr_returncode staged =? 0)
           || negb (bool_decide (product_entries (tr_stdout untracked) = [])))
    (lit "release requires a clean worktree") 1.

Definition git_output (repository : str) (arguments : list str) : Rel str :=
  result ← act (git repository arguments);
  _ ← refuse_if (negb (tr_returncode result =? 0)) (lit "git command failed: " ++ join (lit " ") arguments) (tr_returncode result);
  mret (strip (tr_stdout result)).

Definition symlink_entry (entry : str) : bool := startswith entry (lit "120000 ").

Definition require_regular_archive_tree (repository : str) : Rel unit :=
  listing ← git_output repository (names ["ls-files"; "-s"]);
  refuse_if (existsb symlink_entry (splitlines listing)) (lit "tracked symlink is not allowed in a release") 1.

(** [tag.removeprefix(RELEASE_PREFIX)] *)
Definition removeprefix (s p : str) : str := if startswith s p then drop (length p) s else s.

Definition changelog_heading (version : str) : str := lit "## [" ++ version ++ lit "]".

(** The versions of the files are that of the tag. *)
Definition versions_match (version manifest_text project_text changelog : str) : bool :=
  bool_decide (default [] (search_lines manifest_version_at true manifest_text) = version)
  && bool_decide (default [] (search_lines project_version_at true project_text) = version)
  && contains changelog (changelog_heading version).

Definition in_repository (repository name : str) : Below := {| directory := repository; name := name |}.

Definition release_identity (repository tag : str) : Rel ReleaseIdentity :=
  missing ← ask (fun w => List.filter (fun f => negb (is_file (in_repository repository f) w)) PROJECT_FILES);
  _ ← refuse_if (negb (bool_decide (missing = []))) (lit "required release files are unavailable: " ++ join (lit ", ") missing) 1;
  manifest_text ← look (read_text (in_repository repository (lit "manifest.json")));
  project_text ← look (read_text (in_repository repository (lit "pyproject.toml")));
  let version := removeprefix tag RELEASE_PREFIX in
  changelog ← look (read_text (in_repository repository (lit "CHANGELOG.md")));
  _ ← refuse_if (negb (versions_match version manifest_text project_text changelog))
        (lit "manifest, pyproject, changelog, and prospective tag versions must match") 1;
  commit ← git_output repository (names ["rev-parse"; "HEAD"]);
  _ ← refuse_if (negb (len commit =? 40)) (lit "release requires an exact full commit SHA") 1;
  mret {| version := version; commit := commit |}.

Definition run_local_gates (repository : str) : Rel unit :=
  returncode ← act (make_validate repository);
  refuse_if (negb (returncode =? 0)) (lit "local validation gate failed") returncode.

Definition archive_of (a : Arguments) (i : ReleaseIdentity) : Below :=
  {| directory := output_directory a; name := lit "opatchy-" ++ version i ++ lit ".tar" |}.

Definition archive_arguments (i : ReleaseIdentity) : list str :=
  [git_path; lit "archive"; lit "--format=tar"; lit "--prefix=opatchy-" ++ version i ++ lit "/"; commit i].

Definition archive_release (a : Arguments) (i : ReleaseIdentity) : Rel (Below * str) :=
  _ ← act (mkdir (output_directory a));
  let archive := archive_of a i in
  returncode ← act (called_to (archive_arguments i) (repository a) archive);
  _ ← refuse_if (negb (returncode =? 0)) (lit "unable to archive exact release commit") returncode;
  contents ← look (getmembers archive);
  _ ← refuse_if (existsb (fun m => issym m || islnk m) contents) (lit "release archive contains a symlink") 1;
  body ← look (read_bytes archive);
  mret (archive, hexdigest body).

Definition metadata (a : Arguments) (i : ReleaseIdentity) (digest : str) : list (str * str) :=
  [(lit "archive", lit "opatchy-" ++ version i ++ lit ".tar"); (lit "archiveSha256", digest); (lit "commit", commit i);
   (lit "tag", tag a); (lit "version", version i)].

Definition manifest_text (a : Arguments) (i : ReleaseIdentity) (digest : str) : str :=
  dumps_texts (metadata a i digest) ++ newline.

Definition manifest_of (a : Arguments) (i : ReleaseIdentity) : Below :=
  {| directory := output_directory a; name := lit "opatchy-" ++ version i ++ lit ".release.json" |}.

Definition write_manifest (a : Arguments) (i : ReleaseIdentity) (digest : str) : Rel Below :=
  let manifest := manifest_of a i in
  _ ← act (write_text manifest (manifest_text a i digest)); mret manifest.

(** The line [main] prints. *)
Definition main (arguments : list str) : Rel (Z * str) :=
  a ← parse_arguments arguments;
  _ ← require_clean_tree (repository a);
  _ ← require_regular_archive_tree (repository a);
  i ← release_identity (repository a) (tag a);
  _ ← run_local_gates (repository a);
  '(archive, digest) ← archive_release a i;
  manifest ← write_manifest a i digest;
  mret (0, lit "PASS(release-readiness): " ++ commit i ++ lit " " ++ digest ++ lit " " ++ text_of archive ++ lit " " ++ text_of manifest).
End Release.

(** [inv_release] opens a run that returned; [run_release] makes one. *)
Ltac inv_release :=
  repeat match goal with
  | H : (_ ≫= _) _ = (_, Ok _) |- _ =>
      let w := fresh "w" in let x := fresh "x" in let Hm := fresh "Hm" in
      apply Release_bind_Ok in H; destruct H as (w & x & Hm & H)
  | H : act _ _ = (_, Ok _) |- _ => apply act_Ok in H
  | H : look _ _ = (_, Ok _) |- _ => apply look_Ok in H; destruct H as [-> H]
  | H : ask _ _ = (_, Ok _) |- _ => apply ask_Ok in H; destruct H as [-> ->]
  | H : refuse_if _ _ _ _ = (_, Ok _) |- _ =>
      let Hf := fresh "Hf" in apply refuse_if_Ok in H; destruct H as [-> Hf]
  | H : mret _ _ = (_, Ok _) |- _ => apply ret_Ok in H; destruct H as [-> H]; try (apply pair_equal_spec in H; destruct H as [-> ->]); try subst
  | u : unit |- _ => destruct u
  end.
Ltac run_release :=
  repeat (apply Release_bind_Ok; eexists _, _; split;
          [first [(apply act_Ok; eassumption) | (apply look_Ok; split; [reflexivity|eassumption]) | (apply ask_Ok; split; reflexivity)
                | (apply (refuse_if_Ok _ _ _ _ _ tt); split; [reflexivity|]) | eassumption]|]);
  try (apply ret_Ok; split; [reflexivity|try reflexivity]);
  try (apply refuse_if_Ok; split; [reflexivity|]);
  try by apply act_Ok.

(** ** What each step asks for *)

Section Steps.
Context {W : Type} `{Machine W}.

(** The arguments are complete and of the form of the usage. *)
Definition arguments_of (arguments : list str) (a : Arguments) (w w' : W) : Prop :=
  exists r o w1, arguments = [lit "--repository"; r; lit "--tag"; tag a; lit "--dry-run"; lit "--output-directory"; o]
  /\ resolve r w = (w1, Ok (repository a)) /\ resolve o w1 = (w', Ok (output_directory a))
  /\ is_dir (repository a) w' = true /\ exists v, v <> [] /\ tag a = RELEASE_PREFIX ++ v.

(** Git sees no change, and no untracked file but those of the tools. *)
Definition clean_tree (repository : str) (w w' : W) : Prop :=
  exists w1 w2 tracked staged untracked,
  git repository (names ["diff"; "--quiet"]) w = (w1, Ok tracked) /\ tr_returncode tracked = 0
  /\ git repository (names ["diff"; "--cached"; "--quiet"]) w1 = (w2, Ok staged) /\ tr_returncode staged = 0
  /\ git repository (names ["ls-files"; "--others"; "--exclude-standard"]) w2 = (w', Ok untracked)
  /\ forall entry, entry ∈ splitlines (tr_stdout untracked) -> exists a rest, (a ∈ allowed) /\ entry = a ++ rest.

(** A command of git ended with 0 and printed [out], but for the space around it. *)
Definition answers (repository : str) (arguments : list str) (out : str) (w w' : W) : Prop :=
  exists result, git repository arguments w = (w', Ok result) /\ tr_returncode result = 0 /\ out = strip (tr_stdout result).

Definition no_symlinks (repository : str) (w w' : W) : Prop :=
  exists listing, answers repository (names ["ls-files"; "-s"]) listing w w'
  /\ forall entry, entry ∈ splitlines listing -> ~ exists rest, entry = lit "120000 " ++ rest.

(** The files exist and have the version of the tag, and HEAD is a full commit. *)
Definition identified (a : Arguments) (i : ReleaseIdentity) (w w' : W) : Prop :=
  Forall (fun f => is_file (in_repository (repository a) f) w = true) PROJECT_FILES
  /\ (exists manifest project changelog,
      read_text (in_repository (repository a) (lit "manifest.json")) w = Ok manifest
      /\ read_text (in_repository (repository a) (lit "pyproject.toml")) w = Ok project
      /\ read_text (in_repository (repository a) (lit "CHANGELOG.md")) w = Ok changelog
      /\ search_lines manifest_version_at true manifest = Some (version i)
      /\ search_lines project_version_at true project = Some (version i)
      /\ contains changelog (changelog_heading (version i)) = true)
  /\ tag a = RELEASE_PREFIX ++ version i
  /\ answers (repository a) (names ["rev-parse"; "HEAD"]) (commit i) w w' /\ length (commit i) = 40%nat.

(** The archive of the commit is written and holds no link; [body] is what it holds. *)
Definition archived (a : Arguments) (i : ReleaseIdentity) (body : bytes) (w w' : W) : Prop :=
  exists w1 contents, mkdir (output_directory a) w = (w1, Ok tt)
  /\ called_to (archive_arguments i) (repository a) (archive_of a i) w1 = (w', Ok 0)
  /\ getmembers (archive_of a i) w' = Ok contents /\ Forall (fun m => issym m = false /\ islnk m = false) contents
  /\ read_bytes (archive_of a i) w' = Ok body.

Lemma parse_arguments_Ok arguments a w w' :
  parse_arguments arguments w = (w', Ok a) <-> arguments_of arguments a w w'.
Proof.
  unfold arguments_of. split.
  - intros E. unfold parse_arguments in E. do 8 (destruct arguments as [|? arguments]; try done).
    case_match eqn:Eb; [|done]. rewrite !andb_true_iff, !bool_decide_eq_true in Eb. destruct Eb as [[[-> ->] ->] ->].
    inv_release. apply negb_false_iff in Hf0. apply orb_false_iff in Hf as [[v Hv]%negb_false_iff%startswith_spec Hl].
    cbn. eexists _, _, _. repeat split; [done..|]. exists v. split; [|done]. intros ->. by rewrite Hv in Hl.
  - intros (r & o & w1 & -> & E1 & E2 & Hd & v & Hv & Ht). unfold parse_arguments. rewrite !bool_decide_true by done.
    run_release; [by rewrite Hd| |by destruct a]. rewrite Ht, startswith_app. apply Z.eqb_neq. unfold len. rewrite length_app.
    destruct v; [done|]. change (length RELEASE_PREFIX) with 1%nat. cbn [length]. lia.
Qed.

Lemma allowed_entries listing :
  product_entries listing = [] <->
  forall entry, entry ∈ splitlines listing -> exists a rest, (a ∈ allowed) /\ entry = a ++ rest.
Proof.
  unfold product_entries. assert (Hs : forall e, existsb (startswith e) allowed = true <-> exists a rest, (a ∈ allowed) /\ e = a ++ rest).
  { intros e. rewrite existsb_exists. setoid_rewrite <- list_elem_of_In. setoid_rewrite startswith_spec. naive_solver. }
  setoid_rewrite <- Hs. split.
  - intros Hl e He. destruct (existsb (startswith e) allowed) eqn:E; [done|].
    exfalso. apply (not_elem_of_nil e). rewrite <- Hl. apply elem_of_filter_bool. by rewrite E.
  - intros Hl. apply filter_none, Forall_forall. intros e He. by rewrite Hl.
Qed.

Lemma require_clean_tree_Ok repo w w' : require_clean_tree repo w = (w', Ok tt) <-> clean_tree repo w w'.
Proof.
  unfold clean_tree, require_clean_tree. setoid_rewrite <- allowed_entries. split.
  - intros E. inv_release. rewrite !orb_false_iff, !negb_false_iff, !Z.eqb_eq, bool_decide_eq_true in Hf.
    destruct Hf as [[? ?] ?]. by eexists _, _, _, _, _.
  - intros (w1 & w2 & t & s & u & E1 & H1 & E2 & H2 & E3 & H3). run_release. by rewrite H1, H2, bool_decide_true.
Qed.

Lemma git_output_Ok repo arguments out w w' :
  git_output repo arguments w = (w', Ok out) <-> answers repo arguments out w w'.
Proof.
  unfold git_output, answers. split.
  - intros E. inv_release. apply negb_false_iff, Z.eqb_eq in Hf. by eexists.
  - intros (r & E & Hr & ->). run_release. by rewrite Hr.
Qed.

Lemma existsb_false {A} (f : A -> bool) l : existsb f l = false <-> Forall (fun x => f x = false) l.
Proof.
  rewrite <- not_true_iff_false, existsb_exists, Forall_forall. setoid_rewrite <- not_true_iff_false.
  setoid_rewrite <- list_elem_of_In. naive_solver.
Qed.

Lemma require_regular_archive_tree_Ok repo w w' :
  require_regular_archive_tree repo w = (w', Ok tt) <-> no_symlinks repo w w'.
Proof.
  unfold require_regular_archive_tree, no_symlinks. split.
  - intros E. inv_release. apply git_output_Ok in Hm. eexists. split; [done|].
    rewrite existsb_false, Forall_forall in Hf. intros e He Hs%startswith_spec. specialize (Hf e He). unfold symlink_entry in Hf. congruence.
  - intros (l & E%git_output_Ok & Hl). run_release. apply existsb_false, Forall_forall. intros e He. apply not_true_is_false.
    intros Hs%startswith_spec. by apply (Hl e).
Qed.

Lemma default_search (o : option str) v : v <> [] -> default [] o = v <-> o = Some v.
Proof. destruct o; cbn; naive_solver. Qed.

Lemma release_identity_Ok (a : Arguments) v i w w' :
  v <> [] -> tag a = RELEASE_PREFIX ++ v ->
  release_identity (repository a) (tag a) w = (w', Ok i) <-> identified a i w w'.
Proof.
  intros Hv Ht. unfold release_identity, identified. rewrite Ht.
  assert (Hr : removeprefix (RELEASE_PREFIX ++ v) RELEASE_PREFIX = v).
  { unfold removeprefix. by rewrite startswith_app, drop_app_length. }
  rewrite Hr. split.
  - intros E. inv_release. apply negb_false_iff, bool_decide_eq_true in Hf1. apply negb_false_iff in Hf0.
    apply negb_false_iff, Z.eqb_eq in Hf. unfold versions_match in Hf0.
    rewrite !andb_true_iff, !bool_decide_eq_true, !default_search in Hf0 by done. destruct Hf0 as [[? ?] ?].
    split; [|split; [by eexists _, _, _|split; [done|split; [by apply git_output_Ok|unfold len in Hf; cbn; lia]]]].
    apply Forall_forall. intros f Hin. destruct (is_file (in_repository (repository a) f) w) eqn:E; [done|].
    exfalso. apply (not_elem_of_nil f). rewrite <- Hf1. apply elem_of_filter_bool. by rewrite E.
  - intros (Hfiles & (m & p & c & H1 & H2 & H3 & Hm & Hp & Hc) & ->%app_inv_head & E%git_output_Ok & Hl). run_release.
    + apply negb_false_iff, bool_decide_eq_true, filter_none. eapply Forall_impl; [exact Hfiles|]. by intros f ->.
    + unfold versions_match. by rewrite Hm, Hp, Hc, !bool_decide_true.
    + apply negb_false_iff, Z.eqb_eq. unfold len. lia.
    + by destruct i.
Qed.

Lemma archive_release_Ok a i archive digest w w' :
  archive_release a i w = (w', Ok (archive, digest)) <->
  exists body, archived a i body w w' /\ archive = archive_of a i /\ digest = hexdigest body.
Proof.
  unfold archive_release, archived. split.
  - intros E. inv_release. apply negb_false_iff, Z.eqb_eq in Hf0 as ->. eexists. split; [|done].
    eexists _, _. repeat split; [done..| |done]. apply existsb_false in Hf.
    eapply Forall_impl; [exact Hf|]. by intros m ?%orb_false_iff.
  - intros (body & (w1 & contents & E1 & E2 & H1 & H2 & H3) & -> & ->). run_release.
    apply existsb_false. eapply Forall_impl; [exact H2|]. by intros m [-> ->].
Qed.

(** ** Refusals *)

Create HintDb loud.

(** [fail] never ends the script with the status of success. *)
Definition refuses_loudly {A} (m : Release W A) : Prop := forall w w' message status, m w = (w', Err (Exit message status)) -> status <> 0.

Lemma loud_bind {A B} (m : Release W A) (k : A -> Release W B) :
  refuses_loudly m -> (forall a, refuses_loudly (k a)) -> refuses_loudly (m ≫= k).
Proof.
  intros Hm Hk w w' message status E. unfold mbind, Release_bind in E. destruct (m w) as [w1 [a|e]] eqn:E1.
  - by eapply Hk.
  - injection E as <- ->. by eapply Hm.
Qed.

Lemma loud_act {A} (f : W -> W * res A) : refuses_loudly (act f).
Proof. intros w w' m s. unfold act, raising. destruct (f w) as [? []]; congruence. Qed.
Lemma loud_look {A} (f : W -> res A) : refuses_loudly (look f).
Proof. intros w w' m s. unfold look, raising. destruct (f w); congruence. Qed.
Lemma loud_ask {A} (f : W -> A) : refuses_loudly (ask f).
Proof. by intros w w' m s [=]. Qed.
Lemma loud_ret {A} (a : A) : refuses_loudly (mret a : Release W A).
Proof. by intros w w' m s [=]. Qed.
Lemma loud_fail_if b m s : (b = true -> s <> 0) -> refuses_loudly (refuse_if b m s : Release W unit).
Proof. intros Hs w w' m' s'. destruct b; [|by intros [=]]. intros [= _ _ <-]. auto. Qed.
Lemma loud_fail_with {A} m s : s <> 0 -> refuses_loudly (fail_with m s : Release W A).
Proof. intros Hs w w' m' s' [= _ _ <-]. done. Qed.

Lemma nonzero z : negb (z =? 0) = true -> z <> 0.
Proof. by intros H0%negb_true_iff%Z.eqb_neq. Qed.

#[local] Hint Resolve loud_act loud_look loud_ask loud_ret loud_fail_if loud_fail_with nonzero : loud.
Ltac loud :=
  repeat match goal with
  | |- refuses_loudly (_ ≫= _) => apply loud_bind; [|intros ?]
  | |- refuses_loudly (match ?x with _ => _ end) => destruct x
  end; auto with loud.

Lemma loud_git_output repo arguments : refuses_loudly (git_output repo arguments).
Proof. unfold git_output. loud. Qed.
#[local] Hint Resolve loud_git_output : loud.

Lemma main_loud arguments : refuses_loudly (main arguments).
Proof.
  unfold main, parse_arguments, require_clean_tree, require_regular_archive_tree, release_identity, run_local_gates,
    archive_release, write_manifest. cbv zeta. loud.
Qed.

(** A run of [main] that ends is the sequence of its steps. *)
Lemma main_Ok arguments w w' status line :
  main arguments w = (w', Ok (status, line)) <->
  exists a i body w0 w1 w2 w3 w4 w5,
    arguments_of arguments a w w0 /\ clean_tree (repository a) w0 w1 /\ no_symlinks (repository a) w1 w2
    /\ identified a i w2 w3 /\ make_validate (repository a) w3 = (w4, Ok 0) /\ archived a i body w4 w5
    /\ write_text (manifest_of a i) (manifest_text a i (hexdigest body)) w5 = (w', Ok tt)
    /\ status = 0
    /\ line = lit "PASS(release-readiness): " ++ commit i ++ lit " " ++ hexdigest body ++ lit " "
              ++ text_of (archive_of a i) ++ lit " " ++ text_of (manifest_of a i).
Proof.
  split.
  - unfold main, run_local_gates, write_manifest. intros E. inv_release. match goal with x : _ * _ |- _ => destruct x as [archive digest] end. inv_release.
    apply parse_arguments_Ok in Hm. pose proof Hm as (r & o & w0' & _ & _ & _ & _ & v & Hv & Ht).
    apply negb_false_iff, Z.eqb_eq in Hf as ->. apply require_clean_tree_Ok in Hm0. apply require_regular_archive_tree_Ok in Hm1.
    eapply release_identity_Ok in Hm2; [|done..]. apply archive_release_Ok in Hm4 as (body & Hb & -> & ->).
    by eexists _, _, body, _, _, _, _, _, _.
  - intros (a & i & body & w0 & w1 & w2 & w3 & w4 & w5 & Ha & Hc & Hn & Hi & Hg & Hb & Hw & -> & ->).
    pose proof Ha as (r & o & w0' & _ & _ & _ & _ & v & Hv & Ht).
    apply parse_arguments_Ok in Ha. apply require_clean_tree_Ok in Hc. apply require_regular_archive_tree_Ok in Hn.
    apply (release_identity_Ok a v) in Hi; [|done..].
    assert (Hr : archive_release a i w4 = (w5, Ok (archive_of a i, hexdigest body))) by (apply archive_release_Ok; eauto).
    assert (Hm : write_manifest a i (hexdigest body) w5 = (w', Ok (manifest_of a i))) by (unfold write_manifest; by run_release).
    assert (Hv' : run_local_gates (repository a) w3 = (w4, Ok tt)) by (unfold run_local_gates; by run_release).
    unfold main. by run_release.
Qed.
(** C37. A release is prepared - the script ends with 0 and prints the commit, the digest and
    the paths - exactly when the arguments are of the form of the usage, the work tree is
    clean, no symbolic link is tracked, manifest, project file and changelog carry the version
    of the tag, HEAD is a full commit, [make validate] ends with 0, and the archive of that
    commit was written without links; then the manifest of the release was written with the
    SHA-256 digest of what the archive holds. Every refusal ends with a status other than 0. *)
Theorem release_prepared arguments w w' :
  (forall status line, main arguments w = (w', Ok (status, line)) <->
   exists a i body w0 w1 w2 w3 w4 w5,
     arguments_of arguments a w w0 /\ clean_tree (repository a) w0 w1 /\ no_symlinks (repository a) w1 w2
     /\ identified a i w2 w3 /\ make_validate (repository a) w3 = (w4, Ok 0) /\ archived a i body w4 w5
     /\ write_text (manifest_of a i) (manifest_text a i (hexdigest body)) w5 = (w', Ok tt)
     /\ status = 0
     /\ line = lit "PASS(release-readiness): " ++ commit i ++ lit " " ++ hexdigest body ++ lit " "
               ++ text_of (archive_of a i) ++ lit " " ++ text_of (manifest_of a i))
  /\ forall message status, main arguments w = (w', Err (Exit message status)) -> status <> 0.
Proof. split; [intros; apply main_Ok | by intros; eapply main_loud]. Qed.
End Steps.

(** ** The manifest is read back *)

Lemma hex_char_digit n : (n < 16)%N -> JsonText.hex_digit (hex_char n) = Some n.
Proof.
  intros Hn. assert (Ha : forallb (fun k => bool_decide (JsonText.hex_digit (hex_char k) = Some k)) (N.of_nat <$> seq 0 16) = true)
    by (vm_compute; reflexivity).
  rewrite forallb_forall in Ha. apply (bool_decide_eq_true_1 _), Ha, list_elem_of_In, list_elem_of_fmap.
  exists (N.to_nat n). rewrite N2Nat.id, elem_of_seq. lia.
Qed.

Lemma hex4_digits n :
  (n < 65536)%N ->
  hex4 (hex_char (n / 4096)) (hex_char (n / 256 mod 16)) (hex_char (n / 16 mod 16)) (hex_char (n mod 16)) = Some n.
Proof.
  intros Hn. unfold hex4. rewrite !hex_char_digit by (try (by apply N.mod_lt); apply N.Div0.div_lt_upper_bound; lia).
  f_equal. pose proof (N.div_mod n 16 ltac:(done)). pose proof (N.div_mod (n / 16) 16 ltac:(done)).
  pose proof (N.div_mod (n / 256) 16 ltac:(done)).
  replace (n / 256)%N with (n / 16 / 16)%N in * by (by rewrite N.Div0.div_div).
  replace (n / 4096)%N with (n / 16 / 16 / 16)%N by (by rewrite !N.Div0.div_div). lia.
Qed.

Lemma u_escape_text n t :
  u_escape n ++ t = 92%N :: 117%N :: hex_char (n / 4096) :: hex_char (n / 256 mod 16) :: hex_char (n / 16 mod 16) :: hex_char (n mod 16) :: t.
Proof. done. Qed.

Lemma scan_surrogates a b c d e f g h high low t :
  hex4 a b c d = Some high -> is_high high = true -> hex4 e f g h = Some low -> is_low low = true ->
  scan_string (92 :: 117 :: a :: b :: c :: d :: 92 :: 117 :: e :: f :: g :: h :: t)%N
  = ('(s, rest) ← scan_string t; Ok (join_surrogates high low :: s, rest)).
Proof. intros H1 H2 H3 H4. cbn -[hex4 is_high is_low join_surrogates]. by rewrite H1, H2, H3, H4. Qed.

Lemma scan_ascii_char c t :
  unicode c -> is_surrogate c = false ->
  scan_string (ascii_char c ++ t) = ('(s, rest) ← scan_string t; Ok (c :: s, rest)).
Proof.
  intros Hc Hs. unfold unicode in Hc. unfold ascii_char. destruct (N.ltb_spec c 127); [apply scan_escape|].
  destruct (N.ltb_spec c 0x10000).
  - rewrite u_escape_text. apply scan_unicode; [by apply hex4_digits|].
    unfold is_surrogate, is_high in *. lia.
  - rewrite <- app_assoc, !u_escape_text.
    assert (Hd : ((c - 0x10000) / 1024 < 1024)%N) by (apply N.Div0.div_lt_upper_bound; lia).
    pose proof (N.mod_lt (c - 0x10000) 1024 ltac:(done)) as Hm. pose proof (N.div_mod (c - 0x10000) 1024 ltac:(done)) as He.
    revert Hd Hm He. generalize ((c - 0x10000) / 1024)%N ((c - 0x10000) mod 1024)%N. intros q m Hd Hm He.
    rewrite (scan_surrogates _ _ _ _ _ _ _ _ (0xD800 + q) (0xDC00 + m));
      [|apply hex4_digits; lia|unfold is_high; lia|apply hex4_digits; lia|unfold is_low; lia].
    replace (join_surrogates (0xD800 + q) (0xDC00 + m)) with c; [done|]. unfold join_surrogates. lia.
Qed.

Lemma scan_ascii_quote s r : encodable s -> scan_string ((s ≫= ascii_char) ++ 34%N :: r) = Ok (s, r).
Proof. induction 1 as [|c s [Hc Hs] _ IH]; [done|]. csimpl. by rewrite <- app_assoc, scan_ascii_char, IH. Qed.

Lemma reads_ascii_quote stack s :
  encodable s ->
  reads (scan_with (fun pairs => Ok (dict_of pairs)) (fun name => Ok (JFloat name)) stack) (ascii_quote s) (JStr s).
Proof.
  intros Hs r _. unfold ascii_quote. cbn [app]. rewrite <- app_assoc. cbn [app].
  destruct stack; cbn [scan_with N.eqb Pos.eqb]; by rewrite scan_ascii_quote.
Qed.

Lemma ascii_encodable t : Forall (fun c => c < 127)%N t -> encodable t.
Proof. intros Ht. eapply Forall_impl; [exact Ht|]. intros c Hc. cbv beta in Hc. unfold unicode, is_surrogate. lia. Qed.

Lemma hexdigest_encodable m : encodable (hexdigest m).
Proof.
  apply ascii_encodable, Forall_forall. intros c Hc%list_elem_of_In.
  pose proof (CacheMetadata.hexdigest_valid m) as [_ Hv]%andb_true_iff. rewrite forallb_forall in Hv.
  specialize (Hv c Hc). apply existsb_exists in Hv as (x & Hx & ->%N.eqb_eq). clear Hc. revert x Hx. apply List.Forall_forall.
  vm_compute. repeat constructor.
Qed.

(** The members of the manifest, in the order of their keys. *)
Definition members_of (archive digest commit tag version : str) : dict :=
  [(lit "archive", JStr archive); (lit "archiveSha256", JStr digest); (lit "commit", JStr commit);
   (lit "tag", JStr tag); (lit "version", JStr version)].

Lemma manifest_read stack a i digest :
  encodable (tag a) -> encodable (version i) -> encodable (commit i) -> encodable digest ->
  plain_loads (S stack) (manifest_text a i digest)
  = Ok (JObj (members_of (lit "opatchy-" ++ version i ++ lit ".tar") digest (commit i) (tag a) (version i))).
Proof.
  intros Ht Hv Hc Hdg. unfold manifest_text, dumps_texts.
  set (kvs := metadata a i digest). set (value_ := members_of _ _ _ _ _).
  assert (Hk : Forall (fun kv => encodable kv.2) kvs).
  { unfold kvs, metadata. rewrite !Forall_cons. cbn [snd]. split_and!; [|done..|constructor].
    apply Forall_app; split; [|apply Forall_app; split; [done|]]; apply ascii_encodable; vm_compute; repeat constructor. }
  replace (sorted_by_key fst kvs) with kvs by reflexivity.
  replace ((fun kv => ascii_quote kv.1 ++ lit ":" ++ ascii_quote kv.2) <$> kvs)
    with (pair_text <$> ((fun kv => (kv.1, ascii_quote kv.2)) <$> kvs)) by reflexivity.
  set (value := scan_with (fun pairs => Ok (dict_of pairs)) (fun name => Ok (JFloat name)) stack).
  assert (Hp : forall fuel r, (5 <= fuel)%nat ->
    scan_pairs value fuel (join (lit ",") (pair_text <$> ((fun kv => (kv.1, ascii_quote kv.2)) <$> kvs)) ++ 125%N :: r)
    = Ok (value_, r)).
  { intros fuel r Hf. rewrite (scan_pairs_join value _ ((fun kv => JStr kv.2) <$> kvs)); [done|..| |done]; [|..|done].
    - clearbody kvs. clear Hf. induction Hk as [|kv kvs Hkv Hk IH]; constructor; [by apply reads_ascii_quote|done].
    - apply Forall_fmap, Forall_forall. intros kv _. by eexists _, _. }
  assert (Hd : dict_of value_ = value_) by reflexivity.
  set (members := join (lit ",") _) in *.
  assert (exists s, members = 34%N :: s) as [s Es] by (by eexists).
  assert (Hl : (5 <= length members)%nat) 
    by (etransitivity; [|apply join_length]; [reflexivity|repeat constructor; by eexists _, _]).
  clearbody members. unfold plain_loads. rewrite <- !app_assoc.
  change (lit "{" ++ ?x) with (123%N :: x). change (lit "}" ++ newline) with (125%N :: newline).
  rewrite skip_ws_id by done. cbn -[scan_pairs dict_of value_]. fold value. rewrite Es. cbn [app]. rewrite skip_ws_id by done.
  cbn [after N.eqb Pos.eqb]. change (34%N :: s ++ 125%N :: newline) with ((34%N :: s) ++ 125%N :: newline). rewrite <- Es, Hp.
  - cbn [mbind outcome_bind]. by rewrite Hd.
  - rewrite length_app. lia.
Qed.

Lemma contains_Forall (P : N -> Prop) s p : contains s p = true -> Forall P s -> Forall P p.
Proof.
  induction s as [|c s IH]; cbn [contains]; intros H Hs.
  - destruct p; [constructor | done].
  - apply orb_true_iff in H as [(r & E)%startswith_spec|H]; [|apply IH; [done | by inversion Hs]].
    rewrite E in Hs. by apply Forall_app in Hs as [? _].
Qed.

Lemma changelog_version v text : contains text (changelog_heading v) = true -> encodable text -> encodable v.
Proof.
  intros H He. pose proof (contains_Forall _ _ _ H He) as Hc. unfold changelog_heading in Hc.
  rewrite !Forall_app in Hc. apply Hc.
Qed.

Lemma strip_Forall (P : N -> Prop) s : Forall P s -> Forall P (strip s).
Proof.
  assert (forall t, Forall P t -> Forall P (lstrip t)) as Hl.
  { intros t Ht. induction Ht as [|c t Hc Ht IH]; simpl; [constructor|]. destruct (is_space c); [done | by constructor]. }
  intros Hs. unfold strip. by apply Forall_reverse, Hl, Forall_reverse, Hl.
Qed.

Section Manifest.
Context {W : Type} `{Machine W}.

End Manifest.

(** ** A run *)

Definition sample_identity : ReleaseIdentity :=
  {| version := lit "1.2.0"; commit := repeat 97%N 40 |}.
Definition sample_arguments : Arguments :=
  {| repository := lit "/src"; tag := lit "v1.2.0"; output_directory := lit "/out" |}.

(** A repository whose files have the version [v]; the world is what was written. *)
Definition sample_files (v : str) (b : Below) : res str :=
  if bool_decide (name b = lit "manifest.json") then Ok (lit "{" ++ newline ++ dquote ++ lit "version" ++ dquote ++ lit ": " ++ dquote ++ v ++ dquote ++ lit "}")
  else if bool_decide (name b = lit "pyproject.toml") then Ok (lit "[project]" ++ newline ++ lit "version = " ++ dquote ++ v ++ dquote)
  else Ok (lit "# Changes" ++ newline ++ lit "## [1.2.0] - 2026").

Definition sample_git (arguments : list str) : str :=
  if bool_decide (head arguments = Some (lit "rev-parse")) then repeat 97%N 40 ++ newline
  else if bool_decide (last arguments = Some (lit "--exclude-standard")) then lit ".omo/notes" ++ newline
  else lit "100644 0 README.md" ++ newline.

Definition sample_machine (v : str) : Machine (option (str * str)) := {|
  resolve p w := (w, Ok p);
  is_dir _ _ := true;
  is_file _ _ := true;
  read_text b _ := sample_files v b;
  captured arguments _ w := (w, Ok {| tr_returncode := 0; tr_stdout := sample_git (drop 1 arguments); tr_stderr := [] |});
  called _ _ w := (w, Ok 0);
  called_to _ _ _ w := (w, Ok 0);
  mkdir _ w := (w, Ok tt);
  getmembers _ _ := Ok [{| issym := false; islnk := false |}];
  read_bytes _ _ := Ok (lit "archive");
  write_text b text w := (Some (name b, text), Ok tt);
  text_of b := directory b ++ lit "/" ++ name b |}.

Definition sample_command : list str :=
  [lit "--repository"; lit "/src"; lit "--tag"; lit "v1.2.0"; lit "--dry-run"; lit "--output-directory"; lit "/out"].

Definition written (run : option (str * str) * outcome stop (Z * str)) : option str * option Z :=
  (fst <$> run.1, match run.2 with Ok (s, _) => Some s | Err (Exit _ s) => Some s | Err _ => None end).

Example sample_release :
  written (@main _ (sample_machine (lit "1.2.0")) sample_command None) = (Some (lit "opatchy-1.2.0.release.json"), Some 0)
  /\ written (@main _ (sample_machine (lit "1.2.1")) sample_command None) = (None, Some 1).
Proof. split; vm_compute; reflexivity. Qed.

Lemma sample_texts b text : sample_files (lit "1.2.0") b = Ok text -> encodable text.
Proof.
  unfold sample_files. repeat case_bool_decide; intros [= <-]; apply ascii_encodable; vm_compute; repeat constructor.
Qed.

Lemma sample_git_texts arguments : encodable (sample_git arguments).
Proof. unfold sample_git. repeat case_bool_decide; apply ascii_encodable; vm_compute; repeat constructor. Qed.

